(** * A shallow embedding of the buffered B-tree node engine (newbrt/brt.c)

    The development follows the C source function by function.  Machine
    integers are mathematical integers with their wrap-around written
    out, array-like structures (OMT, FIFO, partition tables) are lists,
    assertions are failures of an error monad, and the collaborators that
    live in other translation units (serializer, leaf-entry codec,
    comparator, ...) are fields of a type class. *)

From Stdlib Require Import ZArith String List Bool Lia.
From stdpp Require Import prelude.
Import ListNotations.

Local Open Scope string_scope.
Local Open Scope list_scope.
Local Open Scope Z_scope.

(** ** Machine integers *)

Module Word.

(** [unsigned int], [u_int32_t]. *)
Definition u32 (z : Z) : Z := z mod 2 ^ 32.

(** [u_int64_t], [TXNID], the payload of an [MSN]. *)
Definition u64 (z : Z) : Z := z mod 2 ^ 64.

(** [int]: conversion of an out-of-range value wraps (two's complement). *)
Definition i32 (z : Z) : Z := (z + 2 ^ 31) mod 2 ^ 32 - 2 ^ 31.

Definition in_u32 (z : Z) : Prop := 0 <= z < 2 ^ 32.
Definition in_u64 (z : Z) : Prop := 0 <= z < 2 ^ 64.

End Word.
Import Word.

(** ** Failures

    [assert], [invariant] and [abort] stop the process; a run that reaches
    one has no result.  The two MSN invariants get tags of their own. *)

Inductive fault : Type :=
| Invariant_nonleaf_msn   (* brt_nonleaf_put_cmd: cmd_msn > node->max_msn_applied_to_node_in_memory *)
| Invariant_root_msn      (* toku_brt_root_put_cmd: cmd->msn == node->max_msn_applied_to_node_in_memory *)
| Assert_failed (fn : string)
| Out_of_fuel.

Inductive result (A : Type) : Type :=
| Ok (a : A)
| Abort (f : fault).
Arguments Ok {A} a.
Arguments Abort {A} f.

Definition bind {A B} (m : result A) (k : A -> result B) : result B :=
  match m with
  | Ok a => k a
  | Abort f => Abort f
  end.

Definition ensure (b : bool) (fn : string) : result unit :=
  if b then Ok tt else Abort (Assert_failed fn).

Definition guard_fault (b : bool) (f : fault) : result unit :=
  if b then Ok tt else Abort f.

Definition is_Some_bool {A} (o : option A) : bool :=
  match o with
  | Some _ => true
  | None => false
  end.

Definition from_option {A} (o : option A) (fn : string) : result A :=
  match o with
  | Some a => Ok a
  | None => Abort (Assert_failed fn)
  end.

Declare Scope brt_scope.
Delimit Scope brt_scope with brt.
Notation "'do' x <- m ; k" := (bind m (fun x => k))
  (at level 10, x pattern, m at level 100, k at level 200,
   format "'[v' 'do'  x  <-  m ; '/' k ']'") : brt_scope.
Notation "'check' b 'in' fn ; k" := (bind (ensure b fn) (fun _ => k))
  (at level 10, b at level 100, fn at level 0, k at level 200,
   format "'[v' 'check'  b  'in'  fn ; '/' k ']'") : brt_scope.
Local Open Scope brt_scope.

(** ** Messages *)

Abbreviation DBT := string (only parsing).
Definition dbt_size (d : DBT) : Z := Z.of_nat (String.length d).

(** The data read as a [uint32_t]: its first bytes, least significant
    first. *)
Fixpoint dbt_first_word (d : DBT) (n : nat) : Z :=
  match n, d with
  | S n', String c d' => Z.of_N (Ascii.N_of_ascii c) + 256 * dbt_first_word d' n'
  | _, _ => 0
  end.

Abbreviation TXNID := Z (only parsing).
Abbreviation XIDS := (list Z) (only parsing).

Inductive brt_msg_type : Type :=
| BRT_NONE
| BRT_INSERT
| BRT_DELETE_ANY
| BRT_ABORT_ANY
| BRT_COMMIT_ANY
| BRT_COMMIT_BROADCAST_ALL
| BRT_COMMIT_BROADCAST_TXN
| BRT_ABORT_BROADCAST_TXN
| BRT_INSERT_NO_OVERWRITE
| BRT_OPTIMIZE
| BRT_OPTIMIZE_FOR_UPGRADE
| BRT_UPDATE
| BRT_UPDATE_BROADCAST_ALL.

(** [BRT_MSG_S]: type, msn, xids and the key/value pair [u.id]. *)
Record BRT_MSG : Type := {
  cmd_type : brt_msg_type;
  cmd_msn : Z;
  cmd_xids : XIDS;
  cmd_key : DBT;
  cmd_val : DBT
}.

Definition set_msn (cmd : BRT_MSG) (msn : Z) : BRT_MSG :=
  {| cmd_type := cmd_type cmd; cmd_msn := msn; cmd_xids := cmd_xids cmd;
     cmd_key := cmd_key cmd; cmd_val := cmd_val cmd |}.

Definition brt_msg_applies_once (cmd : BRT_MSG) : bool :=
  match cmd_type cmd with
  | BRT_INSERT_NO_OVERWRITE | BRT_INSERT | BRT_DELETE_ANY
  | BRT_ABORT_ANY | BRT_COMMIT_ANY | BRT_UPDATE => true
  | BRT_COMMIT_BROADCAST_ALL | BRT_COMMIT_BROADCAST_TXN
  | BRT_ABORT_BROADCAST_TXN | BRT_OPTIMIZE | BRT_OPTIMIZE_FOR_UPGRADE
  | BRT_UPDATE_BROADCAST_ALL | BRT_NONE => false
  end.

Definition brt_msg_applies_all (cmd : BRT_MSG) : bool :=
  match cmd_type cmd with
  | BRT_NONE | BRT_INSERT_NO_OVERWRITE | BRT_INSERT | BRT_DELETE_ANY
  | BRT_ABORT_ANY | BRT_COMMIT_ANY | BRT_UPDATE => false
  | BRT_COMMIT_BROADCAST_ALL | BRT_COMMIT_BROADCAST_TXN
  | BRT_ABORT_BROADCAST_TXN | BRT_OPTIMIZE | BRT_OPTIMIZE_FOR_UPGRADE
  | BRT_UPDATE_BROADCAST_ALL => true
  end.

Definition brt_msg_does_nothing (cmd : BRT_MSG) : bool :=
  match cmd_type cmd with
  | BRT_NONE => true
  | _ => false
  end.

Definition msg_type_has_key (m : brt_msg_type) : bool :=
  match m with
  | BRT_NONE | BRT_COMMIT_BROADCAST_ALL | BRT_COMMIT_BROADCAST_TXN
  | BRT_ABORT_BROADCAST_TXN | BRT_OPTIMIZE | BRT_OPTIMIZE_FOR_UPGRADE
  | BRT_UPDATE_BROADCAST_ALL => false
  | BRT_INSERT | BRT_DELETE_ANY | BRT_ABORT_ANY | BRT_COMMIT_ANY
  | BRT_INSERT_NO_OVERWRITE | BRT_UPDATE => true
  end.

(** ** Leaf entries

    The leaf-entry codec (ule.c, leafentry.h) is a separate translation
    unit.  The engine only uses its accessors. *)

(** Modelled from the spec: the leaf entry of ule.c, which is not part of
    the engine source.  "LeafEntry: key, a committed value (possibly a
    tombstone), and a stack of uncommitted versions one per active xid".
    The stack is kept newest first and ends with the committed version;
    [None] is a tombstone. *)
Record le_version : Type := {
  ver_xid : TXNID;
  ver_val : option DBT
}.

Record LEAFENTRY : Type := {
  le_key : DBT;
  le_stack : list le_version
}.

Definition le_keylen (le : LEAFENTRY) : Z := dbt_size (le_key le).

Definition ver_is_del (v : le_version) : bool :=
  match ver_val v with
  | None => true
  | Some _ => false
  end.

Definition ver_vallen (v : le_version) : Z :=
  match ver_val v with
  | None => 0
  | Some d => dbt_size d
  end.

(** Modelled from the spec: [le_latest_is_del], [le_latest_vallen] and
    [le_latest_val_and_len] of leafentry.h read the newest version. *)
Definition le_latest_is_del (le : LEAFENTRY) : bool :=
  match le_stack le with
  | v :: _ => ver_is_del v
  | [] => true
  end.

Definition le_latest_vallen (le : LEAFENTRY) : Z :=
  match le_stack le with
  | v :: _ => ver_vallen v
  | [] => 0
  end.

Definition le_latest_val (le : LEAFENTRY) : option DBT :=
  match le_stack le with
  | v :: _ => ver_val v
  | [] => None
  end.

(** Modelled from the spec: "clean = single committed version, no
    provisional stack" ([le_is_clean] of leafentry.h). *)
Definition le_is_clean (le : LEAFENTRY) : bool :=
  match le_stack le with
  | [_] => true
  | _ => false
  end.

(** Modelled from the spec: [le_iterate_is_del] and [le_iterate_val] of
    ule.c, "iterate the entry's version stack using the predicate; the
    first visible version wins".  The callback answers [TOKUDB_ACCEPT] or
    0; the spec does not say what is read when no version is accepted, so
    the model has no answer there. *)
Definition le_iterate_accepted {C} (le : LEAFENTRY)
    (f : TXNID -> C -> bool) (context : C) : option le_version :=
  find (fun v => f (ver_xid v) context) (le_stack le).

Definition le_iterate_is_del {C} (le : LEAFENTRY)
    (f : TXNID -> C -> bool) (context : C) : option bool :=
  ver_is_del <$> le_iterate_accepted le f context.

Definition le_iterate_val {C} (le : LEAFENTRY)
    (f : TXNID -> C -> bool) (context : C) : option (option DBT) :=
  ver_val <$> le_iterate_accepted le f context.

(** ** Nodes *)

Record subtree_estimates : Type := {
  nkeys : Z;      (* u_int64_t *)
  ndata : Z;      (* u_int64_t *)
  dsize : Z;      (* u_int64_t *)
  exact : bool
}.

Definition zero_estimates : subtree_estimates :=
  {| nkeys := 0; ndata := 0; dsize := 0; exact := true |}.

(** [struct brtnode_leaf_basement_node]. *)
Record BASEMENTNODE : Type := {
  optimized_for_upgrade : Z;        (* uint32_t *)
  soft_copy_is_up_to_date : bool;
  bn_buffer : list LEAFENTRY;       (* OMT *)
  bn_n_bytes_in_buffer : Z;         (* unsigned int *)
  seqinsert : Z                     (* unsigned int *)
}.

(** One entry of a FIFO. *)
Record fifo_entry : Type := {
  fe_key : DBT;
  fe_val : DBT;
  fe_type : brt_msg_type;
  fe_msn : Z;
  fe_xids : XIDS
}.

Abbreviation FIFO := (list fifo_entry) (only parsing).

(** [struct brtnode_nonleaf_childinfo]. *)
Record NONLEAF_CHILDINFO : Type := {
  bnc_buffer : FIFO;
  bnc_n_bytes_in_buffer : Z         (* unsigned int *)
}.

Inductive pt_state : Type := PT_INVALID | PT_ON_DISK | PT_COMPRESSED | PT_AVAIL.

Global Instance pt_state_eq_dec : EqDecision pt_state.
Proof. solve_decision. Defined.

(** What [bp[i].ptr] points to. *)
Inductive bp_ptr : Type :=
| ptr_null
| ptr_basement (bn : BASEMENTNODE)
| ptr_childinfo (ci : NONLEAF_CHILDINFO)
| ptr_sub_block (compressed_size : Z).

(** [struct brtnode_partition]. *)
Record brtnode_partition : Type := {
  bp_blocknum : Z;
  bp_have_fullhash : bool;
  bp_fullhash : Z;
  bp_state : pt_state;
  bp_subtree_est : subtree_estimates;
  bp_ptr_of : bp_ptr
}.

(** [struct brtnode].  [n_children] is the length of [bp]; [childkeys]
    holds the pivot keys. *)
Record BRTNODE : Type := {
  max_msn_applied_to_node_in_memory : Z;   (* MSN *)
  max_msn_applied_to_node_on_disk : Z;     (* MSN *)
  nodesize : Z;                            (* unsigned int *)
  flags : Z;
  thisnodename : Z;                        (* BLOCKNUM *)
  layout_version : Z;
  height : Z;                              (* int *)
  dirty : bool;                            (* int, 0 or 1 *)
  fullhash : Z;
  totalchildkeylens : Z;                   (* unsigned int *)
  childkeys : list DBT;
  bp : list brtnode_partition
}.

Definition n_children (node : BRTNODE) : Z := Z.of_nat (length (bp node)).

Definition MIN_MSN : Z := 0.

(** ** Transactions *)

(** The part of [struct tokutxn] that the engine reads. *)
Record TOKUTXN : Type := {
  ancestor_txnid64 : TXNID;
  snapshot_txnid64 : TXNID;
  live_root_txn_list : list TXNID
}.

(** ** Collaborators

    Functions, callbacks and constants that brt.c uses and that are
    defined elsewhere: the user's comparator and update function, the
    serializer, the leaf-entry codec, the OMT searches, the transaction
    manager and the size constants of brt-internal.h. *)

Class Collaborators : Type := {
  (* t->compare_fun *)
  compare_fun : DBT -> DBT -> Z;
  (* t->update_fun: key, old value, extra; answers whether set_val was
     called (and with which value, None for NULL) and the return code *)
  update_fun : DBT -> option DBT -> DBT -> option (option DBT) * Z;
  (* brt-serialize.c *)
  toku_serialize_brtnode_size : BRTNODE -> Z;
  toku_setup_empty_bn : BASEMENTNODE;
  toku_brt_pivot_key_len : DBT -> Z;
  (* brt-internal.h *)
  subtract_estimates : subtree_estimates -> subtree_estimates -> subtree_estimates;
  add_estimates : subtree_estimates -> subtree_estimates -> subtree_estimates;
  toku_deserialize_bp_from_compressed : BRTNODE -> Z -> BRTNODE;
  toku_deserialize_bp_from_disk : BRTNODE -> Z -> BRTNODE;
  (* cachetable.c *)
  toku_cachetable_hash : Z -> Z;
  (* ule.c *)
  leafentry_disksize : LEAFENTRY -> Z;
  apply_msg_to_leafentry : BRT_MSG -> option LEAFENTRY -> Z * option LEAFENTRY;
  le_has_xids : LEAFENTRY -> XIDS -> bool;
  (* xids.c *)
  xids_get_serialize_size : XIDS -> Z;
  (* omt.c: found?, index *)
  toku_omt_find_zero : list LEAFENTRY -> (LEAFENTRY -> Z) -> bool * Z;
  (* txn.c *)
  toku_get_oldest_in_live_root_txn_list : TOKUTXN -> TXNID;
  toku_is_txn_in_live_root_txn_list : TOKUTXN -> TXNID -> bool;
  (* brt-internal.h *)
  KEY_VALUE_OVERHEAD : Z;
  BRT_CMD_OVERHEAD : Z;
  OMT_ITEM_OVERHEAD : Z;
  TREE_FANOUT : Z
}.

(** ** Partition accessors (the BP_, BLB_ and BNC_ macros) *)

Definition BP (node : BRTNODE) (i : Z) : option brtnode_partition :=
  if i <? 0 then None else bp node !! Z.to_nat i.

Definition BP_STATE (node : BRTNODE) (i : Z) : option pt_state :=
  bp_state <$> BP node i.

Definition BLB (node : BRTNODE) (i : Z) : option BASEMENTNODE :=
  p ← BP node i;
  match bp_ptr_of p with
  | ptr_basement bn => Some bn
  | _ => None
  end.

Definition BNC (node : BRTNODE) (i : Z) : option NONLEAF_CHILDINFO :=
  p ← BP node i;
  match bp_ptr_of p with
  | ptr_childinfo ci => Some ci
  | _ => None
  end.

Definition BLB_SEQINSERT (node : BRTNODE) (i : Z) : option Z :=
  seqinsert <$> BLB node i.

Definition BNC_NBYTESINBUF (node : BRTNODE) (i : Z) : option Z :=
  bnc_n_bytes_in_buffer <$> BNC node i.

Definition BNC_BUFFER (node : BRTNODE) (i : Z) : option FIFO :=
  bnc_buffer <$> BNC node i.

Definition toku_omt_size (omt : list LEAFENTRY) : Z :=
  u32 (Z.of_nat (length omt)).

(** ** Reactivity *)

Inductive reactivity : Type := RE_STABLE | RE_FUSIBLE | RE_FISSIBLE.

Definition partition_avail (p : brtnode_partition) : bool :=
  bool_decide (bp_state p = PT_AVAIL).

Definition is_basement_partition (p : brtnode_partition) : bool :=
  match bp_ptr_of p with
  | ptr_basement _ => true
  | _ => false
  end.

Definition toku_assert_entire_node_in_memory (node : BRTNODE) : result unit :=
  ensure (forallb partition_avail (bp node)) "toku_assert_entire_node_in_memory".

(** The loop of [get_leaf_num_entries]: a [u_int32_t] accumulator. *)
Fixpoint sum_omt_sizes (ps : list brtnode_partition) (acc : Z) : result Z :=
  match ps with
  | [] => Ok acc
  | p :: ps' =>
      match bp_ptr_of p with
      | ptr_basement bn => sum_omt_sizes ps' (u32 (acc + toku_omt_size (bn_buffer bn)))
      | _ => Abort (Assert_failed "BLB_BUFFER")
      end
  end.

Definition get_leaf_num_entries (node : BRTNODE) : result Z :=
  do _ <- toku_assert_entire_node_in_memory node;
  sum_omt_sizes (bp node) 0.

Section Reactivity.
Context `{Collaborators}.

Definition get_leaf_reactivity (node : BRTNODE) : result reactivity :=
  check (height node =? 0) in "get_leaf_reactivity";
  if dirty node then
    let size := u32 (toku_serialize_brtnode_size node) in
    do fissible <-
      (if nodesize node <? size
       then do n <- get_leaf_num_entries node; Ok (1 <? n)
       else Ok false);
    if (fissible : bool) then Ok RE_FISSIBLE
    else if u32 (size * 4) <? nodesize node then
      do s <- from_option (BLB_SEQINSERT node (n_children node - 1)) "BLB_SEQINSERT";
      if s =? 0 then Ok RE_FUSIBLE else Ok RE_STABLE
    else Ok RE_STABLE
  else Ok RE_STABLE.

Definition get_nonleaf_reactivity (node : BRTNODE) : result reactivity :=
  check (0 <? height node) in "get_nonleaf_reactivity";
  let n := n_children node in
  if TREE_FANOUT <? n then Ok RE_FISSIBLE
  else if i32 (n * 4) <? TREE_FANOUT then Ok RE_FUSIBLE
  else Ok RE_STABLE.

Definition get_node_reactivity (node : BRTNODE) : result reactivity :=
  do _ <- toku_assert_entire_node_in_memory node;
  if height node =? 0 then get_leaf_reactivity node
  else get_nonleaf_reactivity node.

(** ** Snapshot visibility *)

(** [true] stands for [TOKUDB_ACCEPT], [false] for 0. *)
Definition does_txn_read_entry (id : TXNID) (context : TOKUTXN) : bool :=
  let oldest_live_in_snapshot := toku_get_oldest_in_live_root_txn_list context in
  if (id <? oldest_live_in_snapshot) || (id =? ancestor_txnid64 context) then true
  else if (snapshot_txnid64 context <? id)
          || toku_is_txn_in_live_root_txn_list context id then false
  else true.

End Reactivity.

(** The part of [struct brt_cursor] that the read path consults. *)
Record BRT_CURSOR : Type := {
  is_snapshot_read : bool;
  is_leaf_mode : bool;
  ttxn : TOKUTXN
}.

Section Visibility.
Context `{Collaborators}.

Definition is_le_val_del (le : LEAFENTRY) (brtcursor : BRT_CURSOR) : option bool :=
  if is_snapshot_read brtcursor then
    le_iterate_is_del le does_txn_read_entry (ttxn brtcursor)
  else Some (le_latest_is_del le).

End Visibility.

Section ReadPath.
Context `{Collaborators}.

(** The value handed to the callback: key, then the value that the
    cursor may read ([None] inside for a deleted version). *)
Definition brt_cursor_extract_key_and_val (le : LEAFENTRY) (cursor : BRT_CURSOR)
    : option (DBT * option DBT) :=
  if is_leaf_mode cursor then Some (le_key le, le_latest_val le)
  else if is_snapshot_read cursor then
    val ← le_iterate_val le does_txn_read_entry (ttxn cursor);
    Some (le_key le, val)
  else Some (le_key le, le_latest_val le).

End ReadPath.

(** ** A concrete set of collaborators

    Used to run the engine on concrete trees. *)

Module Sample.

Definition compare (a b : DBT) : Z :=
  match String.compare a b with
  | Lt => -1
  | Eq => 0
  | Gt => 1
  end.

(** The update function stores the extra as the new value. *)
Definition update (key : DBT) (old : option DBT) (extra : DBT)
    : option (option DBT) * Z :=
  (Some (Some extra), 0).

Definition partition_bytes (p : brtnode_partition) : Z :=
  match bp_ptr_of p with
  | ptr_basement bn => bn_n_bytes_in_buffer bn
  | ptr_childinfo ci => bnc_n_bytes_in_buffer ci
  | ptr_sub_block sz => sz
  | ptr_null => 0
  end.

Definition serialize_size (node : BRTNODE) : Z :=
  20 + totalchildkeylens node + foldr (fun p acc => partition_bytes p + acc) 0 (bp node).

Definition disksize (le : LEAFENTRY) : Z :=
  9 + le_keylen le + foldr (fun v acc => 9 + ver_vallen v + acc) 0 (le_stack le).

(** Every message commits at once: an insert leaves one committed
    version, a delete removes the entry, the rest keeps it. *)
Definition apply_msg (cmd : BRT_MSG) (le : option LEAFENTRY) : Z * option LEAFENTRY :=
  match cmd_type cmd with
  | BRT_INSERT | BRT_INSERT_NO_OVERWRITE =>
      (0, Some {| le_key := cmd_key cmd;
                  le_stack := [ {| ver_xid := 0; ver_val := Some (cmd_val cmd) |} ] |})
  | BRT_DELETE_ANY => (0, None)
  | _ => (0, le)
  end.

Definition has_xids (le : LEAFENTRY) (xids : XIDS) : bool :=
  existsb (fun v => existsb (Z.eqb (ver_xid v)) xids) (le_stack le).

Fixpoint find_zero_from (omt : list LEAFENTRY) (h : LEAFENTRY -> Z) (i : Z) : bool * Z :=
  match omt with
  | [] => (false, i)
  | le :: omt' =>
      if h le <? 0 then find_zero_from omt' h (i + 1)
      else (h le =? 0, i)
  end.

Definition oldest_live (txn : TOKUTXN) : TXNID :=
  match live_root_txn_list txn with
  | x :: _ => x
  | [] => 0
  end.

Definition in_live (txn : TOKUTXN) (id : TXNID) : bool :=
  existsb (Z.eqb id) (live_root_txn_list txn).

Definition empty_bn : BASEMENTNODE :=
  {| optimized_for_upgrade := 0; soft_copy_is_up_to_date := true;
     bn_buffer := []; bn_n_bytes_in_buffer := 0; seqinsert := 0 |}.

Definition sub_est (a b : subtree_estimates) : subtree_estimates :=
  {| nkeys := u64 (nkeys a - nkeys b); ndata := u64 (ndata a - ndata b);
     dsize := u64 (dsize a - dsize b); exact := exact a && exact b |}.

Definition add_est (a b : subtree_estimates) : subtree_estimates :=
  {| nkeys := u64 (nkeys a + nkeys b); ndata := u64 (ndata a + ndata b);
     dsize := u64 (dsize a + dsize b); exact := exact a && exact b |}.

(** Reading a partition back yields an empty, stale basement or an empty
    buffer. *)
Definition read_partition (node : BRTNODE) (i : Z) : BRTNODE :=
  if i <? 0 then node
  else
    match bp node !! Z.to_nat i with
    | None => node
    | Some p =>
        let payload :=
          if 0 <? height node
          then ptr_childinfo {| bnc_buffer := []; bnc_n_bytes_in_buffer := 0 |}
          else ptr_basement
                 {| optimized_for_upgrade := 0; soft_copy_is_up_to_date := false;
                    bn_buffer := []; bn_n_bytes_in_buffer := 0; seqinsert := 0 |} in
        let p := {| bp_blocknum := bp_blocknum p; bp_have_fullhash := bp_have_fullhash p;
                    bp_fullhash := bp_fullhash p; bp_state := PT_AVAIL;
                    bp_subtree_est := bp_subtree_est p; bp_ptr_of := payload |} in
        {| max_msn_applied_to_node_in_memory := max_msn_applied_to_node_in_memory node;
           max_msn_applied_to_node_on_disk := max_msn_applied_to_node_on_disk node;
           nodesize := nodesize node; flags := flags node;
           thisnodename := thisnodename node; layout_version := layout_version node;
           height := height node; dirty := dirty node; fullhash := fullhash node;
           totalchildkeylens := totalchildkeylens node; childkeys := childkeys node;
           bp := <[Z.to_nat i := p]> (bp node) |}
    end.

Definition collaborators : Collaborators := {|
  compare_fun := compare;
  update_fun := update;
  toku_serialize_brtnode_size := serialize_size;
  toku_setup_empty_bn := empty_bn;
  toku_brt_pivot_key_len := dbt_size;
  subtract_estimates := sub_est;
  add_estimates := add_est;
  toku_deserialize_bp_from_compressed := read_partition;
  toku_deserialize_bp_from_disk := read_partition;
  toku_cachetable_hash := fun b => u32 (b * 2654435761);
  leafentry_disksize := disksize;
  apply_msg_to_leafentry := apply_msg;
  le_has_xids := has_xids;
  xids_get_serialize_size := fun xids => 1 + 8 * Z.of_nat (length xids);
  toku_omt_find_zero := fun omt h => find_zero_from omt h 0;
  toku_get_oldest_in_live_root_txn_list := oldest_live;
  toku_is_txn_in_live_root_txn_list := in_live;
  KEY_VALUE_OVERHEAD := 8;
  BRT_CMD_OVERHEAD := 10;
  OMT_ITEM_OVERHEAD := 0;
  TREE_FANOUT := 16
|}.

(** A child transaction 5 of root 4 reads under its own snapshot while
    3 and 4 are live. *)
Definition reader : TOKUTXN :=
  {| ancestor_txnid64 := 4; snapshot_txnid64 := 5; live_root_txn_list := [3; 4] |}.

Definition snapshot_cursor : BRT_CURSOR :=
  {| is_snapshot_read := true; is_leaf_mode := false; ttxn := reader |}.

(** An entry of key "k": provisional delete by 4... committed insert by 1. *)
Definition entry : LEAFENTRY :=
  {| le_key := "k";
     le_stack := [ {| ver_xid := 3; ver_val := Some "new" |};
                   {| ver_xid := 2; ver_val := None |};
                   {| ver_xid := 1; ver_val := Some "old" |} ] |}.

End Sample.

(** Sample nodes. *)

Module SampleNodes.

Definition committed (key val : DBT) : LEAFENTRY :=
  {| le_key := key; le_stack := [ {| ver_xid := 0; ver_val := Some val |} ] |}.

Definition basement (entries : list LEAFENTRY) (streak : Z) (fresh : bool) : BASEMENTNODE :=
  {| optimized_for_upgrade := 0;
     soft_copy_is_up_to_date := fresh;
     bn_buffer := entries;
     bn_n_bytes_in_buffer :=
       foldr (fun le acc => Sample.disksize le + acc) 0 entries;
     seqinsert := streak |}.

Definition estimates_of (entries : list LEAFENTRY) : subtree_estimates :=
  {| nkeys := Z.of_nat (length entries);
     ndata := Z.of_nat (length entries);
     dsize := foldr (fun le acc => le_keylen le + le_latest_vallen le + acc) 0 entries;
     exact := true |}.

Definition leaf_partition (bn : BASEMENTNODE) : brtnode_partition :=
  {| bp_blocknum := 0; bp_have_fullhash := false; bp_fullhash := 0;
     bp_state := PT_AVAIL;
     bp_subtree_est := estimates_of (bn_buffer bn);
     bp_ptr_of := ptr_basement bn |}.

Definition leaf (name size_budget msn : Z) (is_dirty : bool)
    (pivots : list DBT) (bns : list BASEMENTNODE) : BRTNODE :=
  {| max_msn_applied_to_node_in_memory := msn;
     max_msn_applied_to_node_on_disk := msn;
     nodesize := size_budget;
     flags := 0;
     thisnodename := name;
     layout_version := 14;
     height := 0;
     dirty := is_dirty;
     fullhash := name;
     totalchildkeylens := foldr (fun k acc => dbt_size k + acc) 0 pivots;
     childkeys := pivots;
     bp := map leaf_partition bns |}.

Definition two_entries : list LEAFENTRY :=
  [ committed "apple" "1"; committed "berry" "2" ].

(** Serialized size 68 against a budget of 40, two entries. *)
Definition big_clean_leaf : BRTNODE :=
  leaf 7 40 3 false [] [ basement two_entries 0 true ].

Definition big_dirty_leaf : BRTNODE :=
  leaf 7 40 3 true [] [ basement two_entries 0 true ].

End SampleNodes.

(** ** Field updates *)

Definition se_set_nkeys (se : subtree_estimates) (v : Z) : subtree_estimates :=
  {| nkeys := v; ndata := ndata se; dsize := dsize se; exact := exact se |}.
Definition se_set_ndata (se : subtree_estimates) (v : Z) : subtree_estimates :=
  {| nkeys := nkeys se; ndata := v; dsize := dsize se; exact := exact se |}.
Definition se_set_dsize (se : subtree_estimates) (v : Z) : subtree_estimates :=
  {| nkeys := nkeys se; ndata := ndata se; dsize := v; exact := exact se |}.
Definition se_set_exact (se : subtree_estimates) (v : bool) : subtree_estimates :=
  {| nkeys := nkeys se; ndata := ndata se; dsize := dsize se; exact := v |}.

Definition bn_set_buffer (bn : BASEMENTNODE) (omt : list LEAFENTRY) : BASEMENTNODE :=
  {| optimized_for_upgrade := optimized_for_upgrade bn;
     soft_copy_is_up_to_date := soft_copy_is_up_to_date bn;
     bn_buffer := omt;
     bn_n_bytes_in_buffer := bn_n_bytes_in_buffer bn;
     seqinsert := seqinsert bn |}.
Definition bn_set_n_bytes (bn : BASEMENTNODE) (v : Z) : BASEMENTNODE :=
  {| optimized_for_upgrade := optimized_for_upgrade bn;
     soft_copy_is_up_to_date := soft_copy_is_up_to_date bn;
     bn_buffer := bn_buffer bn;
     bn_n_bytes_in_buffer := v;
     seqinsert := seqinsert bn |}.
Definition bn_set_seqinsert (bn : BASEMENTNODE) (v : Z) : BASEMENTNODE :=
  {| optimized_for_upgrade := optimized_for_upgrade bn;
     soft_copy_is_up_to_date := soft_copy_is_up_to_date bn;
     bn_buffer := bn_buffer bn;
     bn_n_bytes_in_buffer := bn_n_bytes_in_buffer bn;
     seqinsert := v |}.
Definition bn_set_soft_copy (bn : BASEMENTNODE) (v : bool) : BASEMENTNODE :=
  {| optimized_for_upgrade := optimized_for_upgrade bn;
     soft_copy_is_up_to_date := v;
     bn_buffer := bn_buffer bn;
     bn_n_bytes_in_buffer := bn_n_bytes_in_buffer bn;
     seqinsert := seqinsert bn |}.
Definition bn_set_optimized (bn : BASEMENTNODE) (v : Z) : BASEMENTNODE :=
  {| optimized_for_upgrade := v;
     soft_copy_is_up_to_date := soft_copy_is_up_to_date bn;
     bn_buffer := bn_buffer bn;
     bn_n_bytes_in_buffer := bn_n_bytes_in_buffer bn;
     seqinsert := seqinsert bn |}.

(** ** The OMT of a basement node

    Modelled from the spec: omt.c is not part of the engine source; the
    basement "holds an ordered sequence of leaf entries", here a list with
    the array operations the engine calls.  Each operation fails (a
    nonzero return code) on an index out of range. *)

Definition toku_omt_fetch (omt : list LEAFENTRY) (idx : Z) : option LEAFENTRY :=
  if idx <? 0 then None else omt !! Z.to_nat idx.

Definition toku_omt_insert_at (omt : list LEAFENTRY) (le : LEAFENTRY) (idx : Z)
    : option (list LEAFENTRY) :=
  if (0 <=? idx) && (idx <=? Z.of_nat (length omt))
  then Some (take (Z.to_nat idx) omt ++ le :: drop (Z.to_nat idx) omt)
  else None.

Definition toku_omt_set_at (omt : list LEAFENTRY) (le : LEAFENTRY) (idx : Z)
    : option (list LEAFENTRY) :=
  if (0 <=? idx) && (idx <? Z.of_nat (length omt))
  then Some (<[Z.to_nat idx := le]> omt)
  else None.

Definition toku_omt_delete_at (omt : list LEAFENTRY) (idx : Z)
    : option (list LEAFENTRY) :=
  if (0 <=? idx) && (idx <? Z.of_nat (length omt))
  then Some (delete (Z.to_nat idx) omt)
  else None.

(** ** Applying a message to a basement node *)

Section LeafPut.
Context `{Collaborators}.

Definition bump_nkeys (a : subtree_estimates) (direction : Z) : result subtree_estimates :=
  let a := se_set_nkeys a (u64 (nkeys a + direction)) in
  check (exact a) in "bump_nkeys";
  Ok a.

Definition brt_leaf_delete_leafentry (bn : BASEMENTNODE) (se : subtree_estimates)
    (idx : Z) (le : LEAFENTRY) : result (BASEMENTNODE * subtree_estimates) :=
  do se <- bump_nkeys se (-1);
  do omt <- from_option (toku_omt_delete_at (bn_buffer bn) idx) "brt_leaf_delete_leafentry";
  let bn := bn_set_buffer bn omt in
  let bn := bn_set_n_bytes bn
              (u32 (bn_n_bytes_in_buffer bn - (OMT_ITEM_OVERHEAD + leafentry_disksize le))) in
  let oldlen := u32 (le_latest_vallen le + le_keylen le) in
  check (oldlen <=? dsize se) in "brt_leaf_delete_leafentry";
  let se := se_set_dsize se (u64 (dsize se - oldlen)) in
  check (dsize se <? 2 ^ 31) in "brt_leaf_delete_leafentry";
  let se := se_set_ndata se (u64 (ndata se - 1)) in
  Ok (bn, se).

Definition brt_leaf_apply_cmd_once (bn : BASEMENTNODE) (se : subtree_estimates)
    (cmd : BRT_MSG) (idx : Z) (le : option LEAFENTRY)
    : result (BASEMENTNODE * subtree_estimates) :=
  let '(r, new_le) := apply_msg_to_leafentry cmd le in
  check (r =? 0) in "brt_leaf_apply_cmd_once";
  match le, new_le with
  | Some le, Some new_le =>
      let newdisksize := leafentry_disksize new_le in
      let oldlen := u32 (le_keylen le + le_latest_vallen le) in
      check (oldlen <=? dsize se) in "brt_leaf_apply_cmd_once";
      check (dsize se <? 2 ^ 31) in "brt_leaf_apply_cmd_once";
      let se := se_set_dsize se (u64 (dsize se - oldlen)) in
      let se := se_set_dsize se
                  (u64 (dsize se + u32 (le_keylen new_le + le_latest_vallen new_le))) in
      check (dsize se <? 2 ^ 31) in "brt_leaf_apply_cmd_once";
      let bn := bn_set_n_bytes bn
                  (u32 (bn_n_bytes_in_buffer bn - (OMT_ITEM_OVERHEAD + leafentry_disksize le))) in
      let bn := bn_set_n_bytes bn
                  (u32 (bn_n_bytes_in_buffer bn + (OMT_ITEM_OVERHEAD + newdisksize))) in
      do omt <- from_option (toku_omt_set_at (bn_buffer bn) new_le idx) "brt_leaf_apply_cmd_once";
      Ok (bn_set_buffer bn omt, se)
  | _, _ =>
      do (bn, se) <-
        match le with
        | Some le => brt_leaf_delete_leafentry bn se idx le
        | None => Ok (bn, se)
        end;
      match new_le with
      | Some new_le =>
          let newdisksize := leafentry_disksize new_le in
          do omt <- from_option (toku_omt_insert_at (bn_buffer bn) new_le idx)
                      "brt_leaf_apply_cmd_once";
          let bn := bn_set_buffer bn omt in
          let bn := bn_set_n_bytes bn
                      (u32 (bn_n_bytes_in_buffer bn + (OMT_ITEM_OVERHEAD + newdisksize))) in
          let se := se_set_dsize se
                      (u64 (dsize se + u32 (le_latest_vallen new_le + le_keylen new_le))) in
          check (dsize se <? 2 ^ 31) in "brt_leaf_apply_cmd_once";
          let se := se_set_ndata se (u64 (ndata se + 1)) in
          do se <- bump_nkeys se 1;
          Ok (bn, se)
      | None => Ok (bn, se)
      end
  end.

(** [setval_fun], called back by the update function at most once:
    [Some v] synthesizes an insert, [None] a delete with an empty value. *)
Definition setval_fun (bn : BASEMENTNODE) (se : subtree_estimates)
    (msn : Z) (xids : XIDS) (key : DBT) (idx : Z) (le : option LEAFENTRY)
    (new_val : option DBT) : result (BASEMENTNODE * subtree_estimates) :=
  let msg :=
    match new_val with
    | Some v => {| cmd_type := BRT_INSERT; cmd_msn := msn; cmd_xids := xids;
                   cmd_key := key; cmd_val := v |}
    | None => {| cmd_type := BRT_DELETE_ANY; cmd_msn := msn; cmd_xids := xids;
                 cmd_key := key; cmd_val := "" |}
    end in
  brt_leaf_apply_cmd_once bn se msg idx le.

(** Returns the basement, the estimates, the return code and
    [made_change]. *)
Definition do_update (bn : BASEMENTNODE) (se : subtree_estimates) (cmd : BRT_MSG)
    (idx : Z) (le : option LEAFENTRY)
    : result (BASEMENTNODE * subtree_estimates * Z * Z) :=
  do keyp <-
    match cmd_type cmd with
    | BRT_UPDATE => Ok (cmd_key cmd)
    | BRT_UPDATE_BROADCAST_ALL =>
        do le <- from_option le "do_update";
        check (dbt_size (cmd_key cmd) =? 0) in "do_update";
        Ok (le_key le)
    | _ => Abort (Assert_failed "do_update")
    end;
  let update_function_extra := cmd_val cmd in
  let '(vdbtp, le_for_update) :=
    match le with
    | Some l => if negb (le_latest_is_del l) then (le_latest_val l, Some l) else (None, None)
    | None => (None, None)
    end in
  let '(called, r) := update_fun keyp vdbtp update_function_extra in
  match called with
  | Some new_val =>
      do (bn, se) <- setval_fun bn se (cmd_msn cmd) (cmd_xids cmd) keyp idx le_for_update new_val;
      Ok (bn, se, r, 1)
  | None => Ok (bn, se, r, 0)
  end.

Definition toku_cmd_leafval_heaviside (key : DBT) (le : LEAFENTRY) : Z :=
  compare_fun (le_key le) key.

(** The loop of the [BRT_DELETE_ANY], [BRT_ABORT_ANY] and
    [BRT_COMMIT_ANY] case: apply to the entry at [idx], then go on while
    the next entry has the same key. *)
Fixpoint apply_to_matches (fuel : nat) (bn : BASEMENTNODE) (se : subtree_estimates)
    (cmd : BRT_MSG) (idx : Z) (storeddata : LEAFENTRY)
    : result (BASEMENTNODE * subtree_estimates) :=
  match fuel with
  | O => Abort Out_of_fuel
  | S fuel =>
      let num_leafentries_before := toku_omt_size (bn_buffer bn) in
      do (bn, se) <- brt_leaf_apply_cmd_once bn se cmd idx (Some storeddata);
      let num_leafentries_after := toku_omt_size (bn_buffer bn) in
      check ((num_leafentries_before =? num_leafentries_after)
             || (u32 (num_leafentries_before - 1) =? num_leafentries_after))
        in "brt_leaf_put_cmd";
      let idx := if num_leafentries_after =? num_leafentries_before
                 then u32 (idx + 1) else idx in
      check (idx <=? num_leafentries_after) in "brt_leaf_put_cmd";
      if idx =? num_leafentries_after then Ok (bn, se)
      else
        do storeddata <- from_option (toku_omt_fetch (bn_buffer bn) idx) "brt_leaf_put_cmd";
        if negb (compare_fun (le_key storeddata) (cmd_key cmd) =? 0) then Ok (bn, se)
        else apply_to_matches fuel bn se cmd idx storeddata
  end.

(** The loop of the broadcast cases: visit every entry, apply the message
    to those selected by [wanted]. *)
Fixpoint apply_to_all (fuel : nat) (wanted : LEAFENTRY -> bool)
    (bn : BASEMENTNODE) (se : subtree_estimates) (cmd : BRT_MSG)
    (idx omt_size : Z) (made_change : Z)
    : result (BASEMENTNODE * subtree_estimates * Z) :=
  match fuel with
  | O => Abort Out_of_fuel
  | S fuel =>
      if idx <? omt_size then
        do storeddata <- from_option (toku_omt_fetch (bn_buffer bn) idx) "brt_leaf_put_cmd";
        if wanted storeddata then
          do (bn, se) <- brt_leaf_apply_cmd_once bn se cmd idx (Some storeddata);
          let new_omt_size := toku_omt_size (bn_buffer bn) in
          if negb (new_omt_size =? omt_size) then
            check (u32 (new_omt_size + 1) =? omt_size) in "brt_leaf_put_cmd";
            apply_to_all fuel wanted bn se cmd idx (u32 (omt_size - 1)) 1
          else apply_to_all fuel wanted bn se cmd (u32 (idx + 1)) omt_size 1
        else apply_to_all fuel wanted bn se cmd (u32 (idx + 1)) omt_size made_change
      else
        check (toku_omt_size (bn_buffer bn) =? omt_size) in "brt_leaf_put_cmd";
        Ok (bn, se, made_change)
  end.

(** The loop of the [BRT_UPDATE_BROADCAST_ALL] case. *)
Fixpoint update_all (fuel : nat) (bn : BASEMENTNODE) (se : subtree_estimates)
    (cmd : BRT_MSG) (idx : Z) (made_change : Z)
    : result (BASEMENTNODE * subtree_estimates * Z) :=
  match fuel with
  | O => Abort Out_of_fuel
  | S fuel =>
      let num_leafentries_before := toku_omt_size (bn_buffer bn) in
      if idx <? num_leafentries_before then
        do storeddata <- from_option (toku_omt_fetch (bn_buffer bn) idx) "brt_leaf_put_cmd";
        do (bn, se, r, made_change) <- do_update bn se cmd idx (Some storeddata);
        check (r =? 0) in "brt_leaf_put_cmd";
        let idx := if num_leafentries_before =? toku_omt_size (bn_buffer bn)
                   then u32 (idx + 1) else idx in
        update_all fuel bn se cmd idx made_change
      else Ok (bn, se, made_change)
  end.

(** The window of the sequential-insert heuristic for an OMT of [s]
    entries. *)
Definition seqinsert_window (s : Z) : Z :=
  let w := s / 16 in
  let w := if w =? 0 then 1 else w in
  if 32 <? w then 32 else w.

(** Where an insert goes: the sequential-insert shortcut looks at the
    last entry only, and falls back ([goto fz]) to the search.  The
    answer is "found an entry with this key" and the index. *)
Definition insert_position (doing_seqinsert : Z) (omt : list LEAFENTRY) (key : DBT)
    : bool * Z :=
  let fz := toku_omt_find_zero omt (toku_cmd_leafval_heaviside key) in
  if negb (doing_seqinsert =? 0) then
    let idx := toku_omt_size omt in
    match toku_omt_fetch omt (u32 (idx - 1)) with
    | None => fz
    | Some storeddata =>
        let cmp := toku_cmd_leafval_heaviside key storeddata in
        if 0 <=? cmp then fz else (false, idx)
    end
  else fz.

(** [brt_leaf_put_cmd]: the basement, its estimates and [*made_change]
    after the message.  [fuel] bounds the loops over the OMT. *)
Definition brt_leaf_put_cmd (fuel : nat) (bn : BASEMENTNODE) (se : subtree_estimates)
    (cmd : BRT_MSG) : result (BASEMENTNODE * subtree_estimates * Z) :=
  let doing_seqinsert := seqinsert bn in
  let bn := bn_set_seqinsert bn 0 in
  match cmd_type cmd with
  | BRT_INSERT_NO_OVERWRITE | BRT_INSERT =>
      let '(found, idx) := insert_position doing_seqinsert (bn_buffer bn) (cmd_key cmd) in
      do storeddata <-
        (if found : bool
         then do le <- from_option (toku_omt_fetch (bn_buffer bn) idx) "toku_omt_find_zero";
              Ok (Some le)
         else Ok None);
      do (bn, se) <- brt_leaf_apply_cmd_once bn se cmd idx storeddata;
      let s := toku_omt_size (bn_buffer bn) in
      let w := seqinsert_window s in
      let bn := if u32 (s - idx) <=? w
                then bn_set_seqinsert bn (u32 (doing_seqinsert + 1)) else bn in
      Ok (bn, se, 1)
  | BRT_DELETE_ANY | BRT_ABORT_ANY | BRT_COMMIT_ANY =>
      let '(found, idx) :=
        toku_omt_find_zero (bn_buffer bn) (toku_cmd_leafval_heaviside (cmd_key cmd)) in
      if negb found then Ok (bn, se, 0)
      else
        do storeddata <- from_option (toku_omt_fetch (bn_buffer bn) idx) "toku_omt_find_zero";
        do (bn, se) <- apply_to_matches fuel bn se cmd idx storeddata;
        Ok (bn, se, 1)
  | BRT_OPTIMIZE_FOR_UPGRADE =>
      let bn := bn_set_optimized bn (dbt_first_word (cmd_val cmd) 4) in
      apply_to_all fuel (fun le => negb (le_is_clean le)) bn se cmd
                   0 (toku_omt_size (bn_buffer bn)) 1
  | BRT_COMMIT_BROADCAST_ALL | BRT_OPTIMIZE =>
      apply_to_all fuel (fun le => negb (le_is_clean le)) bn se cmd
                   0 (toku_omt_size (bn_buffer bn)) 0
  | BRT_COMMIT_BROADCAST_TXN | BRT_ABORT_BROADCAST_TXN =>
      apply_to_all fuel (fun le => le_has_xids le (cmd_xids cmd)) bn se cmd
                   0 (toku_omt_size (bn_buffer bn)) 0
  | BRT_UPDATE =>
      let '(found, idx) :=
        toku_omt_find_zero (bn_buffer bn) (toku_cmd_leafval_heaviside (cmd_key cmd)) in
      do storeddata <-
        (if found : bool
         then do le <- from_option (toku_omt_fetch (bn_buffer bn) idx) "toku_omt_find_zero";
              Ok (Some le)
         else Ok None);
      do (bn, se, _, made_change) <- do_update bn se cmd idx storeddata;
      Ok (bn, se, made_change)
  | BRT_UPDATE_BROADCAST_ALL => update_all fuel bn se cmd 0 0
  | BRT_NONE => Ok (bn, se, 0)
  end.

End LeafPut.

Module SampleInsert.

(** A basement holding "apple" in the middle of a streak, and the insert
    of "berry" behind it. *)
Definition streak_basement : BASEMENTNODE :=
  SampleNodes.basement [ SampleNodes.committed "apple" "1" ] 1 true.

Definition streak_estimates : subtree_estimates :=
  SampleNodes.estimates_of (bn_buffer streak_basement).

Definition insert_berry : BRT_MSG :=
  {| cmd_type := BRT_INSERT; cmd_msn := 9; cmd_xids := [0];
     cmd_key := "berry"; cmd_val := "2" |}.

(** The sample collaborators insert "berry" at index 1. *)
Definition after_berry : BASEMENTNODE * subtree_estimates :=
  Eval vm_compute in
    match brt_leaf_put_cmd (H := Sample.collaborators) 1
            streak_basement streak_estimates insert_berry with
    | Ok (bn, se, _) => (bn, se)
    | Abort _ => (streak_basement, streak_estimates)
    end.

End SampleInsert.

(** ** Field updates of partitions and nodes *)

Definition bp_set_ptr (p : brtnode_partition) (v : bp_ptr) : brtnode_partition :=
  {| bp_blocknum := bp_blocknum p; bp_have_fullhash := bp_have_fullhash p;
     bp_fullhash := bp_fullhash p; bp_state := bp_state p;
     bp_subtree_est := bp_subtree_est p; bp_ptr_of := v |}.
Definition bp_set_est (p : brtnode_partition) (v : subtree_estimates) : brtnode_partition :=
  {| bp_blocknum := bp_blocknum p; bp_have_fullhash := bp_have_fullhash p;
     bp_fullhash := bp_fullhash p; bp_state := bp_state p;
     bp_subtree_est := v; bp_ptr_of := bp_ptr_of p |}.
Definition bp_set_state (p : brtnode_partition) (v : pt_state) : brtnode_partition :=
  {| bp_blocknum := bp_blocknum p; bp_have_fullhash := bp_have_fullhash p;
     bp_fullhash := bp_fullhash p; bp_state := v;
     bp_subtree_est := bp_subtree_est p; bp_ptr_of := bp_ptr_of p |}.
Definition bp_set_hash (p : brtnode_partition) (have : bool) (h : Z) : brtnode_partition :=
  {| bp_blocknum := bp_blocknum p; bp_have_fullhash := have;
     bp_fullhash := h; bp_state := bp_state p;
     bp_subtree_est := bp_subtree_est p; bp_ptr_of := bp_ptr_of p |}.
Definition bp_set_blocknum (p : brtnode_partition) (b : Z) : brtnode_partition :=
  {| bp_blocknum := b; bp_have_fullhash := bp_have_fullhash p;
     bp_fullhash := bp_fullhash p; bp_state := bp_state p;
     bp_subtree_est := bp_subtree_est p; bp_ptr_of := bp_ptr_of p |}.

Definition node_set_bp (n : BRTNODE) (v : list brtnode_partition) : BRTNODE :=
  {| max_msn_applied_to_node_in_memory := max_msn_applied_to_node_in_memory n;
     max_msn_applied_to_node_on_disk := max_msn_applied_to_node_on_disk n;
     nodesize := nodesize n; flags := flags n; thisnodename := thisnodename n;
     layout_version := layout_version n; height := height n; dirty := dirty n;
     fullhash := fullhash n; totalchildkeylens := totalchildkeylens n;
     childkeys := childkeys n; bp := v |}.
Definition node_set_dirty (n : BRTNODE) (v : bool) : BRTNODE :=
  {| max_msn_applied_to_node_in_memory := max_msn_applied_to_node_in_memory n;
     max_msn_applied_to_node_on_disk := max_msn_applied_to_node_on_disk n;
     nodesize := nodesize n; flags := flags n; thisnodename := thisnodename n;
     layout_version := layout_version n; height := height n; dirty := v;
     fullhash := fullhash n; totalchildkeylens := totalchildkeylens n;
     childkeys := childkeys n; bp := bp n |}.
Definition node_set_max_msn (n : BRTNODE) (v : Z) : BRTNODE :=
  {| max_msn_applied_to_node_in_memory := v;
     max_msn_applied_to_node_on_disk := max_msn_applied_to_node_on_disk n;
     nodesize := nodesize n; flags := flags n; thisnodename := thisnodename n;
     layout_version := layout_version n; height := height n; dirty := dirty n;
     fullhash := fullhash n; totalchildkeylens := totalchildkeylens n;
     childkeys := childkeys n; bp := bp n |}.
Definition node_set_childkeys (n : BRTNODE) (keys : list DBT) (total : Z) : BRTNODE :=
  {| max_msn_applied_to_node_in_memory := max_msn_applied_to_node_in_memory n;
     max_msn_applied_to_node_on_disk := max_msn_applied_to_node_on_disk n;
     nodesize := nodesize n; flags := flags n; thisnodename := thisnodename n;
     layout_version := layout_version n; height := height n; dirty := dirty n;
     fullhash := fullhash n; totalchildkeylens := total;
     childkeys := keys; bp := bp n |}.

(** [node->bp[i] = p]; an index out of range is a fault. *)
Definition node_set_partition (n : BRTNODE) (i : Z) (p : brtnode_partition)
    : result BRTNODE :=
  check ((0 <=? i) && (i <? n_children n)) in "bp";
  Ok (node_set_bp n (<[Z.to_nat i := p]> (bp n))).

(** ** Pivot bounds *)

Record pivot_bounds : Type := {
  lower_bound_exclusive : option DBT;
  upper_bound_inclusive : option DBT
}.

Definition infinite_bounds : pivot_bounds :=
  {| lower_bound_exclusive := None; upper_bound_inclusive := None |}.

Definition childkey (node : BRTNODE) (i : Z) : option DBT :=
  if i <? 0 then None else childkeys node !! Z.to_nat i.

Definition prepivotkey (node : BRTNODE) (childnum : Z) (lower : option DBT) : option DBT :=
  if childnum =? 0 then lower else childkey node (childnum - 1).

Definition postpivotkey (node : BRTNODE) (childnum : Z) (upper : option DBT) : option DBT :=
  if childnum + 1 =? n_children node then upper else childkey node childnum.

Definition next_pivot_keys (node : BRTNODE) (childnum : Z) (old_pb : pivot_bounds)
    : pivot_bounds :=
  {| lower_bound_exclusive := prepivotkey node childnum (lower_bound_exclusive old_pb);
     upper_bound_inclusive := postpivotkey node childnum (upper_bound_inclusive old_pb) |}.

(** ** Subtree estimates *)

Definition fill_leafnode_estimates (le : LEAFENTRY) (e : subtree_estimates)
    : subtree_estimates :=
  {| nkeys := u64 (nkeys e + 1);
     ndata := u64 (ndata e + 1);
     dsize := u64 (dsize e + u32 (le_keylen le + le_latest_vallen le));
     exact := exact e |}.

Definition calc_leaf_stats (buffer : list LEAFENTRY) : subtree_estimates :=
  fold_left (fun e le => fill_leafnode_estimates le e) buffer zero_estimates.

Definition reset_partition_stats (p : brtnode_partition) : brtnode_partition :=
  if bool_decide (bp_state p = PT_AVAIL) then
    match bp_ptr_of p with
    | ptr_basement bn => bp_set_est p (calc_leaf_stats (bn_buffer bn))
    | _ => p
    end
  else p.

Definition toku_brt_leaf_reset_calc_leaf_stats (node : BRTNODE) : result BRTNODE :=
  check (height node =? 0) in "toku_brt_leaf_reset_calc_leaf_stats";
  check (forallb (fun p => negb (partition_avail p) || is_basement_partition p) (bp node))
    in "BLB_BUFFER";
  Ok (node_set_bp node (map reset_partition_stats (bp node))).

(** The loop body of [fixup_child_estimates] for one partition of the
    child. *)
Definition add_child_estimate (child_height : Z) (estimates : result subtree_estimates)
    (p : brtnode_partition) : result subtree_estimates :=
  do estimates <- estimates;
  let child_se := bp_subtree_est p in
  let estimates :=
    {| nkeys := u64 (nkeys estimates + nkeys child_se);
       ndata := u64 (ndata estimates + ndata child_se);
       dsize := u64 (dsize estimates + dsize child_se);
       exact := exact estimates && exact child_se |} in
  if 0 <? child_height then
    if negb (partition_avail p) then Ok (se_set_exact estimates false)
    else
      match bp_ptr_of p with
      | ptr_childinfo ci =>
          if negb (Z.of_nat (length (bnc_buffer ci)) =? 0)
          then Ok (se_set_exact estimates false) else Ok estimates
      | _ => Abort (Assert_failed "BNC_BUFFER")
      end
  else Ok estimates.

Definition fixup_child_estimates (node : BRTNODE) (childnum_of_node : Z)
    (child : BRTNODE) (dirty_it : bool) : result BRTNODE :=
  do estimates <- fold_left (add_child_estimate (height child)) (bp child) (Ok zero_estimates);
  do p <- from_option (BP node childnum_of_node) "BP_SUBTREE_EST";
  do node <- node_set_partition node childnum_of_node (bp_set_est p estimates);
  Ok (if dirty_it then node_set_dirty node true else node).

(** ** Routing a key *)

Section WhichChild.
Context `{Collaborators}.

Definition brt_compare_pivot (key : DBT) (ck : DBT) : Z := compare_fun key ck.

(** The binary search of [toku_brtnode_which_child] over the pivots
    [lo..hi). *)
Fixpoint which_child_search (fuel : nat) (node : BRTNODE) (k : DBT) (lo hi : Z)
    : result Z :=
  match fuel with
  | O => Abort Out_of_fuel
  | S fuel =>
      if lo <? hi then
        let mi := (lo + hi) / 2 in
        do pivot <- from_option (childkey node mi) "toku_brtnode_which_child";
        let cmp := brt_compare_pivot k pivot in
        if 0 <? cmp then which_child_search fuel node k (mi + 1) hi
        else if cmp <? 0 then which_child_search fuel node k lo mi
        else Ok mi
      else Ok lo
  end.

Definition toku_brtnode_which_child (node : BRTNODE) (k : DBT) : result Z :=
  if n_children node <=? 1 then Ok 0
  else
    let n := n_children node - 1 in
    do pivot <- from_option (childkey node (n - 1)) "toku_brtnode_which_child";
    let cmp := brt_compare_pivot k pivot in
    if 0 <? cmp then Ok n
    else which_child_search (S (length (bp node))) node k 0 (n - 1).

Definition key_is_in_leaf_range (key : DBT) (lower_bound_exclusive : option DBT)
    (upper_bound_inclusive : option DBT) : bool :=
  match lower_bound_exclusive with
  | None => true
  | Some lbe => compare_fun lbe key <? 0
  end
  &&
  match upper_bound_inclusive with
  | None => true
  | Some ubi => compare_fun key ubi <=? 0
  end.

End WhichChild.

(** ** Applying messages to a leaf *)

(** [struct ancestors]: the pinned nodes above, nearest first, each with
    the child slot that the descent took. *)
Abbreviation ANCESTORS := (list (BRTNODE * Z)) (only parsing).

Section LeafApply.
Context `{Collaborators}.

(** [brt_leaf_put_cmd] on the basement and the estimates of partition
    [childnum] of a leaf. *)
Definition leaf_put_cmd_at (fuel : nat) (node : BRTNODE) (childnum : Z) (cmd : BRT_MSG)
    : result (BRTNODE * Z) :=
  do p <- from_option (BP node childnum) "bp";
  match bp_ptr_of p with
  | ptr_basement bn =>
      do (bn, se, made_change) <- brt_leaf_put_cmd fuel bn (bp_subtree_est p) cmd;
      do node <- node_set_partition node childnum
                   (bp_set_est (bp_set_ptr p (ptr_basement bn)) se);
      Ok (node, made_change)
  | _ => Abort (Assert_failed "BASEMENTNODE")
  end.

(** The loop of the broadcast branch of [toku_apply_cmd_to_leaf]. *)
Fixpoint apply_cmd_to_partitions (fuel : nat) (count : nat) (node : BRTNODE)
    (childnum : Z) (cmd : BRT_MSG) (made_change : Z) : result (BRTNODE * Z) :=
  match count with
  | O => Ok (node, made_change)
  | S count =>
      do state <- from_option (BP_STATE node childnum) "BP_STATE";
      do (node, made_change) <-
        (if bool_decide (state = PT_AVAIL) then
           do (node, bn_made_change) <- leaf_put_cmd_at fuel node childnum cmd;
           Ok (node, if negb (bn_made_change =? 0) then 1 else made_change)
         else Ok (node, made_change));
      apply_cmd_to_partitions fuel count node (childnum + 1) cmd made_change
  end.

(** [toku_apply_cmd_to_leaf]; [made_change] is the caller's variable,
    written only when a basement is touched. *)
Definition toku_apply_cmd_to_leaf (fuel : nat) (node : BRTNODE) (cmd : BRT_MSG)
    (made_change : Z) : result (BRTNODE * Z) :=
  if cmd_msn cmd <=? max_msn_applied_to_node_in_memory node then Ok (node, made_change)
  else
    let node := node_set_max_msn node (cmd_msn cmd) in
    if brt_msg_applies_once cmd then
      do childnum <- toku_brtnode_which_child node (cmd_key cmd);
      do state <- from_option (BP_STATE node childnum) "BP_STATE";
      if bool_decide (state = PT_AVAIL) then leaf_put_cmd_at fuel node childnum cmd
      else Ok (node, made_change)
    else if brt_msg_applies_all cmd then
      apply_cmd_to_partitions fuel (length (bp node)) node 0 cmd made_change
    else
      check (brt_msg_does_nothing cmd) in "toku_apply_cmd_to_leaf";
      Ok (node, made_change).

(** ** Ancestor replay *)

Definition msg_of_entry (e : fifo_entry) : BRT_MSG :=
  {| cmd_type := fe_type e; cmd_msn := fe_msn e; cmd_xids := fe_xids e;
     cmd_key := fe_key e; cmd_val := fe_val e |}.

(** The body of the [FIFO_ITERATE] of [apply_buffer_messages_to_node]. *)
Definition apply_buffer_message (fuel : nat) (min_applied_msn : Z) (bounds : pivot_bounds)
    (acc : result (BASEMENTNODE * subtree_estimates)) (e : fifo_entry)
    : result (BASEMENTNODE * subtree_estimates) :=
  do (bn, se) <- acc;
  if (min_applied_msn <? fe_msn e)
     && (negb (msg_type_has_key (fe_type e))
         || key_is_in_leaf_range (fe_key e) (lower_bound_exclusive bounds)
                                 (upper_bound_inclusive bounds))
  then
    do (bn, se, _) <- brt_leaf_put_cmd fuel bn se (msg_of_entry e);
    Ok (bn, se)
  else Ok (bn, se).

Definition apply_buffer_messages_to_node (fuel : nat) (bn : BASEMENTNODE)
    (se : subtree_estimates) (ancestor : BRTNODE) (childnum : Z) (height_ : Z)
    (min_applied_msn : Z) (bounds : pivot_bounds)
    : result (BASEMENTNODE * subtree_estimates) :=
  check (height ancestor =? height_) in "apply_buffer_messages_to_node";
  check (0 <? height ancestor) in "apply_buffer_messages_to_node";
  check ((0 <=? childnum) && (childnum <? n_children ancestor))
    in "apply_buffer_messages_to_node";
  do state <- from_option (BP_STATE ancestor childnum) "BP_STATE";
  check (bool_decide (state = PT_AVAIL)) in "apply_buffer_messages_to_node";
  do buffer <- from_option (BNC_BUFFER ancestor childnum) "BNC_BUFFER";
  fold_left (apply_buffer_message fuel min_applied_msn bounds) buffer (Ok (bn, se)).

(** The [while (curr_ancestors)] loop for one basement: replays every
    ancestor's buffer and raises the leaf's in-memory MSN. *)
Fixpoint replay_ancestors (fuel : nat) (curr_ancestors : ANCESTORS) (height_ : Z)
    (min_applied_msn : Z) (curr_bounds : pivot_bounds)
    (curr_bn : BASEMENTNODE) (curr_se : subtree_estimates) (max_msn : Z)
    : result (BASEMENTNODE * subtree_estimates * Z) :=
  match curr_ancestors with
  | [] => Ok (curr_bn, curr_se, max_msn)
  | (anode, achildnum) :: next =>
      let height_ := height_ + 1 in
      do (curr_bn, curr_se) <-
        apply_buffer_messages_to_node fuel curr_bn curr_se anode achildnum height_
                                      min_applied_msn curr_bounds;
      let max_msn :=
        if max_msn <? max_msn_applied_to_node_in_memory anode
        then max_msn_applied_to_node_in_memory anode else max_msn in
      replay_ancestors fuel next height_ min_applied_msn curr_bounds curr_bn curr_se max_msn
  end.

(** The [for] loop over the basements of the leaf; the boolean is
    [update_stats]. *)
Fixpoint replay_partitions (fuel : nat) (count : nat) (node : BRTNODE) (i : Z)
    (ancestors : ANCESTORS) (bounds : pivot_bounds) (update_stats : bool)
    : result (BRTNODE * bool) :=
  match count with
  | O => Ok (node, update_stats)
  | S count =>
      do p <- from_option (BP node i) "BP_STATE";
      do (node, update_stats) <-
        (if negb (partition_avail p) then Ok (node, update_stats)
         else
           match bp_ptr_of p with
           | ptr_basement curr_bn =>
               if soft_copy_is_up_to_date curr_bn then Ok (node, update_stats)
               else
                 let curr_bounds := next_pivot_keys node i bounds in
                 do (bn, se, max_msn) <-
                   replay_ancestors fuel ancestors 0
                     (max_msn_applied_to_node_on_disk node) curr_bounds
                     curr_bn (bp_subtree_est p)
                     (max_msn_applied_to_node_in_memory node);
                 let node := node_set_max_msn node max_msn in
                 let bn := bn_set_soft_copy bn true in
                 do node <- node_set_partition node i
                              (bp_set_est (bp_set_ptr p (ptr_basement bn)) se);
                 Ok (node, true)
           | _ => Abort (Assert_failed "BLB_SOFTCOPYISUPTODATE")
           end);
      replay_partitions fuel count node (i + 1) ancestors bounds update_stats
  end.

(** The second loop: the estimates of each ancestor are recomputed from
    the node below it, without dirtying it. *)
Fixpoint fixup_ancestors (prev_node : BRTNODE) (curr_ancestors : ANCESTORS)
    : result ANCESTORS :=
  match curr_ancestors with
  | [] => Ok []
  | (next_node, childnum) :: rest =>
      do next_node <- fixup_child_estimates next_node childnum prev_node false;
      do rest <- fixup_ancestors next_node rest;
      Ok ((next_node, childnum) :: rest)
  end.

(** [maybe_apply_ancestors_messages_to_node]: the node and its ancestors
    after the replay. *)
Definition maybe_apply_ancestors_messages_to_node (fuel : nat) (node : BRTNODE)
    (ancestors : ANCESTORS) (bounds : pivot_bounds) : result (BRTNODE * ANCESTORS) :=
  if 0 <? height node then Ok (node, ancestors)
  else
    do (node, update_stats) <-
      replay_partitions fuel (length (bp node)) node 0 ancestors bounds false;
    if (update_stats : bool) then
      do node <- toku_brt_leaf_reset_calc_leaf_stats node;
      do ancestors <- fixup_ancestors node ancestors;
      Ok (node, ancestors)
    else Ok (node, ancestors).

End LeafApply.

Module SampleReplay.

Definition entry_size (e : fifo_entry) : Z :=
  dbt_size (fe_key e) + dbt_size (fe_val e) + 8 + 10 + (1 + 8 * Z.of_nat (length (fe_xids e))).

Definition childinfo (buffer : FIFO) : NONLEAF_CHILDINFO :=
  {| bnc_buffer := buffer;
     bnc_n_bytes_in_buffer := foldr (fun e acc => entry_size e + acc) 0 buffer |}.

Definition nonleaf_partition (child : Z) (est : subtree_estimates) (buffer : FIFO)
    : brtnode_partition :=
  {| bp_blocknum := child; bp_have_fullhash := true; bp_fullhash := child;
     bp_state := PT_AVAIL; bp_subtree_est := est;
     bp_ptr_of := ptr_childinfo (childinfo buffer) |}.

Definition nonleaf (name level size_budget msn : Z) (is_dirty : bool)
    (pivots : list DBT) (parts : list brtnode_partition) : BRTNODE :=
  {| max_msn_applied_to_node_in_memory := msn;
     max_msn_applied_to_node_on_disk := msn;
     nodesize := size_budget;
     flags := 0;
     thisnodename := name;
     layout_version := 14;
     height := level;
     dirty := is_dirty;
     fullhash := name;
     totalchildkeylens := foldr (fun k acc => dbt_size k + acc) 0 pivots;
     childkeys := pivots;
     bp := parts |}.

Definition insert (msn : Z) (key val : DBT) : fifo_entry :=
  {| fe_key := key; fe_val := val; fe_type := BRT_INSERT; fe_msn := msn; fe_xids := [0] |}.

(** A clean leaf just read from disk (MSN 3, soft copy stale) below a
    parent whose buffer holds an old insert (MSN 2, already on disk) and a
    new one (MSN 5). *)
Definition cold_leaf : BRTNODE :=
  SampleNodes.leaf 7 4096 3 false []
    [ SampleNodes.basement [ SampleNodes.committed "apple" "1" ] 0 false ].

Definition parent : BRTNODE :=
  nonleaf 2 1 4096 5 false []
    [ nonleaf_partition 7 (SampleNodes.estimates_of [ SampleNodes.committed "apple" "1" ])
        [ insert 2 "apple" "1"; insert 5 "berry" "2" ] ].

(** The same parent with nothing new in its buffer. *)
Definition stale_parent : BRTNODE :=
  nonleaf 2 1 4096 3 false []
    [ nonleaf_partition 7 (SampleNodes.estimates_of [ SampleNodes.committed "apple" "1" ])
        [ insert 2 "apple" "0"; insert 3 "apple" "1" ] ].

Definition replayed : BRTNODE * ANCESTORS :=
  Eval vm_compute in
    match maybe_apply_ancestors_messages_to_node (H := Sample.collaborators) 4
            cold_leaf [ (parent, 0) ] infinite_bounds with
    | Ok r => r
    | Abort _ => (cold_leaf, [])
    end.

End SampleReplay.

(** ** The tree handle and its header *)

(** [struct brt] with the fields of [struct brt_header] that the engine
    reads or writes.  Modelled from the spec: the block allocator
    ("allocate_block() -> BlockNum, free_block(BlockNum)") is a counter of
    block numbers and the list of freed blocks. *)
Record BRT : Type := {
  brt_flags : Z;
  h_nodesize : Z;
  h_layout_version : Z;
  h_root : Z;
  h_root_put_counter : Z;
  global_root_put_counter : Z;
  blocktable_next : Z;
  blocktable_freed : list Z
}.

Definition brt_set_root (t : BRT) (root : Z) : BRT :=
  {| brt_flags := brt_flags t; h_nodesize := h_nodesize t;
     h_layout_version := h_layout_version t; h_root := root;
     h_root_put_counter := h_root_put_counter t;
     global_root_put_counter := global_root_put_counter t;
     blocktable_next := blocktable_next t; blocktable_freed := blocktable_freed t |}.

Definition toku_allocate_blocknum (t : BRT) : BRT * Z :=
  ({| brt_flags := brt_flags t; h_nodesize := h_nodesize t;
      h_layout_version := h_layout_version t; h_root := h_root t;
      h_root_put_counter := h_root_put_counter t;
      global_root_put_counter := global_root_put_counter t;
      blocktable_next := blocktable_next t + 1; blocktable_freed := blocktable_freed t |},
   blocktable_next t).

Definition toku_free_blocknum (t : BRT) (b : Z) : BRT :=
  {| brt_flags := brt_flags t; h_nodesize := h_nodesize t;
     h_layout_version := h_layout_version t; h_root := h_root t;
     h_root_put_counter := h_root_put_counter t;
     global_root_put_counter := global_root_put_counter t;
     blocktable_next := blocktable_next t; blocktable_freed := b :: blocktable_freed t |}.

(** ** Creating nodes *)

Definition node_set_fullhash (n : BRTNODE) (v : Z) : BRTNODE :=
  {| max_msn_applied_to_node_in_memory := max_msn_applied_to_node_in_memory n;
     max_msn_applied_to_node_on_disk := max_msn_applied_to_node_on_disk n;
     nodesize := nodesize n; flags := flags n; thisnodename := thisnodename n;
     layout_version := layout_version n; height := height n; dirty := dirty n;
     fullhash := v; totalchildkeylens := totalchildkeylens n;
     childkeys := childkeys n; bp := bp n |}.

Section Creation.
Context `{Collaborators}.

Definition empty_childinfo : NONLEAF_CHILDINFO :=
  {| bnc_buffer := []; bnc_n_bytes_in_buffer := 0 |}.

(** A partition as [toku_initialize_empty_brtnode] leaves it. *)
Definition empty_partition (height_ : Z) : brtnode_partition :=
  {| bp_blocknum := 0; bp_have_fullhash := false; bp_fullhash := 0;
     bp_state := PT_INVALID; bp_subtree_est := zero_estimates;
     bp_ptr_of := if 0 <? height_ then ptr_childinfo empty_childinfo
                  else ptr_basement toku_setup_empty_bn |}.

Definition toku_initialize_empty_brtnode (nodename : Z) (height_ : Z) (num_children : Z)
    (layout_version_ : Z) (nodesize_ : Z) (flags_ : Z) : result BRTNODE :=
  check (negb (layout_version_ =? 0)) in "toku_initialize_empty_brtnode";
  check (0 <=? height_) in "toku_initialize_empty_brtnode";
  Ok {| max_msn_applied_to_node_in_memory := MIN_MSN;
        max_msn_applied_to_node_on_disk := MIN_MSN;
        nodesize := nodesize_; flags := flags_; thisnodename := nodename;
        layout_version := layout_version_; height := height_; dirty := true;
        fullhash := 0; totalchildkeylens := 0; childkeys := [];
        bp := replicate (Z.to_nat num_children) (empty_partition height_) |}.

Definition toku_create_new_brtnode (t : BRT) (height_ : Z) (n_children_ : Z)
    : result (BRT * BRTNODE) :=
  check (0 <? h_nodesize t) in "toku_create_new_brtnode";
  check (negb (height_ =? 0) || (0 <? n_children_)) in "toku_create_new_brtnode";
  let '(t, name) := toku_allocate_blocknum t in
  do n <- toku_initialize_empty_brtnode name height_ n_children_
            (h_layout_version t) (h_nodesize t) (brt_flags t);
  check (0 <? nodesize n) in "toku_create_new_brtnode";
  Ok (t, node_set_fullhash n (toku_cachetable_hash (thisnodename n))).

End Creation.

(** ** Splitting, merging and balancing leaves *)

Definition node_set_totalchildkeylens (n : BRTNODE) (v : Z) : BRTNODE :=
  node_set_childkeys n (childkeys n) v.

Section LeafShape.
Context `{Collaborators}.

(** The basements of a leaf; a partition that holds anything else is a
    fault of the [BLB_] macros. *)
Fixpoint basements_of (ps : list brtnode_partition) : result (list BASEMENTNODE) :=
  match ps with
  | [] => Ok []
  | p :: ps =>
      match bp_ptr_of p with
      | ptr_basement bn => do bns <- basements_of ps; Ok (bn :: bns)
      | _ => Abort (Assert_failed "BLB_BUFFER")
      end
  end.

Definition brtleaf_disk_size (node : BRTNODE) : result Z :=
  check (height node =? 0) in "brtleaf_disk_size";
  do _ <- toku_assert_entire_node_in_memory node;
  do bns <- basements_of (bp node);
  Ok (fold_left
        (fun retval bn =>
           fold_left (fun retval le => u64 (retval + leafentry_disksize le))
                     (bn_buffer bn) retval)
        bns 0).

(** The inner loop of [brtleaf_get_split_loc]: the index reached in this
    OMT, if any, and the running size. *)
Fixpoint split_loc_in_omt (omt : list LEAFENTRY) (j : Z) (size_so_far : Z)
    (sumlesizes : Z) : option Z * Z :=
  match omt with
  | [] => (None, size_so_far)
  | curr_le :: omt =>
      let size_so_far := u32 (size_so_far + leafentry_disksize curr_le) in
      if sumlesizes / 2 <=? size_so_far then (Some j, size_so_far)
      else split_loc_in_omt omt (j + 1) size_so_far sumlesizes
  end.

Fixpoint split_loc_in_node (bns : list BASEMENTNODE) (i : Z) (size_so_far : Z)
    (sumlesizes : Z) : Z * Z :=
  match bns with
  | [] => (0, 0)
  | bn :: bns =>
      match split_loc_in_omt (bn_buffer bn) 0 size_so_far sumlesizes with
      | (Some j, _) => (i, j)
      | (None, size_so_far) => split_loc_in_node bns (i + 1) size_so_far sumlesizes
      end
  end.

(** [(bn_index, le_index)]; both stay 0 when the loop finds nothing. *)
Definition brtleaf_get_split_loc (node : BRTNODE) (sumlesizes : Z) : result (Z * Z) :=
  check (height node =? 0) in "brtleaf_get_split_loc";
  do bns <- basements_of (bp node);
  Ok (split_loc_in_node bns 0 0 sumlesizes).

(** [move_leafentries]: the entries [lbi, ube) leave [src_omt]; the
    answer is the new OMT, what is left, the estimates of the moved
    entries and the bytes moved.  The deleting loop counts down an
    unsigned index to [lbi], so it needs [lbi > 0]. *)
Definition move_leafentries (src_omt : list LEAFENTRY) (lbi ube : Z)
    (se_diff : subtree_estimates)
    : result (list LEAFENTRY * list LEAFENTRY * subtree_estimates * Z) :=
  check ((0 <? lbi) && (lbi <=? ube) && (ube <=? Z.of_nat (length src_omt)))
    in "move_leafentries";
  let moved := take (Z.to_nat (ube - lbi)) (drop (Z.to_nat lbi) src_omt) in
  let se_diff :=
    fold_left (fun se curr_le =>
                 {| nkeys := u64 (nkeys se + 1); ndata := u64 (ndata se + 1);
                    dsize := u64 (dsize se + u32 (le_keylen curr_le + le_latest_vallen curr_le));
                    exact := exact se |})
              moved se_diff in
  let num_bytes_moved :=
    fold_left (fun n curr_le => u32 (n + (OMT_ITEM_OVERHEAD + leafentry_disksize curr_le)))
              moved 0 in
  let rest := take (Z.to_nat lbi) src_omt ++ drop (Z.to_nat ube) src_omt in
  Ok (moved, rest, se_diff, num_bytes_moved).

(** A partition of the right-hand node as [brtleaf_split] prepares it
    when it reuses an existing node. *)
Definition reused_partition : brtnode_partition :=
  {| bp_blocknum := 0; bp_have_fullhash := false; bp_fullhash := 0;
     bp_state := PT_AVAIL; bp_subtree_est := zero_estimates;
     bp_ptr_of := ptr_basement toku_setup_empty_bn |}.

(** [brtleaf_split].  [t] is [None] for the NULL handle that
    [balance_leaf_nodes] passes; [nodeb] is read only when no new node is
    created.  The answer is the handle, node A, node B and the pivot. *)
Definition brtleaf_split (t : option BRT) (node : BRTNODE) (nodeb : BRTNODE)
    (create_new_node : bool) : result (option BRT * BRTNODE * BRTNODE * DBT) :=
  check (height node =? 0) in "brtleaf_split";
  check (0 <? nodesize node) in "brtleaf_split";
  do _ <- toku_assert_entire_node_in_memory node;
  let max_msn_applied_to_node := max_msn_applied_to_node_in_memory node in
  do sumlesizes <- brtleaf_disk_size node;
  do (split_node, split_at_in_node) <- brtleaf_get_split_loc node sumlesizes;
  let num_children_in_node := split_node + 1 in
  let num_children_in_b := n_children node - split_node in
  do (t, B) <-
    (if create_new_node then
       do t <- from_option t "toku_create_new_brtnode";
       do (t, B) <- toku_create_new_brtnode t 0 num_children_in_b;
       check (0 <? nodesize B) in "brtleaf_split";
       Ok (Some t, B)
     else
       Ok (t, node_set_childkeys
                (node_set_bp nodeb (replicate (Z.to_nat num_children_in_b) reused_partition))
                [] (totalchildkeylens nodeb)));
  (* first move all the data *)
  do b0 <- from_option (BP B 0) "brtleaf_split";
  let b0 := bp_set_state b0 PT_AVAIL in
  do bn_b0 <- match bp_ptr_of b0 with
              | ptr_basement bn => Ok bn
              | _ => Abort (Assert_failed "brtleaf_split")
              end;
  do p_split <- from_option (BP node split_node) "brtleaf_split";
  do bn_split <- match bp_ptr_of p_split with
                 | ptr_basement bn => Ok bn
                 | _ => Abort (Assert_failed "brtleaf_split")
                 end;
  do (moved, rest, se_diff, diff_size) <-
    move_leafentries (bn_buffer bn_split) (split_at_in_node + 1)
                     (toku_omt_size (bn_buffer bn_split)) zero_estimates;
  let bn_split := bn_set_n_bytes (bn_set_buffer bn_split rest)
                    (u32 (bn_n_bytes_in_buffer bn_split - diff_size)) in
  let bn_b0 := bn_set_n_bytes (bn_set_buffer bn_b0 moved)
                 (u32 (bn_n_bytes_in_buffer bn_b0 + diff_size)) in
  let p_split := bp_set_est (bp_set_ptr p_split (ptr_basement bn_split))
                   (subtract_estimates (bp_subtree_est p_split) se_diff) in
  let b0 := bp_set_est (bp_set_ptr b0 (ptr_basement bn_b0))
              (add_estimates (bp_subtree_est b0) se_diff) in
  (* move the rest of the basement nodes *)
  let node_bp := take (Z.to_nat split_node) (bp node) ++ [p_split] in
  let b_bp := b0 :: drop (Z.to_nat num_children_in_node) (bp node) in
  (* now handle the pivots *)
  let b_keys := drop (Z.to_nat split_node) (childkeys node) in
  let moved_len := fold_left (fun n k => u32 (n + toku_brt_pivot_key_len k)) b_keys 0 in
  let B := node_set_childkeys (node_set_bp B b_bp) b_keys
             (u32 (totalchildkeylens B + moved_len)) in
  let node := node_set_childkeys (node_set_bp node node_bp)
                (take (Z.to_nat split_node) (childkeys node))
                (u32 (totalchildkeylens node - moved_len)) in
  do node <- toku_brt_leaf_reset_calc_leaf_stats node;
  do B <- toku_brt_leaf_reset_calc_leaf_stats B;
  do le <- from_option (toku_omt_fetch rest (u32 (toku_omt_size rest - 1))) "brtleaf_split";
  let splitk := le_key le in
  let node := node_set_dirty (node_set_max_msn node max_msn_applied_to_node) true in
  let B := node_set_dirty (node_set_max_msn B max_msn_applied_to_node) true in
  Ok (t, node, B, splitk).

(** [merge_leaf_nodes]: everything moves into [a]; [b] is left without
    children. *)
Definition merge_leaf_nodes (a b : BRTNODE) : result (BRTNODE * BRTNODE) :=
  do _ <- toku_assert_entire_node_in_memory a;
  do _ <- toku_assert_entire_node_in_memory b;
  check (height a =? 0) in "merge_leaf_nodes";
  check (height b =? 0) in "merge_leaf_nodes";
  check (0 <? n_children a) in "merge_leaf_nodes";
  check (0 <? n_children b) in "merge_leaf_nodes";
  do last_bn <- from_option (BLB a (n_children a - 1)) "merge_leaf_nodes";
  let a_has_tail := negb (toku_omt_size (bn_buffer last_bn) =? 0) in
  do tail_key <-
    (if a_has_tail then
       do le <- from_option
                  (toku_omt_fetch (bn_buffer last_bn)
                     (u32 (toku_omt_size (bn_buffer last_bn) - 1))) "fetch_from_buf";
       Ok [le_key le]
     else Ok []);
  let a_total :=
    fold_left (fun n k => u32 (n + dbt_size k)) tail_key (totalchildkeylens a) in
  let a_bp := if a_has_tail then bp a else removelast (bp a) in
  let a_keys :=
    take (Z.to_nat (n_children a - 1)) (childkeys a) ++ tail_key
    ++ take (Z.to_nat (n_children b - 1)) (childkeys b) in
  let a := node_set_bp a (a_bp ++ bp b) in
  let a := node_set_childkeys a a_keys (u32 (a_total + totalchildkeylens b)) in
  let b := node_set_childkeys (node_set_bp b []) [] 0 in
  Ok (node_set_dirty a true, node_set_dirty b true).

(** [balance_leaf_nodes]: merge, then split in the middle into the same
    two nodes. *)
Definition balance_leaf_nodes (a b : BRTNODE) : result (BRTNODE * BRTNODE * DBT) :=
  do (a, b) <- merge_leaf_nodes a b;
  do (_, a, b, splitk) <- brtleaf_split None a b false;
  Ok (a, b, splitk).

(** [maybe_merge_pinned_leaf_nodes]: the parent, the two nodes,
    [did_merge], [did_rebalance] and the pivot left between them. *)
Definition maybe_merge_pinned_leaf_nodes (parent : BRTNODE) (childnum_of_parent : Z)
    (a b : BRTNODE) (parent_splitk : DBT)
    : result (BRTNODE * BRTNODE * BRTNODE * bool * bool * option DBT) :=
  let sizea := u32 (toku_serialize_brtnode_size a) in
  let sizeb := u32 (toku_serialize_brtnode_size b) in
  if u32 (nodesize a * 3) <? u32 (u32 (sizea + sizeb) * 4) then
    if (nodesize a <? u32 (sizea * 4)) && (nodesize a <? u32 (sizeb * 4)) then
      Ok (parent, a, b, false, false, Some parent_splitk)
    else
      do (a, b, splitk) <- balance_leaf_nodes a b;
      do parent <- fixup_child_estimates parent childnum_of_parent a true;
      do parent <- fixup_child_estimates parent (childnum_of_parent + 1) b true;
      Ok (parent, a, b, false, true, Some splitk)
  else
    do (a, b) <- merge_leaf_nodes a b;
    do parent <- fixup_child_estimates parent childnum_of_parent a true;
    do parent <- fixup_child_estimates parent (childnum_of_parent + 1) b true;
    Ok (parent, a, b, true, false, None).

End LeafShape.

Module SampleMerge.

Definition small_a : BRTNODE :=
  SampleNodes.leaf 7 4096 3 false []
    [ SampleNodes.basement [ SampleNodes.committed "apple" "1" ] 0 true ].

Definition small_b : BRTNODE :=
  SampleNodes.leaf 8 4096 3 false []
    [ SampleNodes.basement [ SampleNodes.committed "berry" "2" ] 0 true ].

Definition parent_of (budget : Z) : BRTNODE :=
  SampleReplay.nonleaf 2 1 budget 3 false [ "apple" ]
    [ SampleReplay.nonleaf_partition 7 zero_estimates [];
      SampleReplay.nonleaf_partition 8 zero_estimates [] ].

Definition merged : BRTNODE * BRTNODE * BRTNODE * bool * bool * option DBT :=
  Eval vm_compute in
    match maybe_merge_pinned_leaf_nodes (H := Sample.collaborators)
            (parent_of 4096) 0 small_a small_b "apple" with
    | Ok r => r
    | Abort _ => (parent_of 4096, small_a, small_b, false, false, None)
    end.

(** With a budget of 100: an empty left sibling (size 20) and a right
    sibling of two entries (size 68). *)
Definition empty_a : BRTNODE :=
  SampleNodes.leaf 7 100 3 false [] [ SampleNodes.basement [] 0 true ].

Definition full_b : BRTNODE :=
  SampleNodes.leaf 8 100 3 false [] [ SampleNodes.basement SampleNodes.two_entries 0 true ].

Definition balanced : BRTNODE * BRTNODE * BRTNODE * bool * bool * option DBT :=
  Eval vm_compute in
    match maybe_merge_pinned_leaf_nodes (H := Sample.collaborators)
            (parent_of 100) 0 empty_a full_b "apple" with
    | Ok r => r
    | Abort _ => (parent_of 100, empty_a, full_b, false, false, None)
    end.

End SampleMerge.

(** ** Putting a message into a nonleaf node *)

Section NonleafPut.
Context `{Collaborators}.

(** The size that a message takes in a child buffer, as the [int] that
    both the append and the flush compute. *)
Definition fifo_entry_bytes (keylen vallen : Z) (xids : XIDS) : Z :=
  i32 (u32 (keylen + vallen + KEY_VALUE_OVERHEAD + BRT_CMD_OVERHEAD
            + xids_get_serialize_size xids)).

Definition toku_brt_append_to_child_buffer (node : BRTNODE) (childnum : Z)
    (type : brt_msg_type) (msn : Z) (xids : XIDS) (key val : DBT) : result BRTNODE :=
  do p <- from_option (BP node childnum) "BP_STATE";
  check (bool_decide (bp_state p = PT_AVAIL)) in "toku_brt_append_to_child_buffer";
  let diff := fifo_entry_bytes (dbt_size key) (dbt_size val) xids in
  do ci <- match bp_ptr_of p with
           | ptr_childinfo ci => Ok ci
           | _ => Abort (Assert_failed "BNC_BUFFER")
           end;
  (* toku_fifo_enq *)
  let ci := {| bnc_buffer := bnc_buffer ci ++ [ {| fe_key := key; fe_val := val;
                                                   fe_type := type; fe_msn := msn;
                                                   fe_xids := xids |} ];
               bnc_n_bytes_in_buffer := u32 (bnc_n_bytes_in_buffer ci + diff) |} in
  do node <- node_set_partition node childnum (bp_set_ptr p (ptr_childinfo ci));
  Ok (node_set_dirty node true).

Definition brt_nonleaf_cmd_once_to_child (node : BRTNODE) (childnum : Z) (cmd : BRT_MSG)
    : result BRTNODE :=
  toku_brt_append_to_child_buffer node childnum (cmd_type cmd) (cmd_msn cmd)
    (cmd_xids cmd) (cmd_key cmd) (cmd_val cmd).

Definition brt_nonleaf_cmd_once (node : BRTNODE) (cmd : BRT_MSG) : result BRTNODE :=
  do childnum <- toku_brtnode_which_child node (cmd_key cmd);
  brt_nonleaf_cmd_once_to_child node childnum cmd.

(** The loop of [brt_nonleaf_cmd_all] from child [i] on. *)
Fixpoint cmd_to_children (count : nat) (node : BRTNODE) (i : Z) (cmd : BRT_MSG)
    : result BRTNODE :=
  match count with
  | O => Ok node
  | S count =>
      do node <- brt_nonleaf_cmd_once_to_child node i cmd;
      cmd_to_children count node (i + 1) cmd
  end.

Definition brt_nonleaf_cmd_all (node : BRTNODE) (cmd : BRT_MSG) : result BRTNODE :=
  cmd_to_children (length (bp node)) node 0 cmd.

Definition brt_nonleaf_put_cmd (node : BRTNODE) (cmd : BRT_MSG) : result BRTNODE :=
  let cmd_msn_ := cmd_msn cmd in
  do _ <- guard_fault (max_msn_applied_to_node_in_memory node <? cmd_msn_)
            Invariant_nonleaf_msn;
  let node := node_set_max_msn node cmd_msn_ in
  match cmd_type cmd with
  | BRT_INSERT_NO_OVERWRITE | BRT_INSERT | BRT_DELETE_ANY
  | BRT_ABORT_ANY | BRT_COMMIT_ANY | BRT_UPDATE =>
      brt_nonleaf_cmd_once node cmd
  | BRT_COMMIT_BROADCAST_ALL | BRT_COMMIT_BROADCAST_TXN | BRT_ABORT_BROADCAST_TXN
  | BRT_OPTIMIZE | BRT_OPTIMIZE_FOR_UPGRADE | BRT_UPDATE_BROADCAST_ALL =>
      brt_nonleaf_cmd_all node cmd
  | BRT_NONE => Ok node
  end.

Definition assert_leaf_up_to_date (node : BRTNODE) : result unit :=
  check (height node =? 0) in "assert_leaf_up_to_date";
  do _ <- toku_assert_entire_node_in_memory node;
  do bns <- basements_of (bp node);
  check (forallb soft_copy_is_up_to_date bns) in "assert_leaf_up_to_date";
  Ok tt.

Definition brtnode_put_cmd (node : BRTNODE) (cmd : BRT_MSG) : result BRTNODE :=
  do _ <- toku_assert_entire_node_in_memory node;
  if height node =? 0 then
    do _ <- assert_leaf_up_to_date node;
    Ok node
  else brt_nonleaf_put_cmd node cmd.

Definition brtnode_nonleaf_put_cmd_at_root (node : BRTNODE) (cmd : BRT_MSG)
    : result BRTNODE :=
  check (0 <? height node) in "brtnode_nonleaf_put_cmd_at_root";
  do _ <- toku_assert_entire_node_in_memory node;
  brt_nonleaf_put_cmd node cmd.

Definition push_something_at_root (fuel : nat) (node : BRTNODE) (cmd : BRT_MSG)
    : result BRTNODE :=
  do _ <- toku_assert_entire_node_in_memory node;
  if height node =? 0 then
    do (node, made_dirty) <- toku_apply_cmd_to_leaf fuel node cmd 0;
    Ok (if negb (made_dirty =? 0) then node_set_dirty node true else node)
  else brtnode_nonleaf_put_cmd_at_root node cmd.

(** ** Picking the child to flush *)

Definition nonleaf_node_is_gorged (node : BRTNODE) : result bool :=
  do _ <- toku_assert_entire_node_in_memory node;
  check (0 <? height node) in "nonleaf_node_is_gorged";
  do cis <- (fix childinfos (ps : list brtnode_partition) : result (list NONLEAF_CHILDINFO) :=
               match ps with
               | [] => Ok []
               | p :: ps =>
                   match bp_ptr_of p with
                   | ptr_childinfo ci => do cis <- childinfos ps; Ok (ci :: cis)
                   | _ => Abort (Assert_failed "BNC_NBYTESINBUF")
                   end
               end) (bp node);
  let buffers_are_empty := forallb (fun ci => negb (0 <? bnc_n_bytes_in_buffer ci)) cis in
  Ok ((nodesize node <? u32 (toku_serialize_brtnode_size node)) && negb buffers_are_empty).

(** The loop of [find_heaviest_child] from child [i] on; the weights are
    read as [int]. *)
Fixpoint heaviest_from (ps : list brtnode_partition) (i : Z) (max_child max_weight : Z)
    : result Z :=
  match ps with
  | [] => Ok max_child
  | p :: ps =>
      match bp_ptr_of p with
      | ptr_childinfo ci =>
          let this_weight := i32 (bnc_n_bytes_in_buffer ci) in
          if max_weight <? this_weight then heaviest_from ps (i + 1) i this_weight
          else heaviest_from ps (i + 1) max_child max_weight
      | _ => Abort (Assert_failed "BNC_NBYTESINBUF")
      end
  end.

Definition find_heaviest_child (node : BRTNODE) : result Z :=
  match bp node with
  | [] => Abort (Assert_failed "find_heaviest_child")
  | p :: ps =>
      match bp_ptr_of p with
      | ptr_childinfo ci => heaviest_from ps 1 0 (i32 (bnc_n_bytes_in_buffer ci))
      | _ => Abort (Assert_failed "BNC_NBYTESINBUF")
      end
  end.

End NonleafPut.

(** ** Searches and the page cache *)

Inductive brt_search_direction : Type := BRT_SEARCH_LEFT | BRT_SEARCH_RIGHT.

(** [brt_search_t].  The comparison callback answers 0 or 1 and has the
    search key and context in its closure; it is handed a key or NULL. *)
Record brt_search : Type := {
  search_compare : option DBT -> bool;
  direction : brt_search_direction;
  search_k : option DBT;
  have_pivot_bound : bool;
  pivot_bound : DBT
}.

Section SearchRouting.
Context `{Collaborators}.

Definition search_pivot_is_bounded (search : brt_search) (pivot : DBT) : bool :=
  if negb (have_pivot_bound search) then true
  else
    let comp := compare_fun pivot (pivot_bound search) in
    match direction search with
    | BRT_SEARCH_LEFT => 0 <? comp
    | BRT_SEARCH_RIGHT => comp <? 0
    end.

(** The scan of [toku_brt_search_which_child] from position [c] on:
    [child c] is the [c]-th child in the direction of the search. *)
Fixpoint search_which_child_from (count : nat) (node : BRTNODE) (search : brt_search)
    (c : Z) : result Z :=
  let child c :=
    match direction search with
    | BRT_SEARCH_LEFT => c
    | BRT_SEARCH_RIGHT => n_children node - 1 - c
    end in
  match count with
  | O => Ok (child c)
  | S count =>
      let p := match direction search with
               | BRT_SEARCH_LEFT => child c
               | BRT_SEARCH_RIGHT => child c - 1
               end in
      do pivot <- from_option (childkey node p) "toku_brt_search_which_child";
      if search_pivot_is_bounded search pivot && search_compare search (Some pivot)
      then Ok (child c)
      else search_which_child_from count node search (c + 1)
  end.

Definition toku_brt_search_which_child (node : BRTNODE) (search : brt_search) : result Z :=
  check (0 <? n_children node) in "toku_brt_search_which_child";
  search_which_child_from (Z.to_nat (n_children node - 1)) node search 0.

End SearchRouting.

(** [struct brtnode_fetch_extra]: what a pin must bring into memory. *)
Inductive brtnode_fetch_extra : Type :=
| brtnode_fetch_none
| brtnode_fetch_subset (search : brt_search) (child_to_read : Z)
| brtnode_fetch_all.

Definition fill_bfe_for_full_read : brtnode_fetch_extra := brtnode_fetch_all.
Definition fill_bfe_for_subset_read (search : brt_search) : brtnode_fetch_extra :=
  brtnode_fetch_subset search (-1).

Definition bfe_child_to_read (bfe : brtnode_fetch_extra) : Z :=
  match bfe with
  | brtnode_fetch_subset _ c => c
  | _ => -1
  end.

(** A node of the tree with the subtrees of its children, in the order of
    its partitions, and whether the page cache holds it. *)
#[warnings="-register-all"]
Inductive brt_tree : Type :=
| Tree (cached : bool) (node : BRTNODE) (kids : list brt_tree).

Definition tree_cached (tr : brt_tree) : bool := let 'Tree c _ _ := tr in c.
Definition tree_node (tr : brt_tree) : BRTNODE := let 'Tree _ n _ := tr in n.
Definition tree_kids (tr : brt_tree) : list brt_tree := let 'Tree _ _ k := tr in k.

Definition tree_set_node (tr : brt_tree) (node : BRTNODE) : brt_tree :=
  Tree (tree_cached tr) node (tree_kids tr).
Definition tree_set_kids (tr : brt_tree) (kids : list brt_tree) : brt_tree :=
  Tree (tree_cached tr) (tree_node tr) kids.

Definition kid (tr : brt_tree) (i : Z) : option brt_tree :=
  if i <? 0 then None else tree_kids tr !! Z.to_nat i.

Definition set_kid (tr : brt_tree) (i : Z) (k : brt_tree) : brt_tree :=
  tree_set_kids tr (<[Z.to_nat i := k]> (tree_kids tr)).

Section PageCache.
Context `{Collaborators}.

Definition toku_brtnode_partition_state (bfe : brtnode_fetch_extra) (childnum : Z)
    : pt_state :=
  match bfe with
  | brtnode_fetch_all => PT_AVAIL
  | brtnode_fetch_subset _ child_to_read =>
      if child_to_read =? childnum then PT_AVAIL else PT_COMPRESSED
  | brtnode_fetch_none => PT_COMPRESSED
  end.

(** [toku_brtnode_pf_req_callback]: whether a partial fetch is needed,
    and the fetch request with [child_to_read] filled in. *)
Definition toku_brtnode_pf_req_callback (node : BRTNODE) (bfe : brtnode_fetch_extra)
    : result (bool * brtnode_fetch_extra) :=
  match bfe with
  | brtnode_fetch_none => Ok (false, bfe)
  | brtnode_fetch_all => Ok (negb (forallb partition_avail (bp node)), bfe)
  | brtnode_fetch_subset search _ =>
      do child_to_read <- toku_brt_search_which_child node search;
      do state <- from_option (BP_STATE node child_to_read) "BP_STATE";
      Ok (negb (bool_decide (state = PT_AVAIL)), brtnode_fetch_subset search child_to_read)
  end.

(** The loop of [toku_brtnode_pf_callback] from partition [i] on. *)
Fixpoint pf_partitions (count : nat) (node : BRTNODE) (bfe : brtnode_fetch_extra) (i : Z)
    : result BRTNODE :=
  match count with
  | O => Ok node
  | S count =>
      do state <- from_option (BP_STATE node i) "BP_STATE";
      do node <-
        (if bool_decide (state = PT_AVAIL) then Ok node
         else if bool_decide (toku_brtnode_partition_state bfe i = PT_AVAIL) then
           match state with
           | PT_COMPRESSED => Ok (toku_deserialize_bp_from_compressed node i)
           | PT_ON_DISK => Ok (toku_deserialize_bp_from_disk node i)
           | _ => Abort (Assert_failed "toku_brtnode_pf_callback")
           end
         else Ok node);
      pf_partitions count node bfe (i + 1)
  end.

Definition toku_brtnode_pf_callback (node : BRTNODE) (bfe : brtnode_fetch_extra)
    : result BRTNODE :=
  check (match bfe with brtnode_fetch_none => false | _ => true end)
    in "toku_brtnode_pf_callback";
  pf_partitions (length (bp node)) node bfe 0.

(** Modelled from the spec: the page cache's [get_and_pin], which "may
    fetch a subset of children via the partial_fetch_required /
    partial_fetch callbacks" and leaves the node resident.  The tree holds
    each node as a fetch returns it. *)
Definition toku_cachetable_get_and_pin (tr : brt_tree) (bfe : brtnode_fetch_extra)
    : result (brt_tree * brtnode_fetch_extra) :=
  do (required, bfe) <- toku_brtnode_pf_req_callback (tree_node tr) bfe;
  do node <- (if required : bool then toku_brtnode_pf_callback (tree_node tr) bfe
              else Ok (tree_node tr));
  Ok (Tree true node (tree_kids tr), bfe).

Definition toku_pin_brtnode_holding_lock (fuel : nat) (tr : brt_tree)
    (ancestors : ANCESTORS) (bounds : pivot_bounds) (bfe : brtnode_fetch_extra)
    : result (brt_tree * ANCESTORS * brtnode_fetch_extra) :=
  do (tr, bfe) <- toku_cachetable_get_and_pin tr bfe;
  do (node, ancestors) <-
    maybe_apply_ancestors_messages_to_node fuel (tree_node tr) ancestors bounds;
  Ok (tree_set_node tr node, ancestors, bfe).

(** [compute_child_fullhash]: the node (whose cached hash may be filled
    in) and the hash. *)
Definition compute_child_fullhash (node : BRTNODE) (childnum : Z) : result (BRTNODE * Z) :=
  check ((0 <? height node) && (childnum <? n_children node)) in "compute_child_fullhash";
  do p <- from_option (BP node childnum) "BP_HAVE_FULLHASH";
  if bp_have_fullhash p then
    check (bp_fullhash p =? toku_cachetable_hash (bp_blocknum p)) in "compute_child_fullhash";
    Ok (node, bp_fullhash p)
  else
    let child_fullhash := toku_cachetable_hash (bp_blocknum p) in
    do node <- node_set_partition node childnum (bp_set_hash p true child_fullhash);
    Ok (node, child_fullhash).

(** The child subtree behind slot [childnum]: the page cache hands out
    the node whose name is the slot's block number. *)
Definition child_of (tr : brt_tree) (childnum : Z) : result brt_tree :=
  do p <- from_option (BP (tree_node tr) childnum) "BP_BLOCKNUM";
  do k <- from_option (kid tr childnum) "toku_cachetable_get_and_pin";
  check (thisnodename (tree_node k) =? bp_blocknum p) in "toku_cachetable_get_and_pin";
  Ok k.

End PageCache.

(** ** Splitting a child *)

Section SplitChild.
Context `{Collaborators}.

(** [brt_nonleaf_split] on a subtree: node A keeps the first half of the
    children, the new node B takes the rest, and the pivot between them
    leaves the node. *)
Definition brt_nonleaf_split (t : BRT) (tr : brt_tree)
    : result (BRT * brt_tree * brt_tree * DBT) :=
  let node := tree_node tr in
  do _ <- toku_assert_entire_node_in_memory node;
  let old_n_children := n_children node in
  let n_children_in_a := old_n_children / 2 in
  let n_children_in_b := old_n_children - n_children_in_a in
  let max_msn_applied_to_node := max_msn_applied_to_node_in_memory node in
  check (0 <? height node) in "brt_nonleaf_split";
  check (2 <=? n_children node) in "brt_nonleaf_split";
  do (t, B) <- toku_create_new_brtnode t (height node) n_children_in_b;
  let b_keys := take (Z.to_nat (n_children_in_b - 1))
                     (drop (Z.to_nat n_children_in_a) (childkeys node)) in
  let moved_len := fold_left (fun n k => u32 (n + toku_brt_pivot_key_len k)) b_keys 0 in
  let B := node_set_childkeys (node_set_bp B (drop (Z.to_nat n_children_in_a) (bp node)))
             b_keys (u32 (totalchildkeylens B + moved_len)) in
  do splitk <- from_option (childkey node (n_children_in_a - 1)) "brt_nonleaf_split";
  let node := node_set_childkeys
                (node_set_bp node (take (Z.to_nat n_children_in_a) (bp node)))
                (take (Z.to_nat (n_children_in_a - 1)) (childkeys node))
                (u32 (u32 (totalchildkeylens node - moved_len)
                      - toku_brt_pivot_key_len splitk)) in
  let node := node_set_dirty (node_set_max_msn node max_msn_applied_to_node) true in
  let B := node_set_dirty (node_set_max_msn B max_msn_applied_to_node) true in
  do _ <- toku_assert_entire_node_in_memory node;
  do _ <- toku_assert_entire_node_in_memory B;
  Ok (t,
      Tree (tree_cached tr) node (take (Z.to_nat n_children_in_a) (tree_kids tr)),
      Tree true B (drop (Z.to_nat n_children_in_a) (tree_kids tr)),
      splitk).

(** [handle_split_of_child] on the parent node: a slot for [childb] and
    the pivot are inserted behind slot [childnum]. *)
Definition handle_split_of_child (node : BRTNODE) (childnum : Z)
    (childa childb : BRTNODE) (splitk : DBT) : result BRTNODE :=
  check (0 <? height node) in "handle_split_of_child";
  check ((0 <=? childnum) && (childnum <? n_children node)) in "handle_split_of_child";
  do _ <- toku_assert_entire_node_in_memory node;
  do _ <- toku_assert_entire_node_in_memory childa;
  do _ <- toku_assert_entire_node_in_memory childb;
  do old_count <- from_option (BNC_NBYTESINBUF node childnum) "BNC_NBYTESINBUF";
  check (i32 old_count =? 0) in "handle_split_of_child";
  let node := node_set_dirty node true in
  do pa <- from_option (BP node childnum) "BP_BLOCKNUM";
  check (bp_blocknum pa =? thisnodename childa) in "handle_split_of_child";
  let pb := {| bp_blocknum := thisnodename childb; bp_have_fullhash := true;
               bp_fullhash := fullhash childb; bp_state := PT_AVAIL;
               bp_subtree_est := zero_estimates;
               bp_ptr_of := ptr_childinfo empty_childinfo |} in
  let node := node_set_bp node
                (take (Z.to_nat (childnum + 1)) (bp node) ++ pb
                 :: drop (Z.to_nat (childnum + 1)) (bp node)) in
  do node <- fixup_child_estimates node childnum childa true;
  do node <- fixup_child_estimates node (childnum + 1) childb true;
  let node := node_set_childkeys node
                (take (Z.to_nat childnum) (childkeys node) ++ splitk
                 :: drop (Z.to_nat childnum) (childkeys node))
                (u32 (totalchildkeylens node + toku_brt_pivot_key_len splitk)) in
  do _ <- toku_assert_entire_node_in_memory node;
  Ok node.

(** [brt_split_child].  The flag [did_react], which no caller reads, is
    left out. *)
Definition brt_split_child (t : BRT) (tr : brt_tree) (childnum : Z)
    : result (BRT * brt_tree) :=
  let node := tree_node tr in
  check (0 <? height node) in "brt_split_child";
  do nbytes <- from_option (BNC_NBYTESINBUF node childnum) "BNC_NBYTESINBUF";
  check (nbytes =? 0) in "brt_split_child";
  do (node, _) <- compute_child_fullhash node childnum;
  do child <- child_of tr childnum;
  do (child, _) <- toku_cachetable_get_and_pin child fill_bfe_for_full_read;
  check (negb (thisnodename (tree_node child) =? 0)) in "brt_split_child";
  check (nodesize node <=? h_nodesize t) in "brt_split_child";
  do (t, nodea, nodeb, splitk) <-
    (if height (tree_node child) =? 0 then
       do (t, a, b, splitk) <- brtleaf_split (Some t) (tree_node child) (tree_node child) true;
       do t <- from_option t "brtleaf_split";
       Ok (t, Tree (tree_cached child) a [], Tree true b [], splitk)
     else brt_nonleaf_split t child);
  do node <- handle_split_of_child node childnum (tree_node nodea) (tree_node nodeb) splitk;
  Ok (t, Tree (tree_cached tr) node
           (take (Z.to_nat childnum) (tree_kids tr) ++ nodea :: nodeb
            :: drop (Z.to_nat (childnum + 1)) (tree_kids tr))).

End SplitChild.

(** ** Merging a child with its sibling *)

Section MergeChild.
Context `{Collaborators}.

Definition maybe_merge_pinned_nonleaf_nodes (parent : BRTNODE) (childnum_of_parent : Z)
    (parent_splitk : DBT) (a b : BRTNODE)
    : result (BRTNODE * BRTNODE * BRTNODE * bool * bool * option DBT) :=
  do _ <- toku_assert_entire_node_in_memory a;
  do _ <- toku_assert_entire_node_in_memory b;
  let old_n_children := n_children a in
  let a_keys := take (Z.to_nat (old_n_children - 1)) (childkeys a) ++ parent_splitk
                :: take (Z.to_nat (n_children b - 1)) (childkeys b) in
  let a_total := u32 (totalchildkeylens a
                      + u32 (totalchildkeylens b + toku_brt_pivot_key_len parent_splitk)) in
  let a := node_set_childkeys (node_set_bp a (bp a ++ bp b)) a_keys a_total in
  let b := node_set_totalchildkeylens (node_set_bp b []) 0 in
  let a := node_set_dirty a true in
  let b := node_set_dirty b true in
  do parent <- fixup_child_estimates parent childnum_of_parent a true;
  Ok (parent, a, b, true, false, None).

Definition maybe_merge_pinned_nodes (parent : BRTNODE) (childnum_of_parent : Z)
    (parent_splitk : DBT) (a b : BRTNODE)
    : result (BRTNODE * BRTNODE * BRTNODE * bool * bool * option DBT) :=
  check (height a =? height b) in "maybe_merge_pinned_nodes";
  do _ <- toku_assert_entire_node_in_memory parent;
  do _ <- toku_assert_entire_node_in_memory a;
  do _ <- toku_assert_entire_node_in_memory b;
  let parent := node_set_dirty parent true in
  let msna := max_msn_applied_to_node_in_memory a in
  let msnb := max_msn_applied_to_node_in_memory b in
  let msn_max := if msnb <? msna then msna else msnb in
  check (negb (0 <? height a) || (msn_max <=? max_msn_applied_to_node_in_memory parent))
    in "maybe_merge_pinned_nodes";
  do (parent, a, b, did_merge, did_rebalance, splitk) <-
    (if height a =? 0
     then maybe_merge_pinned_leaf_nodes parent childnum_of_parent a b parent_splitk
     else maybe_merge_pinned_nonleaf_nodes parent childnum_of_parent parent_splitk a b);
  if did_merge || did_rebalance
  then Ok (parent, node_set_max_msn a msn_max, node_set_max_msn b msn_max,
           did_merge, did_rebalance, splitk)
  else Ok (parent, a, b, did_merge, did_rebalance, splitk).

End MergeChild.

(** ** Flushing a child buffer *)

(** What [flush_this_child] needs and yields: the handle, the subtree of
    the node, the child number, [is_first_flush], [flush_recursively],
    the ancestors and the bounds; then the handle, the subtree, the
    ancestors and [*child_re]. *)
Abbreviation flush_fn :=
  (BRT -> brt_tree -> Z -> bool -> bool -> list (BRTNODE * Z) -> pivot_bounds ->
   result (BRT * brt_tree * list (BRTNODE * Z) * reactivity)) (only parsing).

Section Flush.
Context `{Collaborators}.

Definition ptr_childinfo_of (p : brtnode_partition) : result NONLEAF_CHILDINFO :=
  match bp_ptr_of p with
  | ptr_childinfo ci => Ok ci
  | _ => Abort (Assert_failed "BNC_BUFFER")
  end.

(** One turn of a drain loop on the parent: [toku_fifo_deq] and the
    update of [BNC_NBYTESINBUF]. *)
Definition deq_and_account (node : BRTNODE) (childnum : Z) (e : fifo_entry)
    : result BRTNODE :=
  do p <- from_option (BP node childnum) "BNC_BUFFER";
  do ci <- ptr_childinfo_of p;
  let n_bytes_removed := fifo_entry_bytes (dbt_size (fe_key e)) (dbt_size (fe_val e))
                                          (fe_xids e) in
  do rest <- match bnc_buffer ci with
             | _ :: rest => Ok rest
             | [] => Abort (Assert_failed "toku_fifo_deq")
             end;
  let ci := {| bnc_buffer := rest;
               bnc_n_bytes_in_buffer := u32 (bnc_n_bytes_in_buffer ci - n_bytes_removed) |} in
  node_set_partition node childnum (bp_set_ptr p (ptr_childinfo ci)).

(** The drain loop for a leaf child: the messages are discarded. *)
Fixpoint drain_to_leaf (fuel : nat) (node : BRTNODE) (childnum : Z) : result BRTNODE :=
  match fuel with
  | O => Abort Out_of_fuel
  | S fuel =>
      do fifo <- from_option (BNC_BUFFER node childnum) "BNC_BUFFER";
      match fifo with
      | [] => Ok node
      | e :: _ =>
          do node <- deq_and_account node childnum e;
          drain_to_leaf fuel node childnum
      end
  end.

(** The drain loop for a nonleaf child: each message is put into the
    child before it is dequeued. *)
Fixpoint drain_to_nonleaf (fuel : nat) (node child : BRTNODE) (childnum : Z)
    : result (BRTNODE * BRTNODE) :=
  match fuel with
  | O => Abort Out_of_fuel
  | S fuel =>
      do fifo <- from_option (BNC_BUFFER node childnum) "BNC_BUFFER";
      match fifo with
      | [] => Ok (node, child)
      | e :: _ =>
          do child <- brtnode_put_cmd child (msg_of_entry e);
          do node <- deq_and_account node childnum e;
          let node := node_set_dirty node true in
          drain_to_nonleaf fuel node child childnum
      end
  end.

(** [brt_merge_child], over the flush it calls.  The flag [did_react],
    which no caller reads, is left out. *)
Definition brt_merge_child (flush : flush_fn) (t : BRT) (tr : brt_tree)
    (childnum_to_merge : Z) (ancestors : ANCESTORS) (bounds : pivot_bounds)
    : result (BRT * brt_tree * ANCESTORS) :=
  if n_children (tree_node tr) <? 2 then Ok (t, tr, ancestors)
  else
    do _ <- toku_assert_entire_node_in_memory (tree_node tr);
    let '(childnuma, childnumb) :=
      if 0 <? childnum_to_merge then (childnum_to_merge - 1, childnum_to_merge)
      else (childnum_to_merge, childnum_to_merge + 1) in
    check (0 <=? childnuma) in "brt_merge_child";
    check (childnumb <? n_children (tree_node tr)) in "brt_merge_child";
    check (0 <? height (tree_node tr)) in "brt_merge_child";
    let next_bounds_a := next_pivot_keys (tree_node tr) childnuma bounds in
    let next_bounds_b := next_pivot_keys (tree_node tr) childnumb bounds in
    do fifo_a <- from_option (BNC_BUFFER (tree_node tr) childnuma) "BNC_BUFFER";
    do (t, tr, ancestors) <-
      (if 0 <? Z.of_nat (length fifo_a) then
         do (t, tr, ancestors, _) <- flush t tr childnuma false false ancestors next_bounds_a;
         Ok (t, tr, ancestors)
       else Ok (t, tr, ancestors));
    do fifo_b <- from_option (BNC_BUFFER (tree_node tr) childnumb) "BNC_BUFFER";
    do (t, tr, ancestors) <-
      (if 0 <? Z.of_nat (length fifo_b) then
         do (t, tr, ancestors, _) <- flush t tr childnumb false false ancestors next_bounds_b;
         Ok (t, tr, ancestors)
       else Ok (t, tr, ancestors));
    let node := tree_node tr in
    do (node, _) <- compute_child_fullhash node childnuma;
    do childa <- child_of tr childnuma;
    do (childa, _) <- toku_cachetable_get_and_pin childa fill_bfe_for_full_read;
    do (node, _) <- compute_child_fullhash node childnumb;
    do childb <- child_of tr childnumb;
    do (childb, _) <- toku_cachetable_get_and_pin childb fill_bfe_for_full_read;
    do old_split_key <- from_option (childkey node childnuma) "brt_merge_child";
    let deleted_size := toku_brt_pivot_key_len old_split_key in
    do (node, a, b, did_merge, did_rebalance, splitk_kvpair) <-
      maybe_merge_pinned_nodes node childnuma old_split_key
                               (tree_node childa) (tree_node childb);
    check (negb (0 <? height a)
           || (n_children a - 1 <=? Z.of_nat (length (childkeys a)))) in "brt_merge_child";
    check (if did_merge then negb (is_Some_bool splitk_kvpair) else is_Some_bool splitk_kvpair)
      in "brt_merge_child";
    let node := node_set_totalchildkeylens node (u32 (totalchildkeylens node - deleted_size)) in
    if did_merge then
      let node := node_set_childkeys
                    (node_set_bp node (delete (Z.to_nat childnumb) (bp node)))
                    (delete (Z.to_nat childnuma) (childkeys node))
                    (totalchildkeylens node) in
      do node <- fixup_child_estimates node childnuma a true;
      do pa <- from_option (BP node childnuma) "BP_BLOCKNUM";
      check (bp_blocknum pa =? thisnodename a) in "brt_merge_child";
      let a := node_set_dirty a true in
      let b := node_set_dirty b true in
      check (dirty node) in "brt_merge_child";
      let merged := Tree (tree_cached childa) a (tree_kids childa ++ tree_kids childb) in
      let t := toku_free_blocknum t (thisnodename b) in
      Ok (t,
          Tree (tree_cached tr) node
               (delete (Z.to_nat childnumb) (<[Z.to_nat childnuma := merged]> (tree_kids tr))),
          ancestors)
    else
      do pivot <- from_option splitk_kvpair "brt_merge_child";
      let node := node_set_childkeys node
                    (<[Z.to_nat childnuma := pivot]> (childkeys node))
                    (u32 (totalchildkeylens node + toku_brt_pivot_key_len pivot)) in
      let node := node_set_dirty node true in
      check (dirty node) in "brt_merge_child";
      Ok (t,
          Tree (tree_cached tr) node
               (<[Z.to_nat childnumb := tree_set_node childb b]>
                  (<[Z.to_nat childnuma := tree_set_node childa a]> (tree_kids tr))),
          ancestors).

Definition brt_handle_maybe_reactive_child (flush : flush_fn) (t : BRT) (tr : brt_tree)
    (childnum : Z) (re : reactivity) (ancestors : ANCESTORS) (bounds : pivot_bounds)
    : result (BRT * brt_tree * ANCESTORS) :=
  match re with
  | RE_STABLE => Ok (t, tr, ancestors)
  | RE_FISSIBLE =>
      do (t, tr) <- brt_split_child t tr childnum;
      Ok (t, tr, ancestors)
  | RE_FUSIBLE => brt_merge_child flush t tr childnum ancestors bounds
  end.

Definition flush_some_child (flush : flush_fn) (t : BRT) (tr : brt_tree)
    (is_first_flush flush_recursively : bool) (ancestors : ANCESTORS)
    (bounds : pivot_bounds) : result (BRT * brt_tree * ANCESTORS) :=
  check (0 <? height (tree_node tr)) in "flush_some_child";
  do _ <- toku_assert_entire_node_in_memory (tree_node tr);
  do childnum <- find_heaviest_child (tree_node tr);
  do fifo <- from_option (BNC_BUFFER (tree_node tr) childnum) "BNC_BUFFER";
  check (0 <? Z.of_nat (length fifo)) in "flush_some_child";
  do (t, tr, ancestors, child_re) <-
    flush t tr childnum is_first_flush flush_recursively ancestors bounds;
  brt_handle_maybe_reactive_child flush t tr childnum child_re ancestors bounds.

(** The loop that flushes a gorged nonleaf child in turn; the parent is
    the head of [next_ancestors]. *)
Fixpoint flush_while_gorged (fuel : nat) (flush : flush_fn) (t : BRT) (child : brt_tree)
    (is_first_flush : bool) (n_flushed : Z) (next_ancestors : ANCESTORS)
    (next_bounds : pivot_bounds) : result (BRT * brt_tree * ANCESTORS) :=
  match fuel with
  | O => Abort Out_of_fuel
  | S fuel =>
      do gorged <- nonleaf_node_is_gorged (tree_node child);
      if (gorged : bool) && (is_first_flush || (n_flushed =? 0)) then
        do (t, child, next_ancestors) <-
          flush_some_child flush t child (is_first_flush && (n_flushed =? 0)) true
                           next_ancestors next_bounds;
        flush_while_gorged fuel flush t child is_first_flush (n_flushed + 1)
                           next_ancestors next_bounds
      else Ok (t, child, next_ancestors)
  end.

(** The body of [flush_this_child]; [flush] stands for the calls of
    [flush_this_child] further down the tree. *)
Definition flush_this_child_body (fuel : nat) (flush : flush_fn) (t : BRT) (tr : brt_tree)
    (childnum : Z) (is_first_flush flush_recursively : bool)
    (ancestors : ANCESTORS) (bounds : pivot_bounds)
    : result (BRT * brt_tree * ANCESTORS * reactivity) :=
  let node := tree_node tr in
  do _ <- toku_assert_entire_node_in_memory node;
  let next_bounds := next_pivot_keys node childnum bounds in
  check (0 <? height node) in "flush_this_child";
  do (node, _) <- compute_child_fullhash node childnum;
  do child <- child_of tr childnum;
  do (child, next_ancestors, _) <-
    toku_pin_brtnode_holding_lock fuel child ((node, childnum) :: ancestors)
                                  next_bounds fill_bfe_for_full_read;
  do (node, ancestors) <-
    match next_ancestors with
    | (node, _) :: ancestors => Ok (node, ancestors)
    | [] => Abort (Assert_failed "ancestors")
    end;
  do _ <- toku_assert_entire_node_in_memory node;
  check (negb (thisnodename (tree_node child) =? 0)) in "flush_this_child";
  if height (tree_node child) =? 0 then
    do _ <- assert_leaf_up_to_date (tree_node child);
    do node <- drain_to_leaf fuel node childnum;
    let node := node_set_dirty node true in
    let child := tree_set_node child (node_set_dirty (tree_node child) true) in
    do node <- fixup_child_estimates node childnum (tree_node child) true;
    do child_re <- get_node_reactivity (tree_node child);
    Ok (t, Tree (tree_cached tr) node (<[Z.to_nat childnum := child]> (tree_kids tr)),
        ancestors, child_re)
  else
    do fifo <- from_option (BNC_BUFFER node childnum) "BNC_BUFFER";
    check (0 <? Z.of_nat (length fifo)) in "flush_this_child";
    do (node, child_node) <- drain_to_nonleaf fuel node (tree_node child) childnum;
    let child := tree_set_node child child_node in
    do (t, child, next_ancestors) <-
      (if flush_recursively
       then flush_while_gorged fuel flush t child is_first_flush 0
                               ((node, childnum) :: ancestors) next_bounds
       else Ok (t, child, (node, childnum) :: ancestors));
    do (node, ancestors) <-
      match next_ancestors with
      | (node, _) :: ancestors => Ok (node, ancestors)
      | [] => Abort (Assert_failed "ancestors")
      end;
    do node <- fixup_child_estimates node childnum (tree_node child) true;
    do child_re <- get_node_reactivity (tree_node child);
    Ok (t, Tree (tree_cached tr) node (<[Z.to_nat childnum := child]> (tree_kids tr)),
        ancestors, child_re).

(** [flush_this_child]; [fuel] bounds the depth of the calls and the
    length of the loops. *)
Fixpoint flush_this_child (fuel : nat) (t : BRT) (tr : brt_tree) (childnum : Z)
    (is_first_flush flush_recursively : bool) (ancestors : ANCESTORS)
    (bounds : pivot_bounds) : result (BRT * brt_tree * ANCESTORS * reactivity) :=
  match fuel with
  | O => Abort Out_of_fuel
  | S fuel =>
      flush_this_child_body fuel (flush_this_child fuel) t tr childnum
                            is_first_flush flush_recursively ancestors bounds
  end.

End Flush.

(** ** Inserting a message at the root *)

Section RootPut.
Context `{Collaborators}.

(** [brt_init_new_root]: the handle with its new root block, and the new
    root above [nodea] and [nodeb]. *)
Definition brt_init_new_root (t : BRT) (nodea nodeb : brt_tree) (splitk : DBT)
    (splitk_size : Z) : result (BRT * brt_tree) :=
  let new_height := height (tree_node nodea) + 1 in
  let '(t, newroot_diskoff) := toku_allocate_blocknum t in
  let t := brt_set_root t newroot_diskoff in
  check (0 <? new_height) in "brt_init_new_root";
  do newroot <- toku_initialize_empty_brtnode newroot_diskoff new_height 2
                  (h_layout_version t) (h_nodesize t) (brt_flags t);
  let newroot := node_set_childkeys newroot [splitk] splitk_size in
  do p0 <- from_option (BP newroot 0) "BP_BLOCKNUM";
  do newroot <- node_set_partition newroot 0
                  (bp_set_hash (bp_set_blocknum p0 (thisnodename (tree_node nodea))) false
                               (bp_fullhash p0));
  do p1 <- from_option (BP newroot 1) "BP_BLOCKNUM";
  do newroot <- node_set_partition newroot 1
                  (bp_set_hash (bp_set_blocknum p1 (thisnodename (tree_node nodeb))) false
                               (bp_fullhash p1));
  do newroot <- fixup_child_estimates newroot 0 (tree_node nodea) true;
  do newroot <- fixup_child_estimates newroot 1 (tree_node nodeb) true;
  let msna := max_msn_applied_to_node_in_memory (tree_node nodea) in
  let msnb := max_msn_applied_to_node_in_memory (tree_node nodeb) in
  check (msna =? msnb) in "brt_init_new_root";
  let newroot := node_set_max_msn newroot msna in
  let newroot := node_set_bp newroot (map (fun p => bp_set_state p PT_AVAIL) (bp newroot)) in
  let newroot := node_set_dirty newroot true in
  let newroot := node_set_fullhash newroot (toku_cachetable_hash newroot_diskoff) in
  Ok (t, Tree true newroot [nodea; nodeb]).

Definition brt_handle_maybe_reactive_root (t : BRT) (root : brt_tree)
    : result (BRT * brt_tree) :=
  let node := tree_node root in
  do _ <- toku_assert_entire_node_in_memory node;
  do re <- get_node_reactivity node;
  match re with
  | RE_STABLE => Ok (t, root)
  | RE_FISSIBLE =>
      check (nodesize node <=? h_nodesize t) in "brt_handle_maybe_reactive_root";
      if height node =? 0 then
        do (t, a, b, splitk) <- brtleaf_split (Some t) node node true;
        do t <- from_option t "brtleaf_split";
        brt_init_new_root t (Tree (tree_cached root) a []) (Tree true b [])
                          splitk (dbt_size splitk)
      else
        do (t, nodea, nodeb, splitk) <- brt_nonleaf_split t root;
        brt_init_new_root t nodea nodeb splitk (toku_brt_pivot_key_len splitk)
  | RE_FUSIBLE => Ok (t, root)
  end.

(** The walk type of [apply_cmd_to_in_memory_non_root_leaves]: a subtree
    and the node above it with the slot taken (NULL at the root) go in
    and come out. *)
Abbreviation walk_fn :=
  (brt_tree -> BRT_MSG -> bool -> option (BRTNODE * Z) ->
   result (brt_tree * option (BRTNODE * Z))) (only parsing).

(** The loop over the children for a broadcast message. *)
Fixpoint walk_children (walk : walk_fn) (count : nat) (tr : brt_tree) (childnum : Z)
    (cmd : BRT_MSG) : result brt_tree :=
  match count with
  | O => Ok tr
  | S count =>
      do p <- from_option (BP (tree_node tr) childnum) "BP_HAVE_FULLHASH";
      check (bp_have_fullhash p) in "apply_cmd_to_in_memory_non_root_leaves";
      do child <- child_of tr childnum;
      do (child, parent) <- walk child cmd false (Some (tree_node tr, childnum));
      do (node, _) <- from_option parent "apply_cmd_to_in_memory_non_root_leaves";
      let tr := set_kid (tree_set_node tr node) childnum child in
      walk_children walk count tr (childnum + 1) cmd
  end.

Fixpoint apply_cmd_to_in_memory_non_root_leaves (fuel : nat) (tr : brt_tree)
    (cmd : BRT_MSG) (is_root : bool) (parent : option (BRTNODE * Z))
    : result (brt_tree * option (BRTNODE * Z)) :=
  match fuel with
  | O => Abort Out_of_fuel
  | S fuel =>
      (* toku_cachetable_get_and_pin_if_in_memory *)
      if negb (tree_cached tr) then Ok (tr, parent)
      else
        do tr <-
          (if 0 <? height (tree_node tr) then
             if brt_msg_applies_once cmd then
               do childnum <- toku_brtnode_which_child (tree_node tr) (cmd_key cmd);
               do (node, _) <- compute_child_fullhash (tree_node tr) childnum;
               let tr := tree_set_node tr node in
               do child <- child_of tr childnum;
               do (child, parent) <-
                 apply_cmd_to_in_memory_non_root_leaves fuel child cmd false
                   (Some (node, childnum));
               do (node, _) <- from_option parent "apply_cmd_to_in_memory_non_root_leaves";
               Ok (set_kid (tree_set_node tr node) childnum child)
             else if brt_msg_applies_all cmd then
               walk_children (apply_cmd_to_in_memory_non_root_leaves fuel)
                             (length (bp (tree_node tr))) tr 0 cmd
             else
               check (brt_msg_does_nothing cmd) in "apply_cmd_to_in_memory_non_root_leaves";
               Ok tr
           else if negb is_root then
             do (node, _) <- toku_apply_cmd_to_leaf fuel (tree_node tr) cmd 0;
             Ok (tree_set_node tr node)
           else Ok tr);
        do parent <-
          match parent with
          | Some (pnode, parents_childnum) =>
              do pnode <- fixup_child_estimates pnode parents_childnum (tree_node tr) false;
              Ok (Some (pnode, parents_childnum))
          | None => Ok None
          end;
        Ok (tr, parent)
  end.

(** [toku_brt_root_put_cmd]: the handle, the tree and the stamped
    message. *)
Definition toku_brt_root_put_cmd (fuel : nat) (t : BRT) (root : brt_tree) (cmd : BRT_MSG)
    : result (BRT * brt_tree * BRT_MSG) :=
  let t := {| brt_flags := brt_flags t; h_nodesize := h_nodesize t;
              h_layout_version := h_layout_version t; h_root := h_root t;
              h_root_put_counter := global_root_put_counter t;
              global_root_put_counter := u64 (global_root_put_counter t + 1);
              blocktable_next := blocktable_next t;
              blocktable_freed := blocktable_freed t |} in
  let fullhash_ := toku_cachetable_hash (h_root t) in
  check (thisnodename (tree_node root) =? h_root t) in "toku_cachetable_get_and_pin";
  do (root, _, _) <-
    toku_pin_brtnode_holding_lock fuel root [] infinite_bounds fill_bfe_for_full_read;
  let node := tree_node root in
  do _ <- toku_assert_entire_node_in_memory node;
  let cmd := set_msn cmd (u64 (max_msn_applied_to_node_in_memory node + 1)) in
  check (fullhash node =? fullhash_) in "toku_brt_root_put_cmd";
  check (brt_flags t =? flags node) in "brt_verify_flags";
  do node <- push_something_at_root fuel node cmd;
  do _ <- guard_fault (cmd_msn cmd =? max_msn_applied_to_node_in_memory node)
            Invariant_root_msn;
  let root := tree_set_node root node in
  do (root, _) <- apply_cmd_to_in_memory_non_root_leaves fuel root cmd true None;
  do gorged <- (if 0 <? height (tree_node root)
                then nonleaf_node_is_gorged (tree_node root) else Ok false);
  do (t, root) <-
    (if gorged : bool then
       do (t, root, _) <- flush_some_child (flush_this_child fuel) t root true true
                                           [] infinite_bounds;
       Ok (t, root)
     else Ok (t, root));
  do (t, root) <- brt_handle_maybe_reactive_root t root;
  Ok (t, root, cmd).

End RootPut.

(** ** Frames and invariants used in the statements *)

(** What the tree-shaping code never changes on a node it works on. *)
Definition node_frame (n n' : BRTNODE) : Prop :=
  max_msn_applied_to_node_in_memory n' = max_msn_applied_to_node_in_memory n
  /\ max_msn_applied_to_node_on_disk n' = max_msn_applied_to_node_on_disk n
  /\ height n' = height n
  /\ thisnodename n' = thisnodename n
  /\ nodesize n' = nodesize n
  /\ flags n' = flags n
  /\ fullhash n' = fullhash n.

(** [n'] is [n] with other subtree estimates. *)
Definition estimates_only (n n' : BRTNODE) : Prop :=
  n' = node_set_bp n (bp n')
  /\ Forall2 (fun p p' => p' = bp_set_est p (bp_subtree_est p')) (bp n) (bp n').

Definition ancestors_estimates_only (a a' : list (BRTNODE * Z)) : Prop :=
  Forall2 (fun x x' => estimates_only (fst x) (fst x') /\ snd x' = snd x) a a'.

Section Accounting.
Context `{Collaborators}.

(** The bytes that the messages of a buffer account for. *)
Definition buffer_bytes (fifo : list fifo_entry) : Z :=
  fold_right (fun e acc => fifo_entry_bytes (dbt_size (fe_key e)) (dbt_size (fe_val e))
                                            (fe_xids e) + acc) 0 fifo.

(** The representation invariant of a child buffer: the tracked byte
    count is the 32-bit sum of the sizes of the queued messages. *)
Definition bnc_bytes_consistent (ci : NONLEAF_CHILDINFO) : Prop :=
  bnc_n_bytes_in_buffer ci = u32 (buffer_bytes (bnc_buffer ci)).

End Accounting.

(** [n'] holds what [n] holds in every partition: payload, state and
    child block. *)
Definition buffers_kept (n n' : BRTNODE) : Prop :=
  bp_ptr_of <$> bp n' = bp_ptr_of <$> bp n
  /\ bp_state <$> bp n' = bp_state <$> bp n
  /\ bp_blocknum <$> bp n' = bp_blocknum <$> bp n.

(** [n'] is [n] except for the payload of partition [childnum] and the
    dirty bit. *)
Definition only_buffer_changed (childnum : Z) (n n' : BRTNODE) : Prop :=
  node_frame n n'
  /\ childkeys n' = childkeys n
  /\ length (bp n') = length (bp n)
  /\ (forall j, j <> childnum -> BP n' j = BP n j)
  /\ bp_state <$> bp n' = bp_state <$> bp n
  /\ bp_blocknum <$> bp n' = bp_blocknum <$> bp n.

(** A flush hands back the ancestors it was given, up to estimates. *)
Definition flush_keeps_ancestors (flush : flush_fn) : Prop :=
  forall t tr c f r anc b t' tr' anc' re,
    flush t tr c f r anc b = Ok (t', tr', anc', re) -> ancestors_estimates_only anc anc'.

(** A root of height 1 whose only child, a leaf in memory, has two
    messages waiting in its buffer; and a root of height 2 above a
    nonleaf child. *)
Module SampleFlush.

Definition handle : BRT :=
  {| brt_flags := 0; h_nodesize := 4096; h_layout_version := 14; h_root := 2;
     h_root_put_counter := 0; global_root_put_counter := 0;
     blocktable_next := 10; blocktable_freed := [] |}.

(** The child hashes are not cached yet. *)
Definition unhashed (n : BRTNODE) : BRTNODE :=
  node_set_bp n (map (fun p => bp_set_hash p false 0) (bp n)).

Definition tree : brt_tree :=
  Tree true (unhashed SampleReplay.parent) [ Tree true SampleReplay.cold_leaf [] ].

Definition waiting : NONLEAF_CHILDINFO :=
  SampleReplay.childinfo [ SampleReplay.insert 2 "apple" "1"; SampleReplay.insert 5 "berry" "2" ].

Definition flushed : BRT * brt_tree * ANCESTORS * reactivity :=
  Eval vm_compute in
    match flush_this_child (H := Sample.collaborators) 6 handle tree 0 true true []
                           infinite_bounds with
    | Ok r => r
    | Abort _ => (handle, tree, [], RE_STABLE)
    end.

Definition inner : brt_tree :=
  Tree true
    (unhashed (SampleReplay.nonleaf 7 1 4096 3 false []
       [ SampleReplay.nonleaf_partition 9
           (SampleNodes.estimates_of [ SampleNodes.committed "apple" "1" ]) [] ]))
    [ Tree true (SampleNodes.leaf 9 4096 3 false []
                   [ SampleNodes.basement [ SampleNodes.committed "apple" "1" ] 0 false ]) [] ].

Definition top : brt_tree :=
  Tree true
    (unhashed (SampleReplay.nonleaf 2 2 4096 5 false []
       [ SampleReplay.nonleaf_partition 7
           (SampleNodes.estimates_of [ SampleNodes.committed "apple" "1" ])
           [ SampleReplay.insert 4 "apple" "1"; SampleReplay.insert 5 "berry" "2" ] ]))
    [ inner ].

(** The flush of the root of [top] without recursive flushing, as
    [brt_merge_child] asks for it. *)
Definition moved : BRT * brt_tree * ANCESTORS * reactivity :=
  Eval vm_compute in
    match flush_this_child (H := Sample.collaborators) 6 handle top 0 false false []
                           infinite_bounds with
    | Ok r => r
    | Abort _ => (handle, top, [], RE_STABLE)
    end.

End SampleFlush.

(** What is assumed of the two partition readers, which are not part
    of this file's source: they fill a partition and leave the header
    fields of the node alone. *)
Definition deserialize_keeps_frame `{Collaborators} : Prop :=
  forall node i,
    node_frame node (toku_deserialize_bp_from_compressed node i)
    /\ node_frame node (toku_deserialize_bp_from_disk node i).

(** The parent handed to a walk and the parent it hands back. *)
Definition parent_frame (parent parent' : option (BRTNODE * Z)) : Prop :=
  match parent, parent' with
  | Some (p, c), Some (p', c') => node_frame p p' /\ c' = c
  | None, None => True
  | _, _ => False
  end.

(** A flush leaves the header of the node it works on as it was. *)
Definition flush_keeps_frame (flush : flush_fn) : Prop :=
  forall t tr c f r anc b t' tr' anc' re,
    flush t tr c f r anc b = Ok (t', tr', anc', re) ->
    node_frame (tree_node tr) (tree_node tr').

(** A sequence of puts at the root, each on the tree that the one
    before it left; the stamped messages are collected in order. *)
Fixpoint root_puts `{Collaborators} (fuel : nat) (t : BRT) (root : brt_tree)
    (cmds : list BRT_MSG) : result (BRT * brt_tree * list BRT_MSG) :=
  match cmds with
  | [] => Ok (t, root, [])
  | cmd :: cmds =>
      do (t, root, stamped) <- toku_brt_root_put_cmd fuel t root cmd;
      do (t, root, rest) <- root_puts fuel t root cmds;
      Ok (t, root, stamped :: rest)
  end.

(** An empty tree with small nodes, and the messages of a short
    workload. *)
Module SamplePuts.

Definition handle : BRT :=
  {| brt_flags := 0; h_nodesize := 120; h_layout_version := 14; h_root := 1;
     h_root_put_counter := 0; global_root_put_counter := 0;
     blocktable_next := 2; blocktable_freed := [] |}.

Definition root : brt_tree :=
  Tree true
    (node_set_fullhash
       (SampleNodes.leaf 1 120 0 false [] [ SampleNodes.basement [] 0 true ])
       (toku_cachetable_hash (Collaborators := Sample.collaborators) 1))
    [].

Definition insert (key val : DBT) : BRT_MSG :=
  {| cmd_type := BRT_INSERT; cmd_msn := 0; cmd_xids := [0]; cmd_key := key; cmd_val := val |}.

Definition workload : list BRT_MSG :=
  [ insert "ba" "0"; insert "ch" "1"; insert "ax" "2"; insert "aj" "3"; insert "ac" "4";
    insert "af" "5"; insert "as" "6"; insert "br" "7"; insert "bv" "8"; insert "aw" "9";
    insert "cf" "10"; insert "az" "11"; insert "at" "12"; insert "ak" "13";
    insert "ad" "14"; insert "al" "15"; insert "bd" "16"; insert "bl" "17";
    insert "ap" "18"; insert "bj" "19" ].

Definition first_put : BRT * brt_tree * BRT_MSG :=
  Eval vm_compute in
    match toku_brt_root_put_cmd (H := Sample.collaborators) 40 handle root
                                (insert "ba" "0") with
    | Ok r => r
    | Abort _ => (handle, root, insert "" "")
    end.

End SamplePuts.

(** ** The search path *)

(** The return codes of the public interface and the ordered-map search
    of omt.c, which are not part of this file's source.
    [toku_omt_find omt h direction] answers a return code and, when the
    code is 0, the entry found and its index. *)
Class SearchCollaborators : Type := {
  DB_NOTFOUND : Z;
  TOKUDB_FOUND_BUT_REJECTED : Z;
  TOKUDB_TRY_AGAIN : Z;
  toku_omt_find : list LEAFENTRY -> (LEAFENTRY -> Z) -> Z -> Z * option (LEAFENTRY * Z)
}.

(** The three codes are different error codes. *)
Definition codes_distinct `{SearchCollaborators} : Prop :=
  DB_NOTFOUND <> 0 /\ TOKUDB_FOUND_BUT_REJECTED <> 0 /\ TOKUDB_TRY_AGAIN <> 0
  /\ DB_NOTFOUND <> TOKUDB_FOUND_BUT_REJECTED
  /\ DB_NOTFOUND <> TOKUDB_TRY_AGAIN
  /\ TOKUDB_FOUND_BUT_REJECTED <> TOKUDB_TRY_AGAIN.

(** The part of [struct brt_cursor] that a successful search writes:
    [current_in_omt] and [leaf_info.to_be]. *)
Record cursor_position : Type := {
  current_in_omt : bool;
  to_be_omt : list LEAFENTRY;
  to_be_index : Z
}.

(** What the callback [getf] is handed: [None] for the call with a NULL
    key, else the key and the value (NULL for a deleted version). *)
Abbreviation getf_arg := (option (DBT * option DBT)) (only parsing).

(** The callback's own state [getf_v], and the calls made so far with
    the code each returned (kept to state properties of the calls). *)
Record getf_world (V : Type) : Type := {
  getf_v : V;
  getf_calls : list (option (DBT * option DBT) * Z)
}.
Arguments getf_v {V} _.
Arguments getf_calls {V} _.

Section Search.
Context `{Collaborators} `{SearchCollaborators}.
Variable V : Type.
Variable getf : option (DBT * option DBT) -> V -> Z * V.

Definition call_getf (arg : option (DBT * option DBT)) (w : getf_world V)
    : Z * getf_world V :=
  let '(r, v) := getf arg (getf_v w) in
  (r, {| getf_v := v; getf_calls := getf_calls w ++ [(arg, r)] |}).

Definition pair_leafval_heaviside_le (kval : DBT) (search : brt_search) : Z :=
  let cmp := search_compare search
               (if is_Some_bool (search_k search) then Some kval else None) in
  match direction search with
  | BRT_SEARCH_LEFT => if negb cmp then -1 else 1
  | BRT_SEARCH_RIGHT => if negb cmp then 1 else -1
  end.

Definition heaviside_from_search_t (search : brt_search) (le : LEAFENTRY) : Z :=
  pair_leafval_heaviside_le (le_key le) search.

(** The [while (1)] loop of [brt_search_basement_node] past the deleted
    entries; [None] stands for its [return DB_NOTFOUND]. *)
Fixpoint scan_past_deleted (count : nat) (omt : list LEAFENTRY) (search : brt_search)
    (brtcursor : BRT_CURSOR) (idx : Z) : result (option (LEAFENTRY * Z)) :=
  match count with
  | O => Abort Out_of_fuel
  | S count =>
      let next :=
        match direction search with
        | BRT_SEARCH_LEFT =>
            let idx := u32 (idx + 1) in
            if toku_omt_size omt <=? idx then None else Some idx
        | BRT_SEARCH_RIGHT =>
            if idx =? 0 then None else Some (idx - 1)
        end in
      match next with
      | None => Ok None
      | Some idx =>
          do le <- from_option (toku_omt_fetch omt idx) "toku_omt_fetch";
          do del <- from_option (is_le_val_del le brtcursor) "le_iterate_is_del";
          if negb del then Ok (Some (le, idx))
          else scan_past_deleted count omt search brtcursor idx
      end
  end.

(** [brt_search_basement_node]: the return code, the callback's world
    and the cursor.  Prefetching is compiled out ([TOKU_DO_PREFETCH] is
    0), so [doprefetch] is left out. *)
Definition brt_search_basement_node (bn : BASEMENTNODE) (search : brt_search)
    (w : getf_world V) (brtcursor : BRT_CURSOR) (pos : cursor_position)
    : result (Z * getf_world V * cursor_position) :=
  check (soft_copy_is_up_to_date bn) in "brt_search_basement_node";
  let direction_ := match direction search with
                    | BRT_SEARCH_LEFT => 1
                    | BRT_SEARCH_RIGHT => -1
                    end in
  let '(r, found) := toku_omt_find (bn_buffer bn) (heaviside_from_search_t search)
                                   direction_ in
  if negb (r =? 0) then Ok (r, w, pos)
  else
    do (le, idx) <- from_option found "toku_omt_find";
    do good <-
      (if is_leaf_mode brtcursor then Ok (Some (le, idx))
       else
         do del <- from_option (is_le_val_del le brtcursor) "le_iterate_is_del";
         if del : bool
         then scan_past_deleted (S (length (bn_buffer bn))) (bn_buffer bn) search
                                brtcursor idx
         else Ok (Some (le, idx)));
    match good with
    | None => Ok (DB_NOTFOUND, w, pos)
    | Some (le, idx) =>
        do (key, val) <- from_option (brt_cursor_extract_key_and_val le brtcursor)
                           "brt_cursor_extract_key_and_val";
        check (negb (current_in_omt pos)) in "brt_search_basement_node";
        let '(r, w) := call_getf (Some (key, val)) w in
        if r =? 0 then
          (* brt_cursor_update *)
          Ok (r, w, {| current_in_omt := true; to_be_omt := bn_buffer bn;
                       to_be_index := idx |})
        else Ok (r, w, pos)
    end.

(** Modelled from the spec: "pin_nonblocking: returns TRY_AGAIN if the
    node requires I/O while any other node is pinned on this thread";
    during a descent the node above is pinned.  The I/O is done before
    the return, so that the retry finds the node. *)
Definition toku_cachetable_get_and_pin_nonblocking (tr : brt_tree)
    (bfe : brtnode_fetch_extra) : result (Z * brt_tree * brtnode_fetch_extra) :=
  do (required, bfe') <- toku_brtnode_pf_req_callback (tree_node tr) bfe;
  if negb (tree_cached tr) || required then
    do (tr, bfe) <- toku_cachetable_get_and_pin tr bfe;
    Ok (TOKUDB_TRY_AGAIN, tr, bfe)
  else Ok (0, tr, bfe').

Definition toku_pin_brtnode (fuel : nat) (tr : brt_tree) (ancestors : ANCESTORS)
    (bounds : pivot_bounds) (bfe : brtnode_fetch_extra)
    : result (Z * brt_tree * ANCESTORS * brtnode_fetch_extra) :=
  do (r, tr, bfe) <- toku_cachetable_get_and_pin_nonblocking tr bfe;
  if r =? 0 then
    do (node, ancestors) <-
      maybe_apply_ancestors_messages_to_node fuel (tree_node tr) ancestors bounds;
    Ok (r, tree_set_node tr node, ancestors, bfe)
  else
    check (r =? TOKUDB_TRY_AGAIN) in "toku_pin_brtnode";
    Ok (r, tr, ancestors, bfe).

Definition search_save_bound (search : brt_search) (pivot : DBT) : brt_search :=
  {| search_compare := search_compare search; direction := direction search;
     search_k := search_k search; have_pivot_bound := true; pivot_bound := pivot |}.

Definition maybe_search_save_bound (node : BRTNODE) (child_searched : Z)
    (search : brt_search) : result brt_search :=
  let p := match direction search with
           | BRT_SEARCH_LEFT => child_searched
           | BRT_SEARCH_RIGHT => child_searched - 1
           end in
  if (0 <=? p) && (p <? n_children node - 1) then
    do pivot <- from_option (childkey node p) "maybe_search_save_bound";
    Ok (search_save_bound search pivot)
  else Ok search.

(** What a search of a subtree yields: the return code, the subtree,
    the ancestors, the search object, the callback's world and the
    cursor. *)
Abbreviation search_result :=
  (result (Z * brt_tree * list (BRTNODE * Z) * brt_search * getf_world V
           * cursor_position)) (only parsing).

(** [brt_search_child]; [search_node] stands for [brt_search_node] on
    the child.  The unlockers only release pins, which the tree does
    not record. *)
Definition brt_search_child (fuel : nat)
    (search_node : brt_tree -> brt_search -> Z -> getf_world V -> cursor_position ->
                   list (BRTNODE * Z) -> pivot_bounds -> search_result)
    (tr : brt_tree) (childnum : Z) (search : brt_search) (w : getf_world V)
    (pos : cursor_position) (ancestors : ANCESTORS) (bounds : pivot_bounds)
    : search_result :=
  do (node, _) <- compute_child_fullhash (tree_node tr) childnum;
  let bfe := fill_bfe_for_subset_read search in
  do child <- child_of tr childnum;
  do (rr, child, next_ancestors, bfe) <-
    toku_pin_brtnode fuel child ((node, childnum) :: ancestors) bounds bfe;
  if rr =? TOKUDB_TRY_AGAIN then
    do (node, ancestors) <-
      match next_ancestors with
      | (node, _) :: ancestors => Ok (node, ancestors)
      | [] => Abort (Assert_failed "ancestors")
      end;
    Ok (rr, set_kid (tree_set_node tr node) childnum child, ancestors, search, w, pos)
  else
    check (rr =? 0) in "brt_search_child";
    do (r, child, next_ancestors, search, w, pos) <-
      search_node child search (bfe_child_to_read bfe) w pos next_ancestors bounds;
    do (node, ancestors) <-
      match next_ancestors with
      | (node, _) :: ancestors => Ok (node, ancestors)
      | [] => Abort (Assert_failed "ancestors")
      end;
    Ok (r, set_kid (tree_set_node tr node) childnum child, ancestors, search, w, pos).

(** The [while] loop of [brt_search_node]; [r] is the code of the turn
    before. *)
Fixpoint search_children (count : nat) (fuel : nat)
    (search_node : brt_tree -> brt_search -> Z -> getf_world V -> cursor_position ->
                   list (BRTNODE * Z) -> pivot_bounds -> search_result)
    (brtcursor : BRT_CURSOR) (tr : brt_tree) (search : brt_search) (child_to_search : Z)
    (w : getf_world V) (pos : cursor_position) (ancestors : ANCESTORS)
    (bounds : pivot_bounds) (r : Z) : search_result :=
  let node := tree_node tr in
  if (0 <=? child_to_search) && (child_to_search <? n_children node) then
    match count with
    | O => Abort Out_of_fuel
    | S count =>
        do state <- from_option (BP_STATE node child_to_search) "BP_STATE";
        if negb (bool_decide (state = PT_AVAIL)) then
          Ok (TOKUDB_TRY_AGAIN, tr, ancestors, search, w, pos)
        else
          let next_bounds := next_pivot_keys node child_to_search bounds in
          do (r, tr, ancestors, search, w, pos) <-
            (if 0 <? height node then
               brt_search_child fuel search_node tr child_to_search search w pos
                                ancestors next_bounds
             else
               do bn <- from_option (BLB node child_to_search) "BASEMENTNODE";
               do (r, w, pos) <- brt_search_basement_node bn search w brtcursor pos;
               Ok (r, tr, ancestors, search, w, pos));
          if r =? 0 then Ok (r, tr, ancestors, search, w, pos)
          else if negb (r =? DB_NOTFOUND) then Ok (r, tr, ancestors, search, w, pos)
          else
            do search <- maybe_search_save_bound (tree_node tr) child_to_search search;
            let child_to_search :=
              match direction search with
              | BRT_SEARCH_LEFT => child_to_search + 1
              | BRT_SEARCH_RIGHT => child_to_search - 1
              end in
            search_children count fuel search_node brtcursor tr search child_to_search
                            w pos ancestors bounds r
    end
  else Ok (r, tr, ancestors, search, w, pos).

(** [brt_search_node]; [fuel] bounds the depth of the descent and the
    length of the loops. *)
Fixpoint brt_search_node (fuel : nat) (brtcursor : BRT_CURSOR) (tr : brt_tree)
    (search : brt_search) (child_to_search : Z) (w : getf_world V)
    (pos : cursor_position) (ancestors : ANCESTORS) (bounds : pivot_bounds)
    : search_result :=
  match fuel with
  | O => Abort Out_of_fuel
  | S fuel =>
      let node := tree_node tr in
      check ((0 <=? child_to_search) || (child_to_search <? n_children node))
        in "brt_search_node";
      do state <- from_option (BP_STATE node child_to_search) "BP_STATE";
      check (bool_decide (state = PT_AVAIL)) in "brt_search_node";
      search_children fuel fuel (brt_search_node fuel brtcursor) brtcursor tr search
                      child_to_search w pos ancestors bounds 0
  end.

(** [toku_brt_search]: the return code, the tree, the search object,
    the callback's world, the cursor and [*root_put_counter]; each turn
    of [fuel] is one pass from [try_again]. *)
Fixpoint toku_brt_search (fuel : nat) (t : BRT) (root : brt_tree) (search : brt_search)
    (w : getf_world V) (brtcursor : BRT_CURSOR) (pos : cursor_position)
    : result (Z * brt_tree * brt_search * getf_world V * cursor_position * Z) :=
  match fuel with
  | O => Abort Out_of_fuel
  | S fuel =>
      let root_put_counter := h_root_put_counter t in
      check (thisnodename (tree_node root) =? h_root t) in "toku_cachetable_get_and_pin";
      do (root, _, bfe) <-
        toku_pin_brtnode_holding_lock fuel root [] infinite_bounds
                                      (fill_bfe_for_subset_read search);
      do (r, root, _, search, w, pos) <-
        brt_search_node fuel brtcursor root search (bfe_child_to_read bfe) w pos []
                        infinite_bounds;
      if r =? TOKUDB_TRY_AGAIN then toku_brt_search fuel t root search w brtcursor pos
      else if r =? TOKUDB_FOUND_BUT_REJECTED then
        Ok (DB_NOTFOUND, root, search, w, pos, root_put_counter)
      else if r =? DB_NOTFOUND then
        let '(r2, w) := call_getf None w in
        Ok (if negb (r2 =? 0) then r2 else r, root, search, w, pos, root_put_counter)
      else Ok (r, root, search, w, pos, root_put_counter)
  end.

End Search.

(** A search environment and searches on the tree that the sample
    workload builds. *)
Module SampleSearch.

Fixpoint find_first (omt : list LEAFENTRY) (h : LEAFENTRY -> Z) (idx : Z)
    : option (LEAFENTRY * Z) :=
  match omt with
  | [] => None
  | le :: omt => if 0 <? h le then Some (le, idx) else find_first omt h (idx + 1)
  end.

Fixpoint find_last (omt : list LEAFENTRY) (h : LEAFENTRY -> Z) (idx : Z)
    (best : option (LEAFENTRY * Z)) : option (LEAFENTRY * Z) :=
  match omt with
  | [] => best
  | le :: omt => find_last omt h (idx + 1) (if h le <? 0 then Some (le, idx) else best)
  end.

Definition omt_find (omt : list LEAFENTRY) (h : LEAFENTRY -> Z) (direction_ : Z)
    : Z * option (LEAFENTRY * Z) :=
  let found := if 0 <? direction_ then find_first omt h 0 else find_last omt h 0 None in
  match found with
  | Some _ => (0, found)
  | None => (-30989, None)
  end.

Definition collaborators : SearchCollaborators :=
  {| DB_NOTFOUND := -30989;
     TOKUDB_FOUND_BUT_REJECTED := -100002;
     TOKUDB_TRY_AGAIN := -100012;
     toku_omt_find := omt_find |}.

(** The search for the first key at or after [k]. *)
Definition at_or_after (k : DBT) : brt_search :=
  {| search_compare := fun x => match x with
                                | Some x => Sample.compare k x <=? 0
                                | None => true
                                end;
     direction := BRT_SEARCH_LEFT; search_k := Some k;
     have_pivot_bound := false; pivot_bound := "" |}.

(** A callback for a range scan that ends before [limit]: it keeps the
    pair it accepts, and rejects a key at or after [limit]. *)
Definition before (limit : DBT) (arg : option (DBT * option DBT))
    (kept : option (DBT * option DBT)) : Z * option (DBT * option DBT) :=
  match arg with
  | None => (-30989, kept)
  | Some (key, val) =>
      if Sample.compare key limit <? 0 then (0, Some (key, val)) else (-100002, kept)
  end.

Definition cursor : BRT_CURSOR :=
  {| is_snapshot_read := false; is_leaf_mode := false; ttxn := Sample.reader |}.

Definition unset : cursor_position :=
  {| current_in_omt := false; to_be_omt := []; to_be_index := 0 |}.

Definition fresh : getf_world (option (DBT * option DBT)) :=
  {| getf_v := None; getf_calls := [] |}.

Definition grown : BRT * brt_tree :=
  Eval vm_compute in
    match root_puts (H := Sample.collaborators) 40 SamplePuts.handle SamplePuts.root
                    SamplePuts.workload with
    | Ok (t, tr, _) => (t, tr)
    | Abort _ => (SamplePuts.handle, SamplePuts.root)
    end.

(** The search from "b" on with the callback that rejects every key
    from "a" on. *)
Definition rejected
    : Z * brt_tree * brt_search * getf_world (option (DBT * option DBT))
      * cursor_position * Z :=
  Eval vm_compute in
    match toku_brt_search (H := Sample.collaborators) (H0 := collaborators) _ (before "a")
                          10 (fst grown) (snd grown) (at_or_after "b") fresh cursor unset with
    | Ok r => r
    | Abort _ => (0, snd grown, at_or_after "b", fresh, unset, 0)
    end.

End SampleSearch.

(** The calls that a scan below the top level makes: each hands a key
    to the callback, and a call that answers
    [TOKUDB_FOUND_BUT_REJECTED] decides the code [r] of the scan. *)
Definition scan_calls `{SearchCollaborators} (r : Z)
    (new : list (option (DBT * option DBT) * Z)) : Prop :=
  Forall (fun c => is_Some (fst c) /\ (snd c = TOKUDB_FOUND_BUT_REJECTED ->
                                       r = TOKUDB_FOUND_BUT_REJECTED)) new.

(** A search of a subtree that extends the log of calls by a scan. *)
Definition search_logs_scan `{SearchCollaborators} {V : Type}
    (search_node : brt_tree -> brt_search -> Z -> getf_world V -> cursor_position ->
                   list (BRTNODE * Z) -> pivot_bounds ->
                   result (Z * brt_tree * list (BRTNODE * Z) * brt_search * getf_world V
                           * cursor_position)) : Prop :=
  forall tr search c w pos anc b r tr' anc' search' w' pos',
    search_node tr search c w pos anc b = Ok (r, tr', anc', search', w', pos') ->
    exists new, getf_calls w' = getf_calls w ++ new /\ scan_calls r new.

(** [toku_omt_find] of omt.c answers 0 or [DB_NOTFOUND]. *)
Definition omt_find_codes `{SearchCollaborators} : Prop :=
  forall omt h direction_,
    fst (toku_omt_find omt h direction_) = 0
    \/ fst (toku_omt_find omt h direction_) = DB_NOTFOUND.

(** A search of a subtree that extends the log of calls, and whose code
    is [TOKUDB_FOUND_BUT_REJECTED] only when a call with a key answered
    it. *)
Definition search_logs_rejection `{SearchCollaborators} {V : Type}
    (search_node : brt_tree -> brt_search -> Z -> getf_world V -> cursor_position ->
                   list (BRTNODE * Z) -> pivot_bounds ->
                   result (Z * brt_tree * list (BRTNODE * Z) * brt_search * getf_world V
                           * cursor_position)) : Prop :=
  forall tr search c w pos anc b r tr' anc' search' w' pos',
    search_node tr search c w pos anc b = Ok (r, tr', anc', search', w', pos') ->
    exists new, getf_calls w' = getf_calls w ++ new
                /\ (r = TOKUDB_FOUND_BUT_REJECTED ->
                    exists kv, In (Some kv, TOKUDB_FOUND_BUT_REJECTED) new).

(** Searches on the sample tree with a callback that takes no pair. *)
Module SampleRejection.

(** The callback passes over every key, and answers the call with a
    NULL key with [TOKUDB_FOUND_BUT_REJECTED]. *)
Definition refusing (arg : option (DBT * option DBT))
    (kept : option (DBT * option DBT)) : Z * option (DBT * option DBT) :=
  match arg with
  | None => (-100002, kept)
  | Some _ => (-30989, kept)
  end.

(** The search from "b" on with that callback. *)
Definition surfaced
    : Z * brt_tree * brt_search * getf_world (option (DBT * option DBT))
      * cursor_position * Z :=
  Eval vm_compute in
    match toku_brt_search (H := Sample.collaborators) (H0 := SampleSearch.collaborators) _
                          refusing 10 (fst SampleSearch.grown) (snd SampleSearch.grown)
                          (SampleSearch.at_or_after "b") SampleSearch.fresh
                          SampleSearch.cursor SampleSearch.unset with
    | Ok r => r
    | Abort _ => (0, snd SampleSearch.grown, SampleSearch.at_or_after "b",
                  SampleSearch.fresh, SampleSearch.unset, 0)
    end.

(** The search from "z" on, where the tree has no key, with the
    callback of the range scan. *)
Definition not_found
    : Z * brt_tree * brt_search * getf_world (option (DBT * option DBT))
      * cursor_position * Z :=
  Eval vm_compute in
    match toku_brt_search (H := Sample.collaborators) (H0 := SampleSearch.collaborators) _
                          (SampleSearch.before "zz") 10 (fst SampleSearch.grown)
                          (snd SampleSearch.grown) (SampleSearch.at_or_after "z")
                          SampleSearch.fresh SampleSearch.cursor SampleSearch.unset with
    | Ok r => r
    | Abort _ => (0, snd SampleSearch.grown, SampleSearch.at_or_after "z",
                  SampleSearch.fresh, SampleSearch.unset, 0)
    end.

End SampleRejection.

(** ** The MSN invariant of the tree *)

(** [l] increases strictly and starts above [lo]. *)
Fixpoint sorted_above (lo : Z) (l : list Z) : Prop :=
  match l with
  | [] => True
  | x :: l => lo < x /\ sorted_above x l
  end.

(** The MSNs waiting in a buffer for a nonleaf child whose MSN is
    [kmax], in a node whose MSN is [top]: they are in increasing order,
    newer than what the child has seen and not newer than what the node
    has seen. *)
Definition buffer_ok (top kmax : Z) (l : list Z) : Prop :=
  sorted_above kmax l /\ Forall (fun m => m <= top) l /\ kmax <= top.

(** The state and payload of each partition. *)
Definition slots (node : BRTNODE) : list (pt_state * bp_ptr) :=
  (fun p => (bp_state p, bp_ptr_of p)) <$> bp node.

(** A child slot of a nonleaf node in memory with the subtree [k]
    below it. *)
Definition slot_ok (top : Z) (slot : pt_state * bp_ptr) (k : brt_tree) : Prop :=
  slot.1 = PT_AVAIL
  /\ exists ci, slot.2 = ptr_childinfo ci
       /\ (0 < height (tree_node k) ->
           buffer_ok top (max_msn_applied_to_node_in_memory (tree_node k))
                     (fe_msn <$> bnc_buffer ci)).

(** The invariant: a leaf has height 0; every nonleaf node is in memory
    with a buffer for each child, and what waits for a nonleaf child is
    newer than the child's MSN. *)
Inductive wf_tree : brt_tree -> Prop :=
| wf_leaf c node kids :
    height node = 0 -> wf_tree (Tree c node kids)
| wf_nonleaf c node kids :
    0 < height node ->
    Forall2 (slot_ok (max_msn_applied_to_node_in_memory node)) (slots node) kids ->
    Forall wf_tree kids ->
    wf_tree (Tree c node kids).

(** A run that has not failed the MSN check of [brt_nonleaf_put_cmd]. *)
Definition mild {A} (r : result A) : Prop := r <> Abort Invariant_nonleaf_msn.

(** [ci] with the message [e] at the end of its buffer, as
    [toku_brt_append_to_child_buffer] leaves it. *)
Definition ci_appended `{Collaborators} (e : fifo_entry) (ci : NONLEAF_CHILDINFO)
    : NONLEAF_CHILDINFO :=
  {| bnc_buffer := bnc_buffer ci ++ [e];
     bnc_n_bytes_in_buffer :=
       u32 (bnc_n_bytes_in_buffer ci
            + fifo_entry_bytes (dbt_size (fe_key e)) (dbt_size (fe_val e)) (fe_xids e)) |}.

Definition slot_appended `{Collaborators} (e : fifo_entry) (slot : pt_state * bp_ptr)
    : pt_state * bp_ptr :=
  match slot.2 with
  | ptr_childinfo ci => (slot.1, ptr_childinfo (ci_appended e ci))
  | _ => slot
  end.

Definition entry_of_msg (cmd : BRT_MSG) : fifo_entry :=
  {| fe_key := cmd_key cmd; fe_val := cmd_val cmd; fe_type := cmd_type cmd;
     fe_msn := cmd_msn cmd; fe_xids := cmd_xids cmd |}.

(** A run that does not fail the MSN check and, when it returns, returns
    a result with [Q]. *)
Definition yields {A} (r : result A) (Q : A -> Prop) : Prop :=
  mild r /\ forall a, r = Ok a -> Q a.

(** A flush empties the buffer of the slot and leaves the other slots
    as they were. *)
Definition flush_drains_slot (flush : flush_fn) : Prop :=
  forall t tr c f r anc b t' tr' anc' re,
    flush t tr c f r anc b = Ok (t', tr', anc', re) ->
    exists st old ci',
      slots (tree_node tr) !! Z.to_nat c = Some (st, old)
      /\ bnc_buffer ci' = []
      /\ slots (tree_node tr')
         = <[Z.to_nat c := (st, ptr_childinfo ci')]> (slots (tree_node tr)).

(** A flush keeps the invariant of the subtree it works on. *)
Definition flush_ok (flush : flush_fn) : Prop :=
  forall t tr c f r anc b,
    wf_tree tr -> yields (flush t tr c f r anc b) (fun res => wf_tree res.1.1.2).

(** The buffer in a slot. *)
Definition slot_buffer (slot : pt_state * bp_ptr) : option (list fifo_entry) :=
  match slot.2 with
  | ptr_childinfo ci => Some (bnc_buffer ci)
  | _ => None
  end.

(** The slots of the parent handed to a walk are those of the parent it
    hands back. *)
Definition parent_slots `{Collaborators} (parent parent' : option (BRTNODE * Z)) : Prop :=
  match parent, parent' with
  | Some (p, _), Some (p', _) => slots p' = slots p
  | None, None => True
  | _, _ => False
  end.

(** What a walk keeps of the subtree it is given. *)
Definition walk_keeps `{Collaborators} (tr tr' : brt_tree) : Prop :=
  wf_tree tr'
  /\ height (tree_node tr') = height (tree_node tr)
  /\ (0 < height (tree_node tr) ->
      max_msn_applied_to_node_in_memory (tree_node tr')
      = max_msn_applied_to_node_in_memory (tree_node tr)).

(** A workload of distinct three-letter keys in a scrambled order: on
    the empty tree of [SamplePuts] it grows the tree to height 2. *)
Module SampleGrowth.

Definition letter (n : nat) : Ascii.ascii := Ascii.ascii_of_nat (97 + n mod 26).

Definition key_of (i : nat) : DBT :=
  String (letter (i * 7)) (String (letter (i / 26 * 5)) (String (letter (i / 3)) EmptyString)).

Definition puts (n : nat) : list BRT_MSG :=
  map (fun i => SamplePuts.insert (key_of i) "v") (seq 0 n).

End SampleGrowth.

(** ** Statements about routing *)

(** The pivots of [node] split the keys around [k]: a pivot at or below
    [k] has only pivots below [k] before it.  Pivots in strictly
    increasing order under a total order do. *)
Definition pivots_split_at `{Collaborators} (node : BRTNODE) (k : DBT) : Prop :=
  forall i j p q, (i < j)%nat ->
    childkeys node !! i = Some p -> childkeys node !! j = Some q ->
    0 <= compare_fun k q -> 0 < compare_fun k p.

(** A leaf of three basements with the pivots "f" and "m". *)
Module SampleRouting.

Definition node : BRTNODE :=
  SampleNodes.leaf 5 4096 0 false [ "f"; "m" ]
    [ SampleNodes.basement [ SampleNodes.committed "a" "1" ] 0 true;
      SampleNodes.basement [ SampleNodes.committed "g" "2" ] 0 true;
      SampleNodes.basement [ SampleNodes.committed "x" "3" ] 0 true ].

(** The message that a root put stamps 6, and the root of
    [SampleFlush.top] after it. *)
Definition cherry : BRT_MSG := set_msn (SamplePuts.insert "cherry" "3") 6.

Definition after_cherry : BRTNODE :=
  Eval vm_compute in
    match brt_nonleaf_put_cmd (H := Sample.collaborators) (tree_node SampleFlush.top) cherry with
    | Ok n => n
    | Abort _ => tree_node SampleFlush.top
    end.

(** An insert stamped 1 for the middle basement of [node], and the leaf
    after it. *)
Definition kiwi : BRT_MSG := set_msn (SamplePuts.insert "kiwi" "4") 1.

Definition leaf_after_kiwi : BRTNODE :=
  Eval vm_compute in
    match toku_apply_cmd_to_leaf (H := Sample.collaborators) 10 node kiwi 0 with
    | Ok (n, _) => n
    | Abort _ => node
    end.

(** A root leaf that is over its size budget, and the handle and
    tree after [brt_handle_maybe_reactive_root]. *)
Definition full_root : brt_tree := Tree true SampleNodes.big_dirty_leaf [].

Definition grown_root : BRT * brt_tree :=
  Eval vm_compute in
    match brt_handle_maybe_reactive_root (H := Sample.collaborators) SamplePuts.handle
                                         full_root with
    | Ok r => r
    | Abort _ => (SamplePuts.handle, full_root)
    end.

(** The two halves of the over-full leaf and the pivot between them. *)
Definition split_halves : option BRT * BRTNODE * BRTNODE * DBT :=
  Eval vm_compute in
    match brtleaf_split (H := Sample.collaborators) (Some SamplePuts.handle)
            SampleNodes.big_dirty_leaf SampleNodes.big_dirty_leaf true with
    | Ok r => r
    | Abort _ => (None, SampleNodes.big_dirty_leaf, SampleNodes.big_dirty_leaf, "apple")
    end.

(** A nonleaf node over three leaves, with the pivots "f" and "m",
    and its two halves. *)
Definition wide_leaf (name : Z) (key : DBT) : brt_tree :=
  Tree true (SampleNodes.leaf name 4096 3 false []
               [ SampleNodes.basement [ SampleNodes.committed key "1" ] 0 false ]) [].

Definition wide_node (size_budget : Z) : BRTNODE :=
  SampleReplay.nonleaf 2 1 size_budget 5 false [ "f"; "m" ]
    [ SampleReplay.nonleaf_partition 7
        (SampleNodes.estimates_of [ SampleNodes.committed "a" "1" ])
        [ SampleReplay.insert 4 "b" "1" ];
      SampleReplay.nonleaf_partition 8
        (SampleNodes.estimates_of [ SampleNodes.committed "g" "1" ]) [];
      SampleReplay.nonleaf_partition 9
        (SampleNodes.estimates_of [ SampleNodes.committed "x" "1" ])
        [ SampleReplay.insert 5 "y" "2" ] ].

Definition wide : brt_tree :=
  Tree true (wide_node 4096) [ wide_leaf 7 "a"; wide_leaf 8 "g"; wide_leaf 9 "x" ].

(** The same node over a budget of 16 bytes. *)
Definition crowded : BRTNODE := wide_node 16.

Definition wide_halves : BRT * brt_tree * brt_tree * DBT :=
  Eval vm_compute in
    match brt_nonleaf_split (H := Sample.collaborators) SampleFlush.handle wide with
    | Ok r => r
    | Abort _ => (SampleFlush.handle, wide, wide, "apple")
    end.

(** A parent of the two halves, and the halves merged again. *)
Definition wide_parent : BRTNODE :=
  SampleReplay.nonleaf 3 2 4096 5 false [ "f" ]
    [ SampleReplay.nonleaf_partition 2 zero_estimates [];
      SampleReplay.nonleaf_partition 10 zero_estimates [] ].

Definition wide_left : BRTNODE := tree_node (snd (fst (fst wide_halves))).
Definition wide_right : BRTNODE := tree_node (snd (fst wide_halves)).

Definition wide_merged : BRTNODE * BRTNODE * BRTNODE * bool * bool * option DBT :=
  Eval vm_compute in
    match maybe_merge_pinned_nodes (H := Sample.collaborators) wide_parent 0 "f"
            wide_left wide_right with
    | Ok r => r
    | Abort _ => (wide_parent, wide_left, wide_right, false, false, None)
    end.

(** A parent over the over-full leaf, and the tree after the split of
    the leaf. *)
Definition tight : brt_tree :=
  Tree true
    (SampleFlush.unhashed (SampleReplay.nonleaf 2 1 120 3 false []
       [ SampleReplay.nonleaf_partition 7
           (SampleNodes.estimates_of SampleNodes.two_entries) [] ]))
    [ full_root ].

Definition tight_split : BRT * brt_tree :=
  Eval vm_compute in
    match brt_split_child (H := Sample.collaborators) SampleFlush.handle tight 0 with
    | Ok r => r
    | Abort _ => (SampleFlush.handle, tight)
    end.

(** The leaf [node] with its first partition compressed and its last
    one on disk, pinned for a full read and for the search from "x" on. *)
Definition cold : brt_tree :=
  Tree false
    (node_set_bp node
       (zip_with bp_set_state (bp node) [ PT_COMPRESSED; PT_AVAIL; PT_ON_DISK ]))
    [].

Definition cold_pinned : brt_tree * brtnode_fetch_extra :=
  Eval vm_compute in
    match toku_cachetable_get_and_pin (H := Sample.collaborators) cold
            fill_bfe_for_full_read with
    | Ok r => r
    | Abort _ => (cold, brtnode_fetch_none)
    end.

Definition cold_searched : brt_tree * brtnode_fetch_extra :=
  match toku_cachetable_get_and_pin (H := Sample.collaborators) cold
          (fill_bfe_for_subset_read (SampleSearch.at_or_after "x")) with
  | Ok r => r
  | Abort _ => (cold, brtnode_fetch_none)
  end.

End SampleRouting.
(** ** Statements about the entries of leaves *)

(** The leaf entries that a partition holds in memory. *)
Definition partition_entries (p : brtnode_partition) : list LEAFENTRY :=
  match bp_ptr_of p with
  | ptr_basement bn => bn_buffer bn
  | _ => []
  end.

(** The leaf entries of a leaf, basement after basement. *)
Definition leaf_entries (node : BRTNODE) : list LEAFENTRY :=
  concat (map partition_entries (bp node)).

(** The number of entries of each basement fits the [u_int32_t] that
    [toku_omt_size] returns. *)
Definition omt_sizes_fit (node : BRTNODE) : Prop :=
  Forall (fun p => Z.of_nat (length (partition_entries p)) < 2 ^ 32) (bp node).

(** ** Statements about the accounting of a basement *)

(** The sum of [f] over the entries of an OMT. *)
Definition omt_total (f : LEAFENTRY -> Z) (omt : list LEAFENTRY) : Z :=
  foldr (fun le acc => f le + acc) 0 omt.

(** The basement's byte count is the 32-bit sum of what its entries
    take, and the estimates of its partition are those that
    [calc_leaf_stats] counts from its entries. *)
Definition basement_accounted `{Collaborators} (bn : BASEMENTNODE)
    (se : subtree_estimates) : Prop :=
  bn_n_bytes_in_buffer bn
  = u32 (omt_total (fun le => OMT_ITEM_OVERHEAD + leafentry_disksize le) (bn_buffer bn))
  /\ nkeys se = nkeys (calc_leaf_stats (bn_buffer bn))
  /\ ndata se = ndata (calc_leaf_stats (bn_buffer bn))
  /\ dsize se = dsize (calc_leaf_stats (bn_buffer bn)).

(** Every basement of the leaf keeps its books. *)
Definition leaf_accounted `{Collaborators} (node : BRTNODE) : Prop :=
  Forall (fun p => forall bn, bp_ptr_of p = ptr_basement bn ->
                              basement_accounted bn (bp_subtree_est p))
         (bp node).
(** ** Statements about partial fetches *)

(** What is assumed of the two partition readers, which are not part
    of this file's source: reading partition [i] makes it available and
    leaves the other partitions as they are. *)
Definition deserialize_reads_one `{Collaborators} : Prop :=
  forall node i d,
    d = toku_deserialize_bp_from_compressed node i
    \/ d = toku_deserialize_bp_from_disk node i ->
    is_Some (BP node i) ->
    BP_STATE d i = Some PT_AVAIL
    /\ forall j, j <> i -> BP d j = BP node j.

(** ** Key ranges *)

(** The three counters of [toku_brt_keyrange], each a [u_int64_t]. *)
Record keyrange : Type := {
  kr_less : Z;
  kr_equal : Z;
  kr_greater : Z
}.

(** What [toku_brt_keyrange_internal] needs and yields: the subtree, the
    hash of its block, the key and the counters; then the subtree as the
    pins leave it and the counters. *)
Abbreviation keyrange_fn :=
  (brt_tree -> Z -> DBT -> keyrange -> result (brt_tree * keyrange)) (only parsing).

Section KeyRange.
Context `{Collaborators}.

(** The first loop of [toku_brt_keyrange_internal]: [compares[i]] from
    pivot [i] on. *)
Fixpoint keyrange_compares (count : nat) (node : BRTNODE) (key : DBT) (i : Z)
    : result (list Z) :=
  match count with
  | O => Ok []
  | S count =>
      do pivot <- from_option (childkey node i) "childkeys";
      do rest <- keyrange_compares count node key (i + 1);
      Ok (compare_fun pivot key :: rest)
  end.

(** The second loop, from child [i] on; [internal] stands for the call
    of [toku_brt_keyrange_internal] on a child. *)
Fixpoint keyrange_children (internal : keyrange_fn) (count : nat) (tr : brt_tree)
    (compares : list Z) (i : Z) (key : DBT) (acc : keyrange)
    : result (brt_tree * keyrange) :=
  match count with
  | O => Ok (tr, acc)
  | S count =>
      let node := tree_node tr in
      let n_keys := n_children node - 1 in
      do prevcomp <-
        (if i =? 0 then Ok (-1)
         else from_option (compares !! Z.to_nat (i - 1)) "compares");
      do nextcomp <-
        (if n_keys <=? i + 1 then Ok 1
         else from_option (compares !! Z.to_nat i) "compares");
      do p <- from_option (BP node i) "BP_SUBTREE_EST";
      let subest := ndata (bp_subtree_est p) in
      do (tr, acc) <-
        (if nextcomp <? 0 then
           Ok (tr, {| kr_less := u64 (kr_less acc + subest); kr_equal := kr_equal acc;
                      kr_greater := kr_greater acc |})
         else if 0 <? prevcomp then
           Ok (tr, {| kr_less := kr_less acc; kr_equal := kr_equal acc;
                      kr_greater := u64 (kr_greater acc + subest) |})
         else if (prevcomp =? 0) && (nextcomp =? 0) then
           Ok (tr, {| kr_less := kr_less acc; kr_equal := u64 (kr_equal acc + subest);
                      kr_greater := kr_greater acc |})
         else if 0 <? height node then
           do (node, child_fullhash) <- compute_child_fullhash node i;
           let tr := tree_set_node tr node in
           do child <- child_of tr i;
           do (child, acc) <- internal child child_fullhash key acc;
           Ok (set_kid tr i child, acc)
         else
           do bn <- from_option (BLB node i) "BLB_BUFFER";
           let '(found, idx) :=
             toku_omt_find_zero (bn_buffer bn) (toku_cmd_leafval_heaviside key) in
           let less := u64 (kr_less acc + idx) in
           let greater :=
             u64 (kr_greater acc + u32 (toku_omt_size (bn_buffer bn) - idx)) in
           if found : bool then
             Ok (tr, {| kr_less := less; kr_equal := u64 (kr_equal acc + 1);
                        kr_greater := u64 (greater - 1) |})
           else
             Ok (tr, {| kr_less := less; kr_equal := kr_equal acc;
                        kr_greater := greater |}));
      keyrange_children internal count tr compares (i + 1) key acc
  end.

(** [toku_brt_keyrange_internal]; [fuel] bounds the depth of the
    recursion. *)
Fixpoint toku_brt_keyrange_internal (fuel : nat) (tr : brt_tree) (fullhash_ : Z)
    (key : DBT) (acc : keyrange) : result (brt_tree * keyrange) :=
  match fuel with
  | O => Abort Out_of_fuel
  | S fuel =>
      do (tr, _) <- toku_cachetable_get_and_pin tr fill_bfe_for_full_read;
      let node := tree_node tr in
      check (fullhash node =? fullhash_) in "toku_brt_keyrange_internal";
      let n_keys := n_children node - 1 in
      do compares <- keyrange_compares (Z.to_nat n_keys) node key 0;
      keyrange_children (toku_brt_keyrange_internal fuel) (length (bp node)) tr
                        compares 0 key acc
  end.

(** [toku_brt_keyrange]: the return code, the tree and the counters. *)
Definition toku_brt_keyrange (fuel : nat) (t : BRT) (root : brt_tree) (key : DBT)
    : result (Z * brt_tree * keyrange) :=
  let fullhash_ := toku_cachetable_hash (h_root t) in
  check (thisnodename (tree_node root) =? h_root t) in "toku_cachetable_get_and_pin";
  do (root, range) <-
    toku_brt_keyrange_internal fuel root fullhash_ key
      {| kr_less := 0; kr_equal := 0; kr_greater := 0 |};
  Ok (0, root, range).

End KeyRange.

(** ** Statements about key ranges *)

(** The entries that the estimates of a node stand for. *)
Definition node_ndata (node : BRTNODE) : Z :=
  foldr (fun p acc => ndata (bp_subtree_est p) + acc) 0 (bp node).

(** A subtree of depth at most [depth] that is in memory and whose
    estimates count its entries: the estimate of a basement is the
    number of its entries, that of a child slot the 64-bit sum of the
    estimates of the child. *)
Fixpoint counted (depth : nat) (tr : brt_tree) : Prop :=
  match depth with
  | O => False
  | S depth =>
      Forall (fun p => bp_state p = PT_AVAIL) (bp (tree_node tr))
      /\ if 0 <? height (tree_node tr) then
           Forall2 (fun p k => ndata (bp_subtree_est p) = u64 (node_ndata (tree_node k))
                               /\ counted depth k)
                   (bp (tree_node tr)) (tree_kids tr)
         else
           Forall (fun p => exists bn,
                     bp_ptr_of p = ptr_basement bn
                     /\ ndata (bp_subtree_est p) = Z.of_nat (length (bn_buffer bn))
                     /\ Z.of_nat (length (bn_buffer bn)) < 2 ^ 32)
                  (bp (tree_node tr))
  end.

(** What is assumed of [toku_omt_find_zero], which is not part of this
    file's source: the index it answers is within the OMT, and is that of
    an entry when it has found one. *)
Definition find_zero_in_range `{Collaborators} : Prop :=
  forall omt h,
    0 <= snd (toku_omt_find_zero omt h) <= Z.of_nat (length omt)
    /\ (fst (toku_omt_find_zero omt h) = true ->
        snd (toku_omt_find_zero omt h) < Z.of_nat (length omt)).

(** What the three counters add up to. *)
Definition kr_total (r : keyrange) : Z := kr_less r + kr_equal r + kr_greater r.

(** The key range of "b" in the tree that the sample workload grows. *)
Module SampleRange.

Definition range_b : Z * brt_tree * keyrange :=
  Eval vm_compute in
    match toku_brt_keyrange (H := Sample.collaborators) 5 (fst SampleSearch.grown)
                            (snd SampleSearch.grown) "b" with
    | Ok r => r
    | Abort _ => (-1, snd SampleSearch.grown,
                  {| kr_less := 0; kr_equal := 0; kr_greater := 0 |})
    end.

End SampleRange.
(** ** Statements about the flush of a buffer *)

(** Whether the message [e], put into the nonleaf node [child], goes to
    the buffer of child [j]: a message for one key goes to the child
    that [toku_brtnode_which_child] picks, a broadcast to every child. *)
Definition routed_to `{Collaborators} (child : BRTNODE) (j : Z) (e : fifo_entry) : bool :=
  if brt_msg_applies_once (msg_of_entry e) then
    match toku_brtnode_which_child child (fe_key e) with
    | Ok c => c =? j
    | Abort _ => false
    end
  else brt_msg_applies_all (msg_of_entry e).

(** The buffer of the root of [SampleFlush.top] drained into its
    child. *)
Module SampleDrain.

Definition drained : BRTNODE * BRTNODE :=
  Eval vm_compute in
    match drain_to_nonleaf (H := Sample.collaborators) 5 (tree_node SampleFlush.top)
                           (tree_node SampleFlush.inner) 0 with
    | Ok r => r
    | Abort _ => (tree_node SampleFlush.top, tree_node SampleFlush.inner)
    end.

End SampleDrain.
(** ** Statements about the estimates of a child *)

(** The sum of the field [f] of the estimates of a node's partitions. *)
Definition estimate_total (f : subtree_estimates -> Z) (node : BRTNODE) : Z :=
  foldr (fun p acc => f (bp_subtree_est p) + acc) 0 (bp node).

(** The parent of [SampleMerge] after the estimates of its first child
    are taken from the leaf [SampleMerge.full_b]. *)
Module SampleEstimates.

Definition fixed : BRTNODE :=
  Eval vm_compute in
    match fixup_child_estimates (SampleMerge.parent_of 100) 0 SampleMerge.full_b true with
    | Ok n => n
    | Abort _ => SampleMerge.parent_of 100
    end.

End SampleEstimates.

(** * Properties *)

(** ** Machine integers *)

Lemma u32_id z : in_u32 z -> u32 z = z.
Proof. unfold in_u32, u32. intros. apply Z.mod_small. lia. Qed.

Lemma u64_id z : in_u64 z -> u64 z = z.
Proof. unfold in_u64, u64. intros. apply Z.mod_small. lia. Qed.

Lemma u32_range z : in_u32 (u32 z).
Proof. unfold in_u32, u32. apply Z.mod_pos_bound. lia. Qed.

Lemma u64_range z : in_u64 (u64 z).
Proof. unfold in_u64, u64. apply Z.mod_pos_bound. lia. Qed.

Lemma i32_id z : - 2 ^ 31 <= z < 2 ^ 31 -> i32 z = z.
Proof. unfold i32. intros. rewrite Z.mod_small; lia. Qed.

(** ** The error monad *)

Lemma bind_Ok {A B} (m : result A) (k : A -> result B) (b : B) :
  bind m k = Ok b -> exists a, m = Ok a /\ k a = Ok b.
Proof. destruct m as [a|f]; simpl; [eauto | discriminate]. Qed.

Lemma ensure_Ok b fn u : ensure b fn = Ok u -> b = true.
Proof. destruct b; simpl; [reflexivity | discriminate]. Qed.

Lemma guard_fault_Ok b f u : guard_fault b f = Ok u -> b = true.
Proof. destruct b; simpl; [reflexivity | discriminate]. Qed.

(** Decompose a successful run into the successful runs of its steps. *)
Ltac run_inv H :=
  repeat match type of H with
  | bind (ensure _ _) _ = Ok _ =>
      let u := fresh "u" in let Ha := fresh "Hassert" in let Hk := fresh "Hrun" in
      apply bind_Ok in H; destruct H as (u & Ha & Hk);
      apply ensure_Ok in Ha; destruct u; rename Hk into H
  | bind (guard_fault _ _) _ = Ok _ =>
      let u := fresh "u" in let Ha := fresh "Hguard" in let Hk := fresh "Hrun" in
      apply bind_Ok in H; destruct H as (u & Ha & Hk);
      apply guard_fault_Ok in Ha; destruct u; rename Hk into H
  end.


(** ** Snapshot visibility *)

Section VisibilityFacts.
Context `{Collaborators}.

Lemma find_first_accepted {A} (f : A -> bool) (older newer : list A) (v : A) :
  Forall (fun w => f w = false) newer -> f v = true ->
  find f (newer ++ v :: older) = Some v.
Proof.
  intros Hnewer Hv. induction Hnewer as [|w newer Hw _ IH]; simpl.
  - now rewrite Hv.
  - now rewrite Hw.
Qed.

(** C6, as the code has it.  A writer [id] is visible to the reader
    [context] exactly when it is the reader's root ancestor, or older
    than the oldest transaction live in the snapshot, or not newer than
    the snapshot (the snapshot's own xid included) and not in the live
    root list; a snapshot read sees the newest version of the stack
    whose writer is visible. *)
Theorem does_txn_read_entry_visible (id : TXNID) (context : TOKUTXN)
    (le : LEAFENTRY) (cursor : BRT_CURSOR)
    (newer older : list le_version) (v : le_version) :
  is_snapshot_read cursor = true ->
  is_leaf_mode cursor = false ->
  le_stack le = newer ++ v :: older ->
  Forall (fun w => does_txn_read_entry (ver_xid w) (ttxn cursor) = false) newer ->
  does_txn_read_entry (ver_xid v) (ttxn cursor) = true ->
  (does_txn_read_entry id context = true <->
     id = ancestor_txnid64 context
     \/ id < toku_get_oldest_in_live_root_txn_list context
     \/ (id <= snapshot_txnid64 context
         /\ toku_is_txn_in_live_root_txn_list context id = false))
  /\ is_le_val_del le cursor = Some (ver_is_del v)
  /\ brt_cursor_extract_key_and_val le cursor = Some (le_key le, ver_val v).
Proof.
  intros Hsnap Hleaf Hstack Hnewer Hv. split; [|split].
  - unfold does_txn_read_entry.
    destruct (Z.ltb_spec id (toku_get_oldest_in_live_root_txn_list context));
      destruct (Z.eqb_spec id (ancestor_txnid64 context));
      destruct (Z.ltb_spec (snapshot_txnid64 context) id);
      destruct (toku_is_txn_in_live_root_txn_list context id);
      simpl; split; intros; try discriminate; auto; try lia;
      intuition (try discriminate; lia).
  - unfold is_le_val_del, le_iterate_is_del, le_iterate_accepted.
    rewrite Hsnap, Hstack.
    rewrite (find_first_accepted
               (fun w => does_txn_read_entry (ver_xid w) (ttxn cursor))); auto.
  - unfold brt_cursor_extract_key_and_val, le_iterate_val, le_iterate_accepted.
    rewrite Hleaf, Hsnap, Hstack.
    rewrite (find_first_accepted
               (fun w => does_txn_read_entry (ver_xid w) (ttxn cursor))); auto.
Qed.

End VisibilityFacts.

(** The reader of the sample skips the version written by the live
    transaction 3 and reads the delete of transaction 2. *)
Lemma does_txn_read_entry_visible_witness :
  (does_txn_read_entry (H := Sample.collaborators) 2 Sample.reader = true <->
     2 = 4 \/ 2 < 3 \/ (2 <= 5 /\ Sample.in_live Sample.reader 2 = false))
  /\ is_le_val_del (H := Sample.collaborators) Sample.entry Sample.snapshot_cursor = Some true
  /\ brt_cursor_extract_key_and_val (H := Sample.collaborators)
       Sample.entry Sample.snapshot_cursor = Some ("k", None).
Proof.
  apply (does_txn_read_entry_visible (H := Sample.collaborators)
           2 Sample.reader Sample.entry Sample.snapshot_cursor
           [ {| ver_xid := 3; ver_val := Some "new" |} ]
           [ {| ver_xid := 1; ver_val := Some "old" |} ]
           {| ver_xid := 2; ver_val := None |}).
  - reflexivity.
  - reflexivity.
  - reflexivity.
  - repeat constructor.
  - reflexivity.
Defined.

(** C6 as stated fails: the snapshot's own xid 5 is neither the root
    ancestor, nor older than the oldest live transaction, nor strictly
    below the snapshot xid, and the code accepts it. *)
Lemma does_txn_read_entry_strict_refuted :
  ~ (does_txn_read_entry (H := Sample.collaborators) 5 Sample.reader = true <->
       5 = ancestor_txnid64 Sample.reader
       \/ 5 < Sample.oldest_live Sample.reader
       \/ (5 < snapshot_txnid64 Sample.reader
           /\ Sample.in_live Sample.reader 5 = false)).
Proof.
  intros [Hcode _].
  assert (Hacc : does_txn_read_entry (H := Sample.collaborators) 5 Sample.reader = true)
    by reflexivity.
  specialize (Hcode Hacc).
  unfold Sample.oldest_live, Sample.reader in Hcode. simpl in Hcode.
  destruct Hcode as [Heq | [Hlt | [Hlt _]]]; lia.
Qed.

(** ** Reactivity of a leaf *)

Section ReactivityFacts.
Context `{Collaborators}.

Lemma sum_omt_sizes_total ps acc :
  forallb is_basement_partition ps = true ->
  exists n, sum_omt_sizes ps acc = Ok n.
Proof.
  revert acc. induction ps as [|p ps IH]; simpl; intros acc Hall.
  - eauto.
  - apply andb_prop in Hall as [Hp Hps]. unfold is_basement_partition in Hp.
    destruct (bp_ptr_of p); try discriminate. now apply IH.
Qed.

(** A leaf that is entirely in memory is always classified. *)
Lemma get_leaf_reactivity_total (node : BRTNODE) :
  height node = 0 ->
  forallb partition_avail (bp node) = true ->
  forallb is_basement_partition (bp node) = true ->
  bp node <> [] ->
  exists re, get_leaf_reactivity node = Ok re.
Proof.
  intros Hh Havail Hbn Hne. unfold get_leaf_reactivity.
  rewrite Hh. simpl. destruct (dirty node); [|eauto].
  assert (Hcount : exists n, get_leaf_num_entries node = Ok n).
  { unfold get_leaf_num_entries, toku_assert_entire_node_in_memory.
    rewrite Havail. simpl. now apply sum_omt_sizes_total. }
  destruct Hcount as [n Hn].
  assert (Hlast : exists s, BLB_SEQINSERT node (n_children node - 1) = Some s).
  { unfold BLB_SEQINSERT, BLB, BP, n_children.
    destruct (bp node) as [|p ps] eqn:Hbp using rev_ind; [congruence|].
    rewrite forallb_app in Hbn. apply andb_prop in Hbn as [_ Hp].
    simpl in Hp. rewrite andb_true_r in Hp. unfold is_basement_partition in Hp.
    rewrite length_app. simpl.
    replace (Z.to_nat (Z.of_nat (length ps + 1) - 1)) with (length ps + 0)%nat by lia.
    destruct (Z.ltb_spec (Z.of_nat (length ps + 1) - 1) 0); [lia|].
    rewrite lookup_app_r by lia.
    replace (length ps + 0 - length ps)%nat with 0%nat by lia. simpl.
    destruct (bp_ptr_of p); try discriminate. eauto. }
  destruct Hlast as [s Hs]. rewrite Hn, Hs. simpl.
  destruct (nodesize node <? _); simpl.
  - destruct (1 <? n); simpl; [eauto|].
    destruct (_ <? nodesize node); simpl; [|eauto].
    destruct (s =? 0); eauto.
  - destruct (_ <? nodesize node); simpl; [|eauto].
    destruct (s =? 0); eauto.
Qed.

(** C4, as the code has it.  Only a dirty leaf is ever classified as
    reactive: it is fissible exactly when its serialized size exceeds
    [nodesize] and it holds more than one entry, fusible exactly when
    four times the size is below [nodesize] and the last basement is
    not in a sequential-insert streak, and stable otherwise; a clean
    leaf is stable whatever its size.  (Sizes below 2^30, so that the
    32-bit product is exact.) *)
Theorem get_leaf_reactivity_cases (node : BRTNODE) (re : reactivity) :
  let size := u32 (toku_serialize_brtnode_size node) in
  4 * size < 2 ^ 32 ->
  get_leaf_reactivity node = Ok re ->
  let fissible :=
    dirty node = true /\ nodesize node < size
    /\ exists n, get_leaf_num_entries node = Ok n /\ 1 < n in
  let fusible :=
    dirty node = true /\ 4 * size < nodesize node
    /\ BLB_SEQINSERT node (n_children node - 1) = Some 0 in
  (re = RE_FISSIBLE <-> fissible)
  /\ (re = RE_FUSIBLE <-> fusible)
  /\ (re = RE_STABLE <-> ~ fissible /\ ~ fusible)
  /\ (dirty node = false -> re = RE_STABLE).
Proof.
  intros size Hsmall Hrun fissible fusible.
  assert (Hsize : 0 <= size).
  { pose proof (u32_range (toku_serialize_brtnode_size node)) as Hr.
    unfold in_u32 in Hr. subst size. lia. }
  unfold get_leaf_reactivity in Hrun. run_inv Hrun.
  fold size in Hrun.
  replace (u32 (size * 4)) with (4 * size) in Hrun
    by (rewrite u32_id; unfold in_u32; lia).
  destruct (dirty node) eqn:Hdirty.
  2:{ injection Hrun as <-.
      assert (Hnfis : ~ fissible) by (intros (? & _); congruence).
      assert (Hnfus : ~ fusible) by (intros (? & _); congruence).
      intuition congruence. }
  destruct (Z.ltb_spec (nodesize node) size) as [Hbig|Hfit].
  - assert (Hnfus : ~ fusible) by (intros (_ & ? & _); lia).
    apply bind_Ok in Hrun as (fis & Hfis & Hrun).
    apply bind_Ok in Hfis as (n & Hn & Hfis). injection Hfis as <-.
    destruct (Z.ltb_spec 1 n) as [Hmany|Hfew].
    + injection Hrun as <-.
      assert (Hfis : fissible) by (split; [|split]; eauto).
      intuition congruence.
    + assert (Hnfis : ~ fissible).
      { intros (_ & _ & n' & Hn' & ?). rewrite Hn in Hn'. injection Hn' as <-. lia. }
      destruct (Z.ltb_spec (4 * size) (nodesize node)); [lia|].
      injection Hrun as <-. intuition congruence.
  - assert (Hnfis : ~ fissible) by (intros (_ & ? & _); lia).
    simpl in Hrun.
    destruct (Z.ltb_spec (4 * size) (nodesize node)) as [Hquarter|Hnot].
    + apply bind_Ok in Hrun as (s & Hs & Hrun).
      unfold from_option in Hs.
      destruct (BLB_SEQINSERT _ _) as [s'|] eqn:Hseq; [|discriminate].
      injection Hs as ->.
      destruct (Z.eqb_spec s 0) as [->|Hstreak]; injection Hrun as <-.
      * assert (Hfus : fusible) by (split; [|split]; auto).
        intuition congruence.
      * assert (Hnfus : ~ fusible) by (intros (_ & _ & ?); congruence).
        intuition congruence.
    + assert (Hnfus : ~ fusible) by (intros (_ & ? & _); lia).
      injection Hrun as <-. intuition congruence.
Qed.

End ReactivityFacts.

(** A dirty two-entry leaf of size 68 with a budget of 40 is fissible. *)
Lemma get_leaf_reactivity_cases_witness :
  let node := SampleNodes.big_dirty_leaf in
  let size := u32 (Sample.serialize_size node) in
  get_leaf_reactivity (H := Sample.collaborators) node = Ok RE_FISSIBLE
  /\ (RE_FISSIBLE = RE_FISSIBLE <->
        dirty node = true /\ nodesize node < size
        /\ exists n, get_leaf_num_entries node = Ok n /\ 1 < n).
Proof.
  split; [reflexivity|].
  apply (get_leaf_reactivity_cases (H := Sample.collaborators)
           SampleNodes.big_dirty_leaf RE_FISSIBLE).
  - vm_compute. reflexivity.
  - reflexivity.
Defined.

(** C4 as stated fails on a clean leaf: the same node, not dirty, exceeds
    its budget with two entries and is classified stable. *)
Lemma get_leaf_reactivity_clean_refuted :
  let node := SampleNodes.big_clean_leaf in
  let size := u32 (Sample.serialize_size node) in
  get_leaf_reactivity (H := Sample.collaborators) node = Ok RE_STABLE
  /\ ~ (get_leaf_reactivity (H := Sample.collaborators) node = Ok RE_FISSIBLE <->
          nodesize node < size
          /\ exists n, get_leaf_num_entries node = Ok n /\ 1 < n).
Proof.
  split; [reflexivity|].
  intros [_ Hclaim].
  assert (Hfis : get_leaf_reactivity (H := Sample.collaborators)
                   SampleNodes.big_clean_leaf = Ok RE_FISSIBLE).
  { apply Hclaim. split; [vm_compute; reflexivity|].
    exists 2. split; [reflexivity | lia]. }
  discriminate Hfis.
Qed.

Lemma from_option_Ok {A} (o : option A) fn (a : A) :
  from_option o fn = Ok a -> o = Some a.
Proof. destruct o; simpl; congruence. Qed.

(** Closed arithmetic facts, by evaluation. *)
Ltac closed_arith :=
  vm_compute; repeat split; try reflexivity; try discriminate.

(** Split every variable of a product type into its components. *)
Ltac destruct_pairs :=
  repeat match goal with
  | x : (_ * _)%type |- _ => destruct x
  end.

(** One step of the decomposition of a successful run. *)
Ltac run_step H :=
  lazymatch type of H with
  | bind (ensure _ _) _ = Ok _ =>
      let u := fresh "u" in let Ha := fresh "Hensure" in
      apply bind_Ok in H; destruct H as (u & Ha & H);
      apply ensure_Ok in Ha; destruct u
  | bind (guard_fault _ _) _ = Ok _ =>
      let u := fresh "u" in let Ha := fresh "Hguard" in
      apply bind_Ok in H; destruct H as (u & Ha & H);
      apply guard_fault_Ok in Ha; destruct u
  | bind (from_option _ _) _ = Ok _ =>
      let a := fresh "a" in let Ha := fresh "Hsome" in
      apply bind_Ok in H; destruct H as (a & Ha & H);
      apply from_option_Ok in Ha
  | bind _ _ = Ok _ =>
      let a := fresh "a" in let Ha := fresh "Hstep" in
      apply bind_Ok in H; destruct H as (a & Ha & H)
  end.

(** Decompose every successful run in the context, splitting the tuples
    that the steps return. *)
Ltac run_all :=
  repeat first
    [ progress destruct_pairs
    | match goal with
      | H : bind _ _ = Ok _ |- _ => run_step H
      | H : _ = Ok _ |- _ => progress cbv beta iota in H
      end ].

(** ** The sequential-insert heuristic *)

Section SeqinsertFacts.
Context `{Collaborators}.

Lemma bump_nkeys_Ok a d a' :
  bump_nkeys a d = Ok a' -> a' = se_set_nkeys a (u64 (nkeys a + d)).
Proof. unfold bump_nkeys. intros Hrun. run_step Hrun. congruence. Qed.

Lemma brt_leaf_delete_leafentry_seqinsert bn se idx le bn' se' :
  brt_leaf_delete_leafentry bn se idx le = Ok (bn', se') ->
  seqinsert bn' = seqinsert bn
  /\ soft_copy_is_up_to_date bn' = soft_copy_is_up_to_date bn
  /\ optimized_for_upgrade bn' = optimized_for_upgrade bn.
Proof.
  unfold brt_leaf_delete_leafentry. intros Hrun.
  repeat run_step Hrun. simplify_eq. auto.
Qed.

(** Applying a message to one entry touches the OMT, the byte count and
    the estimates only. *)
Lemma brt_leaf_apply_cmd_once_frame bn se cmd idx le bn' se' :
  brt_leaf_apply_cmd_once bn se cmd idx le = Ok (bn', se') ->
  seqinsert bn' = seqinsert bn
  /\ soft_copy_is_up_to_date bn' = soft_copy_is_up_to_date bn
  /\ optimized_for_upgrade bn' = optimized_for_upgrade bn.
Proof.
  unfold brt_leaf_apply_cmd_once. intros Hrun.
  destruct (apply_msg_to_leafentry cmd le) as [r new_le].
  run_step Hrun.
  destruct le as [le|], new_le as [new_le|].
  - repeat run_step Hrun. simplify_eq. auto.
  - run_step Hrun. destruct a as [bn1 se1].
    simplify_eq. eapply brt_leaf_delete_leafentry_seqinsert; eauto.
  - run_step Hrun. simplify_eq.
    repeat run_step Hrun. simplify_eq. auto.
  - run_step Hrun. simplify_eq. simplify_eq. auto.
Qed.

Lemma seqinsert_window_clamp s :
  0 <= s -> seqinsert_window s = Z.max 1 (Z.min 32 (s / 16)).
Proof.
  intros Hs. unfold seqinsert_window.
  assert (0 <= s / 16) by (apply Z.div_pos; lia).
  destruct (Z.eqb_spec (s / 16) 0) as [Hz|Hz].
  - rewrite Hz. simpl. lia.
  - destruct (Z.ltb_spec 32 (s / 16)); lia.
Qed.

End SeqinsertFacts.

Section SeqinsertWindow.
Context `{Collaborators}.

(** C8, as the code has it.  An insert applied while a streak is in
    progress extends the streak (the counter grows by one) exactly when
    the distance from the insertion index to the right edge is at most
    max(1, min(32, size/16)), [size] being the number of entries after
    the insert; otherwise the counter is reset to zero. *)
Theorem brt_leaf_put_cmd_seqinsert_window (fuel : nat) (bn : BASEMENTNODE)
    (se : subtree_estimates) (cmd : BRT_MSG)
    (bn' : BASEMENTNODE) (se' : subtree_estimates) (made_change : Z) :
  cmd_type cmd = BRT_INSERT \/ cmd_type cmd = BRT_INSERT_NO_OVERWRITE ->
  0 < seqinsert bn < 2 ^ 32 - 1 ->
  brt_leaf_put_cmd fuel bn se cmd = Ok (bn', se', made_change) ->
  let idx := snd (insert_position (seqinsert bn) (bn_buffer bn) (cmd_key cmd)) in
  let s := Z.of_nat (length (bn_buffer bn')) in
  0 <= idx <= s -> s < 2 ^ 32 ->
  let w := Z.max 1 (Z.min 32 (s / 16)) in
  (seqinsert bn' = seqinsert bn + 1 <-> s - idx <= w)
  /\ (seqinsert bn' = 0 <-> w < s - idx).
Proof.
  intros Htype Hstreak Hrun idx s Hidx Hs w.
  assert (Hbody :
    exists bn1 se1,
      brt_leaf_apply_cmd_once (bn_set_seqinsert bn 0) se cmd idx
        (if fst (insert_position (seqinsert bn) (bn_buffer bn) (cmd_key cmd))
         then toku_omt_fetch (bn_buffer bn) idx else None) = Ok (bn1, se1)
      /\ bn' = (if u32 (toku_omt_size (bn_buffer bn1) - idx)
                     <=? seqinsert_window (toku_omt_size (bn_buffer bn1))
                then bn_set_seqinsert bn1 (u32 (seqinsert bn + 1)) else bn1)).
  { unfold brt_leaf_put_cmd in Hrun. subst idx.
    destruct Htype as [Ht|Ht]; rewrite Ht in Hrun;
      simpl bn_buffer in Hrun;
      destruct (insert_position _ _ _) as [found pos]; simpl;
      run_step Hrun; run_step Hrun; destruct a0 as [bn1 se1];
      exists bn1, se1; simpl in Hrun; simplify_eq; (split; [|reflexivity]);
      (destruct found;
       [ run_step Hstep; simplify_eq; now rewrite Hsome
       | simplify_eq; assumption ]). }
  destruct Hbody as (bn1 & se1 & Honce & ->).
  apply brt_leaf_apply_cmd_once_frame in Honce as (Hseq & _ & _).
  simpl in Hseq.
  assert (Hlen : forall b : bool, bn_buffer (if b then bn_set_seqinsert bn1 (u32 (seqinsert bn + 1))
                                      else bn1) = bn_buffer bn1)
    by (intros []; reflexivity).
  subst w s. rewrite Hlen in *.
  set (s := Z.of_nat (length (bn_buffer bn1))) in *.
  set (w := Z.max 1 (Z.min 32 (s / 16))).
  unfold toku_omt_size. fold s.
  rewrite (u32_id s) by (unfold in_u32; lia).
  rewrite (u32_id (s - idx)) by (unfold in_u32; lia).
  rewrite seqinsert_window_clamp by lia. fold w.
  rewrite (u32_id (seqinsert bn + 1)) by (unfold in_u32; lia).
  destruct (Z.leb_spec (s - idx) w); simpl; rewrite ?Hseq; lia.
Qed.

End SeqinsertWindow.

(** "berry" goes behind "apple": index 1 of 2 entries, window 1, and the
    streak grows from 1 to 2. *)
Lemma brt_leaf_put_cmd_seqinsert_window_witness :
  let bn' := fst SampleInsert.after_berry in
  brt_leaf_put_cmd (H := Sample.collaborators) 1 SampleInsert.streak_basement
    SampleInsert.streak_estimates SampleInsert.insert_berry
  = Ok (bn', snd SampleInsert.after_berry, 1)
  /\ (seqinsert bn' = 1 + 1 <-> 2 - 1 <= Z.max 1 (Z.min 32 (2 / 16)))
  /\ (seqinsert bn' = 0 <-> Z.max 1 (Z.min 32 (2 / 16)) < 2 - 1).
Proof.
  split; [reflexivity|].
  apply (brt_leaf_put_cmd_seqinsert_window (H := Sample.collaborators) 1
           SampleInsert.streak_basement SampleInsert.streak_estimates
           SampleInsert.insert_berry
           (fst SampleInsert.after_berry) (snd SampleInsert.after_berry) 1).
  - left. reflexivity.
  - closed_arith.
  - reflexivity.
  - closed_arith.
  - closed_arith.
Defined.

(** C8 as stated fails on a small basement: with two entries the stated
    window min(32, 2/16) is 0, the insert at index 1 is at distance 1
    from the right edge, and the code still extends the streak. *)
Lemma brt_leaf_put_cmd_seqinsert_min_refuted :
  let bn' := fst SampleInsert.after_berry in
  brt_leaf_put_cmd (H := Sample.collaborators) 1 SampleInsert.streak_basement
    SampleInsert.streak_estimates SampleInsert.insert_berry
  = Ok (bn', snd SampleInsert.after_berry, 1)
  /\ Z.of_nat (length (bn_buffer bn')) = 2
  /\ snd (insert_position (H := Sample.collaborators)
            (seqinsert SampleInsert.streak_basement)
            (bn_buffer SampleInsert.streak_basement) "berry") = 1
  /\ ~ (seqinsert bn' = seqinsert SampleInsert.streak_basement + 1 <->
          2 - 1 <= Z.min 32 (2 / 16)).
Proof.
  split; [reflexivity|]. split; [reflexivity|]. split; [reflexivity|].
  intros [Hext _]. specialize (Hext eq_refl). vm_compute in Hext.
  now apply Hext.
Qed.

(** ** Replay: idempotence and the dirty bit *)

Section ReplayFacts.
Context `{Collaborators}.

Lemma apply_buffer_message_skip fuel min_applied_msn bounds acc e :
  fe_msn e <= min_applied_msn ->
  apply_buffer_message fuel min_applied_msn bounds acc e = acc.
Proof.
  intros Hold. unfold apply_buffer_message.
  destruct acc as [[bn se]|f]; simpl; [|reflexivity].
  destruct (Z.ltb_spec min_applied_msn (fe_msn e)); [lia | reflexivity].
Qed.

Lemma replay_skips_applied fuel min_applied_msn bounds buffer acc :
  fold_left (apply_buffer_message fuel min_applied_msn bounds) buffer acc
  = fold_left (apply_buffer_message fuel min_applied_msn bounds)
      (filter (fun e => min_applied_msn < fe_msn e) buffer) acc.
Proof.
  revert acc. induction buffer as [|e buffer IH]; intros acc; [reflexivity|].
  simpl. rewrite filter_cons. destruct (decide (min_applied_msn < fe_msn e)) as [Hnew|Hold].
  - simpl. apply IH.
  - rewrite apply_buffer_message_skip by lia. apply IH.
Qed.

(** C2.  Messages that were already applied are dropped.  During the
    replay of an ancestor's buffer, a message whose MSN is at most the
    leaf's [max_msn_applied_to_node_on_disk] leaves the basement (entries,
    byte count, streak) and its subtree estimates as they were, so a
    buffer holding only such messages changes nothing; and
    [toku_apply_cmd_to_leaf] returns the node untouched for a message
    whose MSN is at most the node's [max_msn_applied_to_node_in_memory]. *)
Theorem replay_is_idempotent (fuel : nat) (leaf ancestor : BRTNODE) (childnum : Z)
    (bounds : pivot_bounds) (bn bn' : BASEMENTNODE) (se se' : subtree_estimates)
    (buffer : FIFO) (cmd : BRT_MSG) (made_change : Z) :
  BNC_BUFFER ancestor childnum = Some buffer ->
  Forall (fun e => fe_msn e <= max_msn_applied_to_node_on_disk leaf) buffer ->
  apply_buffer_messages_to_node fuel bn se ancestor childnum (height ancestor)
    (max_msn_applied_to_node_on_disk leaf) bounds = Ok (bn', se') ->
  cmd_msn cmd <= max_msn_applied_to_node_in_memory leaf ->
  (bn' = bn /\ se' = se)
  /\ (forall e acc, In e buffer ->
        apply_buffer_message fuel (max_msn_applied_to_node_on_disk leaf) bounds acc e = acc)
  /\ toku_apply_cmd_to_leaf fuel leaf cmd made_change = Ok (leaf, made_change).
Proof.
  intros Hbuffer Hold Hrun Hcmd. split; [|split].
  - unfold apply_buffer_messages_to_node in Hrun. repeat run_step Hrun.
    match goal with
    | Hb : BNC_BUFFER ancestor childnum = Some ?b |- _ =>
        assert (b = buffer) as -> by congruence
    end.
    rewrite replay_skips_applied in Hrun.
    assert (Hnone : filter (fun e => max_msn_applied_to_node_on_disk leaf < fe_msn e) buffer = []).
    { clear -Hold. induction Hold as [|e buffer He _ IH]; [reflexivity|].
      rewrite filter_cons_False by lia. exact IH. }
    rewrite Hnone in Hrun. simpl in Hrun. simplify_eq. auto.
  - intros e acc He. apply apply_buffer_message_skip.
    rewrite Forall_forall in Hold. apply Hold. now apply list_elem_of_In.
  - unfold toku_apply_cmd_to_leaf.
    destruct (Z.leb_spec (cmd_msn cmd) (max_msn_applied_to_node_in_memory leaf)); [reflexivity | lia].
Qed.

Lemma node_set_partition_frame node i p node' :
  node_set_partition node i p = Ok node' ->
  dirty node' = dirty node
  /\ height node' = height node
  /\ max_msn_applied_to_node_in_memory node' = max_msn_applied_to_node_in_memory node
  /\ max_msn_applied_to_node_on_disk node' = max_msn_applied_to_node_on_disk node
  /\ length (bp node') = length (bp node).
Proof.
  unfold node_set_partition. intros Hrun. run_step Hrun. simplify_eq. simpl.
  rewrite length_insert. auto.
Qed.

Lemma replay_partitions_dirty fuel count node i ancestors bounds stats node' stats' :
  replay_partitions fuel count node i ancestors bounds stats = Ok (node', stats') ->
  dirty node' = dirty node /\ height node' = height node.
Proof.
  revert node i stats. induction count as [|count IH]; intros node i stats Hrun; simpl in Hrun.
  - simplify_eq. auto.
  - run_step Hrun. run_step Hrun. destruct a0 as [node1 stats1].
    apply IH in Hrun as [Hd Hh]. rewrite Hd, Hh. clear IH Hd Hh.
    destruct (partition_avail a); simpl in Hstep; [|simplify_eq; auto].
    destruct (bp_ptr_of a) as [|bn| |]; try discriminate.
    destruct (soft_copy_is_up_to_date bn); [simplify_eq; auto|].
    run_step Hstep. destruct a0 as [[bn1 se1] msn1].
    run_step Hstep. simplify_eq.
    match goal with
    | Hp : node_set_partition _ _ _ = Ok _ |- _ =>
        apply node_set_partition_frame in Hp as (Hd & Hh & _)
    end.
    simpl in Hd, Hh. auto.
Qed.

Lemma toku_brt_leaf_reset_calc_leaf_stats_dirty node node' :
  toku_brt_leaf_reset_calc_leaf_stats node = Ok node' ->
  dirty node' = dirty node.
Proof.
  unfold toku_brt_leaf_reset_calc_leaf_stats. intros Hrun.
  repeat run_step Hrun. simplify_eq. reflexivity.
Qed.

Lemma fixup_child_estimates_clean node childnum child node' :
  fixup_child_estimates node childnum child false = Ok node' ->
  dirty node' = dirty node.
Proof.
  unfold fixup_child_estimates. intros Hrun. repeat run_step Hrun. simplify_eq.
  match goal with
  | Hp : node_set_partition _ _ _ = Ok _ |- _ =>
      now apply node_set_partition_frame in Hp as (Hd & _)
  end.
Qed.

Lemma fixup_ancestors_dirty prev ancestors ancestors' :
  fixup_ancestors prev ancestors = Ok ancestors' ->
  Forall2 (fun a a' => dirty (fst a') = dirty (fst a) /\ snd a' = snd a) ancestors ancestors'.
Proof.
  revert prev ancestors'. induction ancestors as [|[anode achild] rest IH];
    intros prev ancestors' Hrun; simpl in Hrun.
  - simplify_eq. constructor.
  - repeat run_step Hrun. simplify_eq. constructor.
    + simpl. split; [|reflexivity]. eapply fixup_child_estimates_clean; eauto.
    + eapply IH; eauto.
Qed.

(** C7.  Ancestor replay never sets the dirty flag: whatever the leaf,
    the ancestors and the bounds, the leaf comes back with the dirty bit
    it went in with (and so does every ancestor, whose estimates are
    refreshed without dirtying it). *)
Theorem maybe_apply_ancestors_messages_keeps_dirty (fuel : nat) (node : BRTNODE)
    (ancestors : ANCESTORS) (bounds : pivot_bounds)
    (node' : BRTNODE) (ancestors' : ANCESTORS) :
  maybe_apply_ancestors_messages_to_node fuel node ancestors bounds = Ok (node', ancestors') ->
  dirty node' = dirty node
  /\ Forall2 (fun a a' => dirty (fst a') = dirty (fst a)) ancestors ancestors'.
Proof.
  unfold maybe_apply_ancestors_messages_to_node. intros Hrun.
  assert (Hsame : Forall2 (fun a a' : BRTNODE * Z => dirty (fst a') = dirty (fst a))
                    ancestors ancestors).
  { clear. induction ancestors; constructor; auto. }
  destruct (0 <? height node); [simplify_eq; auto|].
  run_step Hrun. destruct a as [node1 stats].
  apply replay_partitions_dirty in Hstep as [Hd _].
  destruct stats; [|simplify_eq; auto].
  repeat run_step Hrun. simplify_eq.
  apply toku_brt_leaf_reset_calc_leaf_stats_dirty in Hstep. split; [congruence|].
  apply fixup_ancestors_dirty in Hstep0.
  eapply Forall2_impl; [exact Hstep0|]. simpl. intros ? ? [? _]. assumption.
Qed.

End ReplayFacts.

(** The cold leaf of the sample takes "berry" from its parent's buffer,
    its in-memory MSN goes from 3 to 5, its basement becomes up to date,
    and it stays clean. *)
Lemma maybe_apply_ancestors_messages_keeps_dirty_witness :
  let node' := fst SampleReplay.replayed in
  maybe_apply_ancestors_messages_to_node (H := Sample.collaborators) 4
    SampleReplay.cold_leaf [ (SampleReplay.parent, 0) ] infinite_bounds
  = Ok SampleReplay.replayed
  /\ (length <$> (bn_buffer <$> BLB node' 0)) = Some 2%nat
  /\ max_msn_applied_to_node_in_memory node' = 5
  /\ (soft_copy_is_up_to_date <$> BLB node' 0) = Some true
  /\ dirty node' = dirty SampleReplay.cold_leaf
  /\ dirty node' = false.
Proof.
  split; [reflexivity|]. split; [reflexivity|]. split; [reflexivity|].
  split; [reflexivity|]. split; [|reflexivity].
  apply (maybe_apply_ancestors_messages_keeps_dirty (H := Sample.collaborators) 4
           SampleReplay.cold_leaf [ (SampleReplay.parent, 0) ] infinite_bounds
           (fst SampleReplay.replayed) (snd SampleReplay.replayed)).
  reflexivity.
Defined.

(** The stale parent of the sample only holds messages 2 and 3, which
    the leaf (MSN 3 on disk) has seen: its basement is left alone, and a
    direct application of message 3 is dropped. *)
Lemma replay_is_idempotent_witness :
  let bn := SampleNodes.basement [ SampleNodes.committed "apple" "1" ] 0 false in
  let se := SampleNodes.estimates_of [ SampleNodes.committed "apple" "1" ] in
  let cmd := msg_of_entry (SampleReplay.insert 3 "apple" "1") in
  apply_buffer_messages_to_node (H := Sample.collaborators) 4 bn se
    SampleReplay.stale_parent 0 1 3 infinite_bounds = Ok (bn, se)
  /\ toku_apply_cmd_to_leaf (H := Sample.collaborators) 4 SampleReplay.cold_leaf cmd 0
     = Ok (SampleReplay.cold_leaf, 0).
Proof.
  intros bn se cmd.
  pose proof (replay_is_idempotent (H := Sample.collaborators) 4
                SampleReplay.cold_leaf SampleReplay.stale_parent 0 infinite_bounds
                bn bn se se
                [ SampleReplay.insert 2 "apple" "0"; SampleReplay.insert 3 "apple" "1" ]
                cmd 0) as Hthm.
  assert (Hrun : apply_buffer_messages_to_node (H := Sample.collaborators) 4 bn se
                   SampleReplay.stale_parent 0 1 3 infinite_bounds = Ok (bn, se))
    by reflexivity.
  split; [exact Hrun|].
  apply Hthm.
  - reflexivity.
  - repeat constructor; closed_arith.
  - exact Hrun.
  - closed_arith.
Defined.

(** ** Merging two leaf siblings *)

(** An empty leaf next to a two-entry leaf of size 68 under a budget of
    100: too large together to merge, the left one below a quarter, so the
    entries are redistributed and "apple" becomes the pivot. *)
Example maybe_merge_pinned_leaf_nodes_rebalances :
  maybe_merge_pinned_leaf_nodes (H := Sample.collaborators)
    (SampleMerge.parent_of 100) 0 SampleMerge.empty_a SampleMerge.full_b "apple"
  = Ok SampleMerge.balanced
  /\ (let '(_, a', b', did_merge, did_rebalance, splitk) := SampleMerge.balanced in
      did_merge = false /\ did_rebalance = true /\ splitk = Some "apple"
      /\ (map le_key <$> (bn_buffer <$> BLB a' 0)) = Some [ "apple" ]
      /\ (map le_key <$> (bn_buffer <$> BLB b' 0)) = Some [ "berry" ]).
Proof. split; [reflexivity|]. vm_compute. repeat split; reflexivity. Qed.

(** ** Frames of the tree-shaping code *)

(** Case analysis on the test of a conditional run. *)
Ltac case_run :=
  match goal with
  | H : (if ?c then _ else _) = Ok _ |- _ =>
      let E := fresh "Hcase" in destruct c eqn:E
  end.

(** ** Frames of the node operations *)

Lemma node_frame_refl n : node_frame n n.
Proof. unfold node_frame. auto 10. Qed.

Lemma node_frame_trans n1 n2 n3 :
  node_frame n1 n2 -> node_frame n2 n3 -> node_frame n1 n3.
Proof. unfold node_frame. intuition congruence. Qed.

Lemma node_frame_set_bp n0 n v : node_frame n0 n -> node_frame n0 (node_set_bp n v).
Proof. unfold node_frame. simpl. auto. Qed.

Lemma node_frame_set_dirty n0 n v : node_frame n0 n -> node_frame n0 (node_set_dirty n v).
Proof. unfold node_frame. simpl. auto. Qed.

Lemma node_frame_set_childkeys n0 n k v :
  node_frame n0 n -> node_frame n0 (node_set_childkeys n k v).
Proof. unfold node_frame. simpl. auto. Qed.

Lemma node_frame_set_totalchildkeylens n0 n v :
  node_frame n0 n -> node_frame n0 (node_set_totalchildkeylens n v).
Proof. unfold node_frame. simpl. auto. Qed.

Lemma node_set_partition_node_frame n0 n i p n' :
  node_set_partition n i p = Ok n' -> node_frame n0 n -> node_frame n0 n'.
Proof.
  unfold node_set_partition. intros Hrun. run_all. simplify_eq.
  apply node_frame_set_bp.
Qed.

Lemma BP_lookup_set n i p n' :
  node_set_partition n i p = Ok n' ->
  forall j, BP n' j = if j =? i then Some p else BP n j.
Proof.
  unfold node_set_partition. intros Hrun j. run_all. simplify_eq.
  apply andb_prop in Hensure as [Hlo Hhi].
  apply Z.leb_le in Hlo. apply Z.ltb_lt in Hhi. unfold n_children in Hhi.
  unfold BP. simpl. destruct (Z.ltb_spec j 0).
  - destruct (Z.eqb_spec j i); [lia | reflexivity].
  - destruct (Z.eqb_spec j i) as [->|Hne].
    + apply list_lookup_insert_eq. lia.
    + apply list_lookup_insert_ne. lia.
Qed.


Lemma buffers_kept_refl n : buffers_kept n n.
Proof. unfold buffers_kept. auto. Qed.

Lemma buffers_kept_trans n1 n2 n3 :
  buffers_kept n1 n2 -> buffers_kept n2 n3 -> buffers_kept n1 n3.
Proof. unfold buffers_kept. intuition congruence. Qed.

Lemma buffers_kept_set_dirty n0 n v : buffers_kept n0 n -> buffers_kept n0 (node_set_dirty n v).
Proof. unfold buffers_kept. simpl. auto. Qed.

Lemma buffers_kept_set_max_msn n0 n v : buffers_kept n0 n -> buffers_kept n0 (node_set_max_msn n v).
Proof. unfold buffers_kept. simpl. auto. Qed.

Lemma buffers_kept_length n n' : buffers_kept n n' -> length (bp n') = length (bp n).
Proof.
  intros (Hptr & _). apply (f_equal length) in Hptr. now rewrite !length_fmap in Hptr.
Qed.

Lemma fmap_lookup_eq {A B} (f : A -> B) (l l' : list A) (i : nat) :
  f <$> l' = f <$> l -> f <$> (l' !! i) = f <$> (l !! i).
Proof. intros Heq. rewrite <- !list_lookup_fmap. now rewrite Heq. Qed.

Lemma buffers_kept_BNC n n' i : buffers_kept n n' -> BNC n' i = BNC n i.
Proof.
  intros (Hptr & _). unfold BNC, BP. destruct (i <? 0); [reflexivity|].
  pose proof (fmap_lookup_eq bp_ptr_of _ _ (Z.to_nat i) Hptr) as Hi.
  destruct (bp n' !! Z.to_nat i) as [p'|], (bp n !! Z.to_nat i) as [p|];
    simpl in *; try discriminate; [|reflexivity].
  injection Hi as ->. reflexivity.
Qed.

Lemma buffers_kept_BLB n n' i : buffers_kept n n' -> BLB n' i = BLB n i.
Proof.
  intros (Hptr & _). unfold BLB, BP. destruct (i <? 0); [reflexivity|].
  pose proof (fmap_lookup_eq bp_ptr_of _ _ (Z.to_nat i) Hptr) as Hi.
  destruct (bp n' !! Z.to_nat i) as [p'|], (bp n !! Z.to_nat i) as [p|];
    simpl in *; try discriminate; [|reflexivity].
  injection Hi as ->. reflexivity.
Qed.

Lemma buffers_kept_BP_STATE n n' i : buffers_kept n n' -> BP_STATE n' i = BP_STATE n i.
Proof.
  intros (_ & Hst & _). unfold BP_STATE, BP. destruct (i <? 0); [reflexivity|].
  exact (fmap_lookup_eq bp_state _ _ (Z.to_nat i) Hst).
Qed.

Lemma BP_in_range n i p : BP n i = Some p -> (0 <=? i) && (i <? n_children n) = true.
Proof.
  unfold BP, n_children. destruct (Z.ltb_spec i 0); [discriminate|].
  intros Hl. apply lookup_lt_Some in Hl.
  apply andb_true_intro. split; [apply Z.leb_le | apply Z.ltb_lt]; lia.
Qed.

Lemma BP_lookup n i p : BP n i = Some p -> bp n !! Z.to_nat i = Some p.
Proof. unfold BP. destruct (i <? 0); [discriminate | auto]. Qed.

(** Replacing a partition by one with the same payload, state and block
    number keeps the buffers. *)
Lemma node_set_partition_buffers_kept n i p p' n' :
  BP n i = Some p ->
  bp_ptr_of p' = bp_ptr_of p -> bp_state p' = bp_state p -> bp_blocknum p' = bp_blocknum p ->
  node_set_partition n i p' = Ok n' -> buffers_kept n n'.
Proof.
  intros Hp Hptr Hst Hbn Hrun. unfold node_set_partition in Hrun. run_all. simplify_eq.
  apply BP_lookup in Hp.
  unfold buffers_kept. simpl. rewrite !list_fmap_insert, Hptr, Hst, Hbn.
  rewrite !list_insert_id; auto; rewrite list_lookup_fmap, Hp; reflexivity.
Qed.

Lemma estimates_only_refl n : estimates_only n n.
Proof.
  unfold estimates_only. split; [now destruct n|].
  induction (bp n) as [|p ps IH]; constructor; [now destruct p | exact IH].
Qed.

Lemma bp_set_est_trans p p' p'' :
  p' = bp_set_est p (bp_subtree_est p') ->
  p'' = bp_set_est p' (bp_subtree_est p'') ->
  p'' = bp_set_est p (bp_subtree_est p'').
Proof.
  destruct p, p', p''. unfold bp_set_est. simpl. intros H1 H2. congruence.
Qed.

Lemma estimates_only_trans n1 n2 n3 :
  estimates_only n1 n2 -> estimates_only n2 n3 -> estimates_only n1 n3.
Proof.
  unfold estimates_only. intros [H12 F12] [H23 F23]. split.
  - rewrite H23, H12. reflexivity.
  - clear H12 H23. revert F23. generalize (bp n3). induction F12 as [|p p' ps ps' Hp _ IH];
      intros l F23; inversion F23; subst; constructor; auto.
    eapply bp_set_est_trans; eauto.
Qed.

Lemma estimates_only_buffers_kept n n' : estimates_only n n' -> buffers_kept n n'.
Proof.
  intros [_ F]. unfold buffers_kept.
  induction F as [|p p' ps ps' Hp _ (IH1 & IH2 & IH3)]; [auto|].
  rewrite !fmap_cons, IH1, IH2, IH3, Hp. auto.
Qed.

Lemma estimates_only_node_frame n n' : estimates_only n n' -> node_frame n n'.
Proof. intros [-> _]. unfold node_frame. simpl. auto 10. Qed.

Lemma estimates_only_dirty n n' : estimates_only n n' -> dirty n' = dirty n.
Proof. intros [-> _]. reflexivity. Qed.

Lemma estimates_only_childkeys n n' : estimates_only n n' -> childkeys n' = childkeys n.
Proof. intros [-> _]. reflexivity. Qed.

Lemma node_set_partition_estimates_only n i p e n' :
  BP n i = Some p ->
  node_set_partition n i (bp_set_est p e) = Ok n' -> estimates_only n n'.
Proof.
  intros Hp Hrun. unfold node_set_partition in Hrun. run_all. simplify_eq.
  apply BP_lookup in Hp. unfold estimates_only. simpl. split; [reflexivity|].
  revert Hp. generalize (Z.to_nat i). induction (bp n) as [|q qs IH]; intros k Hk.
  - discriminate.
  - destruct k as [|k]; simpl in *.
    + simplify_eq. constructor; [reflexivity|].
      clear. induction qs as [|q qs IH]; constructor; [now destruct q | exact IH].
    + constructor; [now destruct q | eauto].
Qed.

Section EngineFrames.
Context `{Collaborators}.

Lemma fixup_child_estimates_Ok node childnum child dirty_it node' :
  fixup_child_estimates node childnum child dirty_it = Ok node' ->
  exists node1, estimates_only node node1
    /\ node' = (if dirty_it then node_set_dirty node1 true else node1).
Proof.
  unfold fixup_child_estimates. intros Hrun. run_all. simplify_eq.
  eexists. split; [|reflexivity]. eapply node_set_partition_estimates_only; eauto.
Qed.

Lemma fixup_child_estimates_node_frame n0 node childnum child dirty_it node' :
  fixup_child_estimates node childnum child dirty_it = Ok node' ->
  node_frame n0 node -> node_frame n0 node'.
Proof.
  intros Hrun Hf. apply fixup_child_estimates_Ok in Hrun as (node1 & He & ->).
  apply estimates_only_node_frame in He.
  destruct dirty_it; [apply node_frame_set_dirty|]; eapply node_frame_trans; eauto.
Qed.

Lemma fixup_child_estimates_buffers_kept n0 node childnum child dirty_it node' :
  fixup_child_estimates node childnum child dirty_it = Ok node' ->
  buffers_kept n0 node -> buffers_kept n0 node'.
Proof.
  intros Hrun Hf. apply fixup_child_estimates_Ok in Hrun as (node1 & He & ->).
  apply estimates_only_buffers_kept in He.
  destruct dirty_it; [apply buffers_kept_set_dirty|]; eapply buffers_kept_trans; eauto.
Qed.

Lemma fixup_child_estimates_estimates_only node childnum child node' :
  fixup_child_estimates node childnum child false = Ok node' -> estimates_only node node'.
Proof. intros Hrun. now apply fixup_child_estimates_Ok in Hrun as (node1 & He & ->). Qed.

Lemma compute_child_fullhash_frames node childnum node' h :
  compute_child_fullhash node childnum = Ok (node', h) ->
  node_frame node node' /\ buffers_kept node node'
  /\ dirty node' = dirty node /\ childkeys node' = childkeys node.
Proof.
  unfold compute_child_fullhash. intros Hrun. run_all.
  destruct (bp_have_fullhash a).
  - run_all. simplify_eq. auto using node_frame_refl, buffers_kept_refl.
  - run_all. simplify_eq. split; [|split].
    + eapply node_set_partition_node_frame; [exact Hstep | apply node_frame_refl].
    + eapply node_set_partition_buffers_kept; [exact Hsome | | | | exact Hstep]; reflexivity.
    + unfold node_set_partition in Hstep. run_all. simplify_eq. auto.
Qed.

End EngineFrames.

Section ReplayFrames.
Context `{Collaborators}.

Lemma ancestors_estimates_only_refl a : ancestors_estimates_only a a.
Proof.
  unfold ancestors_estimates_only. induction a; constructor; auto using estimates_only_refl.
Qed.

Lemma ancestors_estimates_only_trans a1 a2 a3 :
  ancestors_estimates_only a1 a2 -> ancestors_estimates_only a2 a3 ->
  ancestors_estimates_only a1 a3.
Proof.
  unfold ancestors_estimates_only. intros F12. revert a3.
  induction F12 as [|x x' l l' [Hx Hc] _ IH]; intros a3 F23; inversion F23 as [|? x'' ? l'' [Hx' Hc']];
    subst; constructor; auto.
  split; [eapply estimates_only_trans; eauto | congruence].
Qed.

Lemma fixup_ancestors_estimates_only prev ancestors ancestors' :
  fixup_ancestors prev ancestors = Ok ancestors' ->
  ancestors_estimates_only ancestors ancestors'.
Proof.
  revert prev ancestors'. induction ancestors as [|[anode achild] rest IH];
    intros prev ancestors' Hrun; simpl in Hrun.
  - simplify_eq. constructor.
  - run_all. simplify_eq. constructor.
    + simpl. split; [|reflexivity]. eapply fixup_child_estimates_estimates_only; eauto.
    + eapply IH; eauto.
Qed.

Lemma maybe_apply_ancestors_messages_estimates_only fuel node ancestors bounds node' ancestors' :
  maybe_apply_ancestors_messages_to_node fuel node ancestors bounds = Ok (node', ancestors') ->
  ancestors_estimates_only ancestors ancestors'.
Proof.
  unfold maybe_apply_ancestors_messages_to_node. intros Hrun.
  destruct (0 <? height node); [simplify_eq; apply ancestors_estimates_only_refl|].
  run_all. case_run; run_all; simplify_eq.
  - eapply fixup_ancestors_estimates_only; eauto.
  - apply ancestors_estimates_only_refl.
Qed.

Lemma toku_pin_brtnode_holding_lock_ancestors fuel tr ancestors bounds bfe tr' ancestors' bfe' :
  toku_pin_brtnode_holding_lock fuel tr ancestors bounds bfe = Ok (tr', ancestors', bfe') ->
  ancestors_estimates_only ancestors ancestors'.
Proof.
  unfold toku_pin_brtnode_holding_lock. intros Hrun. run_all. simplify_eq.
  eapply maybe_apply_ancestors_messages_estimates_only; eauto.
Qed.

(** ** Draining a child buffer *)

Lemma u32_sub_idemp a b : u32 (u32 a - b) = u32 (a - b).
Proof. unfold u32. apply Zminus_mod_idemp_l. Qed.

Lemma BNC_Some node childnum ci :
  BNC node childnum = Some ci ->
  exists p, BP node childnum = Some p /\ bp_ptr_of p = ptr_childinfo ci.
Proof.
  unfold BNC. destruct (BP node childnum) as [p|]; simpl; [|discriminate].
  destruct (bp_ptr_of p) eqn:Hptr; try discriminate. intros [= ->]. eauto.
Qed.

Lemma BNC_of_BP node childnum p ci :
  BP node childnum = Some p -> bp_ptr_of p = ptr_childinfo ci -> BNC node childnum = Some ci.
Proof. unfold BNC. intros -> Hp. simpl. now rewrite Hp. Qed.

(** Dequeuing the head [e0] of the buffer while accounting for [e]. *)
Lemma deq_and_account_BNC node childnum e node' ci :
  deq_and_account node childnum e = Ok node' ->
  BNC node childnum = Some ci ->
  exists e0 rest,
    bnc_buffer ci = e0 :: rest
    /\ BNC node' childnum
       = Some {| bnc_buffer := rest;
                 bnc_n_bytes_in_buffer :=
                   u32 (bnc_n_bytes_in_buffer ci
                        - fifo_entry_bytes (dbt_size (fe_key e)) (dbt_size (fe_val e))
                                           (fe_xids e)) |}
    /\ node_frame node node'
    /\ dirty node' = dirty node
    /\ childkeys node' = childkeys node
    /\ length (bp node') = length (bp node)
    /\ (forall j, j <> childnum -> BP node' j = BP node j)
    /\ bp_state <$> bp node' = bp_state <$> bp node
    /\ bp_blocknum <$> bp node' = bp_blocknum <$> bp node.
Proof.
  unfold deq_and_account. intros Hrun Hci.
  apply BNC_Some in Hci as (p & Hp & Hptr). rewrite Hp in Hrun. simpl in Hrun.
  unfold ptr_childinfo_of in Hrun. rewrite Hptr in Hrun. simpl in Hrun.
  destruct (bnc_buffer ci) as [|e0 rest] eqn:Hbuf; [discriminate|]. simpl in Hrun.
  exists e0, rest. split; [reflexivity|].
  pose proof (BP_lookup_set _ _ _ _ Hrun) as Hset.
  split; [|split; [|split; [|split; [|split; [|split; [|split]]]]]].
  - eapply BNC_of_BP; [rewrite Hset, Z.eqb_refl; reflexivity | reflexivity].
  - eapply node_set_partition_node_frame; [exact Hrun | apply node_frame_refl].
  - unfold node_set_partition in Hrun. run_all. simplify_eq. reflexivity.
  - unfold node_set_partition in Hrun. run_all. simplify_eq. reflexivity.
  - unfold node_set_partition in Hrun. run_all. simplify_eq. simpl. apply length_insert.
  - intros j Hj. rewrite Hset. destruct (Z.eqb_spec j childnum); [contradiction | reflexivity].
  - unfold node_set_partition in Hrun. run_all. simplify_eq. simpl.
    apply BP_lookup in Hp. rewrite list_fmap_insert. apply list_insert_id.
    rewrite list_lookup_fmap, Hp. reflexivity.
  - unfold node_set_partition in Hrun. run_all. simplify_eq. simpl.
    apply BP_lookup in Hp. rewrite list_fmap_insert. apply list_insert_id.
    rewrite list_lookup_fmap, Hp. reflexivity.
Qed.

End ReplayFrames.

Section DrainFacts.
Context `{Collaborators}.

Lemma only_buffer_changed_refl c n : only_buffer_changed c n n.
Proof. unfold only_buffer_changed. auto 10 using node_frame_refl. Qed.

Lemma only_buffer_changed_trans c n1 n2 n3 :
  only_buffer_changed c n1 n2 -> only_buffer_changed c n2 n3 -> only_buffer_changed c n1 n3.
Proof.
  unfold only_buffer_changed. intros (F1 & K1 & L1 & O1 & S1 & B1) (F2 & K2 & L2 & O2 & S2 & B2).
  split; [eapply node_frame_trans; eauto|].
  repeat split; try congruence. intros j Hj. rewrite O2, O1; auto.
Qed.

Lemma only_buffer_changed_set_dirty c n0 n v :
  only_buffer_changed c n0 n -> only_buffer_changed c n0 (node_set_dirty n v).
Proof.
  unfold only_buffer_changed. intros (F1 & K1 & L1 & O1 & S1 & B1).
  split; [now apply node_frame_set_dirty|]. simpl. auto.
Qed.

Lemma deq_and_account_only_buffer node childnum e node' ci :
  deq_and_account node childnum e = Ok node' ->
  BNC node childnum = Some ci ->
  only_buffer_changed childnum node node' /\ dirty node' = dirty node.
Proof.
  intros Hrun Hci.
  destruct (deq_and_account_BNC _ _ _ _ _ Hrun Hci) as (e0 & rest & _ & _ & ? & ? & ? & ? & ? & ? & ?).
  unfold only_buffer_changed. auto 10.
Qed.

Lemma buffer_bytes_cons e rest :
  buffer_bytes (e :: rest)
  = fifo_entry_bytes (dbt_size (fe_key e)) (dbt_size (fe_val e)) (fe_xids e)
    + buffer_bytes rest.
Proof. reflexivity. Qed.

Lemma deq_head_consistent node e node' ci rest childnum :
  deq_and_account node childnum e = Ok node' ->
  BNC node childnum = Some ci ->
  bnc_buffer ci = e :: rest ->
  bnc_bytes_consistent ci ->
  exists ci', BNC node' childnum = Some ci' /\ bnc_buffer ci' = rest
              /\ bnc_bytes_consistent ci'.
Proof.
  intros Hrun Hci Hbuf Hcons.
  destruct (deq_and_account_BNC _ _ _ _ _ Hrun Hci) as (e0 & rest0 & Hb & Hnew & _).
  rewrite Hbuf in Hb. injection Hb as <- <-.
  eexists. split; [exact Hnew|]. split; [reflexivity|].
  unfold bnc_bytes_consistent in *. simpl. rewrite Hcons, Hbuf, buffer_bytes_cons.
  rewrite u32_sub_idemp. f_equal. lia.
Qed.

Lemma empty_consistent ci :
  bnc_buffer ci = [] -> bnc_bytes_consistent ci ->
  ci = {| bnc_buffer := []; bnc_n_bytes_in_buffer := 0 |}.
Proof.
  destruct ci as [buf n]. unfold bnc_bytes_consistent. simpl. intros -> ->. reflexivity.
Qed.

(** After the drain towards a leaf the buffer is empty and its byte
    count is zero. *)
Lemma drain_to_leaf_Ok fuel node childnum node' ci :
  drain_to_leaf fuel node childnum = Ok node' ->
  BNC node childnum = Some ci ->
  bnc_bytes_consistent ci ->
  BNC node' childnum = Some {| bnc_buffer := []; bnc_n_bytes_in_buffer := 0 |}
  /\ only_buffer_changed childnum node node'
  /\ dirty node' = dirty node.
Proof.
  revert node ci. induction fuel as [|fuel IH]; intros node ci Hrun Hci Hcons; simpl in Hrun;
    [discriminate|].
  unfold BNC_BUFFER in Hrun. rewrite Hci in Hrun. simpl in Hrun.
  destruct (bnc_buffer ci) as [|e rest] eqn:Hbuf; simpl in Hrun.
  - injection Hrun as <-. split; [|split; [apply only_buffer_changed_refl | reflexivity]].
    rewrite Hci. f_equal. now apply empty_consistent.
  - destruct (deq_and_account node childnum e) as [node1|] eqn:Hdeq; [|discriminate].
    simpl in Hrun.
    destruct (deq_head_consistent _ _ _ _ _ _ Hdeq Hci Hbuf Hcons) as (ci' & Hci' & _ & Hcons').
    destruct (deq_and_account_only_buffer _ _ _ _ _ Hdeq Hci) as [Hob Hd].
    destruct (IH _ _ Hrun Hci' Hcons') as (Hfin & Hob' & Hd').
    split; [exact Hfin|]. split; [eapply only_buffer_changed_trans; eauto | congruence].
Qed.

(** The same for the drain towards a nonleaf child. *)
Lemma drain_to_nonleaf_Ok fuel node child childnum node' child' ci :
  drain_to_nonleaf fuel node child childnum = Ok (node', child') ->
  BNC node childnum = Some ci ->
  bnc_bytes_consistent ci ->
  BNC node' childnum = Some {| bnc_buffer := []; bnc_n_bytes_in_buffer := 0 |}
  /\ only_buffer_changed childnum node node'.
Proof.
  revert node child ci. induction fuel as [|fuel IH]; intros node child ci Hrun Hci Hcons;
    simpl in Hrun; [discriminate|].
  unfold BNC_BUFFER in Hrun. rewrite Hci in Hrun. simpl in Hrun.
  destruct (bnc_buffer ci) as [|e rest] eqn:Hbuf; simpl in Hrun.
  - injection Hrun as <- <-. split; [|apply only_buffer_changed_refl].
    rewrite Hci. f_equal. now apply empty_consistent.
  - destruct (brtnode_put_cmd child (msg_of_entry e)) as [child1|]; [|discriminate].
    simpl in Hrun.
    destruct (deq_and_account node childnum e) as [node1|] eqn:Hdeq; [|discriminate].
    simpl in Hrun.
    destruct (deq_head_consistent _ _ _ _ _ _ Hdeq Hci Hbuf Hcons) as (ci' & Hci' & _ & Hcons').
    destruct (deq_and_account_only_buffer _ _ _ _ _ Hdeq Hci) as [Hob Hd].
    assert (Hci'' : BNC (node_set_dirty node1 true) childnum = Some ci') by exact Hci'.
    destruct (IH _ _ _ Hrun Hci'' Hcons') as (Hfin & Hob').
    split; [exact Hfin|]. eapply only_buffer_changed_trans; [|exact Hob'].
    now apply only_buffer_changed_set_dirty.
Qed.

Lemma BNC_BUFFER_Some node childnum fifo :
  BNC_BUFFER node childnum = Some fifo ->
  exists ci, BNC node childnum = Some ci /\ bnc_buffer ci = fifo.
Proof.
  unfold BNC_BUFFER. destruct (BNC node childnum) as [ci|]; simpl; [|discriminate].
  intros [= <-]. eauto.
Qed.

Lemma drain_to_leaf_frame fuel node childnum node' :
  drain_to_leaf fuel node childnum = Ok node' ->
  only_buffer_changed childnum node node' /\ dirty node' = dirty node.
Proof.
  revert node. induction fuel as [|fuel IH]; intros node Hrun; simpl in Hrun; [discriminate|].
  run_all. match goal with Hb : BNC_BUFFER _ _ = Some _ |- _ =>
    apply BNC_BUFFER_Some in Hb as (ci & Hci & _) end.
  match goal with Hr : match ?l with _ => _ end = Ok _ |- _ => destruct l as [|e rest] end.
  - simplify_eq. split; [apply only_buffer_changed_refl | reflexivity].
  - run_all.
    match goal with Hd : deq_and_account _ _ _ = Ok _ |- _ =>
      destruct (deq_and_account_only_buffer _ _ _ _ _ Hd Hci) as [Hob Hd'] end.
    match goal with Hd : drain_to_leaf _ _ _ = Ok _ |- _ =>
      destruct (IH _ Hd) as [Hob' Hd''] end.
    split; [eapply only_buffer_changed_trans; eauto | congruence].
Qed.

Lemma drain_to_nonleaf_frame fuel node child childnum node' child' :
  drain_to_nonleaf fuel node child childnum = Ok (node', child') ->
  only_buffer_changed childnum node node'.
Proof.
  revert node child. induction fuel as [|fuel IH]; intros node child Hrun; simpl in Hrun;
    [discriminate|].
  run_all. match goal with Hb : BNC_BUFFER _ _ = Some _ |- _ =>
    apply BNC_BUFFER_Some in Hb as (ci & Hci & _) end.
  match goal with Hr : match ?l with _ => _ end = Ok _ |- _ => destruct l as [|e rest] end.
  - simplify_eq. apply only_buffer_changed_refl.
  - run_all.
    match goal with Hd : deq_and_account _ _ _ = Ok _ |- _ =>
      destruct (deq_and_account_only_buffer _ _ _ _ _ Hd Hci) as [Hob Hd'] end.
    match goal with Hd : drain_to_nonleaf _ _ _ _ = Ok _ |- _ =>
      pose proof (IH _ _ Hd) as Hob' end.
    eapply only_buffer_changed_trans; [|exact Hob'].
    now apply only_buffer_changed_set_dirty.
Qed.

Lemma drain_to_leaf_buffer fuel node childnum node' :
  drain_to_leaf fuel node childnum = Ok node' -> BNC_BUFFER node' childnum = Some [].
Proof.
  revert node. induction fuel as [|fuel IH]; intros node Hrun; simpl in Hrun; [discriminate|].
  run_all.
  match goal with Hr : match ?l with _ => _ end = Ok _ |- _ => destruct l as [|e rest] end.
  - simplify_eq. assumption.
  - run_all. eauto.
Qed.

Lemma drain_to_nonleaf_buffer fuel node child childnum node' child' :
  drain_to_nonleaf fuel node child childnum = Ok (node', child') ->
  BNC_BUFFER node' childnum = Some [].
Proof.
  revert node child. induction fuel as [|fuel IH]; intros node child Hrun; simpl in Hrun;
    [discriminate|].
  run_all.
  match goal with Hr : match ?l with _ => _ end = Ok _ |- _ => destruct l as [|e rest] end.
  - simplify_eq. assumption.
  - run_all. eauto.
Qed.

Lemma buffers_kept_BNC_BUFFER n n' i : buffers_kept n n' -> BNC_BUFFER n' i = BNC_BUFFER n i.
Proof. intros K. unfold BNC_BUFFER. now rewrite (buffers_kept_BNC _ _ _ K). Qed.

End DrainFacts.

Section FlushAncestors.
Context `{Collaborators}.

Lemma optional_flush_ancestors (flush : flush_fn) (go : bool) t tr c f r anc b t' tr' anc' :
  flush_keeps_ancestors flush ->
  (if go then do (t, tr, ancestors, _) <- flush t tr c f r anc b; Ok (t, tr, ancestors)
   else Ok (t, tr, anc)) = Ok (t', tr', anc') ->
  ancestors_estimates_only anc anc'.
Proof.
  intros Hflush Hrun. destruct go.
  - run_all. simplify_eq. eapply Hflush; eauto.
  - simplify_eq. apply ancestors_estimates_only_refl.
Qed.

Lemma brt_merge_child_ancestors flush t tr c anc b t' tr' anc' :
  flush_keeps_ancestors flush ->
  brt_merge_child flush t tr c anc b = Ok (t', tr', anc') ->
  ancestors_estimates_only anc anc'.
Proof.
  intros Hflush. unfold brt_merge_child. intros Hrun.
  destruct (n_children (tree_node tr) <? 2); [simplify_eq; apply ancestors_estimates_only_refl|].
  destruct (0 <? c); run_all;
    repeat match goal with
    | Hf : (if 0 <? Z.of_nat (length _) then _ else _) = Ok _ |- _ =>
        apply (optional_flush_ancestors _ _ _ _ _ _ _ _ _ _ _ _ Hflush) in Hf
    end;
    (assert (anc' = l0) as ->
       by (case_run; run_all; simplify_eq; reflexivity));
    eapply ancestors_estimates_only_trans; eauto.
Qed.

Lemma brt_handle_maybe_reactive_child_ancestors flush t tr c re anc b t' tr' anc' :
  flush_keeps_ancestors flush ->
  brt_handle_maybe_reactive_child flush t tr c re anc b = Ok (t', tr', anc') ->
  ancestors_estimates_only anc anc'.
Proof.
  intros Hflush. unfold brt_handle_maybe_reactive_child. destruct re; intros Hrun.
  all: try (eapply brt_merge_child_ancestors; eassumption).
  all: run_all; simplify_eq; apply ancestors_estimates_only_refl.
Qed.

Lemma flush_some_child_ancestors flush t tr f r anc b t' tr' anc' :
  flush_keeps_ancestors flush ->
  flush_some_child flush t tr f r anc b = Ok (t', tr', anc') ->
  ancestors_estimates_only anc anc'.
Proof.
  intros Hflush. unfold flush_some_child. intros Hrun. run_all.
  eapply ancestors_estimates_only_trans;
    [eapply Hflush; eauto | eapply brt_handle_maybe_reactive_child_ancestors; eauto].
Qed.

Lemma flush_while_gorged_ancestors fuel flush t child f n anc b t' child' anc' :
  flush_keeps_ancestors flush ->
  flush_while_gorged fuel flush t child f n anc b = Ok (t', child', anc') ->
  ancestors_estimates_only anc anc'.
Proof.
  intros Hflush. revert t child n anc.
  induction fuel as [|fuel IH]; intros t child n anc Hrun; simpl in Hrun; [discriminate|].
  run_all. case_run.
  - run_all. eapply ancestors_estimates_only_trans;
      [eapply flush_some_child_ancestors; eauto | eapply IH; eauto].
  - simplify_eq. apply ancestors_estimates_only_refl.
Qed.

End FlushAncestors.

Section FlushBody.
Context `{Collaborators}.

Lemma ancestors_head_estimates_only node c anc next node' anc' :
  ancestors_estimates_only ((node, c) :: anc) next ->
  match next with
  | (node, _) :: ancestors => Ok (node, ancestors)
  | [] => Abort (Assert_failed "ancestors")
  end = Ok (node', anc') ->
  estimates_only node node' /\ ancestors_estimates_only anc anc'.
Proof.
  intros F Hrun. inversion F as [|x [n1 c1] l l' [Hx Hc] Hrest]; subst.
  simpl in *. simplify_eq. auto.
Qed.




(** One flush: the ancestors come back up to estimates, the node keeps
    its frame, and a consistent buffer of the flushed child is empty
    with no byte accounted. *)
Lemma flush_this_child_body_Ok fuel flush t tr c f r anc b t' tr' anc' re :
  flush_keeps_ancestors flush ->
  flush_this_child_body fuel flush t tr c f r anc b = Ok (t', tr', anc', re) ->
  ancestors_estimates_only anc anc'
  /\ node_frame (tree_node tr) (tree_node tr')
  /\ BNC_BUFFER (tree_node tr') c = Some []
  /\ (forall ci, BNC (tree_node tr) c = Some ci -> bnc_bytes_consistent ci ->
      BNC (tree_node tr') c = Some empty_childinfo).
Proof.
  intros Hflush. unfold flush_this_child_body. intros Hrun. run_all.
  match goal with Hh : compute_child_fullhash _ _ = Ok _ |- _ =>
    apply compute_child_fullhash_frames in Hh as (Fh & Kh & _ & _) end.
  match goal with Hp : toku_pin_brtnode_holding_lock _ _ _ _ _ = Ok _ |- _ =>
    apply toku_pin_brtnode_holding_lock_ancestors in Hp;
    match goal with Hm : match _ with [] => _ | _ :: _ => _ end = Ok _ |- _ =>
      destruct (ancestors_head_estimates_only _ _ _ _ _ _ Hp Hm) as [Ee Ea] end
  end.
  pose proof (estimates_only_node_frame _ _ Ee) as Fe.
  pose proof (estimates_only_buffers_kept _ _ Ee) as Ke.
  case_run; run_all.
  - match goal with Hd : drain_to_leaf _ _ _ = Ok _ |- _ =>
      pose proof (drain_to_leaf_frame _ _ _ _ Hd) as [(Fd & _) _];
      pose proof (drain_to_leaf_buffer _ _ _ _ Hd) as Hempty;
      pose proof (fun ci => drain_to_leaf_Ok _ _ _ _ ci Hd) as Hdrain end.
    match goal with Hf : fixup_child_estimates _ _ _ _ = Ok _ |- _ =>
      pose proof (fixup_child_estimates_node_frame _ _ _ _ _ _ Hf (node_frame_refl _)) as Ff;
      pose proof (fixup_child_estimates_buffers_kept _ _ _ _ _ _ Hf (buffers_kept_refl _)) as Kf
    end.
    simplify_eq. split; [exact Ea|]. split; [|split].
    + simpl. eapply node_frame_trans; [exact Fh|]. eapply node_frame_trans; [exact Fe|].
      eapply node_frame_trans; [exact Fd|]. exact Ff.
    + simpl. rewrite (buffers_kept_BNC_BUFFER _ _ _ Kf). exact Hempty.
    + intros ci Hci Hcons. simpl. rewrite (buffers_kept_BNC _ _ _ Kf).
      apply (Hdrain ci); [|exact Hcons].
      rewrite (buffers_kept_BNC _ _ _ Ke), (buffers_kept_BNC _ _ _ Kh). exact Hci.
  - match goal with Hd : drain_to_nonleaf _ _ _ _ = Ok _ |- _ =>
      pose proof (drain_to_nonleaf_frame _ _ _ _ _ _ Hd) as (Fd & _);
      pose proof (drain_to_nonleaf_buffer _ _ _ _ _ _ Hd) as Hempty;
      pose proof (fun ci => drain_to_nonleaf_Ok _ _ _ _ _ _ ci Hd) as Hdrain end.
    match goal with
    | Hg : (if r then flush_while_gorged _ _ _ _ _ _ ?a0 _ else _) = Ok (_, _, ?l1) |- _ =>
        assert (Eg : ancestors_estimates_only a0 l1)
          by (destruct r;
              [eapply flush_while_gorged_ancestors; eauto
              | simplify_eq; apply ancestors_estimates_only_refl]);
        clear Hg;
        match goal with Hm : match l1 with [] => _ | _ :: _ => _ end = Ok _ |- _ =>
          destruct (ancestors_head_estimates_only _ _ _ _ _ _ Eg Hm) as [Ee' Ea'] end
    end.
    pose proof (estimates_only_node_frame _ _ Ee') as Fe'.
    pose proof (estimates_only_buffers_kept _ _ Ee') as Ke'.
    match goal with Hf : fixup_child_estimates _ _ _ _ = Ok _ |- _ =>
      pose proof (fixup_child_estimates_node_frame _ _ _ _ _ _ Hf (node_frame_refl _)) as Ff;
      pose proof (fixup_child_estimates_buffers_kept _ _ _ _ _ _ Hf (buffers_kept_refl _)) as Kf
    end.
    simplify_eq. split; [eapply ancestors_estimates_only_trans; eauto|]. split; [|split].
    + simpl. eapply node_frame_trans; [exact Fh|]. eapply node_frame_trans; [exact Fe|].
      eapply node_frame_trans; [exact Fd|]. eapply node_frame_trans; [exact Fe'|]. exact Ff.
    + simpl. rewrite (buffers_kept_BNC_BUFFER _ _ _ Kf), (buffers_kept_BNC_BUFFER _ _ _ Ke').
      exact Hempty.
    + intros ci Hci Hcons. simpl.
      rewrite (buffers_kept_BNC _ _ _ Kf), (buffers_kept_BNC _ _ _ Ke').
      apply (Hdrain ci); [|exact Hcons].
      rewrite (buffers_kept_BNC _ _ _ Ke), (buffers_kept_BNC _ _ _ Kh). exact Hci.
Qed.

Lemma flush_this_child_keeps_ancestors fuel : flush_keeps_ancestors (flush_this_child fuel).
Proof.
  induction fuel as [|fuel IH]; intros t tr c f r anc b t' tr' anc' re Hrun; simpl in Hrun;
    [discriminate|].
  eapply flush_this_child_body_Ok; eauto.
Qed.

End FlushBody.

Section BufferAccounting.
Context `{Collaborators}.

Lemma u32_add_idemp a b : u32 (u32 a + b) = u32 (a + b).
Proof. unfold u32. apply Zplus_mod_idemp_l. Qed.

Lemma buffer_bytes_app l e :
  buffer_bytes (l ++ [e])
  = buffer_bytes l + fifo_entry_bytes (dbt_size (fe_key e)) (dbt_size (fe_val e)) (fe_xids e).
Proof.
  induction l as [|x l IH].
  - unfold buffer_bytes. simpl. lia.
  - change ((x :: l) ++ [e]) with (x :: (l ++ [e])). rewrite !buffer_bytes_cons, IH. lia.
Qed.

(** The byte count is right for a new buffer ... *)
Lemma empty_childinfo_consistent : bnc_bytes_consistent empty_childinfo.
Proof. reflexivity. Qed.

(** ... and stays right when a message is appended. *)
Lemma toku_brt_append_to_child_buffer_consistent node childnum type msn xids key val node' ci :
  toku_brt_append_to_child_buffer node childnum type msn xids key val = Ok node' ->
  BNC node childnum = Some ci ->
  bnc_bytes_consistent ci ->
  exists ci', BNC node' childnum = Some ci' /\ bnc_bytes_consistent ci'.
Proof.
  unfold toku_brt_append_to_child_buffer. intros Hrun Hci Hcons.
  apply BNC_Some in Hci as (p & Hp & Hptr). rewrite Hp in Hrun. simpl in Hrun.
  rewrite Hptr in Hrun. run_all. simplify_eq.
  match goal with Hs : node_set_partition _ _ _ = Ok _ |- _ =>
    pose proof (BP_lookup_set _ _ _ _ Hs) as Hset end.
  eexists. split.
  - eapply BNC_of_BP;
      [change (BP (node_set_dirty ?n _) ?c) with (BP n c); rewrite Hset, Z.eqb_refl; reflexivity
      |reflexivity].
  - unfold bnc_bytes_consistent in *. simpl. rewrite buffer_bytes_app. simpl.
    rewrite Hcons, u32_add_idemp. reflexivity.
Qed.

End BufferAccounting.

(** ** Flushing a child buffer *)

(** A flush into a nonleaf child: the two messages move one level
    down. *)
Example flush_this_child_into_nonleaf :
  match flush_this_child (H := Sample.collaborators) 6 SampleFlush.handle SampleFlush.top 0
                         true true [] infinite_bounds with
  | Ok (_, tr', _, _) =>
      BNC_BUFFER (tree_node tr') 0 = Some []
      /\ BNC_NBYTESINBUF (tree_node tr') 0 = Some 0
      /\ (length <$> (k ← kid tr' 0; BNC_BUFFER (tree_node k) 0)) = Some 2%nat
  | Abort _ => False
  end.
Proof. vm_compute. auto. Qed.

(** ** Frames of a put at the root *)

Section PinFrames.
Context `{Collaborators}.
Hypothesis Hdes : deserialize_keeps_frame.

Lemma pf_partitions_frame count node bfe i node' :
  pf_partitions count node bfe i = Ok node' -> node_frame node node'.
Proof.
  revert node i. induction count as [|count IH]; intros node i Hrun; simpl in Hrun.
  - simplify_eq. apply node_frame_refl.
  - run_all.
    match goal with Hk : pf_partitions _ ?n _ _ = Ok _ |- _ =>
      eapply node_frame_trans; [|exact (IH _ _ Hk)] end.
    destruct (Hdes node i) as [Hc Hd].
    repeat case_run; simplify_eq; auto using node_frame_refl.
    all: match goal with Hm : match ?s with _ => _ end = Ok _ |- _ =>
           destruct s; simplify_eq; auto end.
Qed.

Lemma toku_cachetable_get_and_pin_frame tr bfe tr' bfe' :
  toku_cachetable_get_and_pin tr bfe = Ok (tr', bfe') ->
  node_frame (tree_node tr) (tree_node tr') /\ tree_kids tr' = tree_kids tr.
Proof.
  unfold toku_cachetable_get_and_pin. intros Hrun. run_all. simplify_eq. simpl.
  split; [|reflexivity]. case_run.
  - unfold toku_brtnode_pf_callback in *. run_all. eapply pf_partitions_frame; eauto.
  - simplify_eq. apply node_frame_refl.
Qed.

Lemma node_frame_set_same_msn n0 n :
  node_frame n0 n -> node_frame n0 (node_set_max_msn n (max_msn_applied_to_node_in_memory n)).
Proof. unfold node_frame. simpl. auto. Qed.

(** With no ancestor above it, a replay leaves the header of a leaf as
    it was. *)
Lemma replay_partitions_root_frame fuel count node i bounds us node' us' :
  replay_partitions fuel count node i [] bounds us = Ok (node', us') ->
  node_frame node node'.
Proof.
  revert node i us. induction count as [|count IH]; intros node i us Hrun; simpl in Hrun.
  - simplify_eq. apply node_frame_refl.
  - run_all.
    match goal with Hk : replay_partitions _ _ ?n _ _ _ _ = Ok _ |- _ =>
      eapply node_frame_trans; [|exact (IH _ _ _ Hk)] end.
    case_run; [simplify_eq; apply node_frame_refl|].
    match goal with Hm : match bp_ptr_of ?p with _ => _ end = Ok _ |- _ =>
      destruct (bp_ptr_of p); try discriminate end.
    case_run; [simplify_eq; apply node_frame_refl|].
    run_all. simplify_eq.
    eapply node_set_partition_node_frame; [eassumption|].
    apply node_frame_set_same_msn, node_frame_refl.
Qed.

Lemma toku_brt_leaf_reset_calc_leaf_stats_frame node node' :
  toku_brt_leaf_reset_calc_leaf_stats node = Ok node' -> node_frame node node'.
Proof.
  unfold toku_brt_leaf_reset_calc_leaf_stats. intros Hrun. run_all. simplify_eq.
  apply node_frame_set_bp, node_frame_refl.
Qed.

Lemma toku_pin_root_frame fuel tr bounds bfe tr' anc bfe' :
  toku_pin_brtnode_holding_lock fuel tr [] bounds bfe = Ok (tr', anc, bfe') ->
  node_frame (tree_node tr) (tree_node tr').
Proof.
  unfold toku_pin_brtnode_holding_lock. intros Hrun. run_all. simplify_eq. simpl.
  match goal with Hp : toku_cachetable_get_and_pin _ _ = Ok _ |- _ =>
    apply toku_cachetable_get_and_pin_frame in Hp as [Fp _] end.
  eapply node_frame_trans; [exact Fp|].
  unfold maybe_apply_ancestors_messages_to_node in *.
  case_run; [simplify_eq; apply node_frame_refl|].
  run_all.
  match goal with Hr : replay_partitions _ _ _ _ _ _ _ = Ok _ |- _ =>
    apply replay_partitions_root_frame in Hr end.
  case_run; run_all; simplify_eq; [|assumption].
  eapply node_frame_trans; [eassumption|].
  now apply toku_brt_leaf_reset_calc_leaf_stats_frame.
Qed.

End PinFrames.

Section PutFrames.
Context `{Collaborators}.

Lemma toku_brt_append_to_child_buffer_frame n0 node childnum type msn xids key val node' :
  toku_brt_append_to_child_buffer node childnum type msn xids key val = Ok node' ->
  node_frame n0 node -> node_frame n0 node'.
Proof.
  unfold toku_brt_append_to_child_buffer. intros Hrun F. run_all. simplify_eq.
  apply node_frame_set_dirty. eapply node_set_partition_node_frame; eauto.
Qed.

Lemma cmd_to_children_frame n0 count node i cmd node' :
  cmd_to_children count node i cmd = Ok node' -> node_frame n0 node -> node_frame n0 node'.
Proof.
  revert node i. induction count as [|count IH]; intros node i Hrun F; simpl in Hrun.
  - now simplify_eq.
  - run_all. eapply IH; [eassumption|].
    eapply toku_brt_append_to_child_buffer_frame; eauto.
Qed.

(** A put into a nonleaf that returns has passed the MSN check, and the
    node then carries the MSN of the message. *)
Lemma brt_nonleaf_put_cmd_Ok node cmd node' :
  brt_nonleaf_put_cmd node cmd = Ok node' ->
  max_msn_applied_to_node_in_memory node < cmd_msn cmd
  /\ node_frame (node_set_max_msn node (cmd_msn cmd)) node'.
Proof.
  unfold brt_nonleaf_put_cmd. intros Hrun. run_all.
  match goal with Hg : (_ <? _) = true |- _ => apply Z.ltb_lt in Hg end.
  split; [assumption|].
  destruct (cmd_type cmd);
    try (unfold brt_nonleaf_cmd_once, brt_nonleaf_cmd_once_to_child in *; run_all;
         eapply toku_brt_append_to_child_buffer_frame; eauto using node_frame_refl; fail);
    try (unfold brt_nonleaf_cmd_all in *;
         eapply cmd_to_children_frame; eauto using node_frame_refl; fail).
  simplify_eq. apply node_frame_refl.
Qed.

Lemma leaf_put_cmd_at_frame n0 fuel node childnum cmd node' mc :
  leaf_put_cmd_at fuel node childnum cmd = Ok (node', mc) ->
  node_frame n0 node -> node_frame n0 node'.
Proof.
  unfold leaf_put_cmd_at. intros Hrun F. run_all.
  match goal with Hm : match bp_ptr_of ?p with _ => _ end = Ok _ |- _ =>
    destruct (bp_ptr_of p); try discriminate end.
  run_all. simplify_eq. eapply node_set_partition_node_frame; eauto.
Qed.

Lemma apply_cmd_to_partitions_frame n0 fuel count node childnum cmd mc node' mc' :
  apply_cmd_to_partitions fuel count node childnum cmd mc = Ok (node', mc') ->
  node_frame n0 node -> node_frame n0 node'.
Proof.
  revert node childnum mc. induction count as [|count IH]; intros node childnum mc Hrun F;
    simpl in Hrun.
  - now simplify_eq.
  - run_all. eapply IH; [eassumption|].
    case_run; run_all; simplify_eq; [|assumption].
    eapply leaf_put_cmd_at_frame; eauto.
Qed.

Lemma toku_apply_cmd_to_leaf_Ok fuel node cmd mc node' mc' :
  toku_apply_cmd_to_leaf fuel node cmd mc = Ok (node', mc') ->
  (cmd_msn cmd <= max_msn_applied_to_node_in_memory node /\ node' = node)
  \/ (max_msn_applied_to_node_in_memory node < cmd_msn cmd
      /\ node_frame (node_set_max_msn node (cmd_msn cmd)) node').
Proof.
  unfold toku_apply_cmd_to_leaf. intros Hrun.
  destruct (cmd_msn cmd <=? max_msn_applied_to_node_in_memory node) eqn:Hle.
  - simplify_eq. left. apply Z.leb_le in Hle. auto.
  - right. apply Z.leb_gt in Hle. split; [assumption|].
    destruct (brt_msg_applies_once cmd).
    + run_all. case_run; [|simplify_eq; apply node_frame_refl].
      eapply leaf_put_cmd_at_frame; eauto using node_frame_refl.
    + destruct (brt_msg_applies_all cmd).
      * eapply apply_cmd_to_partitions_frame; eauto using node_frame_refl.
      * run_all. simplify_eq. apply node_frame_refl.
Qed.

Lemma push_something_at_root_Ok fuel node cmd node' :
  push_something_at_root fuel node cmd = Ok node' ->
  (cmd_msn cmd <= max_msn_applied_to_node_in_memory node /\ node_frame node node')
  \/ (max_msn_applied_to_node_in_memory node < cmd_msn cmd
      /\ node_frame (node_set_max_msn node (cmd_msn cmd)) node').
Proof.
  unfold push_something_at_root. intros Hrun. run_all. case_run.
  - run_all. simplify_eq.
    match goal with Ha : toku_apply_cmd_to_leaf _ _ _ _ = Ok _ |- _ =>
      apply toku_apply_cmd_to_leaf_Ok in Ha as [[Hle ->]|[Hlt F]] end.
    + left. split; [assumption|].
      destruct (negb _); auto using node_frame_set_dirty, node_frame_refl.
    + right. split; [assumption|]. destruct (negb _); auto using node_frame_set_dirty.
  - unfold brtnode_nonleaf_put_cmd_at_root in *. run_all. right.
    now apply brt_nonleaf_put_cmd_Ok.
Qed.

End PutFrames.

Section WalkFrames.
Context `{Collaborators}.

Lemma tree_node_set_kid tr i k : tree_node (set_kid tr i k) = tree_node tr.
Proof. reflexivity. Qed.

Lemma walk_children_frame (walk : brt_tree -> BRT_MSG -> bool -> option (BRTNODE * Z) ->
                                  result (brt_tree * option (BRTNODE * Z)))
    count tr childnum cmd tr' :
  (forall child cmd is_root parent child' parent',
      walk child cmd is_root parent = Ok (child', parent') -> parent_frame parent parent') ->
  walk_children walk count tr childnum cmd = Ok tr' ->
  node_frame (tree_node tr) (tree_node tr').
Proof.
  intros Hwalk. revert tr childnum.
  induction count as [|count IH]; intros tr childnum Hrun; simpl in Hrun.
  - simplify_eq. apply node_frame_refl.
  - run_all.
    match goal with Hw : walk _ _ _ _ = Ok _ |- _ => apply Hwalk in Hw; simpl in Hw end.
    match goal with Hk : walk_children _ _ _ _ _ = Ok _ |- _ => apply IH in Hk end.
    match goal with Hs : ?o = Some _, Hw : match ?o with _ => _ end |- _ =>
      rewrite Hs in Hw; destruct Hw as [Fw _] end.
    eapply node_frame_trans; [exact Fw|]. assumption.
Qed.

Lemma apply_cmd_to_in_memory_non_root_leaves_frame fuel tr cmd is_root parent tr' parent' :
  apply_cmd_to_in_memory_non_root_leaves fuel tr cmd is_root parent = Ok (tr', parent') ->
  parent_frame parent parent'
  /\ (is_root = true \/ 0 < height (tree_node tr) ->
      node_frame (tree_node tr) (tree_node tr')).
Proof.
  revert tr cmd is_root parent tr' parent'.
  induction fuel as [|fuel IH]; intros tr cmd is_root parent tr' parent' Hrun; simpl in Hrun;
    [discriminate|].
  assert (Hrefl : parent_frame parent parent)
    by (destruct parent as [[p c]|]; simpl; auto using node_frame_refl).
  case_run; [simplify_eq; auto using node_frame_refl|].
  run_all. simplify_eq. split.
  - destruct parent as [[p c]|]; run_all; simplify_eq; simpl; [|exact I].
    split; [|reflexivity]. eapply fixup_child_estimates_node_frame; eauto using node_frame_refl.
  - intros Hkind.
    match goal with Hb : (if 0 <? _ then _ else _) = Ok _ |- _ => rename Hb into Hbody end.
    destruct (0 <? height (tree_node tr)) eqn:Hh.
    + destruct (brt_msg_applies_once cmd).
      * run_all. simplify_eq. simpl.
        match goal with Hc : compute_child_fullhash _ _ = Ok _ |- _ =>
          apply compute_child_fullhash_frames in Hc as (Fc & _) end.
        match goal with Hw : apply_cmd_to_in_memory_non_root_leaves _ _ _ _ _ = Ok _ |- _ =>
          apply IH in Hw as [Fw _]; simpl in Fw end.
        destruct Fw as [Fw _]. eapply node_frame_trans; eauto.
      * destruct (brt_msg_applies_all cmd).
        -- eapply walk_children_frame; [|eassumption].
           intros ? ? ? ? ? ? Hw. now apply IH in Hw.
        -- run_all. simplify_eq. apply node_frame_refl.
    + apply Z.ltb_ge in Hh. destruct Hkind as [->|]; [|lia]. simpl in Hbody.
      simplify_eq. apply node_frame_refl.
Qed.

End WalkFrames.

Section ShapeFrames.
Context `{Collaborators}.

Lemma brtleaf_split_msn t node nodeb create t' a b k :
  brtleaf_split t node nodeb create = Ok (t', a, b, k) ->
  max_msn_applied_to_node_in_memory a = max_msn_applied_to_node_in_memory node
  /\ max_msn_applied_to_node_in_memory b = max_msn_applied_to_node_in_memory node.
Proof.
  unfold brtleaf_split. intros Hrun. run_all. simplify_eq. simpl. auto.
Qed.

Lemma brt_nonleaf_split_msn t tr t' a b k :
  brt_nonleaf_split t tr = Ok (t', a, b, k) ->
  max_msn_applied_to_node_in_memory (tree_node a) = max_msn_applied_to_node_in_memory (tree_node tr)
  /\ max_msn_applied_to_node_in_memory (tree_node b) = max_msn_applied_to_node_in_memory (tree_node tr).
Proof.
  unfold brt_nonleaf_split. intros Hrun. run_all. simplify_eq. simpl. auto.
Qed.

Lemma brt_init_new_root_msn t nodea nodeb splitk len t' newroot :
  brt_init_new_root t nodea nodeb splitk len = Ok (t', newroot) ->
  max_msn_applied_to_node_in_memory (tree_node newroot)
  = max_msn_applied_to_node_in_memory (tree_node nodea).
Proof.
  unfold brt_init_new_root. intros Hrun.
  destruct (toku_allocate_blocknum t) as [t1 off]. run_all. simplify_eq. reflexivity.
Qed.

Lemma brt_handle_maybe_reactive_root_msn t root t' root' :
  brt_handle_maybe_reactive_root t root = Ok (t', root') ->
  max_msn_applied_to_node_in_memory (tree_node root')
  = max_msn_applied_to_node_in_memory (tree_node root).
Proof.
  unfold brt_handle_maybe_reactive_root. intros Hrun. run_all.
  match goal with Hr : match ?re with _ => _ end = Ok _ |- _ => destruct re end;
    try (simplify_eq; reflexivity).
  run_all. case_run; run_all.
  - match goal with Hs : brtleaf_split _ _ _ _ = Ok _ |- _ =>
      apply brtleaf_split_msn in Hs as [Ha _] end.
    match goal with Hi : brt_init_new_root _ _ _ _ _ = Ok _ |- _ =>
      apply brt_init_new_root_msn in Hi; simpl in Hi end.
    congruence.
  - match goal with Hs : brt_nonleaf_split _ _ = Ok _ |- _ =>
      apply brt_nonleaf_split_msn in Hs as [Ha _] end.
    match goal with Hi : brt_init_new_root _ _ _ _ _ = Ok _ |- _ =>
      apply brt_init_new_root_msn in Hi end.
    congruence.
Qed.

Lemma handle_split_of_child_frame node childnum childa childb splitk node' :
  handle_split_of_child node childnum childa childb splitk = Ok node' ->
  node_frame node node'.
Proof.
  unfold handle_split_of_child. intros Hrun. run_all. simplify_eq.
  apply node_frame_set_childkeys.
  repeat match goal with Hf : fixup_child_estimates _ _ _ _ = Ok _ |- _ =>
    apply (fun F => fixup_child_estimates_node_frame node _ _ _ _ _ Hf F); clear Hf end.
  apply node_frame_set_bp, node_frame_set_dirty, node_frame_refl.
Qed.

Lemma brt_split_child_frame t tr childnum t' tr' :
  brt_split_child t tr childnum = Ok (t', tr') ->
  node_frame (tree_node tr) (tree_node tr').
Proof.
  unfold brt_split_child. intros Hrun. run_all. simplify_eq. simpl.
  match goal with Hc : compute_child_fullhash _ _ = Ok _ |- _ =>
    apply compute_child_fullhash_frames in Hc as (Fc & _) end.
  match goal with Hs : handle_split_of_child _ _ _ _ _ = Ok _ |- _ =>
    apply handle_split_of_child_frame in Hs end.
  eapply node_frame_trans; eauto.
Qed.

Lemma maybe_merge_pinned_leaf_nodes_parent_frame parent childnum a b k parent' a' b' m r k' :
  maybe_merge_pinned_leaf_nodes parent childnum a b k = Ok (parent', a', b', m, r, k') ->
  node_frame parent parent'.
Proof.
  unfold maybe_merge_pinned_leaf_nodes. intros Hrun.
  repeat case_run; run_all; simplify_eq; try apply node_frame_refl.
  all: repeat match goal with Hf : fixup_child_estimates _ _ _ _ = Ok _ |- _ =>
         apply (fun F => fixup_child_estimates_node_frame parent _ _ _ _ _ Hf F); clear Hf end.
  all: apply node_frame_refl.
Qed.

Lemma maybe_merge_pinned_nodes_parent_frame parent childnum k a b parent' a' b' m r k' :
  maybe_merge_pinned_nodes parent childnum k a b = Ok (parent', a', b', m, r, k') ->
  node_frame parent parent'.
Proof.
  unfold maybe_merge_pinned_nodes. intros Hrun. run_all.
  match goal with Hm : (if height a =? 0 then _ else _) = Ok (?p, _, _, _, _, _) |- _ =>
    rename Hm into Hmerge; assert (F : node_frame parent p) end.
  { destruct (height a =? 0).
    - apply maybe_merge_pinned_leaf_nodes_parent_frame in Hmerge.
      eapply node_frame_trans; [|exact Hmerge]. apply node_frame_set_dirty, node_frame_refl.
    - unfold maybe_merge_pinned_nonleaf_nodes in Hmerge. run_all. simplify_eq.
      eapply fixup_child_estimates_node_frame; [eassumption|].
      apply node_frame_set_dirty, node_frame_refl. }
  case_run; simplify_eq; exact F.
Qed.

End ShapeFrames.

Section FlushFrames.
Context `{Collaborators}.

Lemma optional_flush_frame (flush : flush_fn) (go : bool) t tr c f r anc b t' tr' anc' :
  flush_keeps_frame flush ->
  (if go then do (t, tr, ancestors, _) <- flush t tr c f r anc b; Ok (t, tr, ancestors)
   else Ok (t, tr, anc)) = Ok (t', tr', anc') ->
  node_frame (tree_node tr) (tree_node tr').
Proof.
  intros Hflush Hrun. destruct go.
  - run_all. simplify_eq. eapply Hflush; eauto.
  - simplify_eq. apply node_frame_refl.
Qed.

Lemma brt_merge_child_frame flush t tr c anc b t' tr' anc' :
  flush_keeps_frame flush ->
  brt_merge_child flush t tr c anc b = Ok (t', tr', anc') ->
  node_frame (tree_node tr) (tree_node tr').
Proof.
  intros Hflush. unfold brt_merge_child. intros Hrun.
  destruct (n_children (tree_node tr) <? 2); [simplify_eq; apply node_frame_refl|].
  destruct (0 <? c); run_all;
    (repeat match goal with
     | Hf : (if 0 <? Z.of_nat (length _) then _ else _) = Ok _ |- _ =>
         apply (optional_flush_frame _ _ _ _ _ _ _ _ _ _ _ _ Hflush) in Hf
     | Hc : compute_child_fullhash _ _ = Ok _ |- _ =>
         apply compute_child_fullhash_frames in Hc as (? & _)
     | Hm : maybe_merge_pinned_nodes _ _ _ _ _ = Ok _ |- _ =>
         apply maybe_merge_pinned_nodes_parent_frame in Hm
     end);
    (match goal with
     | F1 : node_frame (tree_node tr) ?n1, F2 : node_frame ?n1 (tree_node ?tr2),
       F3 : node_frame (tree_node ?tr2) ?n3, F4 : node_frame ?n3 ?n4,
       F5 : node_frame ?n4 ?n5 |- _ =>
         assert (F : node_frame (tree_node tr) n5)
           by (repeat (eapply node_frame_trans; [eassumption|]); apply node_frame_refl)
     end);
    case_run; run_all; simplify_eq; simpl;
    (try match goal with Hf : fixup_child_estimates _ _ _ _ = Ok _ |- _ =>
       apply (fun F => fixup_child_estimates_node_frame (tree_node tr) _ _ _ _ _ Hf F) end);
    (repeat first [ apply node_frame_set_dirty | apply node_frame_set_childkeys
                  | apply node_frame_set_bp | apply node_frame_set_totalchildkeylens ]);
    exact F.
Qed.

Lemma brt_handle_maybe_reactive_child_frame flush t tr c re anc b t' tr' anc' :
  flush_keeps_frame flush ->
  brt_handle_maybe_reactive_child flush t tr c re anc b = Ok (t', tr', anc') ->
  node_frame (tree_node tr) (tree_node tr').
Proof.
  intros Hflush. unfold brt_handle_maybe_reactive_child. destruct re; intros Hrun.
  all: try (eapply brt_merge_child_frame; eassumption).
  all: run_all; simplify_eq; try apply node_frame_refl.
  eapply brt_split_child_frame; eauto.
Qed.

Lemma flush_some_child_frame flush t tr f r anc b t' tr' anc' :
  flush_keeps_frame flush ->
  flush_some_child flush t tr f r anc b = Ok (t', tr', anc') ->
  node_frame (tree_node tr) (tree_node tr').
Proof.
  intros Hflush. unfold flush_some_child. intros Hrun. run_all.
  eapply node_frame_trans;
    [eapply Hflush; eauto | eapply brt_handle_maybe_reactive_child_frame; eauto].
Qed.

Lemma flush_this_child_keeps_frame fuel : flush_keeps_frame (flush_this_child fuel).
Proof.
  intros t tr c f r anc b t' tr' anc' re Hrun.
  destruct fuel as [|fuel]; simpl in Hrun; [discriminate|].
  eapply flush_this_child_body_Ok; [apply flush_this_child_keeps_ancestors | eassumption].
Qed.

End FlushFrames.

Section RootPutFacts.
Context `{Collaborators}.
Hypothesis Hdes : deserialize_keeps_frame.

Lemma node_frame_msn n n' :
  node_frame n n' -> max_msn_applied_to_node_in_memory n' = max_msn_applied_to_node_in_memory n.
Proof. now intros (-> & _). Qed.

(** One put at the root: the stamp is the root's MSN plus one, without
    wrap-around, and the root that the put leaves carries the stamp. *)
Lemma toku_brt_root_put_cmd_Ok fuel t root cmd t' root' cmd' :
  toku_brt_root_put_cmd fuel t root cmd = Ok (t', root', cmd') ->
  in_u64 (max_msn_applied_to_node_in_memory (tree_node root)) ->
  cmd' = set_msn cmd (max_msn_applied_to_node_in_memory (tree_node root) + 1)
  /\ max_msn_applied_to_node_in_memory (tree_node root')
     = max_msn_applied_to_node_in_memory (tree_node root) + 1
  /\ in_u64 (max_msn_applied_to_node_in_memory (tree_node root')).
Proof.
  unfold toku_brt_root_put_cmd. intros Hrun Hrange. run_all.
  match goal with Hp : toku_pin_brtnode_holding_lock _ _ _ _ _ = Ok (?p, _, _) |- _ =>
    apply (toku_pin_root_frame Hdes) in Hp; apply node_frame_msn in Hp;
    set (pinned := p) in *; rename Hp into Hpin end.
  match goal with Hg : (cmd_msn (set_msn _ ?m) =? max_msn_applied_to_node_in_memory ?n) = true |- _ =>
    apply Z.eqb_eq in Hg; simpl in Hg; set (stamp := m) in *;
    set (pushed := n) in *; rename Hg into Hstamp end.
  assert (Hpush : stamp = max_msn_applied_to_node_in_memory (tree_node pinned) + 1
                  /\ in_u64 stamp).
  { pose proof (u64_range (max_msn_applied_to_node_in_memory (tree_node pinned) + 1)) as Hu.
    fold stamp in Hu.
    assert (Hcases : stamp = max_msn_applied_to_node_in_memory (tree_node pinned) + 1
                     \/ stamp = max_msn_applied_to_node_in_memory (tree_node pinned) + 1 - 2 ^ 64).
    { subst stamp. unfold u64, in_u64 in *. rewrite Hpin.
      destruct (Z.eq_dec (max_msn_applied_to_node_in_memory (tree_node root) + 1) (2 ^ 64))
        as [Hw|Hw].
      - right. rewrite Hw, Z.mod_same by lia. lia.
      - left. apply Z.mod_small. lia. }
    match goal with Hp : push_something_at_root _ _ _ = Ok _ |- _ =>
      apply push_something_at_root_Ok in Hp as [[Hle F]|[Hlt F]];
      apply node_frame_msn in F; simpl in F, Hle || simpl in F, Hlt end.
    - fold pushed in F. unfold in_u64 in *. lia.
    - unfold in_u64 in *. split; [lia | assumption]. }
  destruct Hpush as [Hval Hin].
  assert (Hfinal : max_msn_applied_to_node_in_memory (tree_node root') = stamp).
  { match goal with Hw : apply_cmd_to_in_memory_non_root_leaves _ _ _ _ _ = Ok (?w, _) |- _ =>
      apply apply_cmd_to_in_memory_non_root_leaves_frame in Hw as [_ Fw];
      specialize (Fw (or_introl eq_refl)); apply node_frame_msn in Fw; simpl in Fw;
      set (walked := w) in * end.
    match goal with Hf : (if _ then _ else _) = Ok (_, ?f) |- _ =>
      assert (Ff : max_msn_applied_to_node_in_memory (tree_node f)
                   = max_msn_applied_to_node_in_memory (tree_node walked));
      [ case_run; run_all; simplify_eq; [|reflexivity];
        apply node_frame_msn; eapply flush_some_child_frame;
        [apply flush_this_child_keeps_frame | eassumption]
      | clear Hf ] end.
    match goal with Hr : brt_handle_maybe_reactive_root _ _ = Ok _ |- _ =>
      apply brt_handle_maybe_reactive_root_msn in Hr end.
    simplify_eq. congruence. }
  simplify_eq. rewrite Hval, Hpin in *.
  split; [reflexivity|]. split; [assumption|]. unfold in_u64 in *. lia.
Qed.

Lemma root_puts_Ok fuel t root cmds t' root' stamped :
  root_puts fuel t root cmds = Ok (t', root', stamped) ->
  in_u64 (max_msn_applied_to_node_in_memory (tree_node root)) ->
  max_msn_applied_to_node_in_memory (tree_node root) <= max_msn_applied_to_node_in_memory (tree_node root')
  /\ in_u64 (max_msn_applied_to_node_in_memory (tree_node root')).
Proof.
  revert t root t' root' stamped.
  induction cmds as [|cmd cmds IH]; intros t root t' root' stamped Hrun Hrange; simpl in Hrun.
  - simplify_eq. split; [lia | assumption].
  - run_all. simplify_eq.
    match goal with Hp : toku_brt_root_put_cmd _ _ _ _ = Ok _ |- _ =>
      apply toku_brt_root_put_cmd_Ok in Hp as (_ & Hm & Hr); [|assumption] end.
    match goal with Hp : root_puts _ _ _ _ = Ok _ |- _ =>
      apply IH in Hp as [Hle Hr']; [|assumption] end.
    split; [lia | assumption].
Qed.

End RootPutFacts.

Lemma sample_deserialize_keeps_frame : deserialize_keeps_frame (H := Sample.collaborators).
Proof.
  intros node i. simpl. unfold Sample.read_partition.
  split; destruct (i <? 0); try apply node_frame_refl;
    destruct (bp node !! Z.to_nat i); try apply node_frame_refl;
    unfold node_frame; simpl; auto 10.
Qed.

(** ** Message sequence numbers at the root *)

(** C1: a put at the root that returns has stamped its message with
    the root's [max_msn_applied_to_node_in_memory] plus one (pinning the
    root does not change that field, the partition readers filling
    partitions only), and the root it leaves, a new one if the root
    was split, has the stamp as its [max_msn_applied_to_node_in_memory];
    so a message put at the root later, after any number of puts in
    between, gets a larger MSN.  The MSN of the root is a [uint64_t]. *)
Theorem toku_brt_root_put_cmd_msn_monotone `{Collaborators} fuel t root cmd t1 root1 m1 :
  deserialize_keeps_frame ->
  in_u64 (max_msn_applied_to_node_in_memory (tree_node root)) ->
  toku_brt_root_put_cmd fuel t root cmd = Ok (t1, root1, m1) ->
  cmd_msn m1 = max_msn_applied_to_node_in_memory (tree_node root) + 1
  /\ max_msn_applied_to_node_in_memory (tree_node root1) = cmd_msn m1
  /\ forall fuel' between t2 root2 stamped cmd2 t3 root3 m2,
       root_puts fuel' t1 root1 between = Ok (t2, root2, stamped) ->
       toku_brt_root_put_cmd fuel' t2 root2 cmd2 = Ok (t3, root3, m2) ->
       cmd_msn m1 < cmd_msn m2.
Proof.
  intros Hdes Hrange Hput.
  destruct (toku_brt_root_put_cmd_Ok Hdes _ _ _ _ _ _ _ Hput Hrange) as (-> & Hmax & Hrange1).
  simpl. split; [reflexivity|]. split; [assumption|].
  intros fuel' between t2 root2 stamped cmd2 t3 root3 m2 Hbetween Hput2.
  destruct (root_puts_Ok Hdes _ _ _ _ _ _ _ Hbetween Hrange1) as [Hle Hrange2].
  destruct (toku_brt_root_put_cmd_Ok Hdes _ _ _ _ _ _ _ Hput2 Hrange2) as (-> & _ & _).
  simpl. lia.
Qed.

Lemma toku_brt_root_put_cmd_msn_monotone_witness :
  cmd_msn (snd SamplePuts.first_put) = 0 + 1
  /\ max_msn_applied_to_node_in_memory (tree_node (snd (fst SamplePuts.first_put)))
     = cmd_msn (snd SamplePuts.first_put)
  /\ forall fuel' between t2 root2 stamped cmd2 t3 root3 m2,
       root_puts (H := Sample.collaborators) fuel' (fst (fst SamplePuts.first_put))
                 (snd (fst SamplePuts.first_put)) between = Ok (t2, root2, stamped) ->
       toku_brt_root_put_cmd (H := Sample.collaborators) fuel' t2 root2 cmd2
       = Ok (t3, root3, m2) ->
       cmd_msn (snd SamplePuts.first_put) < cmd_msn m2.
Proof.
  apply (toku_brt_root_put_cmd_msn_monotone (H := Sample.collaborators) 40
           SamplePuts.handle SamplePuts.root (SamplePuts.insert "ba" "0")).
  - exact sample_deserialize_keeps_frame.
  - vm_compute. split; [discriminate | reflexivity].
  - vm_compute. reflexivity.
Defined.

(** Twenty puts on an empty tree with small nodes: the root splits on
    the way, and the messages are stamped 1 to 20. *)
Example root_puts_stamps_in_order :
  match root_puts (H := Sample.collaborators) 40 SamplePuts.handle SamplePuts.root
                  SamplePuts.workload with
  | Ok (_, tr, stamped) =>
      map cmd_msn stamped = map Z.of_nat (seq 1 20)
      /\ 0 < height (tree_node tr)
      /\ max_msn_applied_to_node_in_memory (tree_node tr) = 20
  | Abort _ => False
  end.
Proof. vm_compute. repeat split; reflexivity. Qed.

(** ** The calls of a search *)

Section SearchFacts.
Context `{Collaborators} `{SearchCollaborators}.
Variable V : Type.
Variable getf : option (DBT * option DBT) -> V -> Z * V.
Hypothesis Hcodes : codes_distinct.

Lemma call_getf_calls arg w r w' :
  call_getf V getf arg w = (r, w') -> getf_calls w' = getf_calls w ++ [(arg, r)].
Proof.
  unfold call_getf. destruct (getf arg (getf_v w)) as [r1 v1]. intros [= <- <-]. reflexivity.
Qed.

Lemma scan_calls_nil r : scan_calls r [].
Proof. constructor. Qed.

Lemma no_new_calls (w : getf_world V) r :
  exists new, getf_calls w = getf_calls w ++ new /\ scan_calls r new.
Proof. exists []. split; [now rewrite app_nil_r | apply scan_calls_nil]. Qed.

(** A scan that ended on another code saw no rejection, so its calls
    fit any code of the scan that follows. *)
Lemma scan_calls_app r1 r2 new1 new2 :
  r1 <> TOKUDB_FOUND_BUT_REJECTED ->
  scan_calls r1 new1 -> scan_calls r2 new2 -> scan_calls r2 (new1 ++ new2).
Proof.
  intros Hr1 H1 H2. apply Forall_app. split; [|exact H2].
  eapply Forall_impl; [exact H1|]. intros c [Hsome Hrej]. split; [exact Hsome|].
  intros Hc. elim Hr1. auto.
Qed.

Lemma brt_search_basement_node_calls bn search w brtcursor pos r w' pos' :
  brt_search_basement_node V getf bn search w brtcursor pos = Ok (r, w', pos') ->
  exists new, getf_calls w' = getf_calls w ++ new /\ scan_calls r new.
Proof.
  unfold brt_search_basement_node. intros Hrun. run_all.
  destruct (toku_omt_find _ _ _) as [r0 found].
  case_run; [simplify_eq; apply no_new_calls|].
  run_all.
  match goal with Hm : match ?g with Some _ => _ | None => _ end = Ok _ |- _ =>
    destruct g as [[le1 idx1]|]; [|simplify_eq; apply no_new_calls] end.
  run_all.
  destruct (call_getf V getf _ w) as [r1 w1] eqn:Hcall.
  apply call_getf_calls in Hcall.
  assert (r = r1 /\ w' = w1) as [-> ->] by (case_run; simplify_eq; auto).
  eexists. split; [exact Hcall|].
  constructor; [|constructor]. simpl. split; [eauto|auto].
Qed.

Lemma brt_search_child_calls fuel search_node tr childnum search w pos anc b
    r tr' anc' search' w' pos' :
  search_logs_scan search_node ->
  brt_search_child V fuel search_node tr childnum search w pos anc b
  = Ok (r, tr', anc', search', w', pos') ->
  exists new, getf_calls w' = getf_calls w ++ new /\ scan_calls r new.
Proof.
  intros Hnode. unfold brt_search_child. intros Hrun. run_all. case_run.
  - run_all. simplify_eq. apply no_new_calls.
  - run_all. simplify_eq. eapply Hnode; eauto.
Qed.

Lemma search_children_calls count fuel search_node brtcursor tr search c w pos anc b r0
    r tr' anc' search' w' pos' :
  search_logs_scan search_node ->
  search_children V getf count fuel search_node brtcursor tr search c w pos anc b r0
  = Ok (r, tr', anc', search', w', pos') ->
  exists new, getf_calls w' = getf_calls w ++ new /\ scan_calls r new.
Proof.
  intros Hnode. revert tr search c w pos anc r0.
  induction count as [|count IH]; intros tr search c w pos anc r0 Hrun; simpl in Hrun.
  - case_run; [discriminate | simplify_eq; apply no_new_calls].
  - case_run; [|simplify_eq; apply no_new_calls].
    run_all. case_run; [simplify_eq; apply no_new_calls|].
    run_all.
    match goal with
    | Hs : (if 0 <? height _ then _ else _) = Ok (?r1, _, _, _, ?w1, _) |- _ =>
        assert (Hturn : exists new, getf_calls w1 = getf_calls w ++ new /\ scan_calls r1 new);
        [ destruct (0 <? height (tree_node tr));
          [ eapply brt_search_child_calls; eauto
          | run_all; simplify_eq; eapply brt_search_basement_node_calls; eauto ]
        | clear Hs ]
    end.
    case_run; [simplify_eq; exact Hturn|].
    case_run; [simplify_eq; exact Hturn|].
    run_all.
    match goal with Hn : negb (_ =? DB_NOTFOUND) = false |- _ =>
      apply negb_false_iff, Z.eqb_eq in Hn; subst end.
    match goal with Hk : search_children _ _ _ _ _ _ _ _ _ _ _ _ _ _ = Ok _ |- _ =>
      apply IH in Hk as (new2 & Hw2 & Hs2) end.
    destruct Hturn as (new1 & Hw1 & Hs1).
    exists (new1 ++ new2). split; [rewrite Hw2, Hw1, app_assoc; reflexivity|].
    eapply scan_calls_app; [|exact Hs1|exact Hs2].
    destruct Hcodes as (_ & _ & _ & Hd & _). exact Hd.
Qed.

Lemma brt_search_node_calls fuel brtcursor :
  search_logs_scan (brt_search_node V getf fuel brtcursor).
Proof.
  induction fuel as [|fuel IH];
    intros tr search c w pos anc b r tr' anc' search' w' pos' Hrun; simpl in Hrun;
    [discriminate|].
  run_all. eapply search_children_calls; eauto.
Qed.

End SearchFacts.

Lemma sample_codes_distinct : codes_distinct (H := SampleSearch.collaborators).
Proof. unfold codes_distinct. simpl. lia. Qed.

Lemma sample_omt_find_codes : omt_find_codes (H := SampleSearch.collaborators).
Proof.
  intros omt h direction_. simpl. unfold SampleSearch.omt_find.
  destruct (if 0 <? direction_ then _ else _); simpl; auto.
Qed.

(** ** Where a rejection comes from *)

Section SearchRejections.
Context `{Collaborators} `{SearchCollaborators}.
Variable V : Type.
Variable getf : option (DBT * option DBT) -> V -> Z * V.
Hypothesis Hcodes : codes_distinct.
Hypothesis Homt : omt_find_codes.

Lemma no_rejection (w : getf_world V) r :
  r <> TOKUDB_FOUND_BUT_REJECTED ->
  exists new, getf_calls w = getf_calls w ++ new
              /\ (r = TOKUDB_FOUND_BUT_REJECTED ->
                  exists kv, In (Some kv, TOKUDB_FOUND_BUT_REJECTED) new).
Proof. intros Hr. exists []. split; [now rewrite app_nil_r | intros; contradiction]. Qed.

Lemma brt_search_basement_node_rejection bn search w brtcursor pos r w' pos' :
  brt_search_basement_node V getf bn search w brtcursor pos = Ok (r, w', pos') ->
  exists new, getf_calls w' = getf_calls w ++ new
              /\ (r = TOKUDB_FOUND_BUT_REJECTED ->
                  exists kv, In (Some kv, TOKUDB_FOUND_BUT_REJECTED) new).
Proof.
  pose proof Hcodes as (Hn0 & Hr0 & Ht0 & Hnr & Hnt & Hrt).
  unfold brt_search_basement_node. intros Hrun. run_all.
  pose proof (Homt (bn_buffer bn) (heaviside_from_search_t search)
                (match direction search with BRT_SEARCH_LEFT => 1 | BRT_SEARCH_RIGHT => -1 end))
    as Hfind.
  destruct (toku_omt_find _ _ _) as [r0 found]. simpl in Hfind.
  case_run.
  - simplify_eq. apply no_rejection.
    apply negb_true_iff, Z.eqb_neq in Hcase. destruct Hfind; congruence.
  - run_all.
    match goal with Hm : match ?g with Some _ => _ | None => _ end = Ok _ |- _ =>
      destruct g as [[le1 idx1]|]; [|simplify_eq; apply no_rejection; congruence] end.
    run_all.
    destruct (call_getf V getf _ w) as [r1 w1] eqn:Hcall.
    apply call_getf_calls in Hcall.
    assert (r = r1 /\ w' = w1) as [-> ->] by (case_run; simplify_eq; auto).
    eexists. split; [exact Hcall|]. intros ->. eexists. left. reflexivity.
Qed.

Lemma brt_search_child_rejection fuel search_node tr childnum search w pos anc b
    r tr' anc' search' w' pos' :
  search_logs_rejection search_node ->
  brt_search_child V fuel search_node tr childnum search w pos anc b
  = Ok (r, tr', anc', search', w', pos') ->
  exists new, getf_calls w' = getf_calls w ++ new
              /\ (r = TOKUDB_FOUND_BUT_REJECTED ->
                  exists kv, In (Some kv, TOKUDB_FOUND_BUT_REJECTED) new).
Proof.
  pose proof Hcodes as (Hn0 & Hr0 & Ht0 & Hnr & Hnt & Hrt).
  intros Hnode. unfold brt_search_child. intros Hrun. run_all. case_run.
  - run_all. simplify_eq. apply no_rejection.
    apply Z.eqb_eq in Hcase. congruence.
  - run_all. simplify_eq. eapply Hnode; eauto.
Qed.

Lemma search_children_rejection count fuel search_node brtcursor tr search c w pos anc b r0
    r tr' anc' search' w' pos' :
  search_logs_rejection search_node ->
  r0 <> TOKUDB_FOUND_BUT_REJECTED ->
  search_children V getf count fuel search_node brtcursor tr search c w pos anc b r0
  = Ok (r, tr', anc', search', w', pos') ->
  exists new, getf_calls w' = getf_calls w ++ new
              /\ (r = TOKUDB_FOUND_BUT_REJECTED ->
                  exists kv, In (Some kv, TOKUDB_FOUND_BUT_REJECTED) new).
Proof.
  pose proof Hcodes as (Hn0 & Hr0 & Ht0 & Hnr & Hnt & Hrt).
  intros Hnode. revert tr search c w pos anc r0.
  induction count as [|count IH]; intros tr search c w pos anc r0 Hstart Hrun; simpl in Hrun.
  - case_run; [discriminate | simplify_eq; now apply no_rejection].
  - case_run; [|simplify_eq; now apply no_rejection].
    run_all. case_run; [simplify_eq; apply no_rejection; congruence|].
    run_all.
    match goal with
    | Hs : (if 0 <? height _ then _ else _) = Ok (?r1, _, _, _, ?w1, _) |- _ =>
        assert (Hturn : exists new, getf_calls w1 = getf_calls w ++ new
                                    /\ (r1 = TOKUDB_FOUND_BUT_REJECTED ->
                                        exists kv, In (Some kv, TOKUDB_FOUND_BUT_REJECTED) new));
        [ destruct (0 <? height (tree_node tr));
          [ eapply brt_search_child_rejection; eauto
          | run_all; simplify_eq; eapply brt_search_basement_node_rejection; eauto ]
        | clear Hs ]
    end.
    case_run; [simplify_eq; exact Hturn|].
    case_run; [simplify_eq; exact Hturn|].
    run_all.
    match goal with Hn : negb (_ =? DB_NOTFOUND) = false |- _ =>
      apply negb_false_iff, Z.eqb_eq in Hn; subst end.
    match goal with Hk : search_children _ _ _ _ _ _ _ _ _ _ _ _ _ _ = Ok _ |- _ =>
      apply IH in Hk as (new2 & Hw2 & Hs2); [|congruence] end.
    destruct Hturn as (new1 & Hw1 & _).
    exists (new1 ++ new2). split; [rewrite Hw2, Hw1, app_assoc; reflexivity|].
    intros Hr. destruct (Hs2 Hr) as [kv Hin]. exists kv. apply in_or_app. now right.
Qed.

Lemma brt_search_node_rejection fuel brtcursor :
  search_logs_rejection (brt_search_node V getf fuel brtcursor).
Proof.
  pose proof Hcodes as (Hn0 & Hr0 & Ht0 & Hnr & Hnt & Hrt).
  induction fuel as [|fuel IH];
    intros tr search c w pos anc b r tr' anc' search' w' pos' Hrun; simpl in Hrun;
    [discriminate|].
  run_all. eapply search_children_rejection; [exact IH | | eassumption]. congruence.
Qed.

End SearchRejections.

(** ** The return code of a search *)

(** C9: the calls of a search that returns, in order and each with its
    answer, are [new].  If the callback was handed a key and answered
    [TOKUDB_FOUND_BUT_REJECTED], then [toku_brt_search] returns
    [DB_NOTFOUND] and has not called the callback with a NULL key.  A
    call with a NULL key is the last call and the only one of its kind,
    and it decides the code: [DB_NOTFOUND] when it answers 0, its answer
    otherwise.  So [TOKUDB_FOUND_BUT_REJECTED] is returned exactly when
    the callback answers the call with a NULL key with that code, and
    never with a callback that does not answer a NULL key so.  When
    [toku_omt_find] answers 0 or [DB_NOTFOUND] only, a search that
    returns [DB_NOTFOUND] without a rejected key is the case where
    nothing was found, and it has made the call with a NULL key. *)
Theorem toku_brt_search_maps_rejected `{Collaborators} `{SearchCollaborators} (V : Type)
    (getf : option (DBT * option DBT) -> V -> Z * V) fuel t root search w brtcursor pos
    r root' search' w' pos' counter :
  codes_distinct ->
  toku_brt_search V getf fuel t root search w brtcursor pos
  = Ok (r, root', search', w', pos', counter) ->
  exists new,
    getf_calls w' = getf_calls w ++ new
    /\ ((exists kv, In (Some kv, TOKUDB_FOUND_BUT_REJECTED) new) ->
        r = DB_NOTFOUND /\ forall answer, ~ In (None, answer) new)
    /\ (forall answer, In (None, answer) new ->
        (exists pre, new = pre ++ [(None, answer)]
                     /\ Forall (fun c => is_Some (fst c)) pre)
        /\ r = (if answer =? 0 then DB_NOTFOUND else answer))
    /\ (r = TOKUDB_FOUND_BUT_REJECTED <-> In (None, TOKUDB_FOUND_BUT_REJECTED) new)
    /\ ((forall v, fst (getf None v) <> TOKUDB_FOUND_BUT_REJECTED) ->
        r <> TOKUDB_FOUND_BUT_REJECTED)
    /\ (omt_find_codes -> r = DB_NOTFOUND ->
        (forall kv, ~ In (Some kv, TOKUDB_FOUND_BUT_REJECTED) new) ->
        exists answer, In (None, answer) new).
Proof.
  intros Hcodes. revert root search w pos.
  induction fuel as [|fuel IH]; intros root search w pos Hrun; simpl in Hrun; [discriminate|].
  pose proof Hcodes as (Hn0 & Hr0 & Ht0 & Hnr & Hnt & Hrt).
  run_all.
  match goal with Hs : brt_search_node _ _ _ _ _ _ _ _ _ _ _ = Ok (?r1, _, _, _, ?w1, _) |- _ =>
    pose proof (fun Homt => brt_search_node_rejection V getf Hcodes Homt _ _ _ _ _ _ _ _ _ _
                              _ _ _ _ _ Hs) as Hfrom;
    apply (brt_search_node_calls V getf Hcodes) in Hs as (new1 & Hw1 & Hs1);
    set (scan := r1) in *; set (w_scan := w1) in * end.
  assert (Hsome : Forall (fun c : option (DBT * option DBT) * Z => is_Some (fst c)) new1).
  { eapply Forall_impl; [exact Hs1|]. now intros call [Hcall _]. }
  assert (Hkeys : forall answer, ~ In (None, answer) new1).
  { intros answer Hin.
    destruct (proj1 (List.Forall_forall _ _) Hs1 _ Hin) as [[x Hx] _]. discriminate. }
  assert (Hrej : forall kv, In (Some kv, TOKUDB_FOUND_BUT_REJECTED) new1 ->
                            scan = TOKUDB_FOUND_BUT_REJECTED).
  { intros kv Hin. destruct (proj1 (List.Forall_forall _ _) Hs1 _ Hin) as [_ Hx]. auto. }
  assert (Hwhy : omt_find_codes -> scan = TOKUDB_FOUND_BUT_REJECTED ->
                 exists kv, In (Some kv, TOKUDB_FOUND_BUT_REJECTED) new1).
  { intros Homt Hscan. destruct (Hfrom Homt) as (new1' & Hw1' & Hin).
    rewrite Hw1 in Hw1'. apply app_inv_head in Hw1'. subst new1'. auto. }
  clear Hfrom.
  destruct (scan =? TOKUDB_TRY_AGAIN) eqn:Htry.
  - apply Z.eqb_eq in Htry.
    apply IH in Hrun as (new2 & Hw2 & Hmap & Hnull & Hsurf & Hcb & Htrue).
    exists (new1 ++ new2). split; [rewrite Hw2, Hw1, app_assoc; reflexivity|].
    split; [|split; [|split; [|split]]].
    + intros (kv & Hin). apply in_app_or in Hin as [Hin|Hin].
      * apply Hrej in Hin. congruence.
      * destruct (Hmap (ex_intro _ kv Hin)) as [-> Hno]. split; [reflexivity|].
        intros answer Hin'. apply in_app_or in Hin' as [Hin'|Hin'];
          [eapply Hkeys | eapply Hno]; eauto.
    + intros answer Hin. apply in_app_or in Hin as [Hin|Hin]; [now apply Hkeys in Hin|].
      destruct (Hnull answer Hin) as ((pre & -> & Hpre) & Hr). split; [|exact Hr].
      exists (new1 ++ pre). split; [now rewrite app_assoc|]. now apply Forall_app.
    + split.
      * intros Hr. apply in_or_app. right. now apply Hsurf.
      * intros Hin. apply in_app_or in Hin as [Hin|Hin]; [now apply Hkeys in Hin|].
        now apply Hsurf.
    + exact Hcb.
    + intros Homt Hr Hnone. destruct (Htrue Homt Hr) as [answer Hin].
      * intros kv Hin. apply (Hnone kv). apply in_or_app. now right.
      * exists answer. apply in_or_app. now right.
  - apply Z.eqb_neq in Htry.
    destruct (scan =? TOKUDB_FOUND_BUT_REJECTED) eqn:Hfbr.
    + apply Z.eqb_eq in Hfbr. pose proof (fun Homt => Hwhy Homt Hfbr) as Hkv.
      simplify_eq. exists new1. split; [exact Hw1|].
      split; [|split; [|split; [|split]]].
      * auto.
      * intros answer Hin. now apply Hkeys in Hin.
      * split; [congruence | intros Hin; now apply Hkeys in Hin].
      * congruence.
      * intros Homt _ Hnone. destruct (Hkv Homt) as [kv Hin]. now apply Hnone in Hin.
    + apply Z.eqb_neq in Hfbr.
      destruct (scan =? DB_NOTFOUND) eqn:Hnf.
      * apply Z.eqb_eq in Hnf.
        destruct (call_getf V getf None w_scan) as [r2 w2] eqn:Hcall.
        assert (Hr2 : r2 = fst (getf None (getf_v w_scan)))
          by (unfold call_getf in Hcall; destruct (getf None (getf_v w_scan));
              now injection Hcall as <- _).
        apply call_getf_calls in Hcall. simplify_eq.
        exists (new1 ++ [(None, fst (getf None (getf_v w_scan)))]).
        set (r2 := fst (getf None (getf_v w_scan))) in *.
        split; [rewrite Hcall, Hw1, app_assoc; reflexivity|].
        split; [|split; [|split; [|split]]].
        -- intros (kv & Hin). apply in_app_or in Hin as [Hin|Hin].
           ++ apply Hrej in Hin. congruence.
           ++ destruct Hin as [Hin|[]]. discriminate.
        -- intros answer Hin. apply in_app_or in Hin as [Hin|Hin]; [now apply Hkeys in Hin|].
           destruct Hin as [Hin|[]]. injection Hin as <-.
           split; [now exists new1|]. now destruct (r2 =? 0).
        -- split.
           ++ intros Hr. apply in_or_app. right. left.
              destruct (r2 =? 0) eqn:Hz; simpl in Hr; [congruence|]. now rewrite Hr.
           ++ intros Hin. apply in_app_or in Hin as [Hin|Hin]; [now apply Hkeys in Hin|].
              destruct Hin as [Hin|[]]. injection Hin as Hin. rewrite Hin.
              now rewrite (proj2 (Z.eqb_neq _ _) Hr0).
        -- intros Hcb. pose proof (Hcb (getf_v w_scan)) as Hne. fold r2 in Hne.
           destruct (r2 =? 0); simpl; congruence.
        -- intros _ _ _. exists r2. apply in_or_app. right. now left.
      * apply Z.eqb_neq in Hnf. simplify_eq. exists new1. split; [exact Hw1|].
        split; [|split; [|split; [|split]]].
        -- intros (kv & Hin). apply Hrej in Hin. congruence.
        -- intros answer Hin. now apply Hkeys in Hin.
        -- split; [congruence | intros Hin; now apply Hkeys in Hin].
        -- congruence.
        -- congruence.
Qed.

Lemma toku_brt_search_maps_rejected_witness :
  (fst (fst (fst (fst (fst SampleSearch.rejected)))) = -30989
   /\ forall answer,
        ~ In (None, answer) (getf_calls (snd (fst (fst SampleSearch.rejected)))))
  /\ (fst (fst (fst (fst (fst SampleRejection.not_found)))) = -30989
      /\ exists answer,
           In (None, answer) (getf_calls (snd (fst (fst SampleRejection.not_found))))).
Proof.
  split.
  - destruct (toku_brt_search_maps_rejected (H := Sample.collaborators)
                (H0 := SampleSearch.collaborators) _ (SampleSearch.before "a") 10
                (fst SampleSearch.grown) (snd SampleSearch.grown)
                (SampleSearch.at_or_after "b")
                SampleSearch.fresh SampleSearch.cursor SampleSearch.unset
                (fst (fst (fst (fst (fst SampleSearch.rejected)))))
                (snd (fst (fst (fst (fst SampleSearch.rejected)))))
                (snd (fst (fst (fst SampleSearch.rejected))))
                (snd (fst (fst SampleSearch.rejected)))
                (snd (fst SampleSearch.rejected))
                (snd SampleSearch.rejected))
      as (new & Hw & Hmap & _);
      [exact sample_codes_distinct | vm_compute; reflexivity |].
    change (getf_calls SampleSearch.fresh ++ new) with new in Hw. rewrite Hw.
    apply Hmap. exists ("ba", Some "0"). rewrite <- Hw. left. reflexivity.
  - split; [reflexivity|].
    destruct (toku_brt_search_maps_rejected (H := Sample.collaborators)
                (H0 := SampleSearch.collaborators) _ (SampleSearch.before "zz") 10
                (fst SampleSearch.grown) (snd SampleSearch.grown)
                (SampleSearch.at_or_after "z")
                SampleSearch.fresh SampleSearch.cursor SampleSearch.unset
                (fst (fst (fst (fst (fst SampleRejection.not_found)))))
                (snd (fst (fst (fst (fst SampleRejection.not_found)))))
                (snd (fst (fst (fst SampleRejection.not_found))))
                (snd (fst (fst SampleRejection.not_found)))
                (snd (fst SampleRejection.not_found))
                (snd SampleRejection.not_found))
      as (new & Hw & _ & _ & _ & _ & Htrue);
      [exact sample_codes_distinct | vm_compute; reflexivity |].
    change (getf_calls SampleSearch.fresh ++ new) with new in Hw. rewrite Hw.
    apply Htrue.
    + exact sample_omt_find_codes.
    + reflexivity.
    + rewrite <- Hw. intros kv [Hin|[]]. discriminate.
Defined.

(** A callback that answers the call with a NULL key with
    [TOKUDB_FOUND_BUT_REJECTED]: the search from "b" on passes over three
    keys, finds nothing, makes that call, and returns the code. *)
Lemma toku_brt_search_never_surfaces_refuted :
  toku_brt_search (H := Sample.collaborators) (H0 := SampleSearch.collaborators) _
    SampleRejection.refusing 10 (fst SampleSearch.grown) (snd SampleSearch.grown)
    (SampleSearch.at_or_after "b") SampleSearch.fresh SampleSearch.cursor SampleSearch.unset
  = Ok SampleRejection.surfaced
  /\ fst (fst (fst (fst (fst SampleRejection.surfaced))))
     = @TOKUDB_FOUND_BUT_REJECTED SampleSearch.collaborators
  /\ getf_calls (snd (fst (fst SampleRejection.surfaced)))
     = [ (Some ("ba", Some "0"), -30989); (Some ("bj", Some "19"), -30989);
         (Some ("cf", Some "10"), -30989); (None, -100002) ]
  /\ ~ (forall r root' search' w' pos' counter,
          toku_brt_search (H := Sample.collaborators) (H0 := SampleSearch.collaborators) _
            SampleRejection.refusing 10 (fst SampleSearch.grown) (snd SampleSearch.grown)
            (SampleSearch.at_or_after "b") SampleSearch.fresh SampleSearch.cursor
            SampleSearch.unset
          = Ok (r, root', search', w', pos', counter) ->
          r <> @TOKUDB_FOUND_BUT_REJECTED SampleSearch.collaborators).
Proof.
  assert (Hrun : toku_brt_search (H := Sample.collaborators)
                   (H0 := SampleSearch.collaborators) _
                   SampleRejection.refusing 10 (fst SampleSearch.grown)
                   (snd SampleSearch.grown) (SampleSearch.at_or_after "b")
                   SampleSearch.fresh SampleSearch.cursor SampleSearch.unset
                 = Ok SampleRejection.surfaced) by (vm_compute; reflexivity).
  split; [exact Hrun|]. split; [reflexivity|]. split; [reflexivity|].
  intros Hnever.
  destruct SampleRejection.surfaced as [[[[[r root'] search'] w'] pos'] counter] eqn:Hs.
  apply (Hnever _ _ _ _ _ _ Hrun).
  apply (f_equal (fun x => fst (fst (fst (fst (fst x)))))) in Hs. simpl in Hs.
  rewrite <- Hs. reflexivity.
Qed.

(** The two ways to [DB_NOTFOUND] on the sample tree: a rejected key,
    with no call for a NULL key; and nothing at or after the search
    key, with that call as the only one. *)
Example toku_brt_search_rejected_and_not_found :
  (fst (fst (fst (fst (fst SampleSearch.rejected)))) = -30989
   /\ getf_calls (snd (fst (fst SampleSearch.rejected)))
      = [ (Some ("ba", Some "0"), -100002) ])
  /\ match toku_brt_search (H := Sample.collaborators) (H0 := SampleSearch.collaborators)
             _ (SampleSearch.before "zz") 10 (fst SampleSearch.grown)
             (snd SampleSearch.grown) (SampleSearch.at_or_after "z") SampleSearch.fresh
             SampleSearch.cursor SampleSearch.unset with
     | Ok (r, _, _, w, _, _) => r = -30989 /\ getf_calls w = [ (None, -30989) ]
     | Abort _ => False
     end.
Proof. vm_compute. auto. Qed.

Section Invariant.
Context `{Collaborators}.

Local Open Scope Z_scope.

Lemma sorted_above_app lo l x :
  sorted_above lo l -> Forall (fun m => m < x) l -> lo < x -> sorted_above lo (l ++ [x]).
Proof.
  revert lo. induction l as [|y l IH]; intros lo Hs Hf Hlo; simpl in *.
  - auto.
  - destruct Hs as [Hy Hs]. inversion Hf; subst. split; [assumption|]. apply IH; auto.
Qed.

Lemma buffer_ok_app top kmax l x :
  buffer_ok top kmax l -> top < x -> buffer_ok x kmax (l ++ [x]).
Proof.
  intros (Hs & Hf & Hk) Hx. split; [|split].
  - apply sorted_above_app; [assumption| |lia].
    eapply Forall_impl; [exact Hf|]. simpl. intros. lia.
  - apply Forall_app. split; [|constructor; [lia|constructor]].
    eapply Forall_impl; [exact Hf|]. simpl. intros. lia.
  - lia.
Qed.

Lemma buffer_ok_mono top top' kmax l :
  buffer_ok top kmax l -> top <= top' -> buffer_ok top' kmax l.
Proof.
  intros (Hs & Hf & Hk) Hx. split; [assumption|]. split; [|lia].
  eapply Forall_impl; [exact Hf|]. simpl. intros. lia.
Qed.

Lemma slot_ok_mono top top' s k : slot_ok top s k -> top <= top' -> slot_ok top' s k.
Proof.
  intros (Hst & ci & Hptr & Hb) Hle. split; [assumption|]. exists ci. split; [assumption|].
  intros Hh. eapply buffer_ok_mono; eauto.
Qed.

Lemma slot_ok_appended top e s k :
  slot_ok top s k -> top < fe_msn e -> slot_ok (fe_msn e) (slot_appended e s) k.
Proof.
  intros (Hst & ci & Hptr & Hb) Hlt. unfold slot_appended. rewrite Hptr. split; [assumption|].
  eexists. split; [reflexivity|]. intros Hh. simpl. rewrite fmap_app. simpl.
  eapply buffer_ok_app; eauto.
Qed.

(** The slots only depend on what [buffers_kept] keeps. *)
Lemma buffers_kept_slots n n' : buffers_kept n n' -> slots n' = slots n.
Proof.
  intros (Hptr & Hst & _). unfold slots. apply list_eq. intros i.
  rewrite !list_lookup_fmap.
  pose proof (fmap_lookup_eq bp_ptr_of _ _ i Hptr) as Hp.
  pose proof (fmap_lookup_eq bp_state _ _ i Hst) as Hs.
  destruct (bp n' !! i) as [p'|], (bp n !! i) as [p|]; simpl in *; try discriminate;
    [|reflexivity].
  congruence.
Qed.

Lemma wf_tree_inv c node kids :
  wf_tree (Tree c node kids) -> 0 < height node ->
  Forall2 (slot_ok (max_msn_applied_to_node_in_memory node)) (slots node) kids
  /\ Forall wf_tree kids.
Proof. intros Hwf Hh. inversion Hwf; subst; [lia | auto]. Qed.

Lemma wf_tree_cached c c' node kids : wf_tree (Tree c node kids) -> wf_tree (Tree c' node kids).
Proof. intros Hwf. inversion Hwf; subst; [now apply wf_leaf | now apply wf_nonleaf]. Qed.

(** A node whose header and slots are those of [node] can take its
    place. *)
Lemma wf_tree_same_slots c c' node node' kids :
  wf_tree (Tree c node kids) -> node_frame node node' -> slots node' = slots node ->
  wf_tree (Tree c' node' kids).
Proof.
  intros Hwf (Hm & _ & Hh & _) Hs. inversion Hwf; subst.
  - apply wf_leaf. lia.
  - apply wf_nonleaf; [lia | | assumption]. now rewrite Hm, Hs.
Qed.

End Invariant.

Section PutInvariant.
Context `{Collaborators}.

Lemma slots_lookup node i p :
  BP node i = Some p -> slots node !! Z.to_nat i = Some (bp_state p, bp_ptr_of p).
Proof. intros Hp. apply BP_lookup in Hp. unfold slots. now rewrite list_lookup_fmap, Hp. Qed.

Lemma slots_set_partition node i p node' :
  node_set_partition node i p = Ok node' ->
  slots node' = <[Z.to_nat i := (bp_state p, bp_ptr_of p)]> (slots node).
Proof.
  unfold node_set_partition. intros Hrun. run_all. simplify_eq.
  unfold slots. simpl. now rewrite list_fmap_insert.
Qed.

Lemma slots_set_dirty node v : slots (node_set_dirty node v) = slots node.
Proof. reflexivity. Qed.

Lemma slots_set_max_msn node v : slots (node_set_max_msn node v) = slots node.
Proof. reflexivity. Qed.

Lemma toku_brt_append_to_child_buffer_slots node i type msn xids key val node' :
  toku_brt_append_to_child_buffer node i type msn xids key val = Ok node' ->
  exists s, slots node !! Z.to_nat i = Some s
    /\ slots node'
       = <[Z.to_nat i := slot_appended {| fe_key := key; fe_val := val; fe_type := type;
                                          fe_msn := msn; fe_xids := xids |} s]> (slots node).
Proof.
  unfold toku_brt_append_to_child_buffer. intros Hrun. run_all.
  match goal with Hp : BP node i = Some ?p |- _ =>
    exists (bp_state p, bp_ptr_of p); split; [now apply slots_lookup|] end.
  match goal with Hm : match bp_ptr_of ?p with _ => _ end = Ok _ |- _ =>
    destruct (bp_ptr_of p) eqn:Hptr; try discriminate end.
  simplify_eq. rewrite slots_set_dirty.
  match goal with Hs : node_set_partition _ _ _ = Ok _ |- _ =>
    apply slots_set_partition in Hs; rewrite Hs end.
  unfold slot_appended. simpl. reflexivity.
Qed.

Lemma cmd_to_children_slots count node i cmd node' :
  cmd_to_children count node i cmd = Ok node' -> 0 <= i ->
  slots node'
  = take (Z.to_nat i) (slots node)
    ++ (slot_appended (entry_of_msg cmd) <$> take count (drop (Z.to_nat i) (slots node)))
    ++ drop (Z.to_nat i + count) (slots node).
Proof.
  revert node i. induction count as [|count IH]; intros node i Hrun Hi; simpl in Hrun.
  - simplify_eq. rewrite take_0. simpl. rewrite Nat.add_0_r. now rewrite take_drop.
  - run_all. unfold brt_nonleaf_cmd_once_to_child in *.
    match goal with Ha : toku_brt_append_to_child_buffer _ _ _ _ _ _ _ = Ok _ |- _ =>
      apply toku_brt_append_to_child_buffer_slots in Ha as (s & Hs & Hsl) end.
    match goal with Hk : cmd_to_children _ _ _ _ = Ok _ |- _ =>
      apply IH in Hk; [|lia]; rewrite Hk, Hsl end.
    fold (entry_of_msg cmd).
    pose proof (lookup_lt_Some _ _ _ Hs) as Hlt.
    replace (Z.to_nat (i + 1)) with (Datatypes.S (Z.to_nat i)) by lia.
    rewrite (take_S_r _ _ (slot_appended (entry_of_msg cmd) s))
      by (apply list_lookup_insert_eq; exact Hlt).
    rewrite take_insert_ge by lia.
    rewrite !drop_insert_lt by lia.
    rewrite (drop_S _ _ _ Hs). simpl.
    rewrite <- app_assoc. simpl.
    replace (Z.to_nat i + Datatypes.S count)%nat with (Datatypes.S (Z.to_nat i) + count)%nat by lia.
    reflexivity.
Qed.

Lemma Forall2_slot_appended_at top e sl kids i s :
  Forall2 (slot_ok top) sl kids -> top < fe_msn e -> sl !! i = Some s ->
  Forall2 (slot_ok (fe_msn e)) (<[i := slot_appended e s]> sl) kids.
Proof.
  intros F Hlt Hs.
  destruct (Forall2_lookup_l _ _ _ _ _ F Hs) as (k & Hk & Hok).
  rewrite <- (list_insert_id kids i k Hk).
  apply Forall2_insert; [|eapply slot_ok_appended; eassumption].
  eapply Forall2_impl; [exact F|]. intros s0 k0 H0. eapply slot_ok_mono; [exact H0 | lia].
Qed.

Lemma Forall2_slot_appended_all top e sl kids :
  Forall2 (slot_ok top) sl kids -> top < fe_msn e ->
  Forall2 (slot_ok (fe_msn e)) (slot_appended e <$> sl) kids.
Proof.
  intros F Hlt. apply Forall2_fmap_l.
  eapply Forall2_impl; [exact F|]. intros s0 k0 H0. eapply slot_ok_appended; eassumption.
Qed.

Lemma brt_nonleaf_cmd_once_slots top node cmd node' kids :
  brt_nonleaf_cmd_once node cmd = Ok node' ->
  Forall2 (slot_ok top) (slots node) kids -> top < cmd_msn cmd ->
  Forall2 (slot_ok (cmd_msn cmd)) (slots node') kids.
Proof.
  unfold brt_nonleaf_cmd_once, brt_nonleaf_cmd_once_to_child. intros Hrun F Hlt. run_all.
  match goal with Ha : toku_brt_append_to_child_buffer _ _ _ _ _ _ _ = Ok _ |- _ =>
    apply toku_brt_append_to_child_buffer_slots in Ha as (s & Hs & Hsl) end.
  rewrite Hsl. fold (entry_of_msg cmd).
  apply (Forall2_slot_appended_at top (entry_of_msg cmd)); assumption.
Qed.

Lemma brt_nonleaf_cmd_all_slots top node cmd node' kids :
  brt_nonleaf_cmd_all node cmd = Ok node' ->
  Forall2 (slot_ok top) (slots node) kids -> top < cmd_msn cmd ->
  Forall2 (slot_ok (cmd_msn cmd)) (slots node') kids.
Proof.
  unfold brt_nonleaf_cmd_all. intros Hrun F Hlt.
  apply cmd_to_children_slots in Hrun; [|lia]. rewrite Hrun. simpl. rewrite drop_0.
  rewrite (take_ge (slots node)) by (unfold slots; rewrite length_fmap; lia).
  rewrite (drop_ge (slots node)) by (unfold slots; rewrite length_fmap; lia).
  rewrite app_nil_r.
  apply (Forall2_slot_appended_all top (entry_of_msg cmd)); assumption.
Qed.

(** A put into a nonleaf node of the tree keeps the invariant. *)
Lemma brt_nonleaf_put_cmd_wf c node kids cmd node' :
  wf_tree (Tree c node kids) -> 0 < height node ->
  brt_nonleaf_put_cmd node cmd = Ok node' ->
  wf_tree (Tree c node' kids).
Proof.
  intros Hwf Hh Hrun.
  destruct (wf_tree_inv _ _ _ Hwf Hh) as [F Fk].
  pose proof (brt_nonleaf_put_cmd_Ok _ _ _ Hrun) as [Hlt Hframe].
  pose proof Hframe as (Hm & _ & Hh' & _). simpl in Hm, Hh'.
  apply wf_nonleaf; [lia | | exact Fk]. rewrite Hm.
  unfold brt_nonleaf_put_cmd in Hrun. run_all.
  destruct (cmd_type cmd);
    try (eapply brt_nonleaf_cmd_once_slots; eauto; fail);
    try (eapply brt_nonleaf_cmd_all_slots; eauto; fail).
  simplify_eq. simpl.
  eapply Forall2_impl; [exact F|]. intros s0 k0 H0. eapply slot_ok_mono; [exact H0 | lia].
Qed.

End PutInvariant.

(** ** Where the MSN check can fail *)

Lemma mild_Ok {A} (a : A) : mild (Ok a).
Proof. discriminate. Qed.

Lemma mild_Assert_failed {A} fn : mild (@Abort A (Assert_failed fn)).
Proof. discriminate. Qed.

Lemma mild_Out_of_fuel {A} : mild (@Abort A Out_of_fuel).
Proof. discriminate. Qed.

Lemma mild_Invariant_root_msn {A} : mild (@Abort A Invariant_root_msn).
Proof. discriminate. Qed.

Lemma mild_bind_Ok {A B} (m : result A) (k : A -> result B) :
  mild m -> (forall a, m = Ok a -> mild (k a)) -> mild (bind m k).
Proof.
  intros Hm Hk. destruct m as [a|f]; simpl; [now apply Hk|].
  unfold mild in *. congruence.
Qed.

Lemma mild_bind {A B} (m : result A) (k : A -> result B) :
  mild m -> (forall a, mild (k a)) -> mild (bind m k).
Proof. intros Hm Hk. apply mild_bind_Ok; auto. Qed.

Lemma mild_ensure b fn : mild (ensure b fn).
Proof. destruct b; discriminate. Qed.

Lemma mild_from_option {A} (o : option A) fn : mild (from_option o fn).
Proof. destruct o; discriminate. Qed.

Lemma mild_guard_root b : mild (guard_fault b Invariant_root_msn).
Proof. destruct b; discriminate. Qed.

Create HintDb mild discriminated.
#[export] Hint Resolve mild_Ok mild_Assert_failed mild_Out_of_fuel mild_Invariant_root_msn
  mild_ensure mild_from_option mild_guard_root : mild.

(** One step through code that cannot fail the MSN check. *)
Ltac mild_step :=
  lazymatch goal with
  | |- mild (Ok _) => apply mild_Ok
  | |- mild (Abort _) => discriminate
  | |- mild (bind _ _) => apply mild_bind; [|intros]
  | |- mild (ensure _ _) => apply mild_ensure
  | |- mild (from_option _ _) => apply mild_from_option
  | |- mild (if ?c then _ else _) => destruct c
  | |- mild (match ?x with _ => _ end) => destruct x
  | |- mild _ => solve [ assumption | auto with mild ]
  end.

Ltac mild_all := repeat (cbv beta iota zeta; mild_step).

Section MildLeaves.
Context `{Collaborators}.

Lemma toku_assert_entire_node_in_memory_mild node :
  mild (toku_assert_entire_node_in_memory node).
Proof. unfold toku_assert_entire_node_in_memory. mild_all. Qed.
#[local] Hint Resolve toku_assert_entire_node_in_memory_mild : mild.

Lemma node_set_partition_mild n i p : mild (node_set_partition n i p).
Proof. unfold node_set_partition. mild_all. Qed.
#[local] Hint Resolve node_set_partition_mild : mild.

Lemma sum_omt_sizes_mild ps acc : mild (sum_omt_sizes ps acc).
Proof. revert acc. induction ps as [|p ps IH]; intros acc; simpl; mild_all. Qed.
#[local] Hint Resolve sum_omt_sizes_mild : mild.

Lemma get_node_reactivity_mild node : mild (get_node_reactivity node).
Proof.
  unfold get_node_reactivity, get_leaf_reactivity, get_nonleaf_reactivity,
    get_leaf_num_entries.
  mild_all.
Qed.
#[local] Hint Resolve get_node_reactivity_mild : mild.

Lemma bump_nkeys_mild a d : mild (bump_nkeys a d).
Proof. unfold bump_nkeys. mild_all. Qed.
#[local] Hint Resolve bump_nkeys_mild : mild.

Lemma brt_leaf_delete_leafentry_mild bn se idx le :
  mild (brt_leaf_delete_leafentry bn se idx le).
Proof. unfold brt_leaf_delete_leafentry. mild_all. Qed.
#[local] Hint Resolve brt_leaf_delete_leafentry_mild : mild.

Lemma brt_leaf_apply_cmd_once_mild bn se cmd idx le :
  mild (brt_leaf_apply_cmd_once bn se cmd idx le).
Proof. unfold brt_leaf_apply_cmd_once. mild_all. Qed.
#[local] Hint Resolve brt_leaf_apply_cmd_once_mild : mild.

Lemma do_update_mild bn se cmd idx le : mild (do_update bn se cmd idx le).
Proof. unfold do_update, setval_fun. mild_all. Qed.
#[local] Hint Resolve do_update_mild : mild.

Lemma apply_to_matches_mild fuel bn se cmd idx le :
  mild (apply_to_matches fuel bn se cmd idx le).
Proof.
  revert bn se idx le. induction fuel as [|fuel IH]; intros bn se idx le; simpl; mild_all.
Qed.
#[local] Hint Resolve apply_to_matches_mild : mild.

Lemma apply_to_all_mild fuel wanted bn se cmd idx size mc :
  mild (apply_to_all fuel wanted bn se cmd idx size mc).
Proof.
  revert bn se idx size mc.
  induction fuel as [|fuel IH]; intros bn se idx size mc; simpl; mild_all.
Qed.
#[local] Hint Resolve apply_to_all_mild : mild.

Lemma update_all_mild fuel bn se cmd idx mc : mild (update_all fuel bn se cmd idx mc).
Proof.
  revert bn se idx mc. induction fuel as [|fuel IH]; intros bn se idx mc; simpl; mild_all.
Qed.
#[local] Hint Resolve update_all_mild : mild.

Lemma brt_leaf_put_cmd_mild fuel bn se cmd : mild (brt_leaf_put_cmd fuel bn se cmd).
Proof. unfold brt_leaf_put_cmd. mild_all. Qed.
#[local] Hint Resolve brt_leaf_put_cmd_mild : mild.

Lemma mild_fold_left {A B} (f : result A -> B -> result A) l init :
  (forall acc x, mild acc -> mild (f acc x)) -> mild init -> mild (fold_left f l init).
Proof. intros Hf. revert init. induction l as [|x l IH]; intros init Hi; simpl; auto. Qed.

Lemma toku_brt_leaf_reset_calc_leaf_stats_mild node :
  mild (toku_brt_leaf_reset_calc_leaf_stats node).
Proof. unfold toku_brt_leaf_reset_calc_leaf_stats. mild_all. Qed.
#[local] Hint Resolve toku_brt_leaf_reset_calc_leaf_stats_mild : mild.

Lemma fixup_child_estimates_mild node childnum child dirty_it :
  mild (fixup_child_estimates node childnum child dirty_it).
Proof.
  unfold fixup_child_estimates. apply mild_bind; [|intros; mild_all].
  apply mild_fold_left; [|apply mild_Ok].
  intros acc p Hacc. unfold add_child_estimate. mild_all.
Qed.
#[local] Hint Resolve fixup_child_estimates_mild : mild.

Lemma which_child_search_mild fuel node k lo hi : mild (which_child_search fuel node k lo hi).
Proof. revert lo hi. induction fuel as [|fuel IH]; intros lo hi; simpl; mild_all. Qed.
#[local] Hint Resolve which_child_search_mild : mild.

Lemma toku_brtnode_which_child_mild node k : mild (toku_brtnode_which_child node k).
Proof. unfold toku_brtnode_which_child. mild_all. Qed.
#[local] Hint Resolve toku_brtnode_which_child_mild : mild.

Lemma leaf_put_cmd_at_mild fuel node childnum cmd :
  mild (leaf_put_cmd_at fuel node childnum cmd).
Proof. unfold leaf_put_cmd_at. mild_all. Qed.
#[local] Hint Resolve leaf_put_cmd_at_mild : mild.

Lemma apply_cmd_to_partitions_mild fuel count node childnum cmd mc :
  mild (apply_cmd_to_partitions fuel count node childnum cmd mc).
Proof.
  revert node childnum mc.
  induction count as [|count IH]; intros node childnum mc; simpl; mild_all.
Qed.
#[local] Hint Resolve apply_cmd_to_partitions_mild : mild.

Lemma toku_apply_cmd_to_leaf_mild fuel node cmd mc :
  mild (toku_apply_cmd_to_leaf fuel node cmd mc).
Proof. unfold toku_apply_cmd_to_leaf. mild_all. Qed.
#[local] Hint Resolve toku_apply_cmd_to_leaf_mild : mild.

Lemma apply_buffer_messages_to_node_mild fuel bn se anode achildnum h m bounds :
  mild (apply_buffer_messages_to_node fuel bn se anode achildnum h m bounds).
Proof.
  unfold apply_buffer_messages_to_node. mild_all.
  apply mild_fold_left; [|apply mild_Ok].
  intros acc e Hacc. unfold apply_buffer_message. mild_all.
Qed.
#[local] Hint Resolve apply_buffer_messages_to_node_mild : mild.

Lemma replay_ancestors_mild fuel anc h m bounds bn se mx :
  mild (replay_ancestors fuel anc h m bounds bn se mx).
Proof.
  revert h bn se mx. induction anc as [|[anode achildnum] anc IH]; intros h bn se mx; simpl;
    mild_all.
Qed.
#[local] Hint Resolve replay_ancestors_mild : mild.

Lemma replay_partitions_mild fuel count node i anc bounds us :
  mild (replay_partitions fuel count node i anc bounds us).
Proof.
  revert node i us. induction count as [|count IH]; intros node i us; simpl; mild_all.
Qed.
#[local] Hint Resolve replay_partitions_mild : mild.

Lemma fixup_ancestors_mild prev anc : mild (fixup_ancestors prev anc).
Proof.
  revert prev. induction anc as [|[anode achildnum] anc IH]; intros prev; simpl; mild_all.
Qed.
#[local] Hint Resolve fixup_ancestors_mild : mild.

Lemma maybe_apply_ancestors_messages_to_node_mild fuel node anc bounds :
  mild (maybe_apply_ancestors_messages_to_node fuel node anc bounds).
Proof. unfold maybe_apply_ancestors_messages_to_node. mild_all. Qed.
#[local] Hint Resolve maybe_apply_ancestors_messages_to_node_mild : mild.

Lemma toku_create_new_brtnode_mild t h n : mild (toku_create_new_brtnode t h n).
Proof. unfold toku_create_new_brtnode, toku_initialize_empty_brtnode. mild_all. Qed.
#[local] Hint Resolve toku_create_new_brtnode_mild : mild.

Lemma basements_of_mild ps : mild (basements_of ps).
Proof. induction ps as [|p ps IH]; simpl; mild_all. Qed.
#[local] Hint Resolve basements_of_mild : mild.

Lemma brtleaf_split_mild t node nodeb create : mild (brtleaf_split t node nodeb create).
Proof.
  unfold brtleaf_split, brtleaf_disk_size, brtleaf_get_split_loc, move_leafentries.
  mild_all.
Qed.
#[local] Hint Resolve brtleaf_split_mild : mild.

Lemma merge_leaf_nodes_mild a b : mild (merge_leaf_nodes a b).
Proof. unfold merge_leaf_nodes. mild_all. Qed.
#[local] Hint Resolve merge_leaf_nodes_mild : mild.

Lemma maybe_merge_pinned_leaf_nodes_mild parent childnum a b k :
  mild (maybe_merge_pinned_leaf_nodes parent childnum a b k).
Proof. unfold maybe_merge_pinned_leaf_nodes, balance_leaf_nodes. mild_all. Qed.
#[local] Hint Resolve maybe_merge_pinned_leaf_nodes_mild : mild.

Lemma toku_brt_append_to_child_buffer_mild node childnum type msn xids key val :
  mild (toku_brt_append_to_child_buffer node childnum type msn xids key val).
Proof. unfold toku_brt_append_to_child_buffer. mild_all. Qed.
#[local] Hint Resolve toku_brt_append_to_child_buffer_mild : mild.

Lemma brt_nonleaf_cmd_once_mild node cmd : mild (brt_nonleaf_cmd_once node cmd).
Proof. unfold brt_nonleaf_cmd_once, brt_nonleaf_cmd_once_to_child. mild_all. Qed.
#[local] Hint Resolve brt_nonleaf_cmd_once_mild : mild.

Lemma cmd_to_children_mild count node i cmd : mild (cmd_to_children count node i cmd).
Proof.
  revert node i. induction count as [|count IH]; intros node i; simpl; mild_all.
  unfold brt_nonleaf_cmd_once_to_child. mild_all.
Qed.
#[local] Hint Resolve cmd_to_children_mild : mild.

Lemma assert_leaf_up_to_date_mild node : mild (assert_leaf_up_to_date node).
Proof. unfold assert_leaf_up_to_date. mild_all. Qed.
#[local] Hint Resolve assert_leaf_up_to_date_mild : mild.

Lemma nonleaf_node_is_gorged_mild node : mild (nonleaf_node_is_gorged node).
Proof.
  unfold nonleaf_node_is_gorged. mild_all.
  induction (bp node) as [|p ps IH]; mild_all.
Qed.
#[local] Hint Resolve nonleaf_node_is_gorged_mild : mild.

Lemma heaviest_from_mild ps i c w : mild (heaviest_from ps i c w).
Proof. revert i c w. induction ps as [|p ps IH]; intros i c w; simpl; mild_all. Qed.
#[local] Hint Resolve heaviest_from_mild : mild.

Lemma find_heaviest_child_mild node : mild (find_heaviest_child node).
Proof. unfold find_heaviest_child. mild_all. Qed.
#[local] Hint Resolve find_heaviest_child_mild : mild.

Lemma search_which_child_from_mild count node search c :
  mild (search_which_child_from count node search c).
Proof. revert c. induction count as [|count IH]; intros c; simpl; mild_all. Qed.
#[local] Hint Resolve search_which_child_from_mild : mild.

Lemma toku_brtnode_pf_req_callback_mild node bfe :
  mild (toku_brtnode_pf_req_callback node bfe).
Proof. unfold toku_brtnode_pf_req_callback, toku_brt_search_which_child. mild_all. Qed.
#[local] Hint Resolve toku_brtnode_pf_req_callback_mild : mild.

Lemma pf_partitions_mild count node bfe i : mild (pf_partitions count node bfe i).
Proof. revert node i. induction count as [|count IH]; intros node i; simpl; mild_all. Qed.
#[local] Hint Resolve pf_partitions_mild : mild.

Lemma toku_cachetable_get_and_pin_mild tr bfe : mild (toku_cachetable_get_and_pin tr bfe).
Proof. unfold toku_cachetable_get_and_pin, toku_brtnode_pf_callback. mild_all. Qed.
#[local] Hint Resolve toku_cachetable_get_and_pin_mild : mild.

Lemma toku_pin_brtnode_holding_lock_mild fuel tr anc bounds bfe :
  mild (toku_pin_brtnode_holding_lock fuel tr anc bounds bfe).
Proof. unfold toku_pin_brtnode_holding_lock. mild_all. Qed.
#[local] Hint Resolve toku_pin_brtnode_holding_lock_mild : mild.

Lemma compute_child_fullhash_mild node childnum : mild (compute_child_fullhash node childnum).
Proof. unfold compute_child_fullhash. mild_all. Qed.
#[local] Hint Resolve compute_child_fullhash_mild : mild.

Lemma child_of_mild tr childnum : mild (child_of tr childnum).
Proof. unfold child_of. mild_all. Qed.
#[local] Hint Resolve child_of_mild : mild.

Lemma brt_nonleaf_split_mild t tr : mild (brt_nonleaf_split t tr).
Proof. unfold brt_nonleaf_split. mild_all. Qed.
#[local] Hint Resolve brt_nonleaf_split_mild : mild.

Lemma handle_split_of_child_mild node childnum childa childb splitk :
  mild (handle_split_of_child node childnum childa childb splitk).
Proof. unfold handle_split_of_child. mild_all. Qed.
#[local] Hint Resolve handle_split_of_child_mild : mild.

Lemma brt_split_child_mild t tr childnum : mild (brt_split_child t tr childnum).
Proof. unfold brt_split_child. mild_all. Qed.
#[local] Hint Resolve brt_split_child_mild : mild.

Lemma maybe_merge_pinned_nodes_mild parent childnum k a b :
  mild (maybe_merge_pinned_nodes parent childnum k a b).
Proof. unfold maybe_merge_pinned_nodes, maybe_merge_pinned_nonleaf_nodes. mild_all. Qed.
#[local] Hint Resolve maybe_merge_pinned_nodes_mild : mild.

Lemma deq_and_account_mild node childnum e : mild (deq_and_account node childnum e).
Proof. unfold deq_and_account, ptr_childinfo_of. mild_all. Qed.
#[local] Hint Resolve deq_and_account_mild : mild.

Lemma drain_to_leaf_mild fuel node childnum : mild (drain_to_leaf fuel node childnum).
Proof. revert node. induction fuel as [|fuel IH]; intros node; simpl; mild_all. Qed.
#[local] Hint Resolve drain_to_leaf_mild : mild.

Lemma brt_init_new_root_mild t nodea nodeb splitk len :
  mild (brt_init_new_root t nodea nodeb splitk len).
Proof. unfold brt_init_new_root, toku_initialize_empty_brtnode. mild_all. Qed.
#[local] Hint Resolve brt_init_new_root_mild : mild.

Lemma brt_handle_maybe_reactive_root_mild t root : mild (brt_handle_maybe_reactive_root t root).
Proof. unfold brt_handle_maybe_reactive_root. mild_all. Qed.
#[local] Hint Resolve brt_handle_maybe_reactive_root_mild : mild.

Lemma walk_children_mild (walk : brt_tree -> BRT_MSG -> bool -> option (BRTNODE * Z) ->
                                 result (brt_tree * option (BRTNODE * Z)))
    count tr childnum cmd :
  (forall child cmd is_root parent, mild (walk child cmd is_root parent)) ->
  mild (walk_children walk count tr childnum cmd).
Proof.
  intros Hwalk. revert tr childnum.
  induction count as [|count IH]; intros tr childnum; simpl; mild_all.
Qed.

Lemma apply_cmd_to_in_memory_non_root_leaves_mild fuel tr cmd is_root parent :
  mild (apply_cmd_to_in_memory_non_root_leaves fuel tr cmd is_root parent).
Proof.
  revert tr cmd is_root parent.
  induction fuel as [|fuel IH]; intros tr cmd is_root parent; simpl; mild_all.
  apply walk_children_mild. exact IH.
Qed.
#[local] Hint Resolve apply_cmd_to_in_memory_non_root_leaves_mild : mild.

End MildLeaves.

#[export] Hint Resolve
  toku_assert_entire_node_in_memory_mild node_set_partition_mild sum_omt_sizes_mild
  get_node_reactivity_mild bump_nkeys_mild brt_leaf_delete_leafentry_mild
  brt_leaf_apply_cmd_once_mild do_update_mild apply_to_matches_mild apply_to_all_mild
  update_all_mild brt_leaf_put_cmd_mild toku_brt_leaf_reset_calc_leaf_stats_mild
  fixup_child_estimates_mild which_child_search_mild toku_brtnode_which_child_mild
  leaf_put_cmd_at_mild apply_cmd_to_partitions_mild toku_apply_cmd_to_leaf_mild
  apply_buffer_messages_to_node_mild replay_ancestors_mild replay_partitions_mild
  fixup_ancestors_mild maybe_apply_ancestors_messages_to_node_mild
  toku_create_new_brtnode_mild basements_of_mild brtleaf_split_mild merge_leaf_nodes_mild
  maybe_merge_pinned_leaf_nodes_mild toku_brt_append_to_child_buffer_mild
  brt_nonleaf_cmd_once_mild cmd_to_children_mild assert_leaf_up_to_date_mild
  nonleaf_node_is_gorged_mild heaviest_from_mild find_heaviest_child_mild
  search_which_child_from_mild toku_brtnode_pf_req_callback_mild pf_partitions_mild
  toku_cachetable_get_and_pin_mild toku_pin_brtnode_holding_lock_mild
  compute_child_fullhash_mild child_of_mild brt_nonleaf_split_mild handle_split_of_child_mild
  brt_split_child_mild maybe_merge_pinned_nodes_mild deq_and_account_mild drain_to_leaf_mild
  brt_init_new_root_mild brt_handle_maybe_reactive_root_mild
  apply_cmd_to_in_memory_non_root_leaves_mild
  : mild.

Section PinInvariant.
Context `{Collaborators}.
Hypothesis Hdes : deserialize_keeps_frame.

Lemma slot_ok_avail top s k : slot_ok top s k -> s.1 = PT_AVAIL.
Proof. now intros [Hs _]. Qed.

Lemma wf_tree_all_avail c node kids :
  wf_tree (Tree c node kids) -> 0 < height node ->
  forallb partition_avail (bp node) = true.
Proof.
  intros Hwf Hh. destruct (wf_tree_inv _ _ _ Hwf Hh) as [F _].
  apply Is_true_true, forallb_True, Forall_forall. intros p Hp.
  unfold partition_avail. apply bool_decide_pack.
  apply list_elem_of_lookup_1 in Hp as [i Hi].
  assert (Hs : slots node !! i = Some (bp_state p, bp_ptr_of p))
    by (unfold slots; now rewrite list_lookup_fmap, Hi).
  destruct (Forall2_lookup_l _ _ _ _ _ F Hs) as (k & _ & Hok).
  exact (slot_ok_avail _ _ _ Hok).
Qed.

Lemma wf_tree_height tr : wf_tree tr -> 0 <= height (tree_node tr).
Proof. intros Hwf. inversion Hwf; subst; simpl; lia. Qed.

(** A full read of a nonleaf node of the tree finds it in memory. *)
Lemma toku_cachetable_get_and_pin_nonleaf tr tr' bfe' :
  wf_tree tr -> 0 < height (tree_node tr) ->
  toku_cachetable_get_and_pin tr fill_bfe_for_full_read = Ok (tr', bfe') ->
  tr' = Tree true (tree_node tr) (tree_kids tr).
Proof.
  intros Hwf Hh. destruct tr as [c node kids]. simpl in *.
  unfold toku_cachetable_get_and_pin. simpl.
  rewrite (wf_tree_all_avail _ _ _ Hwf Hh). simpl. intros Hrun. now simplify_eq.
Qed.

Lemma toku_cachetable_get_and_pin_wf tr tr' bfe' :
  wf_tree tr ->
  toku_cachetable_get_and_pin tr fill_bfe_for_full_read = Ok (tr', bfe') ->
  wf_tree tr'
  /\ node_frame (tree_node tr) (tree_node tr')
  /\ (0 < height (tree_node tr) ->
      tree_node tr' = tree_node tr /\ tree_kids tr' = tree_kids tr).
Proof.
  intros Hwf Hrun.
  destruct (Z.ltb_spec 0 (height (tree_node tr))) as [Hh|Hh].
  - rewrite (toku_cachetable_get_and_pin_nonleaf _ _ _ Hwf Hh Hrun). simpl.
    split; [|split; [apply node_frame_refl | auto]].
    destruct tr. simpl. eapply wf_tree_cached; eauto.
  - pose proof (wf_tree_height _ Hwf) as H0.
    pose proof (toku_cachetable_get_and_pin_frame Hdes _ _ _ _ Hrun) as [F Hk].
    split; [|split; [exact F | lia]].
    destruct tr' as [c' node' kids']. apply wf_leaf.
    destruct F as (_ & _ & Hh' & _). simpl in *. lia.
Qed.

Lemma replay_partitions_height fuel count node i anc bounds us node' us' :
  replay_partitions fuel count node i anc bounds us = Ok (node', us') ->
  height node' = height node.
Proof.
  revert node i us. induction count as [|count IH]; intros node i us Hrun; simpl in Hrun.
  - now simplify_eq.
  - run_all.
    match goal with Hk : replay_partitions _ _ ?n _ _ _ _ = Ok _ |- _ =>
      rewrite (IH _ _ _ Hk) end.
    case_run; [now simplify_eq|].
    match goal with Hm : match bp_ptr_of ?p with _ => _ end = Ok _ |- _ =>
      destruct (bp_ptr_of p); try discriminate end.
    case_run; [now simplify_eq|].
    run_all.
    match goal with Hs : node_set_partition _ _ _ = Ok _ |- _ =>
      pose proof (node_set_partition_node_frame _ _ _ _ _ Hs (node_frame_refl _))
        as (_ & _ & Hh & _) end.
    simplify_eq. exact Hh.
Qed.

Lemma maybe_apply_ancestors_messages_nonleaf fuel node anc bounds :
  0 < height node ->
  maybe_apply_ancestors_messages_to_node fuel node anc bounds = Ok (node, anc).
Proof.
  intros Hh. unfold maybe_apply_ancestors_messages_to_node.
  now rewrite (proj2 (Z.ltb_lt _ _) Hh).
Qed.

Lemma maybe_apply_ancestors_messages_height fuel node anc bounds node' anc' :
  maybe_apply_ancestors_messages_to_node fuel node anc bounds = Ok (node', anc') ->
  height node' = height node.
Proof.
  unfold maybe_apply_ancestors_messages_to_node. intros Hrun.
  case_run; [now simplify_eq|]. run_all.
  match goal with Hr : replay_partitions _ _ _ _ _ _ _ = Ok _ |- _ =>
    apply replay_partitions_height in Hr end.
  case_run; run_all; simplify_eq; [|assumption].
  match goal with Hs : toku_brt_leaf_reset_calc_leaf_stats _ = Ok _ |- _ =>
    apply toku_brt_leaf_reset_calc_leaf_stats_frame in Hs as (_ & _ & Hh & _) end.
  congruence.
Qed.

(** Pinning a subtree for a full read: a nonleaf node stays as it is,
    a leaf stays a leaf. *)
Lemma toku_pin_brtnode_holding_lock_wf fuel tr anc bounds tr' anc' bfe' :
  wf_tree tr ->
  toku_pin_brtnode_holding_lock fuel tr anc bounds fill_bfe_for_full_read
  = Ok (tr', anc', bfe') ->
  wf_tree tr'
  /\ height (tree_node tr') = height (tree_node tr)
  /\ (0 < height (tree_node tr) ->
      tree_node tr' = tree_node tr /\ tree_kids tr' = tree_kids tr /\ anc' = anc).
Proof.
  intros Hwf. unfold toku_pin_brtnode_holding_lock. intros Hrun. run_all.
  match goal with Hp : toku_cachetable_get_and_pin _ _ = Ok (?p, _) |- _ =>
    destruct (toku_cachetable_get_and_pin_wf _ _ _ Hwf Hp) as (Hwf1 & F1 & Hsame);
    destruct p as [c0 n0 k0] end.
  match goal with Hm : maybe_apply_ancestors_messages_to_node _ _ _ _ = Ok _ |- _ =>
    rename Hm into Hreplay end.
  pose proof (maybe_apply_ancestors_messages_height _ _ _ _ _ _ Hreplay) as Hh2.
  destruct F1 as (_ & _ & Hh1 & _). simpl in *.
  destruct (Z.ltb_spec 0 (height (tree_node tr))) as [Hh|Hh].
  - destruct (Hsame Hh) as [Hn Hk].
    rewrite maybe_apply_ancestors_messages_nonleaf in Hreplay by lia. simplify_eq.
    unfold tree_set_node. simpl. split; [exact Hwf1|]. split; [reflexivity | auto].
  - pose proof (wf_tree_height _ Hwf) as H0. simplify_eq. simpl.
    split; [|split; [lia | lia]].
    apply wf_leaf. lia.
Qed.

End PinInvariant.

Section DrainInvariant.
Context `{Collaborators}.

Lemma brt_nonleaf_put_cmd_mild node cmd :
  max_msn_applied_to_node_in_memory node < cmd_msn cmd ->
  mild (brt_nonleaf_put_cmd node cmd).
Proof.
  intros Hlt. unfold brt_nonleaf_put_cmd.
  rewrite (proj2 (Z.ltb_lt _ _) Hlt). simpl.
  destruct (cmd_type cmd); unfold brt_nonleaf_cmd_all; auto with mild.
Qed.

(** A message above the MSN of a nonleaf node of the tree goes in, and
    the node then carries its MSN. *)
Lemma brtnode_put_cmd_wf c node kids cmd :
  wf_tree (Tree c node kids) -> 0 < height node ->
  max_msn_applied_to_node_in_memory node < cmd_msn cmd ->
  mild (brtnode_put_cmd node cmd)
  /\ forall node', brtnode_put_cmd node cmd = Ok node' ->
       wf_tree (Tree c node' kids)
       /\ max_msn_applied_to_node_in_memory node' = cmd_msn cmd
       /\ height node' = height node.
Proof.
  intros Hwf Hh Hlt. unfold brtnode_put_cmd.
  assert (Hz : (height node =? 0) = false) by (apply Z.eqb_neq; lia).
  split.
  - apply mild_bind; [auto with mild|]. intros _. rewrite Hz.
    now apply brt_nonleaf_put_cmd_mild.
  - intros node' Hrun. run_all. rewrite Hz in Hrun.
    split; [eapply brt_nonleaf_put_cmd_wf; eauto|].
    apply brt_nonleaf_put_cmd_Ok in Hrun as [_ (Hm & _ & Hh' & _)]. auto.
Qed.

Lemma drain_to_nonleaf_wf fuel node child ckids c i ci top :
  BNC node i = Some ci ->
  wf_tree (Tree c child ckids) -> 0 < height child ->
  buffer_ok top (max_msn_applied_to_node_in_memory child) (fe_msn <$> bnc_buffer ci) ->
  mild (drain_to_nonleaf fuel node child i)
  /\ forall node' child', drain_to_nonleaf fuel node child i = Ok (node', child') ->
       wf_tree (Tree c child' ckids)
       /\ max_msn_applied_to_node_in_memory child' <= top
       /\ height child' = height child.
Proof.
  revert node child ci.
  induction fuel as [|fuel IH]; intros node child ci Hci Hwf Hh Hb; simpl.
  - split; [apply mild_Out_of_fuel | discriminate].
  - unfold BNC_BUFFER. rewrite Hci. simpl.
    destruct (bnc_buffer ci) as [|e rest] eqn:Hbuf.
    + split; [apply mild_Ok|]. intros node' child' [= <- <-].
      destruct Hb as (_ & _ & Hle). auto.
    + destruct Hb as ((Hlt & Hsorted) & Hall & Hle). simpl in Hlt, Hsorted, Hall.
      inversion Hall as [|? ? Hetop Hrest]; subst.
      destruct (brtnode_put_cmd_wf c child ckids (msg_of_entry e) Hwf Hh Hlt)
        as [Hmild Hput].
      split.
      * apply mild_bind_Ok; [exact Hmild|]. intros child1 Hc1.
        destruct (Hput _ Hc1) as (Hwf1 & Hm1 & Hh1).
        apply mild_bind_Ok; [auto with mild|]. intros node1 Hn1.
        destruct (deq_and_account_BNC _ _ _ _ _ Hn1 Hci) as (e0 & rest0 & Hb0 & Hci1 & _).
        rewrite Hbuf in Hb0. injection Hb0 as <- <-.
        eapply IH; [exact Hci1 | exact Hwf1 | lia |].
        simpl. rewrite Hm1. simpl. repeat split; auto.
      * intros node' child' Hrun. run_all.
        match goal with Hc1 : brtnode_put_cmd _ _ = Ok ?c1 |- _ =>
          destruct (Hput _ Hc1) as (Hwf1 & Hm1 & Hh1) end.
        match goal with Hn1 : deq_and_account _ _ _ = Ok _ |- _ =>
          destruct (deq_and_account_BNC _ _ _ _ _ Hn1 Hci) as (e0 & rest0 & Hb0 & Hci1 & _) end.
        rewrite Hbuf in Hb0. injection Hb0 as <- <-.
        match goal with Hd : drain_to_nonleaf _ _ _ _ = Ok _ |- _ =>
          eapply IH in Hd as (Hwf' & Hle' & Hh'); [| exact Hci1 | exact Hwf1 | lia |] end.
        -- repeat split; auto. lia.
        -- simpl. rewrite Hm1. simpl. repeat split; auto.
Qed.

End DrainInvariant.

(** ** The invariant through the engine *)

Lemma yields_Ok {A} (a : A) (Q : A -> Prop) : Q a -> yields (Ok a) Q.
Proof. intros Ha. split; [apply mild_Ok|]. now intros a' [= <-]. Qed.

Lemma yields_Abort {A} f (Q : A -> Prop) : f <> Invariant_nonleaf_msn -> yields (Abort f) Q.
Proof. intros Hf. split; [unfold mild; congruence | discriminate]. Qed.

Lemma yields_bind {A B} (m : result A) (k : A -> result B) (P : A -> Prop) (Q : B -> Prop) :
  yields m P -> (forall a, m = Ok a -> P a -> yields (k a) Q) -> yields (bind m k) Q.
Proof.
  intros [Hm HP] Hk. split.
  - apply mild_bind_Ok; [exact Hm|]. intros a Ha. apply (Hk a Ha (HP a Ha)).
  - intros b Hb. apply bind_Ok in Hb as (a & Ha & Hb). apply (Hk a Ha (HP a Ha)). exact Hb.
Qed.

Lemma yields_mild {A} (m : result A) : mild m -> yields m (fun _ => True).
Proof. intros Hm. split; auto. Qed.

(** Through a step that cannot fail the check, keeping its equation. *)
Lemma yields_bind_mild {A B} (m : result A) (k : A -> result B) (Q : B -> Prop) :
  mild m -> (forall a, m = Ok a -> yields (k a) Q) -> yields (bind m k) Q.
Proof.
  intros Hm Hk. eapply yields_bind; [apply yields_mild, Hm|]. intros a Ha _. auto.
Qed.

Lemma yields_impl {A} (m : result A) (P Q : A -> Prop) :
  yields m P -> (forall a, m = Ok a -> P a -> Q a) -> yields m Q.
Proof. intros [Hm HP] HQ. split; [exact Hm|]. intros a Ha. auto. Qed.

Lemma yields_eq {A} (m m' : result A) (Q : A -> Prop) : m = m' -> yields m' Q -> yields m Q.
Proof. now intros ->. Qed.

(** Walk through the steps that cannot fail the check. *)
Ltac yields_step :=
  lazymatch goal with
  | |- yields (Ok _) _ => apply yields_Ok
  | |- yields (Abort _) _ => apply yields_Abort; discriminate
  | |- yields (bind (ensure _ _) _) _ =>
      let Ha := fresh "Hensure" in
      apply yields_bind_mild; [apply mild_ensure | intros [] Ha; apply ensure_Ok in Ha]
  | |- yields (bind (from_option _ _) _) _ =>
      let a := fresh "a" in let Ha := fresh "Hsome" in
      apply yields_bind_mild; [apply mild_from_option | intros a Ha; apply from_option_Ok in Ha]
  | |- yields (bind _ _) _ =>
      let a := fresh "a" in let Ha := fresh "Hstep" in
      apply yields_bind_mild; [solve [auto with mild] | intros a Ha]
  end.

Ltac yields_run := repeat first [ progress destruct_pairs | progress cbv beta iota zeta | yields_step ].

Section SlotFacts.
Context `{Collaborators}.

Lemma slots_length node : length (slots node) = length (bp node).
Proof. unfold slots. apply length_fmap. Qed.

(** The slots after a change of the payload of partition [c] only. *)
Lemma slots_only_buffer_changed c n n' ci' :
  only_buffer_changed c n n' -> BNC n' c = Some ci' ->
  exists st old, slots n !! Z.to_nat c = Some (st, old)
    /\ slots n' = <[Z.to_nat c := (st, ptr_childinfo ci')]> (slots n).
Proof.
  intros (_ & _ & Hlen & Hother & Hstate & _) Hci.
  apply BNC_Some in Hci as (p' & Hp' & Hptr').
  pose proof (BP_in_range _ _ _ Hp') as Hrange. apply andb_prop in Hrange as [Hlo Hhi].
  apply Z.leb_le in Hlo. apply Z.ltb_lt in Hhi. unfold n_children in Hhi.
  apply BP_lookup in Hp'.
  destruct (lookup_lt_is_Some_2 (bp n) (Z.to_nat c)) as [p Hp]; [lia|].
  exists (bp_state p), (bp_ptr_of p). split; [unfold slots; now rewrite list_lookup_fmap, Hp|].
  apply list_eq. intros j. destruct (decide (j = Z.to_nat c)) as [->|Hj].
  - rewrite list_lookup_insert_eq by (rewrite slots_length; lia).
    unfold slots. rewrite list_lookup_fmap, Hp'. simpl. rewrite Hptr'.
    pose proof (fmap_lookup_eq bp_state _ _ (Z.to_nat c) Hstate) as Hs.
    rewrite Hp', Hp in Hs. simpl in Hs. congruence.
  - rewrite list_lookup_insert_ne by auto.
    specialize (Hother (Z.of_nat j)). unfold BP in Hother.
    assert (Hnn : (Z.of_nat j <? 0) = false) by (apply Z.ltb_ge; lia).
    rewrite Hnn, Nat2Z.id in Hother. unfold slots. rewrite !list_lookup_fmap, Hother; [auto|lia].
Qed.

(** The tree after slot [i] got the buffer [ci'] and the subtree
    [child']. *)
Lemma wf_tree_slot_replaced c0 c1 node kids i node' st old ci' child' :
  wf_tree (Tree c0 node kids) -> 0 < height node ->
  node_frame node node' ->
  slots node !! i = Some (st, old) ->
  slots node' = <[i := (st, ptr_childinfo ci')]> (slots node) ->
  wf_tree child' ->
  (0 < height (tree_node child') ->
   buffer_ok (max_msn_applied_to_node_in_memory node)
             (max_msn_applied_to_node_in_memory (tree_node child'))
             (fe_msn <$> bnc_buffer ci')) ->
  wf_tree (Tree c1 node' (<[i := child']> kids)).
Proof.
  intros Hwf Hh (Hm & _ & Hh' & _) Hs Hsl Hwc Hb.
  destruct (wf_tree_inv _ _ _ Hwf Hh) as [F Fk].
  destruct (Forall2_lookup_l _ _ _ _ _ F Hs) as (k & Hk & Hst & _).
  apply wf_nonleaf; [lia | | now apply Forall_insert].
  rewrite Hm, Hsl. apply Forall2_insert; [exact F|].
  split; [exact Hst|]. exists ci'. split; [reflexivity | exact Hb].
Qed.

End SlotFacts.

Section FlushSlots.
Context `{Collaborators}.

Lemma estimates_only_slots n n' : estimates_only n n' -> slots n' = slots n.
Proof. intros He. apply buffers_kept_slots, estimates_only_buffers_kept, He. Qed.

Lemma fixup_child_estimates_slots node childnum child dirty_it node' :
  fixup_child_estimates node childnum child dirty_it = Ok node' -> slots node' = slots node.
Proof.
  intros Hrun. apply buffers_kept_slots.
  eapply fixup_child_estimates_buffers_kept; [eassumption | apply buffers_kept_refl].
Qed.

Lemma compute_child_fullhash_slots node childnum node' h :
  compute_child_fullhash node childnum = Ok (node', h) -> slots node' = slots node.
Proof. intros Hrun. apply compute_child_fullhash_frames in Hrun as (_ & K & _). now apply buffers_kept_slots. Qed.

Lemma BNC_BUFFER_empty node c :
  BNC_BUFFER node c = Some [] -> exists ci, BNC node c = Some ci /\ bnc_buffer ci = [].
Proof. apply BNC_BUFFER_Some. Qed.

(** What one flush does to the slots of the node. *)
Lemma flush_this_child_body_slots fuel flush t tr c f r anc b t' tr' anc' re :
  flush_keeps_ancestors flush ->
  flush_this_child_body fuel flush t tr c f r anc b = Ok (t', tr', anc', re) ->
  exists st old ci',
    slots (tree_node tr) !! Z.to_nat c = Some (st, old)
    /\ bnc_buffer ci' = []
    /\ slots (tree_node tr')
       = <[Z.to_nat c := (st, ptr_childinfo ci')]> (slots (tree_node tr)).
Proof.
  intros Hflush. unfold flush_this_child_body. intros Hrun. run_all.
  match goal with Hh : compute_child_fullhash _ _ = Ok _ |- _ =>
    apply compute_child_fullhash_slots in Hh; rename Hh into Sh end.
  match goal with Hp : toku_pin_brtnode_holding_lock _ _ _ _ _ = Ok _ |- _ =>
    apply toku_pin_brtnode_holding_lock_ancestors in Hp;
    match goal with Hm : match _ with [] => _ | _ :: _ => _ end = Ok _ |- _ =>
      destruct (ancestors_head_estimates_only _ _ _ _ _ _ Hp Hm) as [Ee _] end
  end.
  apply estimates_only_slots in Ee.
  case_run; run_all.
  - match goal with Hd : drain_to_leaf _ _ _ = Ok _ |- _ =>
      pose proof (drain_to_leaf_frame _ _ _ _ Hd) as [Hob _];
      apply drain_to_leaf_buffer, BNC_BUFFER_empty in Hd as (ci' & Hci' & Hempty) end.
    destruct (slots_only_buffer_changed _ _ _ _ Hob Hci') as (st & old & Hs & Hsl).
    match goal with Hf : fixup_child_estimates _ _ _ _ = Ok _ |- _ =>
      apply fixup_child_estimates_slots in Hf; rename Hf into Sf end.
    simplify_eq. simpl. exists st, old, ci'.
    rewrite Sf, slots_set_dirty, Hsl, Ee, Sh. rewrite Ee, Sh in Hs. auto.
  - match goal with Hd : drain_to_nonleaf _ _ _ _ = Ok _ |- _ =>
      pose proof (drain_to_nonleaf_frame _ _ _ _ _ _ Hd) as Hob;
      apply drain_to_nonleaf_buffer, BNC_BUFFER_empty in Hd as (ci' & Hci' & Hempty) end.
    destruct (slots_only_buffer_changed _ _ _ _ Hob Hci') as (st & old & Hs & Hsl).
    match goal with
    | Hg : (if r then flush_while_gorged _ _ _ _ _ _ ?a0 _ else _) = Ok (_, _, ?l1) |- _ =>
        assert (Eg : ancestors_estimates_only a0 l1)
          by (destruct r;
              [eapply flush_while_gorged_ancestors; eauto
              | simplify_eq; apply ancestors_estimates_only_refl]);
        clear Hg;
        match goal with Hm : match l1 with [] => _ | _ :: _ => _ end = Ok _ |- _ =>
          destruct (ancestors_head_estimates_only _ _ _ _ _ _ Eg Hm) as [Ee' _] end
    end.
    apply estimates_only_slots in Ee'.
    match goal with Hf : fixup_child_estimates _ _ _ _ = Ok _ |- _ =>
      apply fixup_child_estimates_slots in Hf; rename Hf into Sf end.
    simplify_eq. simpl. exists st, old, ci'.
    rewrite Sf, Ee', Hsl, Ee, Sh. rewrite Ee, Sh in Hs. auto.
Qed.

Lemma flush_this_child_drains_slot fuel : flush_drains_slot (flush_this_child fuel).
Proof.
  intros t tr c f r anc b t' tr' anc' re Hrun.
  destruct fuel as [|fuel]; simpl in Hrun; [discriminate|].
  eapply flush_this_child_body_slots; [apply flush_this_child_keeps_ancestors | eassumption].
Qed.

End FlushSlots.

Section SplitInvariant.
Context `{Collaborators}.
Hypothesis Hdes : deserialize_keeps_frame.

Lemma toku_create_new_brtnode_height t h n t' B :
  toku_create_new_brtnode t h n = Ok (t', B) -> height B = h.
Proof.
  unfold toku_create_new_brtnode, toku_initialize_empty_brtnode. intros Hrun.
  destruct (toku_allocate_blocknum t). run_all. simplify_eq. reflexivity.
Qed.

Lemma toku_brt_leaf_reset_calc_leaf_stats_height node node' :
  toku_brt_leaf_reset_calc_leaf_stats node = Ok node' -> height node' = height node.
Proof. intros Hrun. now apply toku_brt_leaf_reset_calc_leaf_stats_frame in Hrun as (_ & _ & Hh & _). Qed.

Lemma brtleaf_split_heights t node nodeb create t' a b k :
  brtleaf_split t node nodeb create = Ok (t', a, b, k) ->
  height a = 0 /\ height b = (if create then 0 else height nodeb).
Proof.
  unfold brtleaf_split. intros Hrun. run_all.
  repeat match goal with Hs : toku_brt_leaf_reset_calc_leaf_stats _ = Ok _ |- _ =>
    apply toku_brt_leaf_reset_calc_leaf_stats_height in Hs; simpl in Hs end.
  match goal with Hh : (height node =? 0) = true |- _ => apply Z.eqb_eq in Hh end.
  match goal with Hc : (if create then _ else _) = Ok _ |- _ => rename Hc into Hcreate end.
  destruct create; run_all; simplify_eq; simpl.
  - match goal with Hn : toku_create_new_brtnode _ _ _ = Ok _ |- _ =>
      apply toku_create_new_brtnode_height in Hn end.
    split; lia.
  - simpl in *. split; lia.
Qed.

Lemma Forall2_wf_take top sl kids n :
  Forall2 (slot_ok top) sl kids -> Forall2 (slot_ok top) (take n sl) (take n kids).
Proof. apply Forall2_take. Qed.

(** Both halves of a split nonleaf node keep the invariant, the height
    and the MSN. *)
Lemma brt_nonleaf_split_wf t tr t' a b k :
  wf_tree tr -> brt_nonleaf_split t tr = Ok (t', a, b, k) ->
  wf_tree a /\ wf_tree b
  /\ height (tree_node a) = height (tree_node tr)
  /\ height (tree_node b) = height (tree_node tr)
  /\ max_msn_applied_to_node_in_memory (tree_node a)
     = max_msn_applied_to_node_in_memory (tree_node tr)
  /\ max_msn_applied_to_node_in_memory (tree_node b)
     = max_msn_applied_to_node_in_memory (tree_node tr).
Proof.
  intros Hwf. unfold brt_nonleaf_split. intros Hrun. run_all.
  match goal with Hh : (0 <? height _) = true |- _ => apply Z.ltb_lt in Hh; rename Hh into Hpos end.
  match goal with Hn : toku_create_new_brtnode _ _ _ = Ok _ |- _ =>
    apply toku_create_new_brtnode_height in Hn; rename Hn into HB end.
  destruct tr as [c node kids]. simpl in *.
  destruct (wf_tree_inv _ _ _ Hwf Hpos) as [F Fk].
  simplify_eq. simpl. repeat split; try reflexivity; try assumption.
  - apply wf_nonleaf; simpl; [lia | | now apply Forall_take].
    unfold slots. simpl. rewrite fmap_take. now apply Forall2_take.
  - apply wf_nonleaf; simpl; [lia | | now apply Forall_drop].
    unfold slots. simpl. rewrite fmap_drop. now apply Forall2_drop.
Qed.

Lemma handle_split_of_child_slots node childnum childa childb splitk node' :
  handle_split_of_child node childnum childa childb splitk = Ok node' ->
  0 <= childnum
  /\ slots node'
     = take (Z.to_nat (childnum + 1)) (slots node)
       ++ (PT_AVAIL, ptr_childinfo empty_childinfo)
       :: drop (Z.to_nat (childnum + 1)) (slots node).
Proof.
  unfold handle_split_of_child. intros Hrun. run_all.
  match goal with Hr : (0 <=? childnum) && _ = true |- _ =>
    apply andb_prop in Hr as [Hlo _]; apply Z.leb_le in Hlo end.
  split; [assumption|].
  repeat match goal with Hf : fixup_child_estimates _ _ _ _ = Ok _ |- _ =>
    apply fixup_child_estimates_slots in Hf end.
  simplify_eq.
  match goal with |- slots (node_set_childkeys ?n _ _) = _ => change (slots (node_set_childkeys n _ _)) with (slots n) end.
  repeat match goal with Hf : slots _ = slots _ |- _ => rewrite Hf; clear Hf end.
  unfold slots. simpl. rewrite fmap_app, fmap_cons, fmap_take, fmap_drop. reflexivity.
Qed.

(** The slots and subtrees of a node after the split of child [i]
    into [a] and [b]. *)
Lemma Forall2_slot_split top sl kids i s a b :
  Forall2 (slot_ok top) sl kids -> sl !! i = Some s ->
  slot_ok top s a -> slot_ok top (PT_AVAIL, ptr_childinfo empty_childinfo) b ->
  Forall2 (slot_ok top)
          (take (Datatypes.S i) sl ++ (PT_AVAIL, ptr_childinfo empty_childinfo)
           :: drop (Datatypes.S i) sl)
          (take i kids ++ a :: b :: drop (Datatypes.S i) kids).
Proof.
  intros F Hs Ha Hb. rewrite (take_S_r _ _ _ Hs), <- app_assoc. simpl.
  apply Forall2_app; [now apply Forall2_take|].
  constructor; [exact Ha|]. constructor; [exact Hb|]. now apply Forall2_drop.
Qed.

End SplitInvariant.

Section SplitChildInvariant.
Context `{Collaborators}.
Hypothesis Hdes : deserialize_keeps_frame.

Lemma child_of_Ok tr childnum child :
  child_of tr childnum = Ok child ->
  0 <= childnum /\ tree_kids tr !! Z.to_nat childnum = Some child
  /\ exists p, BP (tree_node tr) childnum = Some p.
Proof.
  unfold child_of. intros Hrun. run_all. simplify_eq.
  match goal with Hk : kid _ _ = Some _ |- _ => unfold kid in Hk end.
  destruct (Z.ltb_spec childnum 0); [discriminate|]. eauto.
Qed.

(** The subtree below a slot of a node of the tree, with the slot. *)
Lemma wf_tree_kid c node kids i child :
  wf_tree (Tree c node kids) -> 0 < height node -> kids !! i = Some child ->
  wf_tree child
  /\ exists s, slots node !! i = Some s
       /\ slot_ok (max_msn_applied_to_node_in_memory node) s child.
Proof.
  intros Hwf Hh Hk. destruct (wf_tree_inv _ _ _ Hwf Hh) as [F Fk].
  split; [exact (proj1 (Forall_lookup _ _) Fk _ _ Hk)|].
  destruct (Forall2_lookup_r _ _ _ _ _ F Hk) as (s & Hs & Hok). eauto.
Qed.

Lemma slot_ok_same_header top s k k' :
  slot_ok top s k ->
  height (tree_node k') = height (tree_node k) ->
  max_msn_applied_to_node_in_memory (tree_node k')
  = max_msn_applied_to_node_in_memory (tree_node k) ->
  slot_ok top s k'.
Proof.
  intros (Hst & ci & Hptr & Hb) Hh Hm. split; [exact Hst|]. exists ci. split; [exact Hptr|].
  rewrite Hh, Hm. exact Hb.
Qed.

Lemma slot_ok_empty top k :
  (0 < height (tree_node k) -> max_msn_applied_to_node_in_memory (tree_node k) <= top) ->
  slot_ok top (PT_AVAIL, ptr_childinfo empty_childinfo) k.
Proof.
  intros Hle. split; [reflexivity|]. exists empty_childinfo. split; [reflexivity|].
  intros Hh. simpl. repeat split; auto.
Qed.

Lemma slot_ok_child_below top s k :
  slot_ok top s k -> 0 < height (tree_node k) ->
  max_msn_applied_to_node_in_memory (tree_node k) <= top.
Proof. intros (_ & ci & _ & Hb) Hh. now destruct (Hb Hh) as (_ & _ & Hle). Qed.

Lemma brt_split_child_wf t tr childnum t' tr' :
  wf_tree tr -> brt_split_child t tr childnum = Ok (t', tr') -> wf_tree tr'.
Proof.
  intros Hwf. unfold brt_split_child. intros Hrun. run_all.
  match goal with Hh : (0 <? height _) = true |- _ => apply Z.ltb_lt in Hh; rename Hh into Hpos end.
  destruct tr as [c0 node kids]. simpl in *.
  match goal with Hc : compute_child_fullhash _ _ = Ok _ |- _ =>
    pose proof (compute_child_fullhash_slots _ _ _ _ Hc) as Sh;
    apply compute_child_fullhash_frames in Hc as (Fh & _) end.
  match goal with Hc : child_of _ _ = Ok _ |- _ =>
    apply child_of_Ok in Hc as (Hlo & Hkid & _); simpl in Hkid end.
  destruct (wf_tree_kid _ _ _ _ _ Hwf Hpos Hkid) as (Hwc & slot & Hslot & Hok).
  match goal with Hp : toku_cachetable_get_and_pin _ _ = Ok (?p, _) |- _ =>
    destruct (toku_cachetable_get_and_pin_wf Hdes _ _ _ Hwc Hp) as (Hwp & Fp & Hsame);
    set (pinned := p) in * end.
  pose proof Fp as (Hpm & _ & Hph & _).
  match goal with Hs : handle_split_of_child _ _ _ _ _ = Ok _ |- _ =>
    pose proof (handle_split_of_child_frame _ _ _ _ _ _ Hs) as Fs;
    apply handle_split_of_child_slots in Hs as (_ & Ss) end.
  pose proof (node_frame_trans _ _ _ Fh Fs) as (Hm & _ & Hh & _).
  match goal with Hb : (if height (tree_node pinned) =? 0 then _ else _) = Ok (_, ?ta, ?tb, _) |- _ =>
    assert (Hab : wf_tree ta /\ wf_tree tb
                  /\ height (tree_node ta) = height (tree_node pinned)
                  /\ height (tree_node tb) = height (tree_node pinned)
                  /\ max_msn_applied_to_node_in_memory (tree_node ta)
                     = max_msn_applied_to_node_in_memory (tree_node pinned)
                  /\ max_msn_applied_to_node_in_memory (tree_node tb)
                     = max_msn_applied_to_node_in_memory (tree_node pinned));
    [ destruct (height (tree_node pinned) =? 0) eqn:Hleaf;
      [ apply Z.eqb_eq in Hleaf; run_all;
        match goal with Hsp : brtleaf_split _ _ _ _ = Ok _ |- _ =>
          pose proof (brtleaf_split_heights _ _ _ _ _ _ _ _ Hsp) as [Ha Hb'];
          apply brtleaf_split_msn in Hsp as [Hma Hmb] end;
        simplify_eq; simpl; repeat split; try (apply wf_leaf; assumption); try lia; assumption
      | eapply brt_nonleaf_split_wf; eauto ]
    | clear Hb; destruct Hab as (Hwa & Hwb & Hha & Hhb & Hma & Hmb) ]
  end.
  simplify_eq. simpl.
  apply wf_nonleaf; [lia | |].
  - rewrite Hm, Ss, Sh. replace (Z.to_nat (childnum + 1)) with (Datatypes.S (Z.to_nat childnum)) by lia.
    destruct (wf_tree_inv _ _ _ Hwf Hpos) as [F _].
    apply (Forall2_slot_split _ _ _ _ slot); auto.
    + eapply slot_ok_same_header; [exact Hok | lia | congruence].
    + apply slot_ok_empty. intros Hhb'. rewrite Hmb, Hpm.
      eapply slot_ok_child_below; [exact Hok | lia].
  - destruct (wf_tree_inv _ _ _ Hwf Hpos) as [_ Fk].
    apply Forall_app. split; [now apply Forall_take|].
    constructor; [assumption|]. constructor; [assumption|]. now apply Forall_drop.
Qed.

End SplitChildInvariant.

Section MergeShape.
Context `{Collaborators}.

Lemma BNC_BUFFER_slots node j :
  0 <= j -> BNC_BUFFER node j = slots node !! Z.to_nat j ≫= slot_buffer.
Proof.
  intros Hj. unfold BNC_BUFFER, BNC, BP, slots.
  rewrite (proj2 (Z.ltb_ge _ _) Hj), list_lookup_fmap.
  destruct (bp node !! Z.to_nat j) as [p|]; simpl; [|reflexivity].
  unfold slot_buffer. simpl. now destruct (bp_ptr_of p).
Qed.

Lemma slot_ok_leaf top s k k' :
  slot_ok top s k -> height (tree_node k') = 0 -> slot_ok top s k'.
Proof.
  intros (Hst & ci & Hptr & _) Hh. split; [exact Hst|]. exists ci. split; [exact Hptr|]. lia.
Qed.

Lemma merge_leaf_nodes_heights a b a' b' :
  merge_leaf_nodes a b = Ok (a', b') -> height a' = 0 /\ height b' = 0.
Proof.
  unfold merge_leaf_nodes. intros Hrun. run_all. simplify_eq. simpl.
  repeat match goal with Hh : (height _ =? 0) = true |- _ => apply Z.eqb_eq in Hh end.
  auto.
Qed.

Lemma maybe_merge_pinned_leaf_nodes_heights parent childnum a b k parent' a' b' m r k' :
  height a = 0 -> height b = 0 ->
  maybe_merge_pinned_leaf_nodes parent childnum a b k = Ok (parent', a', b', m, r, k') ->
  height a' = 0 /\ height b' = 0.
Proof.
  intros Ha Hb. unfold maybe_merge_pinned_leaf_nodes, balance_leaf_nodes. intros Hrun.
  repeat case_run; run_all; simplify_eq; auto.
  - match goal with Hm : merge_leaf_nodes _ _ = Ok _ |- _ =>
      apply merge_leaf_nodes_heights in Hm as [Ha1 Hb1] end.
    match goal with Hs : brtleaf_split _ _ _ _ = Ok _ |- _ =>
      apply brtleaf_split_heights in Hs as [Ha2 Hb2] end.
    split; lia.
  - match goal with Hm : merge_leaf_nodes _ _ = Ok _ |- _ =>
      now apply merge_leaf_nodes_heights in Hm end.
Qed.

Lemma maybe_merge_pinned_leaf_nodes_slots parent childnum a b k parent' a' b' m r k' :
  maybe_merge_pinned_leaf_nodes parent childnum a b k = Ok (parent', a', b', m, r, k') ->
  slots parent' = slots parent.
Proof.
  unfold maybe_merge_pinned_leaf_nodes. intros Hrun.
  repeat case_run; run_all; simplify_eq; try reflexivity.
  all: repeat match goal with Hf : fixup_child_estimates _ _ _ _ = Ok _ |- _ =>
         apply fixup_child_estimates_slots in Hf end.
  all: congruence.
Qed.

(** What a merge of two pinned children leaves. *)
Lemma maybe_merge_pinned_nodes_shape parent childnum k a b parent' a' b' dm dr k' :
  maybe_merge_pinned_nodes parent childnum k a b = Ok (parent', a', b', dm, dr, k') ->
  slots parent' = slots parent
  /\ height b = height a
  /\ (height a = 0 -> height a' = 0 /\ height b' = 0)
  /\ (0 < height a ->
      dm = true /\ height a' = height a
      /\ slots a' = slots a ++ slots b
      /\ max_msn_applied_to_node_in_memory a <= max_msn_applied_to_node_in_memory a'
      /\ max_msn_applied_to_node_in_memory b <= max_msn_applied_to_node_in_memory a'
      /\ max_msn_applied_to_node_in_memory a' <= max_msn_applied_to_node_in_memory parent).
Proof.
  unfold maybe_merge_pinned_nodes. intros Hrun. run_all.
  match goal with Hh : (height a =? height b) = true |- _ => apply Z.eqb_eq in Hh; rename Hh into Hab end.
  match goal with Hc : negb (0 <? height a) || _ = true |- _ => rename Hc into Hcheck end.
  match goal with Hm : (if height a =? 0 then _ else _) = Ok _ |- _ => rename Hm into Hmerge end.
  destruct (height a =? 0) eqn:Hleaf.
  - apply Z.eqb_eq in Hleaf.
    pose proof (maybe_merge_pinned_leaf_nodes_slots _ _ _ _ _ _ _ _ _ _ _ Hmerge) as Ss.
    apply maybe_merge_pinned_leaf_nodes_heights in Hmerge as [Ha Hb]; [|lia|lia].
    case_run; simplify_eq; simpl; (split; [exact Ss|]); (split; [lia|]); (split; [auto | lia]).
  - apply Z.eqb_neq in Hleaf. unfold maybe_merge_pinned_nonleaf_nodes in Hmerge. run_all.
    match goal with Hf : fixup_child_estimates _ _ _ _ = Ok _ |- _ =>
      apply fixup_child_estimates_slots in Hf; rename Hf into Sf end.
    inversion Hmerge; subst; clear Hmerge. simpl in Hrun.
    inversion Hrun; subst; clear Hrun. simpl in *.
    split; [exact Sf|]. split; [lia|]. split; [lia|].
    intros Hpos. rewrite (proj2 (Z.ltb_lt _ _) Hpos) in Hcheck. simpl in Hcheck.
    apply Z.leb_le in Hcheck.
    split; [reflexivity|]. split; [reflexivity|].
    split; [unfold slots; simpl; now rewrite fmap_app|].
    destruct (Z.ltb_spec (max_msn_applied_to_node_in_memory b)
                         (max_msn_applied_to_node_in_memory a)); lia.
Qed.

End MergeShape.

Section MergeChildInvariant.
Context `{Collaborators}.
Hypothesis Hdes : deserialize_keeps_frame.

Lemma BNC_BUFFER_inserted node node' c st ci' sl j :
  slots node' = <[Z.to_nat c := (st, ptr_childinfo ci')]> sl -> sl = slots node ->
  0 <= c -> 0 <= j -> (Z.to_nat c < length sl)%nat ->
  BNC_BUFFER node' j = if decide (j = c) then Some (bnc_buffer ci') else BNC_BUFFER node j.
Proof.
  intros Hsl -> Hc Hj Hlt. rewrite !BNC_BUFFER_slots by assumption. rewrite Hsl.
  destruct (decide (j = c)) as [->|Hne].
  - rewrite list_lookup_insert_eq by assumption. reflexivity.
  - rewrite list_lookup_insert_ne by lia. reflexivity.
Qed.

(** The flush that [brt_merge_child] makes when a buffer holds
    messages. *)
Lemma optional_flush_wf (flush : flush_fn) fifo t tr c f r anc b :
  flush_ok flush -> flush_drains_slot flush -> wf_tree tr -> 0 <= c ->
  BNC_BUFFER (tree_node tr) c = Some fifo ->
  yields (if 0 <? Z.of_nat (length fifo)
          then do (t, tr, ancestors, _) <- flush t tr c f r anc b; Ok (t, tr, ancestors)
          else Ok (t, tr, anc))
         (fun res =>
            wf_tree res.1.2
            /\ BNC_BUFFER (tree_node res.1.2) c = Some []
            /\ forall j, 0 <= j -> j <> c ->
                 BNC_BUFFER (tree_node res.1.2) j = BNC_BUFFER (tree_node tr) j).
Proof.
  intros Hok Hdrain Hwf Hc Hfifo.
  destruct (0 <? Z.of_nat (length fifo)) eqn:Hlen.
  - eapply yields_bind; [apply Hok, Hwf|]. intros [[[t1 tr1] anc1] re] Heq Hwf1.
    apply yields_Ok. simpl in *. split; [exact Hwf1|].
    destruct (Hdrain _ _ _ _ _ _ _ _ _ _ _ Heq) as (st & old & ci' & Hs & Hempty & Hsl).
    pose proof (lookup_lt_Some _ _ _ Hs) as Hlt.
    split.
    + rewrite (BNC_BUFFER_inserted _ _ _ _ _ _ c Hsl eq_refl) by (assumption || lia).
      rewrite decide_True by reflexivity. now rewrite Hempty.
    + intros j Hj Hne.
      rewrite (BNC_BUFFER_inserted _ _ _ _ _ _ j Hsl eq_refl) by assumption.
      now rewrite decide_False.
  - apply yields_Ok. simpl. split; [exact Hwf|]. split; [|auto].
    apply Z.ltb_ge in Hlen. destruct fifo; [exact Hfifo | simpl in Hlen; lia].
Qed.

(** The tree after the children in slots [ia] and [ia + 1] became one. *)
Lemma wf_tree_merged c0 c1 node kids node' ia sa ka merged :
  wf_tree (Tree c0 node kids) -> 0 < height node ->
  node_frame node node' ->
  slots node' = delete (Datatypes.S ia) (slots node) ->
  slots node !! ia = Some sa -> slot_buffer sa = Some [] ->
  kids !! ia = Some ka ->
  wf_tree merged ->
  (0 < height (tree_node merged) ->
   max_msn_applied_to_node_in_memory (tree_node merged)
   <= max_msn_applied_to_node_in_memory node) ->
  wf_tree (Tree c1 node' (delete (Datatypes.S ia) (<[ia := merged]> kids))).
Proof.
  intros Hwf Hh (Hm & _ & Hh' & _) Hsl Hsa Hbuf Hka Hwm Hle.
  destruct (wf_tree_inv _ _ _ Hwf Hh) as [F Fk].
  apply wf_nonleaf; [lia | | now apply Forall_delete, Forall_insert].
  rewrite Hm, Hsl. apply Forall2_delete.
  rewrite <- (list_insert_id (slots node) ia sa Hsa). apply Forall2_insert; [exact F|].
  destruct (Forall2_lookup_lr _ _ _ _ _ _ F Hsa Hka) as (Hst & ci & Hptr & _).
  split; [exact Hst|]. exists ci. split; [exact Hptr|]. intros Hpos.
  unfold slot_buffer in Hbuf. rewrite Hptr in Hbuf. injection Hbuf as ->.
  simpl. repeat split; auto.
Qed.

(** The tree after two leaf children were merged or rebalanced in
    place. *)
Lemma wf_tree_leaves_replaced c0 c1 node kids node' ia ib a' b' :
  wf_tree (Tree c0 node kids) -> 0 < height node ->
  node_frame node node' -> slots node' = slots node ->
  height (tree_node a') = 0 -> height (tree_node b') = 0 ->
  wf_tree (Tree c1 node' (<[ib := b']> (<[ia := a']> kids))).
Proof.
  intros Hwf Hh (Hm & _ & Hh' & _) Hsl Ha Hb.
  destruct (wf_tree_inv _ _ _ Hwf Hh) as [F Fk].
  assert (Hleaf : forall k, height (tree_node k) = 0 -> wf_tree k)
    by (intros [c n ks] Hk; now apply wf_leaf).
  apply wf_nonleaf; [lia | | repeat apply Forall_insert; auto].
  rewrite Hm, Hsl.
  apply Forall2_same_length_lookup. split.
  - rewrite !length_insert. now apply Forall2_length in F.
  - intros i s k Hs Hk.
    destruct (decide (i = ib)) as [->|Hnb].
    + apply list_lookup_insert_Some in Hk as [(_ & <- & _)|[? _]]; [|congruence].
      destruct (Forall2_lookup_l _ _ _ _ _ F Hs) as (k0 & _ & Hok).
      eapply slot_ok_leaf; eauto.
    + rewrite list_lookup_insert_ne in Hk by auto.
      destruct (decide (i = ia)) as [->|Hna].
      * apply list_lookup_insert_Some in Hk as [(_ & <- & _)|[? _]]; [|congruence].
        destruct (Forall2_lookup_l _ _ _ _ _ F Hs) as (k0 & _ & Hok).
        eapply slot_ok_leaf; eauto.
      * rewrite list_lookup_insert_ne in Hk by auto.
        exact (Forall2_lookup_lr _ _ _ _ _ _ F Hs Hk).
Qed.

End MergeChildInvariant.

Section MergeChildMain.
Context `{Collaborators}.
Hypothesis Hdes : deserialize_keeps_frame.

Lemma brt_merge_child_wf flush t tr c anc b :
  flush_ok flush -> flush_drains_slot flush -> wf_tree tr ->
  yields (brt_merge_child flush t tr c anc b) (fun res => wf_tree res.1.2).
Proof.
  intros Hok Hdrain Hwf. unfold brt_merge_child.
  destruct (n_children (tree_node tr) <? 2); [apply yields_Ok; exact Hwf|].
  yields_step.
  set (ab := if 0 <? c then (c - 1, c) else (c, c + 1)).
  assert (Hab : ab.2 = ab.1 + 1) by (subst ab; destruct (0 <? c); simpl; lia).
  destruct ab as [ia ib]. simpl in Hab. subst ib. cbv beta iota zeta.
  yields_step. yields_step. yields_step. yields_step.
  apply Z.leb_le in Hensure. apply Z.ltb_lt in Hensure1.
  eapply yields_bind; [eapply optional_flush_wf; eauto|].
  intros [[t1 tr1] anc1] _ (Hwf1 & Hea1 & _). simpl in Hwf1, Hea1. cbv beta iota zeta.
  yields_step.
  eapply yields_bind; [eapply optional_flush_wf; eauto; lia|].
  intros [[t2 tr2] anc2] _ (Hwf2 & _ & Hoth). simpl in Hwf2, Hoth. cbv beta iota zeta.
  assert (Hea : BNC_BUFFER (tree_node tr2) ia = Some [])
    by (rewrite Hoth by lia; exact Hea1).
  clear Hoth Hea1.
  yields_run.
  destruct tr2 as [c2 node2 kids2]. simpl in *.
  assert (Hpos : 0 < height node2).
  { match goal with Hc : compute_child_fullhash node2 _ = Ok _ |- _ =>
      unfold compute_child_fullhash in Hc; run_all end.
    match goal with Hc : (0 <? height node2) && _ = true |- _ =>
      apply andb_prop in Hc as [Hc _]; now apply Z.ltb_lt in Hc end. }
  match goal with Hc : compute_child_fullhash node2 _ = Ok (?n1, _) |- _ =>
    pose proof (compute_child_fullhash_slots _ _ _ _ Hc) as S1;
    apply compute_child_fullhash_frames in Hc as (F1 & _);
    match goal with Hc' : compute_child_fullhash n1 _ = Ok _ |- _ =>
      pose proof (compute_child_fullhash_slots _ _ _ _ Hc') as S2;
      apply compute_child_fullhash_frames in Hc' as (F2 & _) end
  end.
  repeat match goal with Hc : child_of _ _ = Ok _ |- _ =>
    let Hk := fresh "Hkid" in
    apply child_of_Ok in Hc as (_ & Hk & _); simpl in Hk end.
  match goal with
  | Hka : kids2 !! Z.to_nat ia = Some ?ka, Hkb : kids2 !! Z.to_nat (ia + 1) = Some ?kb |- _ =>
      destruct (wf_tree_kid _ _ _ _ _ Hwf2 Hpos Hka) as (Hwa & sa & Hsa & Hoka);
      destruct (wf_tree_kid _ _ _ _ _ Hwf2 Hpos Hkb) as (Hwb & sb & Hsb & Hokb);
      match goal with
      | Hpa : toku_cachetable_get_and_pin ka _ = Ok (?pa, _),
        Hpb : toku_cachetable_get_and_pin kb _ = Ok (?pb, _) |- _ =>
          destruct (toku_cachetable_get_and_pin_wf Hdes _ _ _ Hwa Hpa) as (Hwpa & Fpa & _);
          destruct (toku_cachetable_get_and_pin_wf Hdes _ _ _ Hwb Hpb) as (Hwpb & Fpb & _);
          clear Hpa Hpb; set (pinned_a := pa) in *; set (pinned_b := pb) in *
      end
  end.
  match goal with Hm : maybe_merge_pinned_nodes _ _ _ _ _ = Ok _ |- _ =>
    pose proof (maybe_merge_pinned_nodes_parent_frame _ _ _ _ _ _ _ _ _ _ _ Hm) as Fm;
    apply maybe_merge_pinned_nodes_shape in Hm as (Sm & Hhab & Hleaf & Hnonleaf) end.
  assert (Sa : slot_buffer sa = Some []).
  { rewrite BNC_BUFFER_slots in Hea by lia. rewrite Hsa in Hea. exact Hea. }
  pose proof (wf_tree_height _ Hwpa) as Hha.
  match goal with |- yields (if ?dm then _ else _) _ => destruct dm end.
  - yields_run. simpl.
    match goal with Hf : fixup_child_estimates ?n0 _ _ _ = Ok _ |- _ =>
      pose proof (fixup_child_estimates_slots _ _ _ _ _ Hf) as Sf;
      pose proof (fixup_child_estimates_node_frame n0 _ _ _ _ _ Hf (node_frame_refl _)) as Ff
    end.
    replace (Z.to_nat (ia + 1)) with (Datatypes.S (Z.to_nat ia)) in * by lia.
    eapply (wf_tree_merged _ _ node2 kids2); eauto.
    + eapply node_frame_trans; [|exact Ff].
      repeat first [ apply node_frame_set_childkeys | apply node_frame_set_bp
                   | apply node_frame_set_totalchildkeylens ].
      eapply node_frame_trans; [exact F1|]. eapply node_frame_trans; [exact F2|]. exact Fm.
    + rewrite Sf. unfold slots at 1. simpl. rewrite list_fmap_delete.
      change ((fun p => (bp_state p, bp_ptr_of p)) <$> bp ?n) with (slots n).
      now rewrite Sm, S2, S1.
    + destruct (Z.eq_dec (height (tree_node pinned_a)) 0) as [Hz|Hnz].
      * apply wf_leaf. simpl. now destruct (Hleaf Hz).
      * destruct Hnonleaf as (_ & Hh' & Ss & Hma & Hmb & _); [lia|].
        destruct pinned_a as [ca na ka], pinned_b as [cb nb kb]. simpl in *.
        destruct (wf_tree_inv _ _ _ Hwpa ltac:(lia)) as [Fa Fka].
        destruct (wf_tree_inv _ _ _ Hwpb ltac:(lia)) as [Fb Fkb].
        apply wf_nonleaf; simpl; [lia | | now apply Forall_app].
        change (slots (node_set_dirty ?n _)) with (slots n). rewrite Ss.
        apply Forall2_app;
          (eapply Forall2_impl; [eassumption|]; intros s0 k0 H0;
           eapply slot_ok_mono; [exact H0 | lia]).
    + simpl. intros Hpm. destruct Hnonleaf as (_ & _ & _ & _ & _ & Hle); [lia|].
      destruct F1 as (Hm1 & _), F2 as (Hm2 & _). lia.
  - assert (Hz : height (tree_node pinned_a) = 0).
    { destruct (Z.eq_dec (height (tree_node pinned_a)) 0) as [Hz|Hnz]; [exact Hz|].
      destruct Hnonleaf as (Hdm & _); [lia | discriminate]. }
    destruct (Hleaf Hz) as [Hza Hzb].
    yields_run. simpl.
    eapply (wf_tree_leaves_replaced _ _ node2 kids2); eauto.
    + apply node_frame_set_dirty, node_frame_set_childkeys, node_frame_set_totalchildkeylens.
      eapply node_frame_trans; [exact F1|]. eapply node_frame_trans; [exact F2|]. exact Fm.
    + change (slots (node_set_dirty ?n _)) with (slots n).
      unfold slots at 1. simpl.
      change ((fun p => (bp_state p, bp_ptr_of p)) <$> bp ?n) with (slots n).
      now rewrite Sm, S2, S1.
Qed.

End MergeChildMain.

Section FlushInvariant.
Context `{Collaborators}.
Hypothesis Hdes : deserialize_keeps_frame.

Lemma brt_handle_maybe_reactive_child_wf flush t tr c re anc b :
  flush_ok flush -> flush_drains_slot flush -> wf_tree tr ->
  yields (brt_handle_maybe_reactive_child flush t tr c re anc b)
         (fun res => wf_tree res.1.2).
Proof.
  intros Hok Hdrain Hwf. unfold brt_handle_maybe_reactive_child. destruct re.
  - now apply yields_Ok.
  - now apply brt_merge_child_wf.
  - yields_run. simpl. eapply brt_split_child_wf; eauto.
Qed.

Lemma flush_some_child_wf flush t tr f r anc b :
  flush_ok flush -> flush_drains_slot flush -> wf_tree tr ->
  yields (flush_some_child flush t tr f r anc b) (fun res => wf_tree res.1.2).
Proof.
  intros Hok Hdrain Hwf. unfold flush_some_child. yields_run.
  eapply yields_bind; [apply Hok, Hwf|]. intros [[[t1 tr1] anc1] re] _ Hwf1.
  simpl in Hwf1. cbv beta iota zeta. now apply brt_handle_maybe_reactive_child_wf.
Qed.

(** The loop of recursive flushes keeps the invariant, the height and
    the MSN of the child it works on. *)
Lemma flush_while_gorged_wf fuel flush t child f n anc b :
  flush_ok flush -> flush_drains_slot flush -> flush_keeps_frame flush -> wf_tree child ->
  yields (flush_while_gorged fuel flush t child f n anc b)
         (fun res => wf_tree res.1.2
                     /\ node_frame (tree_node child) (tree_node res.1.2)).
Proof.
  intros Hok Hdrain Hframe. revert t child n anc.
  induction fuel as [|fuel IH]; intros t child n anc Hwf; simpl.
  - apply yields_Abort. discriminate.
  - yields_run.
    match goal with |- yields (if ?c then _ else _) _ => destruct c end.
    + eapply yields_bind; [now apply flush_some_child_wf|].
      intros [[t1 child1] anc1] Heq Hwf1. simpl in Hwf1. cbv beta iota zeta.
      apply flush_some_child_frame in Heq; [|exact Hframe].
      eapply yields_impl; [apply IH, Hwf1|].
      intros res _ [Hw Hf]. split; [exact Hw|]. eapply node_frame_trans; eauto.
    + apply yields_Ok. simpl. split; [exact Hwf | apply node_frame_refl].
Qed.

End FlushInvariant.

Section FlushBodyInvariant.
Context `{Collaborators}.
Hypothesis Hdes : deserialize_keeps_frame.

Lemma BNC_of_slots node c st ci :
  0 <= c -> slots node !! Z.to_nat c = Some (st, ptr_childinfo ci) -> BNC node c = Some ci.
Proof.
  intros Hc Hs. unfold slots in Hs. rewrite list_lookup_fmap in Hs.
  destruct (bp node !! Z.to_nat c) as [p|] eqn:Hp; [|discriminate].
  simpl in Hs. injection Hs as _ Hptr.
  eapply BNC_of_BP; [|exact Hptr]. unfold BP. now rewrite (proj2 (Z.ltb_ge _ _) Hc).
Qed.

Lemma drain_to_nonleaf_yields fuel node child ckids c i ci top :
  BNC node i = Some ci ->
  wf_tree (Tree c child ckids) -> 0 < height child ->
  buffer_ok top (max_msn_applied_to_node_in_memory child) (fe_msn <$> bnc_buffer ci) ->
  yields (drain_to_nonleaf fuel node child i)
         (fun res => wf_tree (Tree c res.2 ckids)
                     /\ max_msn_applied_to_node_in_memory res.2 <= top
                     /\ height res.2 = height child).
Proof.
  intros Hci Hwf Hh Hb.
  destruct (drain_to_nonleaf_wf fuel node child ckids c i ci top Hci Hwf Hh Hb) as [Hm Hq].
  split; [exact Hm|]. intros [node' child'] Heq. simpl. eauto.
Qed.

Lemma flush_this_child_body_wf fuel flush t tr c f r anc b :
  flush_ok flush -> flush_drains_slot flush -> flush_keeps_frame flush ->
  flush_keeps_ancestors flush -> wf_tree tr ->
  yields (flush_this_child_body fuel flush t tr c f r anc b)
         (fun res => wf_tree res.1.1.2).
Proof.
  intros Hok Hdrain Hframe Hanc Hwf. unfold flush_this_child_body. yields_run.
  match goal with Hh : (0 <? height _) = true |- _ => apply Z.ltb_lt in Hh; rename Hh into Hpos end.
  destruct tr as [c0 node kids]. simpl in *.
  match goal with Hc : compute_child_fullhash node _ = Ok _ |- _ =>
    pose proof (compute_child_fullhash_slots _ _ _ _ Hc) as S1;
    apply compute_child_fullhash_frames in Hc as (F1 & _) end.
  match goal with Hc : child_of _ _ = Ok _ |- _ =>
    apply child_of_Ok in Hc as (Hlo & Hkid & _); simpl in Hkid end.
  destruct (wf_tree_kid _ _ _ _ _ Hwf Hpos Hkid) as (Hwc & slot & Hslot & Hslot_ok).
  match goal with Hp : toku_pin_brtnode_holding_lock _ _ _ _ _ = Ok (?p, _, _) |- _ =>
    pose proof (toku_pin_brtnode_holding_lock_ancestors _ _ _ _ _ _ _ _ Hp) as Ea;
    destruct (toku_pin_brtnode_holding_lock_wf Hdes _ _ _ _ _ _ _ Hwc Hp)
      as (Hwp & Hhp & Hsame);
    clear Hp; set (pinned := p) in * end.
  inversion Ea as [|x [n2 c2] la la' [He _] Ea']; subst la x. subst. simpl in He.
  pose proof (estimates_only_slots _ _ He) as S2.
  pose proof (estimates_only_node_frame _ _ He) as F2.
  simpl. yields_step. yields_step.
  pose proof (wf_tree_height _ Hwp) as Hh0.
  destruct slot as [st old].
  destruct (height (tree_node pinned) =? 0) eqn:Hleaf.
  - apply Z.eqb_eq in Hleaf. yields_run. simpl.
    match goal with Hd : drain_to_leaf _ _ _ = Ok _ |- _ =>
      pose proof (drain_to_leaf_frame _ _ _ _ Hd) as [Hob _];
      apply drain_to_leaf_buffer, BNC_BUFFER_empty in Hd as (ci' & Hci' & Hempty) end.
    destruct (slots_only_buffer_changed _ _ _ _ Hob Hci') as (st' & old' & Hs & Hsl).
    destruct Hob as (F3 & _).
    match goal with Hf : fixup_child_estimates ?n0 _ _ _ = Ok _ |- _ =>
      pose proof (fixup_child_estimates_slots _ _ _ _ _ Hf) as Sf;
      pose proof (fixup_child_estimates_node_frame n0 _ _ _ _ _ Hf (node_frame_refl _)) as Ff
    end.
    rewrite S2, S1 in Hs. rewrite Hslot in Hs. injection Hs as <- <-.
    eapply (wf_tree_slot_replaced _ _ node kids _ _ st old ci'); eauto.
    + eapply node_frame_trans; [exact F1|]. eapply node_frame_trans; [exact F2|].
      eapply node_frame_trans; [exact F3|].
      eapply node_frame_trans; [|exact Ff]. apply node_frame_set_dirty, node_frame_refl.
    + rewrite Sf, slots_set_dirty, Hsl, S2, S1. reflexivity.
    + apply wf_leaf. simpl. exact Hleaf.
    + simpl. lia.
  - apply Z.eqb_neq in Hleaf.
    assert (Hcp : 0 < height (tree_node a0)) by lia.
    destruct (Hsame Hcp) as (Hn & Hk & _).
    destruct Hslot_ok as (Hst & ci & Hptr & Hbuf). simpl in Hst, Hptr. subst st old.
    specialize (Hbuf Hcp).
    assert (Hci : BNC n2 c = Some ci)
      by (apply (BNC_of_slots _ _ PT_AVAIL); [lia | now rewrite S2, S1]).
    yields_step. yields_step.
    eapply yields_bind.
    { eapply (drain_to_nonleaf_yields _ _ _ (tree_kids pinned) (tree_cached pinned));
        [exact Hci | | lia | rewrite Hn; exact Hbuf].
      destruct pinned; exact Hwp. }
    intros [n3 child_node] Hd (Hwc' & Hle & Hh'). simpl in Hwc', Hle, Hh'.
    cbv beta iota zeta.
    pose proof (drain_to_nonleaf_frame _ _ _ _ _ _ Hd) as Hob.
    apply drain_to_nonleaf_buffer, BNC_BUFFER_empty in Hd as (ci' & Hci' & Hempty).
    destruct (slots_only_buffer_changed _ _ _ _ Hob Hci') as (st' & old' & Hs & Hsl).
    destruct Hob as (F3 & _).
    rewrite S2, S1, Hslot in Hs. injection Hs as <- <-.
    eapply yields_bind with
      (P := fun res => wf_tree res.1.2
                       /\ node_frame child_node (tree_node res.1.2)
                       /\ ancestors_estimates_only ((n3, c) :: la') res.2).
    { destruct r.
      - eapply yields_impl; [apply flush_while_gorged_wf; eauto|].
        intros [[t1 ch1] anc1] Heq [Hw Hf]. simpl in *. split; [exact Hw|].
        split; [exact Hf|]. eapply flush_while_gorged_ancestors; eauto.
      - apply yields_Ok. simpl. split; [exact Hwc'|].
        split; [apply node_frame_refl | apply ancestors_estimates_only_refl]. }
    intros [[t1 child3] next] _ (Hw3 & F5 & Eg). simpl in Hw3, F5, Eg. cbv beta iota zeta.
    inversion Eg as [|x [n4 c4] lb lb' [He' _] Eg']; subst. simpl in He'. simpl.
    pose proof (estimates_only_slots _ _ He') as S4.
    pose proof (estimates_only_node_frame _ _ He') as F4.
    yields_run. simpl.
    match goal with Hf : fixup_child_estimates ?n0 _ _ _ = Ok _ |- _ =>
      pose proof (fixup_child_estimates_slots _ _ _ _ _ Hf) as Sf;
      pose proof (fixup_child_estimates_node_frame n0 _ _ _ _ _ Hf (node_frame_refl _)) as Ff
    end.
    eapply (wf_tree_slot_replaced _ _ node kids _ _ PT_AVAIL (ptr_childinfo ci) ci'); eauto.
    + eapply node_frame_trans; [exact F1|]. eapply node_frame_trans; [exact F2|].
      eapply node_frame_trans; [exact F3|]. eapply node_frame_trans; [exact F4|]. exact Ff.
    + rewrite Sf, S4, Hsl, S2, S1. reflexivity.
    + intros _. rewrite Hempty. simpl. destruct F5 as (Hm5 & _). repeat split; auto. lia.
Qed.

Lemma flush_this_child_ok fuel : flush_ok (flush_this_child fuel).
Proof.
  induction fuel as [|fuel IH]; intros t tr c f r anc b Hwf; simpl.
  - apply yields_Abort. discriminate.
  - apply flush_this_child_body_wf; auto.
    + apply flush_this_child_drains_slot.
    + apply flush_this_child_keeps_frame.
    + apply flush_this_child_keeps_ancestors.
Qed.

End FlushBodyInvariant.

Section WalkInvariant.
Context `{Collaborators}.

(** The tree after subtree [i] was replaced by one of the same height
    that, if a nonleaf, applied nothing more. *)
Lemma wf_tree_kid_replaced c c' node node' kids i k k' :
  wf_tree (Tree c node kids) -> node_frame node node' -> slots node' = slots node ->
  kids !! i = Some k -> walk_keeps k k' ->
  wf_tree (Tree c' node' (<[i := k']> kids)).
Proof.
  intros Hwf (Hm & _ & Hh & _) Hs Hk (Hwk & Hhk & Hmk). inversion Hwf; subst.
  - apply wf_leaf. lia.
  - match goal with F : Forall2 _ _ _ |- _ => rename F into Fs end.
    destruct (Forall2_lookup_r _ _ _ _ _ Fs Hk) as (slot & Hslot & Hst & ci & Hptr & Hb).
    apply wf_nonleaf; [lia | | now apply Forall_insert].
    rewrite Hm, Hs, <- (list_insert_id (slots node) i slot Hslot).
    apply Forall2_insert; [exact Fs|].
    split; [exact Hst|]. exists ci. split; [exact Hptr|].
    intros Hpos. rewrite Hhk in Hpos. rewrite (Hmk Hpos). auto.
Qed.

Lemma walk_keeps_refl tr : wf_tree tr -> walk_keeps tr tr.
Proof. intros Hwf. repeat split; auto. Qed.

Lemma toku_apply_cmd_to_leaf_height fuel node cmd mc node' mc' :
  toku_apply_cmd_to_leaf fuel node cmd mc = Ok (node', mc') -> height node' = height node.
Proof.
  intros Hrun. apply toku_apply_cmd_to_leaf_Ok in Hrun as [[_ ->]|[_ (_ & _ & Hh & _)]]; auto.
Qed.

Lemma walk_children_wf (walk : brt_tree -> BRT_MSG -> bool -> option (BRTNODE * Z) ->
                               result (brt_tree * option (BRTNODE * Z)))
    count tr childnum cmd tr' :
  (forall child cmd is_root parent child' parent',
      wf_tree child ->
      walk child cmd is_root parent = Ok (child', parent') ->
      walk_keeps child child' /\ parent_slots parent parent' /\ parent_frame parent parent') ->
  wf_tree tr -> 0 < height (tree_node tr) ->
  walk_children walk count tr childnum cmd = Ok tr' ->
  wf_tree tr' /\ node_frame (tree_node tr) (tree_node tr').
Proof.
  intros Hwalk. revert tr childnum.
  induction count as [|count IH]; intros tr childnum Hwf Hpos Hrun; simpl in Hrun.
  - simplify_eq. auto using node_frame_refl.
  - run_all. destruct tr as [c0 node kids]. simpl in *.
    match goal with Hc : child_of _ _ = Ok ?k |- _ =>
      apply child_of_Ok in Hc as (Hlo & Hkid & _); simpl in Hkid;
      destruct (wf_tree_kid _ _ _ _ _ Hwf Hpos Hkid) as (Hwc & _) end.
    match goal with Hw : walk _ _ _ _ = Ok _ |- _ =>
      apply (Hwalk _ _ _ _ _ _ Hwc) in Hw as (Hkeep & Hps & Hpf) end.
    match goal with Hs : ?o = Some _ |- _ => rewrite Hs in Hps, Hpf end.
    simpl in Hps, Hpf. destruct Hpf as [Fw _].
    match goal with Hk : walk_children _ _ _ _ _ = Ok _ |- _ =>
      apply IH in Hk as [Hw' F'] end.
    + split; [exact Hw'|]. eapply node_frame_trans; [exact Fw | exact F'].
    + unfold set_kid, tree_set_kids, tree_set_node. simpl.
      eapply wf_tree_kid_replaced; eauto.
    + simpl. destruct Fw as (_ & _ & Hh & _). lia.
Qed.

Lemma apply_cmd_to_in_memory_non_root_leaves_wf fuel tr cmd is_root parent tr' parent' :
  wf_tree tr ->
  apply_cmd_to_in_memory_non_root_leaves fuel tr cmd is_root parent = Ok (tr', parent') ->
  walk_keeps tr tr' /\ parent_slots parent parent' /\ parent_frame parent parent'.
Proof.
  revert tr cmd is_root parent tr' parent'.
  induction fuel as [|fuel IH]; intros tr cmd is_root parent tr' parent' Hwf Hrun;
    [discriminate|].
  pose proof (apply_cmd_to_in_memory_non_root_leaves_frame _ _ _ _ _ _ _ Hrun) as [Hpf Hnf].
  split; [|split; [|exact Hpf]]; simpl in Hrun.
  - assert (Hm : 0 < height (tree_node tr) ->
                 height (tree_node tr') = height (tree_node tr)
                 /\ max_msn_applied_to_node_in_memory (tree_node tr')
                    = max_msn_applied_to_node_in_memory (tree_node tr)).
    { intros Hpos. destruct (Hnf (or_intror Hpos)) as (Hm & _ & Hh & _). auto. }
    clear Hnf Hpf.
    case_run; [simplify_eq; now apply walk_keeps_refl|].
    run_all. simplify_eq.
    match goal with Hb : (if 0 <? _ then _ else _) = Ok _ |- _ => rename Hb into Hbody end.
    destruct (0 <? height (tree_node tr)) eqn:Hh.
    + apply Z.ltb_lt in Hh. destruct (Hm Hh) as [Hh' Hm']. clear Hm.
      split; [|split; [exact Hh' | intros _; exact Hm']].
      destruct tr as [c0 node kids]. simpl in *.
      destruct (brt_msg_applies_once cmd).
      * run_all. simplify_eq.
        match goal with Hc : compute_child_fullhash _ _ = Ok _ |- _ =>
          pose proof (compute_child_fullhash_slots _ _ _ _ Hc) as S1;
          apply compute_child_fullhash_frames in Hc as (F1 & _) end.
        match goal with Hc : child_of _ _ = Ok ?k |- _ =>
          apply child_of_Ok in Hc as (Hlo & Hkid & _); simpl in Hkid;
          destruct (wf_tree_kid _ _ _ _ _ Hwf Hh Hkid) as (Hwc & _) end.
        match goal with Hw : apply_cmd_to_in_memory_non_root_leaves _ _ _ _ _ = Ok _ |- _ =>
          apply (IH _ _ _ _ _ _ Hwc) in Hw as (Hkeep & Hps & Hpf) end.
        simpl in Hps, Hpf. destruct Hpf as [Fw _].
        unfold set_kid, tree_set_kids, tree_set_node. simpl.
        eapply wf_tree_kid_replaced; eauto.
        -- eapply node_frame_trans; eauto.
        -- congruence.
      * destruct (brt_msg_applies_all cmd).
        -- eapply walk_children_wf in Hbody as [Hw' _]; eauto.
        -- run_all. simplify_eq. exact Hwf.
    + apply Z.ltb_ge in Hh. clear Hm.
      pose proof (wf_tree_height _ Hwf) as Hge.
      assert (Hz : height (tree_node tr) = 0) by lia.
      destruct (negb is_root).
      * run_all. simplify_eq.
        match goal with Ha : toku_apply_cmd_to_leaf _ _ _ _ = Ok _ |- _ =>
          apply toku_apply_cmd_to_leaf_height in Ha end.
        split; [apply wf_leaf; simpl; lia | simpl; split; [lia | lia]].
      * simplify_eq. now apply walk_keeps_refl.
  - clear Hnf Hpf. case_run.
    + simplify_eq. destruct parent' as [[p c]|]; simpl; auto.
    + run_all. simplify_eq. destruct parent as [[p c]|]; run_all; simplify_eq; simpl; auto.
      eapply fixup_child_estimates_slots; eauto.
Qed.

End WalkInvariant.

Section RootShapeInvariant.
Context `{Collaborators}.
Hypothesis Hdes : deserialize_keeps_frame.

Lemma slots_all_avail node node0 :
  slots (node_set_bp node (map (fun p => bp_set_state p PT_AVAIL) (bp node0)))
  = (fun s => (PT_AVAIL, s.2)) <$> slots node0.
Proof.
  unfold slots. simpl. rewrite <- !list_fmap_compose. reflexivity.
Qed.

(** The new root holds two empty buffers above the two halves. *)
Lemma brt_init_new_root_wf t nodea nodeb splitk len t' newroot :
  wf_tree nodea -> wf_tree nodeb ->
  brt_init_new_root t nodea nodeb splitk len = Ok (t', newroot) ->
  wf_tree newroot.
Proof.
  intros Hwa Hwb. unfold brt_init_new_root. intros Hrun.
  destruct (toku_allocate_blocknum t) as [t1 off]. run_all.
  match goal with Hh : (0 <? _) = true |- _ => rename Hh into Hpos end.
  repeat match goal with Hf : fixup_child_estimates ?n0 _ _ _ = Ok _ |- _ =>
    pose proof (fixup_child_estimates_slots _ _ _ _ _ Hf);
    apply (fun F => fixup_child_estimates_node_frame n0 _ _ _ _ _ F (node_frame_refl _)) in Hf
  end.
  match goal with H1 : slots ?x = slots ?y, H2 : slots ?y = slots ?z |- _ =>
    rename H1 into S5; rename H2 into S4 end.
  match goal with F1 : node_frame ?y ?x, F2 : node_frame ?z ?y |- _ =>
    pose proof (node_frame_trans _ _ _ F2 F1) as (_ & _ & Hh5 & _); clear F1 F2 end.
  match goal with Hi : toku_initialize_empty_brtnode _ _ _ _ _ _ = Ok _ |- _ =>
    unfold toku_initialize_empty_brtnode in Hi; run_all end.
  unfold node_set_partition in *. run_all. simplify_eq.
  unfold BP in *. simpl in *. simplify_eq. simpl in *.
  apply wf_nonleaf.
  - simpl. rewrite Hh5. simpl. now apply Z.ltb_lt.
  - change (slots (node_set_fullhash (node_set_dirty ?n _) _)) with (slots n).
    rewrite slots_all_avail, S5, S4. unfold slots, empty_partition. simpl. rewrite Hpos.
    pose proof (wf_tree_height _ Hwa). pose proof (wf_tree_height _ Hwb).
    match goal with Hm : (_ =? _) = true |- _ => apply Z.eqb_eq in Hm end.
    repeat constructor; apply slot_ok_empty; intros _; simpl; lia.
  - repeat constructor; assumption.
Qed.

Lemma brt_handle_maybe_reactive_root_wf t root t' root' :
  wf_tree root -> brt_handle_maybe_reactive_root t root = Ok (t', root') -> wf_tree root'.
Proof.
  intros Hwf. unfold brt_handle_maybe_reactive_root. intros Hrun. run_all.
  match goal with Hr : match ?re with _ => _ end = Ok _ |- _ => destruct re end;
    try (simplify_eq; exact Hwf).
  run_all. case_run; run_all.
  - match goal with Hs : brtleaf_split _ _ _ _ = Ok _ |- _ =>
      apply brtleaf_split_heights in Hs as [Ha Hb] end.
    eapply brt_init_new_root_wf; [| |eassumption]; apply wf_leaf; simpl; assumption.
  - match goal with Hs : brt_nonleaf_split _ _ = Ok _ |- _ =>
      apply (brt_nonleaf_split_wf _ _ _ _ _ _ Hwf) in Hs as (Ha & Hb & _) end.
    eapply brt_init_new_root_wf; [| |eassumption]; assumption.
Qed.

End RootShapeInvariant.

Section RootPutInvariant.
Context `{Collaborators}.
Hypothesis Hdes : deserialize_keeps_frame.

Lemma push_something_at_root_wf fuel c node kids cmd :
  wf_tree (Tree c node kids) ->
  max_msn_applied_to_node_in_memory node < cmd_msn cmd ->
  yields (push_something_at_root fuel node cmd) (fun node' => wf_tree (Tree c node' kids)).
Proof.
  intros Hwf Hlt. unfold push_something_at_root. yields_run.
  destruct (height node =? 0) eqn:Hleaf.
  - apply Z.eqb_eq in Hleaf. yields_run.
    match goal with Ha : toku_apply_cmd_to_leaf _ _ _ _ = Ok _ |- _ =>
      apply toku_apply_cmd_to_leaf_height in Ha end.
    apply wf_leaf. destruct (negb _); simpl; lia.
  - apply Z.eqb_neq in Hleaf. pose proof (wf_tree_height _ Hwf) as Hge. simpl in Hge.
    unfold brtnode_nonleaf_put_cmd_at_root. yields_run.
    split; [now apply brt_nonleaf_put_cmd_mild|].
    intros node' Hrun. eapply brt_nonleaf_put_cmd_wf; eauto. lia.
Qed.

(** A put at the root of a tree that satisfies the invariant never
    fails the check of [brt_nonleaf_put_cmd], and leaves a tree that
    satisfies the invariant. *)
Lemma toku_brt_root_put_cmd_wf fuel t root cmd :
  wf_tree root ->
  0 <= max_msn_applied_to_node_in_memory (tree_node root) ->
  max_msn_applied_to_node_in_memory (tree_node root) + 1 < 2 ^ 64 ->
  yields (toku_brt_root_put_cmd fuel t root cmd) (fun res => wf_tree res.1.2).
Proof.
  intros Hwf Hlo Hhi. unfold toku_brt_root_put_cmd. yields_run.
  match goal with Hp : toku_pin_brtnode_holding_lock _ _ _ _ _ = Ok _ |- _ =>
    pose proof (toku_pin_root_frame Hdes _ _ _ _ _ _ _ Hp) as (Hm & _);
    apply (toku_pin_brtnode_holding_lock_wf Hdes _ _ _ _ _ _ _ Hwf) in Hp as (Hwp & _) end.
  match goal with Hwp : wf_tree ?p |- _ => destruct p as [c0 node kids] end. simpl in *.
  eapply yields_bind.
  { apply (push_something_at_root_wf _ c0 _ kids); [exact Hwp|].
    simpl. unfold u64. rewrite Z.mod_small by lia. lia. }
  intros node1 _ Hw1. yields_run.
  match goal with Hw : apply_cmd_to_in_memory_non_root_leaves _ _ _ _ _ = Ok _ |- _ =>
    apply apply_cmd_to_in_memory_non_root_leaves_wf in Hw as ((Hw2 & _) & _); [|exact Hw1] end.
  apply yields_bind_mild; [mild_all | intros gorged _].
  eapply yields_bind with (P := fun res => wf_tree res.2).
  { match goal with |- yields (if ?g then _ else _) _ => destruct g end.
    - yields_run. eapply yields_bind.
      + eapply flush_some_child_wf;
          eauto using flush_this_child_ok, flush_this_child_drains_slot.
      + intros [[t1 r1] a1] _ Hw3. simpl in Hw3. yields_run. exact Hw3.
    - yields_run. exact Hw2. }
  intros [t3 r3] _ Hw3. simpl in Hw3. yields_run. simpl.
  eapply brt_handle_maybe_reactive_root_wf; eauto.
Qed.

End RootPutInvariant.

Section RootPutsInvariant.
Context `{Collaborators}.
Hypothesis Hdes : deserialize_keeps_frame.

(** The check of [brt_nonleaf_put_cmd] is the only place where a put
    into a nonleaf node can fail it. *)
Lemma brt_nonleaf_put_cmd_fails node cmd :
  brt_nonleaf_put_cmd node cmd = Abort Invariant_nonleaf_msn
  <-> cmd_msn cmd <= max_msn_applied_to_node_in_memory node.
Proof.
  split.
  - intros Hrun. destruct (Z_lt_le_dec (max_msn_applied_to_node_in_memory node) (cmd_msn cmd))
      as [Hlt|Hle]; [|exact Hle].
    now apply brt_nonleaf_put_cmd_mild in Hlt.
  - intros Hle. unfold brt_nonleaf_put_cmd.
    now rewrite (proj2 (Z.ltb_ge _ _) Hle).
Qed.

Lemma root_puts_wf fuel cmds : forall t root,
  wf_tree root ->
  0 <= max_msn_applied_to_node_in_memory (tree_node root) ->
  max_msn_applied_to_node_in_memory (tree_node root) + Z.of_nat (length cmds) < 2 ^ 64 ->
  yields (root_puts fuel t root cmds) (fun res => wf_tree res.1.2).
Proof.
  induction cmds as [|cmd cmds IH]; intros t root Hwf Hlo Hhi; simpl.
  - now apply yields_Ok.
  - simpl length in Hhi. eapply yields_bind.
    { apply toku_brt_root_put_cmd_wf; [exact Hdes | exact Hwf | exact Hlo | lia]. }
    intros [[t1 root1] cmd1] Hput Hw1. simpl in Hw1. cbv beta iota zeta.
    apply (toku_brt_root_put_cmd_Ok Hdes) in Hput as (_ & Hm & _); [|unfold in_u64; lia].
    eapply yields_bind; [apply IH; [exact Hw1 | lia | lia]|].
    intros [[t2 root2] rest] _ Hw2. simpl in Hw2. cbv beta iota zeta.
    now apply yields_Ok.
Qed.

End RootPutsInvariant.

Lemma sample_top_wf : wf_tree SampleFlush.top.
Proof.
  assert (Hslot : forall top k blk est l,
             buffer_ok top (max_msn_applied_to_node_in_memory (tree_node k))
                       (fe_msn <$> l) ->
             slot_ok top (bp_state (SampleReplay.nonleaf_partition blk est l),
                          bp_ptr_of (SampleReplay.nonleaf_partition blk est l)) k).
  { intros top k blk est l Hb. split; [reflexivity|]. eexists. split; [reflexivity|]. auto. }
  unfold SampleFlush.top, SampleFlush.inner.
  apply wf_nonleaf; [vm_compute; reflexivity | | ].
  - constructor; [|constructor]. apply Hslot.
    cbv -[Z.lt Z.le]. repeat split; try lia. repeat constructor; lia.
  - constructor; [|constructor].
    apply wf_nonleaf; [vm_compute; reflexivity | | ].
    + constructor; [|constructor]. apply Hslot.
      cbv -[Z.lt Z.le]. repeat split; try lia. repeat constructor; lia.
    + constructor; [|constructor]. apply wf_leaf. reflexivity.
Qed.

(** ** The MSN check of a put into a nonleaf node *)

(** C10: [brt_nonleaf_put_cmd] fails its MSN check exactly when the
    message's msn is not above the node's
    [max_msn_applied_to_node_in_memory], and a call that returns
    leaves the message's msn in that field.  On a tree that satisfies
    [wf_tree] (every nonleaf node is wholly in memory, and the messages
    waiting in the buffer above a nonleaf child are in increasing msn
    order, above what the child has applied and not above what the
    parent has applied), with partition readers that leave the node
    header alone and as long as the 64-bit msn counter of the root does
    not wrap, no put at the root and no flush ever fails the check:
    every message that reaches a nonleaf node, at the root or from the
    buffer above it, has an msn above what the node has applied; and
    the tree left by the puts satisfies [wf_tree] again. *)
Theorem brt_nonleaf_put_cmd_msn_check_never_fails `{Collaborators} fuel t root cmds :
  deserialize_keeps_frame ->
  wf_tree root ->
  0 <= max_msn_applied_to_node_in_memory (tree_node root) ->
  max_msn_applied_to_node_in_memory (tree_node root) + Z.of_nat (length cmds) < 2 ^ 64 ->
  (forall node cmd,
      brt_nonleaf_put_cmd node cmd = Abort Invariant_nonleaf_msn
      <-> cmd_msn cmd <= max_msn_applied_to_node_in_memory node)
  /\ (forall node cmd node',
         brt_nonleaf_put_cmd node cmd = Ok node' ->
         max_msn_applied_to_node_in_memory node < cmd_msn cmd
         /\ max_msn_applied_to_node_in_memory node' = cmd_msn cmd)
  /\ (forall childnum is_first_flush flush_recursively ancestors bounds,
         flush_this_child fuel t root childnum is_first_flush flush_recursively
                          ancestors bounds
         <> Abort Invariant_nonleaf_msn)
  /\ root_puts fuel t root cmds <> Abort Invariant_nonleaf_msn
  /\ (forall t' root' stamped,
         root_puts fuel t root cmds = Ok (t', root', stamped) -> wf_tree root').
Proof.
  intros Hdes Hwf Hlo Hhi. split; [apply brt_nonleaf_put_cmd_fails|].
  split.
  { intros node cmd node' Hrun. apply brt_nonleaf_put_cmd_Ok in Hrun as [Hlt (Hm & _)].
    split; [exact Hlt | exact Hm]. }
  split.
  { intros c f r anc b. apply (flush_this_child_ok Hdes fuel t root c f r anc b Hwf). }
  destruct (root_puts_wf Hdes fuel cmds t root Hwf Hlo Hhi) as [Hmild Hq].
  split; [exact Hmild|].
  intros t' root' stamped Hrun. apply (Hq _ Hrun).
Qed.

Lemma brt_nonleaf_put_cmd_msn_check_never_fails_witness :
  root_puts (H := Sample.collaborators) 60 SamplePuts.handle SamplePuts.root
            (SampleGrowth.puts 100)
  <> Abort Invariant_nonleaf_msn
  /\ (forall t' root' stamped,
         root_puts (H := Sample.collaborators) 60 SamplePuts.handle SamplePuts.root
                   (SampleGrowth.puts 100) = Ok (t', root', stamped) ->
         wf_tree root').
Proof.
  apply (brt_nonleaf_put_cmd_msn_check_never_fails (H := Sample.collaborators) 60
           SamplePuts.handle SamplePuts.root (SampleGrowth.puts 100)).
  - exact sample_deserialize_keeps_frame.
  - apply wf_leaf. reflexivity.
  - vm_compute. discriminate.
  - vm_compute. reflexivity.
Defined.

(** A hundred puts on an empty tree with small nodes: the tree grows
    to height 2, and each nonleaf child has applied the msn of the
    last message flushed into it. *)
Example root_puts_flush_into_nonleaf :
  match root_puts (H := Sample.collaborators) 60 SamplePuts.handle SamplePuts.root
                  (SampleGrowth.puts 100) with
  | Ok (_, tr, _) =>
      height (tree_node tr) = 2
      /\ max_msn_applied_to_node_in_memory (tree_node tr) = 100
      /\ map (fun k => (height (tree_node k), max_msn_applied_to_node_in_memory (tree_node k)))
             (tree_kids tr)
         = [(1, 95); (1, 99); (1, 93)]
  | Abort _ => False
  end.
Proof. vm_compute. repeat split; reflexivity. Qed.

(** A message that is not above what the node has applied fails the
    check. *)
Example brt_nonleaf_put_cmd_stale_msn :
  brt_nonleaf_put_cmd (H := Sample.collaborators) (tree_node SampleFlush.top)
                      (set_msn (SamplePuts.insert "ba" "0") 5)
  = Abort Invariant_nonleaf_msn.
Proof. vm_compute. reflexivity. Qed.

(** * Further properties of the engine *)

(** ** Routing a key to a child *)

Section WhichChildFacts.
Context `{Collaborators}.

Lemma childkey_lookup node i p :
  childkey node i = Some p -> 0 <= i /\ childkeys node !! Z.to_nat i = Some p.
Proof.
  unfold childkey. destruct (Z.ltb_spec i 0); [discriminate|]. auto.
Qed.

Lemma childkey_in_range node i :
  0 <= i < Z.of_nat (length (childkeys node)) -> exists p, childkey node i = Some p.
Proof.
  intros Hi. unfold childkey. rewrite (proj2 (Z.ltb_ge _ _)) by lia.
  apply lookup_lt_is_Some_2. lia.
Qed.

(** The binary search keeps: every pivot before [lo] is below [k], and
    the pivot at [hi] is not. *)
Lemma which_child_search_spec fuel node k lo hi :
  pivots_split_at node k ->
  0 <= lo <= hi -> hi < Z.of_nat (length (childkeys node)) ->
  (hi - lo < Z.of_nat fuel) ->
  (forall i p, 0 <= i < lo -> childkey node i = Some p -> 0 < compare_fun k p) ->
  (forall p, childkey node hi = Some p -> compare_fun k p <= 0) ->
  exists c, which_child_search fuel node k lo hi = Ok c
    /\ lo <= c <= hi
    /\ (forall i p, 0 <= i < c -> childkey node i = Some p -> 0 < compare_fun k p)
    /\ (forall p, childkey node c = Some p -> compare_fun k p <= 0).
Proof.
  intros Hsplit. revert lo hi.
  induction fuel as [|fuel IH]; intros lo hi Hlo Hhi Hfuel Hbelow Hat; [lia|].
  simpl. destruct (Z.ltb_spec lo hi) as [Hlt|Hge].
  - assert (Hmi : lo <= (lo + hi) / 2 < hi).
    { split; [apply Z.div_le_lower_bound; lia | apply Z.div_lt_upper_bound; lia]. }
    destruct (childkey_in_range node ((lo + hi) / 2)) as [pivot Hp]; [lia|].
    rewrite Hp. simpl. unfold brt_compare_pivot.
    destruct (Z.ltb_spec 0 (compare_fun k pivot)) as [Hpos|Hnpos].
    + destruct (IH ((lo + hi) / 2 + 1) hi) as (c & Hc & Hr & Hb & Ha); try lia; auto.
      * intros i p Hi Hpi.
        destruct (Z.eq_dec i ((lo + hi) / 2)) as [->|Hne]; [congruence|].
        apply childkey_lookup in Hpi as [_ Hpi]. apply childkey_lookup in Hp as [_ Hp].
        eapply (Hsplit (Z.to_nat i) (Z.to_nat ((lo + hi) / 2))); eauto; lia.
      * exists c. repeat split; auto; lia.
    + destruct (Z.ltb_spec (compare_fun k pivot) 0) as [Hneg|Hzero].
      * destruct (IH lo ((lo + hi) / 2)) as (c & Hc & Hr & Hb & Ha); try lia; auto.
        -- intros p Hp'. rewrite Hp in Hp'. injection Hp' as <-. lia.
        -- exists c. repeat split; auto; lia.
      * exists ((lo + hi) / 2). split; [reflexivity|]. split; [lia|]. split.
        -- intros i p Hi Hpi.
           apply childkey_lookup in Hpi as [_ Hpi]. apply childkey_lookup in Hp as [_ Hp].
           eapply (Hsplit (Z.to_nat i) (Z.to_nat ((lo + hi) / 2))); eauto; lia.
        -- intros p Hp'. rewrite Hp in Hp'. injection Hp' as <-. lia.
  - exists lo. split; [reflexivity|]. assert (lo = hi) as -> by lia.
    repeat split; auto; lia.
Qed.

End WhichChildFacts.

(** X1: on a node with one pivot less than children, whose pivots split
    the keys around [k], [toku_brtnode_which_child] returns (it does
    not fail) the one child [c] in range with every pivot before [c]
    below [k] and the pivot of [c], if there is one, not below [k]. *)
Theorem toku_brtnode_which_child_routes `{Collaborators} (node : BRTNODE) (k : DBT) :
  (0 < length (bp node))%nat ->
  length (childkeys node) = (length (bp node) - 1)%nat ->
  pivots_split_at node k ->
  exists c, toku_brtnode_which_child node k = Ok c
    /\ 0 <= c < n_children node
    /\ (forall i p, 0 <= i < c -> childkey node i = Some p -> 0 < compare_fun k p)
    /\ (forall p, childkey node c = Some p -> compare_fun k p <= 0).
Proof.
  intros Hn Hlen Hsplit. unfold toku_brtnode_which_child, n_children.
  destruct (Z.leb_spec (Z.of_nat (length (bp node))) 1) as [Hone|Hmore].
  - exists 0. split; [reflexivity|]. split; [lia|]. split; [intros; lia|].
    intros p Hp. apply childkey_lookup in Hp as [_ Hp].
    apply lookup_lt_Some in Hp. simpl in Hp. lia.
  - destruct (childkey_in_range node (Z.of_nat (length (bp node)) - 1 - 1)) as [pivot Hp];
      [lia|].
    rewrite Hp. simpl. unfold brt_compare_pivot.
    destruct (Z.ltb_spec 0 (compare_fun k pivot)) as [Hpos|Hnpos].
    + exists (Z.of_nat (length (bp node)) - 1). split; [reflexivity|]. split; [lia|]. split.
      * intros i p Hi Hpi.
        destruct (Z.eq_dec i (Z.of_nat (length (bp node)) - 1 - 1)) as [->|Hne];
          [congruence|].
        apply childkey_lookup in Hpi as [_ Hpi]. apply childkey_lookup in Hp as [_ Hp].
        eapply (Hsplit (Z.to_nat i) (Z.to_nat (Z.of_nat (length (bp node)) - 1 - 1)));
          eauto; lia.
      * intros p Hp'. apply childkey_lookup in Hp' as [_ Hp'].
        apply lookup_lt_Some in Hp'. lia.
    + destruct (which_child_search_spec (S (length (bp node))) node k 0
                  (Z.of_nat (length (bp node)) - 1 - 1)) as (c & Hc & Hr & Hb & Ha);
        try lia; auto.
      * intros p Hp'. rewrite Hp in Hp'. injection Hp' as <-. lia.
      * exists c. split; [exact Hc|]. repeat split; auto; lia.
Qed.

Lemma toku_brtnode_which_child_routes_witness :
  exists c, toku_brtnode_which_child (H := Sample.collaborators) SampleRouting.node "g" = Ok c
    /\ 0 <= c < n_children SampleRouting.node
    /\ (forall i p, 0 <= i < c -> childkey SampleRouting.node i = Some p ->
                    0 < Sample.compare "g" p)
    /\ (forall p, childkey SampleRouting.node c = Some p -> Sample.compare "g" p <= 0).
Proof.
  apply (toku_brtnode_which_child_routes (H := Sample.collaborators) SampleRouting.node "g").
  - unfold SampleRouting.node. simpl. lia.
  - reflexivity.
  - intros i j p q Hij Hp Hq.
    destruct i as [|[|i]], j as [|[|j]]; simpl in Hp, Hq; try discriminate; try lia;
      injection Hp as <-; injection Hq as <-; vm_compute; intros Hc; try reflexivity;
      exfalso; apply Hc; reflexivity.
Defined.

(** ** The three classes of messages *)

(** X2: every message type is of exactly one class: applied once (the
    types that carry a key), applied to all, or doing nothing; so the
    [assert(FALSE)] that ends the three-way dispatch of
    [toku_apply_cmd_to_leaf] and of
    [apply_cmd_to_in_memory_non_root_leaves] is never reached. *)
Theorem brt_msg_classes_partition (cmd : BRT_MSG) :
  brt_msg_applies_once cmd = msg_type_has_key (cmd_type cmd)
  /\ (brt_msg_applies_once cmd = true
      /\ brt_msg_applies_all cmd = false /\ brt_msg_does_nothing cmd = false
      \/ brt_msg_applies_once cmd = false
         /\ brt_msg_applies_all cmd = true /\ brt_msg_does_nothing cmd = false
      \/ brt_msg_applies_once cmd = false
         /\ brt_msg_applies_all cmd = false /\ brt_msg_does_nothing cmd = true).
Proof.
  unfold brt_msg_applies_once, brt_msg_applies_all, brt_msg_does_nothing.
  destruct (cmd_type cmd); simpl; auto 10.
Qed.

(** ** Child buffers *)

Section ChildBufferFacts.
Context `{Collaborators}.

Lemma BP_other_set n i p n' j :
  node_set_partition n i p = Ok n' -> j <> i -> BP n' j = BP n j.
Proof.
  intros Hs Hne. rewrite (BP_lookup_set _ _ _ _ Hs).
  destruct (Z.eqb_spec j i); [contradiction | reflexivity].
Qed.

Lemma toku_brt_append_to_child_buffer_BNC node c type msn xids key val ci :
  BNC node c = Some ci -> BP_STATE node c = Some PT_AVAIL ->
  exists node',
    toku_brt_append_to_child_buffer node c type msn xids key val = Ok node'
    /\ BNC node' c
       = Some (ci_appended {| fe_key := key; fe_val := val; fe_type := type;
                              fe_msn := msn; fe_xids := xids |} ci)
    /\ (forall j, j <> c -> BP node' j = BP node j)
    /\ dirty node' = true
    /\ node_frame node node'
    /\ childkeys node' = childkeys node.
Proof.
  intros Hci Hst. apply BNC_Some in Hci as (p & Hp & Hptr).
  unfold BP_STATE in Hst. rewrite Hp in Hst. simpl in Hst. injection Hst as Hst.
  unfold toku_brt_append_to_child_buffer. rewrite Hp. simpl. rewrite Hst, Hptr. simpl.
  pose proof (BP_in_range _ _ _ Hp) as Hr.
  unfold node_set_partition. rewrite Hr. simpl.
  eexists. split; [reflexivity|].
  apply andb_prop in Hr as [Hlo Hhi]. apply Z.leb_le in Hlo. apply Z.ltb_lt in Hhi.
  unfold n_children in Hhi.
  split; [|split; [|split; [reflexivity|split; [|reflexivity]]]].
  - unfold BNC, BP. simpl. rewrite (proj2 (Z.ltb_ge _ _) Hlo).
    rewrite list_lookup_insert_eq by lia. reflexivity.
  - intros j Hj. unfold BP. simpl. destruct (Z.ltb_spec j 0); [reflexivity|].
    apply list_lookup_insert_ne. lia.
  - unfold node_frame. simpl. auto 10.
Qed.

End ChildBufferFacts.

(** X3: appending a message to the buffer of a child slot that is in
    memory does not fail; the message is queued behind the ones
    waiting, the other slots and the pivots are left as they were, the
    node is marked dirty, and a byte count that was the 32-bit sum of
    the sizes of the queued messages still is. *)
Theorem toku_brt_append_to_child_buffer_enqueues `{Collaborators}
    (node : BRTNODE) (c : Z) (type : brt_msg_type) (msn : Z) (xids : XIDS)
    (key val : DBT) (ci : NONLEAF_CHILDINFO) :
  BNC node c = Some ci -> BP_STATE node c = Some PT_AVAIL ->
  exists node' ci',
    toku_brt_append_to_child_buffer node c type msn xids key val = Ok node'
    /\ BNC node' c = Some ci'
    /\ bnc_buffer ci'
       = bnc_buffer ci ++ [ {| fe_key := key; fe_val := val; fe_type := type;
                               fe_msn := msn; fe_xids := xids |} ]
    /\ (bnc_bytes_consistent ci -> bnc_bytes_consistent ci')
    /\ (forall j, j <> c -> BP node' j = BP node j)
    /\ childkeys node' = childkeys node
    /\ dirty node' = true.
Proof.
  intros Hci Hst.
  destruct (toku_brt_append_to_child_buffer_BNC node c type msn xids key val ci Hci Hst)
    as (node' & Hrun & Hci' & Hother & Hd & _ & Hk).
  exists node'. eexists. split; [exact Hrun|]. split; [exact Hci'|].
  split; [reflexivity|]. split; [|auto].
  intros Hcons.
  destruct (toku_brt_append_to_child_buffer_consistent _ _ _ _ _ _ _ _ _ Hrun Hci Hcons)
    as (ci2 & Hci2 & Hcons2).
  rewrite Hci' in Hci2. injection Hci2 as <-. exact Hcons2.
Qed.

Lemma toku_brt_append_to_child_buffer_enqueues_witness :
  exists node' ci',
    toku_brt_append_to_child_buffer (H := Sample.collaborators)
      (tree_node SampleFlush.top) 0 BRT_INSERT 6 [0] "cherry" "3" = Ok node'
    /\ BNC node' 0 = Some ci'
    /\ bnc_buffer ci'
       = [ SampleReplay.insert 4 "apple" "1"; SampleReplay.insert 5 "berry" "2" ]
         ++ [ {| fe_key := "cherry"; fe_val := "3"; fe_type := BRT_INSERT;
                 fe_msn := 6; fe_xids := [0] |} ]
    /\ (bnc_bytes_consistent (H := Sample.collaborators)
          (SampleReplay.childinfo [ SampleReplay.insert 4 "apple" "1";
                                    SampleReplay.insert 5 "berry" "2" ]) ->
        bnc_bytes_consistent (H := Sample.collaborators) ci')
    /\ (forall j, j <> 0 -> BP node' j = BP (tree_node SampleFlush.top) j)
    /\ childkeys node' = childkeys (tree_node SampleFlush.top)
    /\ dirty node' = true.
Proof.
  apply (toku_brt_append_to_child_buffer_enqueues (H := Sample.collaborators)
           (tree_node SampleFlush.top) 0 BRT_INSERT 6 [0] "cherry" "3"
           (SampleReplay.childinfo [ SampleReplay.insert 4 "apple" "1";
                                     SampleReplay.insert 5 "berry" "2" ])).
  - reflexivity.
  - reflexivity.
Defined.

Section NonleafPutFacts.
Context `{Collaborators}.

Lemma toku_brt_append_to_child_buffer_inv node c type msn xids key val node' :
  toku_brt_append_to_child_buffer node c type msn xids key val = Ok node' ->
  exists ci, BNC node c = Some ci /\ BP_STATE node c = Some PT_AVAIL.
Proof.
  unfold toku_brt_append_to_child_buffer. intros Hrun. run_all.
  match goal with Hp : BP node c = Some ?p |- _ =>
    destruct (bp_ptr_of p) as [| |ci|] eqn:Hptr; try discriminate;
    exists ci; split; [eapply BNC_of_BP; eauto|];
    unfold BP_STATE; rewrite Hp; simpl; f_equal end.
  match goal with Hd : bool_decide _ = true |- _ => now apply bool_decide_eq_true in Hd end.
Qed.

Lemma which_child_search_set_max_msn fuel node m k lo hi :
  which_child_search fuel (node_set_max_msn node m) k lo hi
  = which_child_search fuel node k lo hi.
Proof.
  revert lo hi. induction fuel as [|fuel IH]; intros lo hi; simpl; [reflexivity|].
  change (childkey (node_set_max_msn node m)) with (childkey node).
  destruct (lo <? hi); [|reflexivity].
  destruct (childkey node ((lo + hi) / 2)); simpl; [|reflexivity].
  destruct (0 <? _); [apply IH|]. destruct (_ <? 0); [apply IH | reflexivity].
Qed.

Lemma toku_brtnode_which_child_set_max_msn node m k :
  toku_brtnode_which_child (node_set_max_msn node m) k = toku_brtnode_which_child node k.
Proof.
  unfold toku_brtnode_which_child. rewrite which_child_search_set_max_msn. reflexivity.
Qed.

Lemma slot_buffer_appended e s :
  slot_buffer (slot_appended e s) = (fun b => b ++ [e]) <$> slot_buffer s.
Proof.
  unfold slot_buffer, slot_appended. destruct s as [st ptr]. simpl.
  destruct ptr; reflexivity.
Qed.

Lemma BNC_BUFFER_negative node j : j < 0 -> BNC_BUFFER node j = None.
Proof.
  intros Hj. unfold BNC_BUFFER, BNC, BP. now rewrite (proj2 (Z.ltb_lt _ _) Hj).
Qed.

Lemma brt_nonleaf_cmd_all_buffers node cmd node' :
  brt_nonleaf_cmd_all node cmd = Ok node' ->
  forall j, BNC_BUFFER node' j
            = (fun b => b ++ [entry_of_msg cmd]) <$> BNC_BUFFER node j.
Proof.
  unfold brt_nonleaf_cmd_all. intros Hrun j.
  destruct (Z.lt_ge_cases j 0) as [Hneg|Hpos]; [now rewrite !BNC_BUFFER_negative|].
  apply cmd_to_children_slots in Hrun; [|lia].
  simpl in Hrun. rewrite drop_0 in Hrun.
  rewrite (take_ge (slots node)) in Hrun by (unfold slots; rewrite length_fmap; lia).
  rewrite (drop_ge (slots node)) in Hrun by (unfold slots; rewrite length_fmap; lia).
  rewrite app_nil_r in Hrun.
  rewrite !BNC_BUFFER_slots, Hrun, list_lookup_fmap by lia.
  destruct (slots node !! Z.to_nat j) as [s|]; simpl; [apply slot_buffer_appended | reflexivity].
Qed.

End NonleafPutFacts.

Lemma brt_nonleaf_put_cmd_routing `{Collaborators} (node : BRTNODE) (cmd : BRT_MSG)
    (node' : BRTNODE) :
  brt_nonleaf_put_cmd node cmd = Ok node' ->
  max_msn_applied_to_node_in_memory node' = cmd_msn cmd
  /\ childkeys node' = childkeys node
  /\ (brt_msg_applies_once cmd = true ->
      exists c, toku_brtnode_which_child node (cmd_key cmd) = Ok c
        /\ BNC_BUFFER node' c
           = (fun b => b ++ [entry_of_msg cmd]) <$> BNC_BUFFER node c
        /\ forall j, j <> c -> BP node' j = BP node j)
  /\ (brt_msg_applies_all cmd = true ->
      forall j, BNC_BUFFER node' j
                = (fun b => b ++ [entry_of_msg cmd]) <$> BNC_BUFFER node j)
  /\ (brt_msg_does_nothing cmd = true -> bp node' = bp node).
Proof.
  intros Hrun.
  pose proof (brt_nonleaf_put_cmd_Ok _ _ _ Hrun) as [_ (Hm & _)].
  split; [exact Hm|].
  unfold brt_nonleaf_put_cmd in Hrun. run_all.
  unfold brt_msg_applies_once, brt_msg_applies_all, brt_msg_does_nothing.
  assert (Honce : brt_nonleaf_cmd_once (node_set_max_msn node (cmd_msn cmd)) cmd = Ok node' ->
            childkeys node' = childkeys node
            /\ exists c, toku_brtnode_which_child node (cmd_key cmd) = Ok c
                 /\ BNC_BUFFER node' c
                    = (fun b => b ++ [entry_of_msg cmd]) <$> BNC_BUFFER node c
                 /\ forall j, j <> c -> BP node' j = BP node j).
  { unfold brt_nonleaf_cmd_once, brt_nonleaf_cmd_once_to_child. intros Ho. run_all.
    match goal with Ha : toku_brt_append_to_child_buffer _ ?c _ _ _ _ _ = Ok _ |- _ =>
      destruct (toku_brt_append_to_child_buffer_inv _ _ _ _ _ _ _ _ Ha) as (ci & Hci & Hst);
      destruct (toku_brt_append_to_child_buffer_BNC _ c (cmd_type cmd) (cmd_msn cmd)
                  (cmd_xids cmd) (cmd_key cmd) (cmd_val cmd) ci Hci Hst)
        as (n2 & Hrun2 & Hci2 & Hother & _ & _ & Hk);
      rewrite Ha in Hrun2; injection Hrun2 as <-; split; [exact Hk|]; exists c end.
    split; [now rewrite <- (toku_brtnode_which_child_set_max_msn node (cmd_msn cmd))|].
    split; [|exact Hother].
    unfold BNC_BUFFER. rewrite Hci2.
    change (BNC (node_set_max_msn node (cmd_msn cmd)) ?c) with (BNC node c) in Hci.
    rewrite Hci. reflexivity. }
  assert (Hall : brt_nonleaf_cmd_all (node_set_max_msn node (cmd_msn cmd)) cmd = Ok node' ->
            childkeys node' = childkeys node
            /\ forall j, BNC_BUFFER node' j
                         = (fun b => b ++ [entry_of_msg cmd]) <$> BNC_BUFFER node j).
  { intros Ha. split; [|exact (brt_nonleaf_cmd_all_buffers _ _ _ Ha)].
    unfold brt_nonleaf_cmd_all in Ha. clear -Ha.
    remember (length (bp (node_set_max_msn node (cmd_msn cmd)))) as count eqn:Hc. clear Hc.
    change (childkeys node) with (childkeys (node_set_max_msn node (cmd_msn cmd))).
    generalize dependent (node_set_max_msn node (cmd_msn cmd)). generalize 0.
    induction count as [|count IH]; intros i n Ha; simpl in Ha.
    - now simplify_eq.
    - run_all. unfold brt_nonleaf_cmd_once_to_child in *.
      match goal with Hk : cmd_to_children _ _ _ _ = Ok _ |- _ => apply IH in Hk; rewrite Hk end.
      match goal with Hb : toku_brt_append_to_child_buffer _ ?c _ _ _ _ _ = Ok _ |- _ =>
        destruct (toku_brt_append_to_child_buffer_inv _ _ _ _ _ _ _ _ Hb) as (ci & Hci & Hst);
        destruct (toku_brt_append_to_child_buffer_BNC _ c (cmd_type cmd) (cmd_msn cmd)
                    (cmd_xids cmd) (cmd_key cmd) (cmd_val cmd) ci Hci Hst)
          as (n2 & Hrun2 & _ & _ & _ & _ & Hk2);
        rewrite Hb in Hrun2; injection Hrun2 as <-; exact Hk2 end. }
  destruct (cmd_type cmd);
    try (destruct (Honce Hrun) as [Hk Hc]; split; [exact Hk|];
         repeat split; intros; try discriminate; exact Hc);
    try (destruct (Hall Hrun) as [Hk Hc]; split; [exact Hk|];
         repeat split; intros; try discriminate; apply Hc).
  simplify_eq. simpl. repeat split; intros; try discriminate; reflexivity.
Qed.

(** X4: a put into a nonleaf node that returns has left the message's
    msn in the node and routed the message by its class: a message
    applied once is queued behind the buffer of the child that
    [toku_brtnode_which_child] picks for its key, the other slots being
    left alone; a message applied to all is queued behind every buffer;
    a message that does nothing changes no slot.  The pivots stay. *)
Theorem brt_nonleaf_put_cmd_routes `{Collaborators} (node : BRTNODE) (cmd : BRT_MSG)
    (node' : BRTNODE) :
  brt_nonleaf_put_cmd node cmd = Ok node' ->
  max_msn_applied_to_node_in_memory node' = cmd_msn cmd
  /\ childkeys node' = childkeys node
  /\ (brt_msg_applies_once cmd = true ->
      exists c, toku_brtnode_which_child node (cmd_key cmd) = Ok c
        /\ BNC_BUFFER node' c
           = (fun b => b ++ [entry_of_msg cmd]) <$> BNC_BUFFER node c
        /\ forall j, j <> c -> BP node' j = BP node j)
  /\ (brt_msg_applies_all cmd = true ->
      forall j, BNC_BUFFER node' j
                = (fun b => b ++ [entry_of_msg cmd]) <$> BNC_BUFFER node j)
  /\ (brt_msg_does_nothing cmd = true -> bp node' = bp node).
Proof. apply brt_nonleaf_put_cmd_routing. Qed.

Lemma brt_nonleaf_put_cmd_routes_witness :
  max_msn_applied_to_node_in_memory SampleRouting.after_cherry = 6
  /\ childkeys SampleRouting.after_cherry = childkeys (tree_node SampleFlush.top)
  /\ (brt_msg_applies_once SampleRouting.cherry = true ->
      exists c, toku_brtnode_which_child (H := Sample.collaborators)
                  (tree_node SampleFlush.top) "cherry" = Ok c
        /\ BNC_BUFFER SampleRouting.after_cherry c
           = (fun b => b ++ [entry_of_msg SampleRouting.cherry])
               <$> BNC_BUFFER (tree_node SampleFlush.top) c
        /\ forall j, j <> c ->
             BP SampleRouting.after_cherry j = BP (tree_node SampleFlush.top) j)
  /\ (brt_msg_applies_all SampleRouting.cherry = true ->
      forall j, BNC_BUFFER SampleRouting.after_cherry j
                = (fun b => b ++ [entry_of_msg SampleRouting.cherry])
                    <$> BNC_BUFFER (tree_node SampleFlush.top) j)
  /\ (brt_msg_does_nothing SampleRouting.cherry = true ->
      bp SampleRouting.after_cherry = bp (tree_node SampleFlush.top)).
Proof.
  apply (brt_nonleaf_put_cmd_routes (H := Sample.collaborators) (tree_node SampleFlush.top)
           SampleRouting.cherry SampleRouting.after_cherry).
  vm_compute. reflexivity.
Defined.

(** ** Messages that a leaf has seen *)

(** X5: a leaf applies a message at most once.  A message whose msn is
    not above the leaf's [max_msn_applied_to_node_in_memory] leaves the
    leaf and [made_change] as they were; a message that is applied
    raises that field to its msn, so that applying the same message
    again changes nothing. *)
Theorem toku_apply_cmd_to_leaf_at_most_once `{Collaborators} (fuel : nat)
    (node : BRTNODE) (cmd : BRT_MSG) (made_change : Z) (node' : BRTNODE)
    (made_change' : Z) :
  toku_apply_cmd_to_leaf fuel node cmd made_change = Ok (node', made_change') ->
  max_msn_applied_to_node_in_memory node'
  = Z.max (max_msn_applied_to_node_in_memory node) (cmd_msn cmd)
  /\ (cmd_msn cmd <= max_msn_applied_to_node_in_memory node ->
      node' = node /\ made_change' = made_change)
  /\ forall fuel2 made_change2,
       toku_apply_cmd_to_leaf fuel2 node' cmd made_change2 = Ok (node', made_change2).
Proof.
  intros Hrun.
  assert (Hstale : forall f n mc, cmd_msn cmd <= max_msn_applied_to_node_in_memory n ->
                     toku_apply_cmd_to_leaf f n cmd mc = Ok (n, mc)).
  { intros f n mc Hle. unfold toku_apply_cmd_to_leaf.
    now rewrite (proj2 (Z.leb_le _ _) Hle). }
  destruct (Z.le_gt_cases (cmd_msn cmd) (max_msn_applied_to_node_in_memory node))
    as [Hle|Hgt].
  - rewrite (Hstale _ _ _ Hle) in Hrun. injection Hrun as <- <-.
    split; [lia|]. split; [auto|]. intros. now apply Hstale.
  - apply toku_apply_cmd_to_leaf_Ok in Hrun as [[Hle _]|[_ (Hm & _)]]; [lia|].
    simpl in Hm. split; [lia|]. split; [lia|]. intros. apply Hstale. lia.
Qed.

Lemma toku_apply_cmd_to_leaf_at_most_once_witness :
  max_msn_applied_to_node_in_memory SampleRouting.leaf_after_kiwi
  = Z.max (max_msn_applied_to_node_in_memory SampleRouting.node) 1
  /\ (1 <= max_msn_applied_to_node_in_memory SampleRouting.node ->
      SampleRouting.leaf_after_kiwi = SampleRouting.node /\ 1 = 0)
  /\ forall fuel2 made_change2,
       toku_apply_cmd_to_leaf (H := Sample.collaborators) fuel2
         SampleRouting.leaf_after_kiwi SampleRouting.kiwi made_change2
       = Ok (SampleRouting.leaf_after_kiwi, made_change2).
Proof.
  apply (toku_apply_cmd_to_leaf_at_most_once (H := Sample.collaborators) 10
           SampleRouting.node SampleRouting.kiwi 0 SampleRouting.leaf_after_kiwi 1).
  vm_compute. reflexivity.
Defined.

(** ** What a flush leaves alone *)

Section FlushFrameFacts.
Context `{Collaborators}.

Lemma flush_this_child_body_kids fuel flush t tr c f r anc b t' tr' anc' re :
  flush_this_child_body fuel flush t tr c f r anc b = Ok (t', tr', anc', re) ->
  0 <= c
  /\ exists child', tree_kids tr' = <[Z.to_nat c := child']> (tree_kids tr).
Proof.
  unfold flush_this_child_body. intros Hrun. run_all.
  match goal with Hk : child_of _ _ = Ok _ |- _ => apply child_of_Ok in Hk as (Hpos & _) end.
  split; [exact Hpos|].
  case_run; run_all; simplify_eq; simpl; eauto.
Qed.

Lemma BNC_slots node j :
  0 <= j ->
  BNC node j = slots node !! Z.to_nat j
               ≫= (fun s => match s.2 with ptr_childinfo ci => Some ci | _ => None end).
Proof.
  intros Hj. unfold BNC, BP, slots. rewrite (proj2 (Z.ltb_ge _ _) Hj), list_lookup_fmap.
  destruct (bp node !! Z.to_nat j); reflexivity.
Qed.

Lemma BP_STATE_slots node j :
  0 <= j -> BP_STATE node j = fst <$> slots node !! Z.to_nat j.
Proof.
  intros Hj. unfold BP_STATE, BP, slots. rewrite (proj2 (Z.ltb_ge _ _) Hj), list_lookup_fmap.
  destruct (bp node !! Z.to_nat j); reflexivity.
Qed.

End FlushFrameFacts.

(** X6: a flush of child [childnum] that returns has changed, of the
    node it flushes from, nothing but that child's buffer and the
    subtree estimates: the msn, the height, the block number, the
    sizes and the hash of the node are kept, every other child keeps
    its buffer and its byte count, every slot its state, every other
    subtree is the one it was, and the ancestors handed back are the
    ones handed in up to their estimates. *)
Theorem flush_this_child_frame `{Collaborators} (fuel : nat) (t : BRT) (tr : brt_tree)
    (childnum : Z) (is_first_flush flush_recursively : bool) (ancestors : ANCESTORS)
    (bounds : pivot_bounds) (t' : BRT) (tr' : brt_tree) (ancestors' : ANCESTORS)
    (child_re : reactivity) :
  flush_this_child fuel t tr childnum is_first_flush flush_recursively ancestors bounds
  = Ok (t', tr', ancestors', child_re) ->
  node_frame (tree_node tr) (tree_node tr')
  /\ (forall j, j <> childnum -> BNC (tree_node tr') j = BNC (tree_node tr) j)
  /\ (forall j, BP_STATE (tree_node tr') j = BP_STATE (tree_node tr) j)
  /\ (forall j, j <> Z.to_nat childnum -> tree_kids tr' !! j = tree_kids tr !! j)
  /\ length (tree_kids tr') = length (tree_kids tr)
  /\ ancestors_estimates_only ancestors ancestors'.
Proof.
  intros Hrun.
  pose proof (flush_this_child_keeps_frame fuel _ _ _ _ _ _ _ _ _ _ _ Hrun) as F.
  pose proof (flush_this_child_keeps_ancestors fuel _ _ _ _ _ _ _ _ _ _ _ Hrun) as A.
  destruct (flush_this_child_drains_slot fuel _ _ _ _ _ _ _ _ _ _ _ Hrun)
    as (st & old & ci' & Hs & _ & Hsl).
  destruct fuel as [|fuel]; [discriminate|]. simpl in Hrun.
  apply flush_this_child_body_kids in Hrun as (Hc & child' & Hk).
  split; [exact F|]. split; [|split; [|split; [|split; [|exact A]]]].
  - intros j Hj. destruct (Z.lt_ge_cases j 0) as [Hneg|Hpos].
    + unfold BNC, BP. now rewrite (proj2 (Z.ltb_lt _ _) Hneg).
    + rewrite !BNC_slots, Hsl, list_lookup_insert_ne by lia. reflexivity.
  - intros j. destruct (Z.lt_ge_cases j 0) as [Hneg|Hpos].
    + unfold BP_STATE, BP. now rewrite (proj2 (Z.ltb_lt _ _) Hneg).
    + rewrite !BP_STATE_slots, Hsl by lia.
      destruct (decide (Z.to_nat j = Z.to_nat childnum)) as [E|E].
      * rewrite E, list_lookup_insert_eq by (eapply lookup_lt_Some; eauto).
        now rewrite Hs.
      * now rewrite list_lookup_insert_ne by auto.
  - intros j Hj. rewrite Hk. now apply list_lookup_insert_ne.
  - rewrite Hk. apply length_insert.
Qed.

Lemma flush_this_child_frame_witness :
  node_frame (tree_node SampleFlush.tree) (tree_node (snd (fst (fst SampleFlush.flushed))))
  /\ (forall j, j <> 0 -> BNC (tree_node (snd (fst (fst SampleFlush.flushed)))) j
                          = BNC (tree_node SampleFlush.tree) j)
  /\ (forall j, BP_STATE (tree_node (snd (fst (fst SampleFlush.flushed)))) j
                = BP_STATE (tree_node SampleFlush.tree) j)
  /\ (forall j, j <> Z.to_nat 0 ->
        tree_kids (snd (fst (fst SampleFlush.flushed))) !! j
        = tree_kids SampleFlush.tree !! j)
  /\ length (tree_kids (snd (fst (fst SampleFlush.flushed))))
     = length (tree_kids SampleFlush.tree)
  /\ ancestors_estimates_only [] (snd (fst SampleFlush.flushed)).
Proof.
  apply (flush_this_child_frame (H := Sample.collaborators) 6
           SampleFlush.handle SampleFlush.tree 0 true true [] infinite_bounds
           (fst (fst (fst SampleFlush.flushed))) (snd (fst (fst SampleFlush.flushed)))
           (snd (fst SampleFlush.flushed)) (snd SampleFlush.flushed)).
  vm_compute. reflexivity.
Defined.

(** ** The root that grows *)

Section RootShapeFacts.
Context `{Collaborators}.

Lemma brt_init_new_root_shape t nodea nodeb splitk len t' newroot :
  brt_init_new_root t nodea nodeb splitk len = Ok (t', newroot) ->
  height (tree_node newroot) = height (tree_node nodea) + 1
  /\ tree_kids newroot = [nodea; nodeb]
  /\ childkeys (tree_node newroot) = [splitk]
  /\ length (bp (tree_node newroot)) = 2%nat
  /\ h_root t' = thisnodename (tree_node newroot)
  /\ thisnodename (tree_node newroot) = blocktable_next t
  /\ fullhash (tree_node newroot) = toku_cachetable_hash (h_root t')
  /\ flags (tree_node newroot) = brt_flags t
  /\ brt_flags t' = brt_flags t
  /\ dirty (tree_node newroot) = true
  /\ max_msn_applied_to_node_in_memory (tree_node newroot)
     = max_msn_applied_to_node_in_memory (tree_node nodea)
  /\ max_msn_applied_to_node_in_memory (tree_node nodeb)
     = max_msn_applied_to_node_in_memory (tree_node nodea)
  /\ forall j, (0 <= j < 2) ->
       BNC (tree_node newroot) j = Some empty_childinfo
       /\ BP_STATE (tree_node newroot) j = Some PT_AVAIL.
Proof.
  unfold brt_init_new_root. intros Hrun.
  destruct (toku_allocate_blocknum t) as [t1 off] eqn:Halloc.
  unfold toku_allocate_blocknum in Halloc. injection Halloc as <- <-.
  run_all.
  match goal with Hh : (0 <? _) = true |- _ => rename Hh into Hpos end.
  match goal with Hm : (_ =? _) = true |- _ => apply Z.eqb_eq in Hm; rename Hm into Hmsn end.
  match goal with Hi : toku_initialize_empty_brtnode _ _ _ _ _ _ = Ok _ |- _ =>
    unfold toku_initialize_empty_brtnode in Hi; run_all end.
  unfold fixup_child_estimates, node_set_partition in *. run_all. simplify_eq.
  unfold BP in *. simpl in *. simplify_eq. simpl in *. simplify_eq. simpl.
  unfold empty_partition. rewrite Hpos. simpl.
  repeat (split; [reflexivity || congruence|]).
  intros j Hj. assert (j = 0 \/ j = 1) as [-> | ->] by lia; split; reflexivity.
Qed.

Lemma brt_nonleaf_split_heights t tr t' a b k :
  brt_nonleaf_split t tr = Ok (t', a, b, k) ->
  height (tree_node a) = height (tree_node tr)
  /\ height (tree_node b) = height (tree_node tr).
Proof.
  unfold brt_nonleaf_split. intros Hrun. run_all. simplify_eq. simpl.
  match goal with Hn : toku_create_new_brtnode _ _ _ = Ok _ |- _ =>
    apply toku_create_new_brtnode_height in Hn end.
  auto.
Qed.

End RootShapeFacts.

(** X7: [brt_handle_maybe_reactive_root] leaves the handle and a root
    that is not fissible (stable, or fusible: nothing is merged at the
    root) as they are.  A fissible root is split, and the tree gets a
    new root one level higher, in memory, with one pivot, two empty
    buffers and the two halves below, each at the height and with the
    msn of the old root; the new root has that msn too, and the handle
    names the new root's block and holds its hash and flags, which is
    what the next put at the root checks. *)
Theorem brt_handle_maybe_reactive_root_grows `{Collaborators} (t : BRT) (root : brt_tree)
    (t' : BRT) (root' : brt_tree) :
  brt_handle_maybe_reactive_root t root = Ok (t', root') ->
  exists re,
    get_node_reactivity (tree_node root) = Ok re
    /\ (re <> RE_FISSIBLE -> t' = t /\ root' = root)
    /\ (re = RE_FISSIBLE ->
        height (tree_node root') = height (tree_node root) + 1
        /\ (exists a b k,
              tree_kids root' = [a; b] /\ childkeys (tree_node root') = [k]
              /\ height (tree_node a) = height (tree_node root)
              /\ height (tree_node b) = height (tree_node root)
              /\ max_msn_applied_to_node_in_memory (tree_node a)
                 = max_msn_applied_to_node_in_memory (tree_node root)
              /\ max_msn_applied_to_node_in_memory (tree_node b)
                 = max_msn_applied_to_node_in_memory (tree_node root))
        /\ max_msn_applied_to_node_in_memory (tree_node root')
           = max_msn_applied_to_node_in_memory (tree_node root)
        /\ h_root t' = thisnodename (tree_node root')
        /\ fullhash (tree_node root') = toku_cachetable_hash (h_root t')
        /\ flags (tree_node root') = brt_flags t'
        /\ forall j, 0 <= j < 2 ->
             BNC (tree_node root') j = Some empty_childinfo
             /\ BP_STATE (tree_node root') j = Some PT_AVAIL).
Proof.
  unfold brt_handle_maybe_reactive_root. intros Hrun. run_all.
  match goal with Hr : get_node_reactivity _ = Ok ?re |- _ => exists re; split; [exact Hr|] end.
  match goal with Hm : match ?re with _ => _ end = Ok _ |- _ => destruct re end;
    try (simplify_eq; split; [auto | intros; discriminate]).
  split; [intros Hne; now contradiction Hne|]. intros _.
  run_all. case_run; run_all.
  - match goal with Hh : (height _ =? 0) = true |- _ => apply Z.eqb_eq in Hh; rename Hh into Hleaf end.
    match goal with Hs : brtleaf_split _ _ _ _ = Ok _ |- _ =>
      pose proof (brtleaf_split_heights _ _ _ _ _ _ _ _ Hs) as [Ha Hb];
      apply brtleaf_split_msn in Hs as [Ma Mb] end.
    match goal with Hi : brt_init_new_root _ _ _ _ _ = Ok _ |- _ =>
      apply brt_init_new_root_shape in Hi
        as (Hh & Hk & Hkeys & _ & Hroot & _ & Hhash & Hfl & Hfl' & _ & Hm & _ & Hbuf) end.
    simpl in *. split; [lia|]. split.
    { eexists _, _, _. split; [exact Hk|]. split; [exact Hkeys|]. simpl. repeat split; auto; lia. }
    repeat split; try congruence; apply Hbuf; assumption.
  - match goal with Hs : brt_nonleaf_split _ _ = Ok _ |- _ =>
      pose proof (brt_nonleaf_split_heights _ _ _ _ _ _ Hs) as [Ha Hb];
      apply brt_nonleaf_split_msn in Hs as [Ma Mb] end.
    match goal with Hi : brt_init_new_root _ _ _ _ _ = Ok _ |- _ =>
      apply brt_init_new_root_shape in Hi
        as (Hh & Hk & Hkeys & _ & Hroot & _ & Hhash & Hfl & Hfl' & _ & Hm & _ & Hbuf) end.
    split; [lia|]. split.
    { eexists _, _, _. split; [exact Hk|]. split; [exact Hkeys|]. repeat split; auto. }
    repeat split; try congruence; apply Hbuf; assumption.
Qed.

Lemma brt_handle_maybe_reactive_root_grows_witness :
  exists re,
    get_node_reactivity (H := Sample.collaborators) (tree_node SampleRouting.full_root)
    = Ok re
    /\ (re <> RE_FISSIBLE ->
        fst SampleRouting.grown_root = SamplePuts.handle
        /\ snd SampleRouting.grown_root = SampleRouting.full_root)
    /\ (re = RE_FISSIBLE ->
        height (tree_node (snd SampleRouting.grown_root))
        = height (tree_node SampleRouting.full_root) + 1
        /\ (exists a b k,
              tree_kids (snd SampleRouting.grown_root) = [a; b]
              /\ childkeys (tree_node (snd SampleRouting.grown_root)) = [k]
              /\ height (tree_node a) = height (tree_node SampleRouting.full_root)
              /\ height (tree_node b) = height (tree_node SampleRouting.full_root)
              /\ max_msn_applied_to_node_in_memory (tree_node a)
                 = max_msn_applied_to_node_in_memory (tree_node SampleRouting.full_root)
              /\ max_msn_applied_to_node_in_memory (tree_node b)
                 = max_msn_applied_to_node_in_memory (tree_node SampleRouting.full_root))
        /\ max_msn_applied_to_node_in_memory (tree_node (snd SampleRouting.grown_root))
           = max_msn_applied_to_node_in_memory (tree_node SampleRouting.full_root)
        /\ h_root (fst SampleRouting.grown_root)
           = thisnodename (tree_node (snd SampleRouting.grown_root))
        /\ fullhash (tree_node (snd SampleRouting.grown_root))
           = toku_cachetable_hash (Collaborators := Sample.collaborators)
               (h_root (fst SampleRouting.grown_root))
        /\ flags (tree_node (snd SampleRouting.grown_root))
           = brt_flags (fst SampleRouting.grown_root)
        /\ forall j, 0 <= j < 2 ->
             BNC (tree_node (snd SampleRouting.grown_root)) j
             = Some empty_childinfo
             /\ BP_STATE (tree_node (snd SampleRouting.grown_root)) j = Some PT_AVAIL).
Proof.
  apply (brt_handle_maybe_reactive_root_grows (H := Sample.collaborators) SamplePuts.handle
           SampleRouting.full_root (fst SampleRouting.grown_root)
           (snd SampleRouting.grown_root)).
  vm_compute. reflexivity.
Defined.


(** ** Splitting and merging leaves *)

Section LeafShapeFacts.
Context `{Collaborators}.

Lemma partition_entries_reset p :
  partition_entries (reset_partition_stats p) = partition_entries p.
Proof.
  unfold reset_partition_stats, partition_entries.
  destruct (bool_decide _); [|reflexivity].
  destruct (bp_ptr_of p) eqn:E; simpl; rewrite ?E; reflexivity.
Qed.

Lemma toku_brt_leaf_reset_calc_leaf_stats_entries node node' :
  toku_brt_leaf_reset_calc_leaf_stats node = Ok node' ->
  leaf_entries node' = leaf_entries node /\ childkeys node' = childkeys node
  /\ length (bp node') = length (bp node).
Proof.
  unfold toku_brt_leaf_reset_calc_leaf_stats. intros Hrun. run_all. simplify_eq.
  unfold leaf_entries. simpl. rewrite map_map, length_map. repeat split.
  f_equal. apply map_ext. intros p. apply partition_entries_reset.
Qed.

Lemma leaf_entries_app n l1 l2 :
  bp n = l1 ++ l2 ->
  leaf_entries n = concat (map partition_entries l1) ++ concat (map partition_entries l2).
Proof. intros E. unfold leaf_entries. now rewrite E, map_app, concat_app. Qed.

(** What [move_leafentries] moves and what it leaves, when the upper
    end is the size of the OMT. *)
Lemma move_leafentries_all src lbi se moved rest se' n :
  Z.of_nat (length src) < 2 ^ 32 ->
  move_leafentries src lbi (toku_omt_size src) se = Ok (moved, rest, se', n) ->
  0 < lbi <= Z.of_nat (length src)
  /\ rest = take (Z.to_nat lbi) src /\ moved = drop (Z.to_nat lbi) src.
Proof.
  intros Hfit. unfold move_leafentries, toku_omt_size, u32.
  rewrite Z.mod_small by lia. intros Hrun. run_all. simplify_eq.
  apply andb_prop in Hensure as [Hh Hu]. apply andb_prop in Hh as [Hlo Hle].
  apply Z.ltb_lt in Hlo. apply Z.leb_le in Hle.
  split; [lia|]. split.
  - rewrite (drop_ge src) by lia. apply app_nil_r.
  - apply take_ge. rewrite length_drop. lia.
Qed.

Lemma brtleaf_split_entries (t : option BRT) (node nodeb : BRTNODE)
    (create_new_node : bool) (t' : option BRT) (a b : BRTNODE) (splitk : DBT) :
  omt_sizes_fit node ->
  brtleaf_split t node nodeb create_new_node = Ok (t', a, b, splitk) ->
  leaf_entries a ++ leaf_entries b = leaf_entries node
  /\ childkeys a ++ childkeys b = childkeys node
  /\ (exists le, last (leaf_entries a) = Some le /\ splitk = le_key le)
  /\ n_children a + n_children b = n_children node + 1.
Proof.
  intros Hfit. unfold brtleaf_split. intros Hrun. run_all.
  match goal with
  | Ha : toku_brt_leaf_reset_calc_leaf_stats _ = Ok ?na,
    Hb : toku_brt_leaf_reset_calc_leaf_stats _ = Ok ?nb |- _ =>
      apply toku_brt_leaf_reset_calc_leaf_stats_entries in Ha as (Ea & Ka & La);
      apply toku_brt_leaf_reset_calc_leaf_stats_entries in Hb as (Eb & Kb & Lb)
  end.
  simplify_eq.
  match goal with Hp : BP node ?s = Some ?p, Hb : match bp_ptr_of ?p with _ => _ end = Ok ?bn
    |- _ => rename Hp into Hsplit; rename Hb into Hbn; rename s into sn;
            destruct (bp_ptr_of p) as [|bn0| |] eqn:Hptr; try discriminate;
            injection Hbn as <- end.
  pose proof (BP_in_range _ _ _ Hsplit) as Hr. apply andb_prop in Hr as [Hlo Hhi].
  apply Z.leb_le in Hlo. apply Z.ltb_lt in Hhi. unfold n_children in Hhi.
  apply BP_lookup in Hsplit.
  assert (Hsrc : Z.of_nat (length (bn_buffer bn0)) < 2 ^ 32).
  { eapply (proj1 (Forall_lookup _ _)) in Hfit; [|exact Hsplit].
    unfold partition_entries in Hfit. now rewrite Hptr in Hfit. }
  match goal with Hm : move_leafentries _ _ _ _ = Ok _ |- _ =>
    apply (move_leafentries_all _ _ _ _ _ _ _ Hsrc) in Hm as (Hlbi & -> & ->) end.
  change (leaf_entries (node_set_dirty (node_set_max_msn ?n _) _)) with (leaf_entries n).
  change (n_children (node_set_dirty (node_set_max_msn ?n _) _)) with (n_children n).
  rewrite Ea, Eb. unfold n_children. rewrite La, Lb. clear Ea Eb La Lb.
  unfold leaf_entries. simpl.
  rewrite !map_app, !concat_app. simpl. rewrite app_nil_r.
  unfold partition_entries at 2 3. simpl.
  split; [|split; [|split]].
  - rewrite <- (take_drop_middle (bp node) (Z.to_nat sn) _ Hsplit) at 3.
    rewrite map_app, concat_app. simpl.
    unfold partition_entries at 4. rewrite Hptr.
    rewrite <- !app_assoc. f_equal. rewrite app_assoc, take_drop.
    do 4 f_equal. lia.
  - rewrite Ka, Kb. apply take_drop.
  - match goal with Hf : toku_omt_fetch _ _ = Some ?le |- _ => exists le; split; [|reflexivity];
      rename Hf into Hfetch end.
    unfold toku_omt_fetch, toku_omt_size, u32 in Hfetch.
    rewrite length_take in Hfetch.
    rewrite (Z.mod_small (Z.of_nat _)) in Hfetch by lia.
    rewrite Z.mod_small in Hfetch by lia.
    destruct (Z.ltb_spec (Z.of_nat (Z.to_nat (z0 + 1) `min` length (bn_buffer bn0)) - 1) 0);
      [discriminate|].
    rewrite last_app. unfold partition_entries at 1. simpl.
    rewrite last_lookup, length_take.
    replace (Init.Nat.pred (Z.to_nat (z0 + 1) `min` length (bn_buffer bn0)))
      with (Z.to_nat (Z.of_nat (Z.to_nat (z0 + 1) `min` length (bn_buffer bn0)) - 1)) by lia.
    now rewrite Hfetch.
  - rewrite length_app, length_take. simpl. rewrite length_drop. lia.
Qed.

Lemma removelast_last_eq {A} (l : list A) (x : A) :
  last l = Some x -> l = removelast l ++ [x].
Proof.
  induction l as [|y l IH]; [discriminate|]. destruct l as [|z l].
  - simpl. now intros [= ->].
  - intros Hl. change (removelast (y :: z :: l)) with (y :: removelast (z :: l)).
    simpl. f_equal. now apply IH.
Qed.

Lemma omt_sizes_fit_lookup node i p :
  omt_sizes_fit node -> bp node !! i = Some p ->
  Z.of_nat (length (partition_entries p)) < 2 ^ 32.
Proof. intros Hfit Hp. exact (proj1 (Forall_lookup _ _) Hfit i p Hp). Qed.

Lemma merge_leaf_nodes_entries a b a' b' :
  omt_sizes_fit a -> omt_sizes_fit b ->
  merge_leaf_nodes a b = Ok (a', b') ->
  leaf_entries a' = leaf_entries a ++ leaf_entries b
  /\ bp b' = [] /\ omt_sizes_fit a'.
Proof.
  intros Fa Fb. unfold merge_leaf_nodes. intros Hrun. run_all.
  match goal with Hl : BLB a _ = Some ?bn |- _ => rename Hl into Hlast; rename bn into last_bn end.
  assert (Hp : exists p, bp a !! Z.to_nat (n_children a - 1) = Some p
                         /\ partition_entries p = bn_buffer last_bn).
  { unfold BLB in Hlast. destruct (BP a (n_children a - 1)) as [p|] eqn:Hp; [|discriminate].
    simpl in Hlast. exists p. split; [now apply BP_lookup|].
    unfold partition_entries. destruct (bp_ptr_of p); try discriminate. now injection Hlast as ->. }
  destruct Hp as (p & Hp & Hpe).
  assert (Hsplit : bp a = removelast (bp a) ++ [p]).
  { apply removelast_last_eq. rewrite last_lookup. unfold n_children in Hp.
    now replace (Init.Nat.pred (length (bp a)))
      with (Z.to_nat (Z.of_nat (length (bp a)) - 1)) by lia. }
  pose proof (omt_sizes_fit_lookup _ _ _ Fa Hp) as Hfit. rewrite Hpe in Hfit.
  match goal with Ht : (if negb (toku_omt_size (bn_buffer last_bn) =? 0) then _ else _) = Ok _
    |- _ => rename Ht into Htail end.
  simplify_eq. split; [|split; [reflexivity|]].
  - change (leaf_entries (node_set_dirty (node_set_childkeys ?n _ _) _)) with (leaf_entries n).
    unfold leaf_entries. simpl. rewrite map_app, concat_app. f_equal.
    destruct (negb (toku_omt_size (bn_buffer last_bn) =? 0)) eqn:E; [reflexivity|].
    apply negb_false_iff, Z.eqb_eq in E. unfold toku_omt_size, u32 in E.
    rewrite Z.mod_small in E by lia.
    rewrite Hsplit at 2. rewrite map_app, concat_app. simpl. rewrite Hpe.
    destruct (bn_buffer last_bn); [now rewrite !app_nil_r | simpl in E; lia].
  - unfold omt_sizes_fit in *. simpl. apply Forall_app. split; [|exact Fb].
    destruct (negb _); [exact Fa|]. rewrite Hsplit in Fa. now apply Forall_app in Fa as [Fa' _].
Qed.

End LeafShapeFacts.

(** X8: a leaf split loses nothing and keeps the order: the entries of
    the two halves, read left to right, are the entries of the leaf
    that was split, and so are the pivots; the left half is not empty
    and the pivot handed up is the key of its last entry; the halves
    have one basement more than the leaf had.  (An OMT holds fewer
    than 2^32 entries.) *)
Theorem brtleaf_split_keeps_entries `{Collaborators} (t : option BRT) (node nodeb : BRTNODE)
    (create_new_node : bool) (t' : option BRT) (a b : BRTNODE) (splitk : DBT) :
  omt_sizes_fit node ->
  brtleaf_split t node nodeb create_new_node = Ok (t', a, b, splitk) ->
  leaf_entries a ++ leaf_entries b = leaf_entries node
  /\ childkeys a ++ childkeys b = childkeys node
  /\ (exists le, last (leaf_entries a) = Some le /\ splitk = le_key le)
  /\ n_children a + n_children b = n_children node + 1.
Proof. apply brtleaf_split_entries. Qed.

Lemma brtleaf_split_keeps_entries_witness :
  leaf_entries (snd (fst (fst SampleRouting.split_halves)))
  ++ leaf_entries (snd (fst SampleRouting.split_halves))
  = leaf_entries SampleNodes.big_dirty_leaf
  /\ childkeys (snd (fst (fst SampleRouting.split_halves)))
     ++ childkeys (snd (fst SampleRouting.split_halves))
     = childkeys SampleNodes.big_dirty_leaf
  /\ (exists le, last (leaf_entries (snd (fst (fst SampleRouting.split_halves)))) = Some le
                 /\ snd SampleRouting.split_halves = le_key le)
  /\ n_children (snd (fst (fst SampleRouting.split_halves)))
     + n_children (snd (fst SampleRouting.split_halves))
     = n_children SampleNodes.big_dirty_leaf + 1.
Proof.
  apply (brtleaf_split_keeps_entries (H := Sample.collaborators) (Some SamplePuts.handle)
           SampleNodes.big_dirty_leaf SampleNodes.big_dirty_leaf true
           (fst (fst (fst SampleRouting.split_halves)))).
  - repeat constructor.
  - vm_compute. reflexivity.
Defined.

(** X9: merging or rebalancing two sibling leaves loses nothing and
    keeps the order: whatever [maybe_merge_pinned_leaf_nodes] decides,
    the entries of the two leaves it hands back, read left to right,
    are the entries of the two leaves it was given.  After a merge the
    right leaf has no basement left and no pivot is handed back; after
    a rebalance the pivot handed back is the key of the last entry of
    the left leaf; when nothing is done the pivot is the parent's.
    (An OMT holds fewer than 2^32 entries.) *)
Theorem maybe_merge_pinned_leaf_nodes_keeps_entries `{Collaborators}
    (parent : BRTNODE) (childnum_of_parent : Z) (a b : BRTNODE) (parent_splitk : DBT)
    (parent' a' b' : BRTNODE) (did_merge did_rebalance : bool) (splitk : option DBT) :
  omt_sizes_fit a -> omt_sizes_fit b ->
  maybe_merge_pinned_leaf_nodes parent childnum_of_parent a b parent_splitk
  = Ok (parent', a', b', did_merge, did_rebalance, splitk) ->
  leaf_entries a' ++ leaf_entries b' = leaf_entries a ++ leaf_entries b
  /\ (did_merge = true -> bp b' = [] /\ splitk = None)
  /\ (did_rebalance = true ->
      exists le, last (leaf_entries a') = Some le /\ splitk = Some (le_key le))
  /\ (did_merge = false -> did_rebalance = false ->
      a' = a /\ b' = b /\ parent' = parent /\ splitk = Some parent_splitk).
Proof.
  intros Fa Fb. unfold maybe_merge_pinned_leaf_nodes, balance_leaf_nodes. intros Hrun.
  repeat case_run; run_all; simplify_eq.
  - repeat split; intros; try discriminate; reflexivity.
  - match goal with Hm : merge_leaf_nodes _ _ = Ok _ |- _ =>
      apply (merge_leaf_nodes_entries _ _ _ _ Fa Fb) in Hm as (Em & _ & Fm) end.
    match goal with Hs : brtleaf_split _ _ _ _ = Ok _ |- _ =>
      apply (brtleaf_split_entries _ _ _ _ _ _ _ _ Fm) in Hs as (Es & _ & (le & Hl & ->) & _) end.
    split; [congruence|]. split; [intros; discriminate|]. split; [eauto|].
    intros; discriminate.
  - match goal with Hm : merge_leaf_nodes _ _ = Ok _ |- _ =>
      apply (merge_leaf_nodes_entries _ _ _ _ Fa Fb) in Hm as (Em & Hb & _) end.
    match goal with Hb : bp ?x = [] |- _ =>
      assert (Eb : leaf_entries x = []) by (unfold leaf_entries; now rewrite Hb) end.
    split; [rewrite Em, Eb; apply app_nil_r|].
    split; [auto|]. split; intros; discriminate.
Qed.

Lemma maybe_merge_pinned_leaf_nodes_keeps_entries_witness :
  leaf_entries (snd (fst (fst (fst (fst SampleMerge.balanced)))))
  ++ leaf_entries (snd (fst (fst (fst SampleMerge.balanced))))
  = leaf_entries SampleMerge.empty_a ++ leaf_entries SampleMerge.full_b
  /\ (snd (fst (fst SampleMerge.balanced)) = true ->
      bp (snd (fst (fst (fst SampleMerge.balanced)))) = []
      /\ snd SampleMerge.balanced = None)
  /\ (snd (fst SampleMerge.balanced) = true ->
      exists le, last (leaf_entries (snd (fst (fst (fst (fst SampleMerge.balanced))))))
                 = Some le
                 /\ snd SampleMerge.balanced = Some (le_key le))
  /\ (snd (fst (fst SampleMerge.balanced)) = false ->
      snd (fst SampleMerge.balanced) = false ->
      snd (fst (fst (fst (fst SampleMerge.balanced)))) = SampleMerge.empty_a
      /\ snd (fst (fst (fst SampleMerge.balanced))) = SampleMerge.full_b
      /\ fst (fst (fst (fst (fst SampleMerge.balanced)))) = SampleMerge.parent_of 100
      /\ snd SampleMerge.balanced = Some "apple").
Proof.
  apply (maybe_merge_pinned_leaf_nodes_keeps_entries (H := Sample.collaborators)
           (SampleMerge.parent_of 100) 0 SampleMerge.empty_a SampleMerge.full_b "apple").
  - repeat constructor.
  - repeat constructor.
  - vm_compute. reflexivity.
Defined.

(** ** The decision to merge or to rebalance two leaf siblings *)



(** ** Splitting a nonleaf node *)

Section NonleafSplitFacts.
Context `{Collaborators}.

Lemma brt_nonleaf_split_shape (t : BRT) (tr : brt_tree)
    (t' : BRT) (a b : brt_tree) (splitk : DBT) :
  length (childkeys (tree_node tr)) = (length (bp (tree_node tr)) - 1)%nat ->
  brt_nonleaf_split t tr = Ok (t', a, b, splitk) ->
  bp (tree_node a) ++ bp (tree_node b) = bp (tree_node tr)
  /\ tree_kids a ++ tree_kids b = tree_kids tr
  /\ childkeys (tree_node a) ++ splitk :: childkeys (tree_node b) = childkeys (tree_node tr)
  /\ n_children (tree_node a) = n_children (tree_node tr) / 2
  /\ thisnodename (tree_node a) = thisnodename (tree_node tr)
  /\ thisnodename (tree_node b) = blocktable_next t
  /\ height (tree_node a) = height (tree_node tr)
  /\ height (tree_node b) = height (tree_node tr)
  /\ max_msn_applied_to_node_in_memory (tree_node a)
     = max_msn_applied_to_node_in_memory (tree_node tr)
  /\ max_msn_applied_to_node_in_memory (tree_node b)
     = max_msn_applied_to_node_in_memory (tree_node tr).
Proof.
  intros Hlen Hrun.
  pose proof (brt_nonleaf_split_heights _ _ _ _ _ _ Hrun) as [Ha Hb].
  pose proof (brt_nonleaf_split_msn _ _ _ _ _ _ Hrun) as [Ma Mb].
  unfold brt_nonleaf_split in Hrun. run_all.
  match goal with Hn : toku_create_new_brtnode _ _ _ = Ok _ |- _ =>
    unfold toku_create_new_brtnode, toku_initialize_empty_brtnode in Hn;
    destruct (toku_allocate_blocknum t) as [t1 name] eqn:Halloc;
    unfold toku_allocate_blocknum in Halloc; injection Halloc as <- <-; run_all end.
  match goal with Hk : childkey _ _ = Some _ |- _ =>
    apply childkey_lookup in Hk as [Hk0 Hk1] end.
  match goal with Hc : (2 <=? _) = true |- _ => apply Z.leb_le in Hc; rename Hc into H2 end.
  simplify_eq. simpl in *. unfold n_children in *.
  set (n := Z.of_nat (length (bp (tree_node tr)))) in *.
  assert (Hdiv : 1 <= n / 2 <= n - 1).
  { split; [apply Z.div_le_lower_bound; lia|].
    assert (n / 2 < n) by (apply Z.div_lt_upper_bound; lia). lia. }
  repeat split; auto.
  - apply take_drop.
  - apply take_drop.
  - rewrite (take_ge (drop _ _)) by (rewrite length_drop; lia).
    rewrite <- (take_drop (Z.to_nat (n / 2)) (childkeys (tree_node tr))) at 3.
    replace (Z.to_nat (n / 2)) with (S (Z.to_nat (n / 2 - 1))) at 2 by lia.
    rewrite (take_S_r _ _ _ Hk1), <- app_assoc. reflexivity.
  - simpl. rewrite length_take. lia.
Qed.

End NonleafSplitFacts.

(** X10: a split of a nonleaf node loses nothing and keeps the order:
    the slots (with their buffers), the subtrees and the pivots of the
    two halves, read left to right with the pivot handed up between
    them, are those of the node that was split.  The left half keeps
    the node's block and the first half of the children, rounded down;
    the right half is a new block; both have the height and the msn of
    the node. *)
Theorem brt_nonleaf_split_keeps_children `{Collaborators} (t : BRT) (tr : brt_tree)
    (t' : BRT) (a b : brt_tree) (splitk : DBT) :
  length (childkeys (tree_node tr)) = (length (bp (tree_node tr)) - 1)%nat ->
  brt_nonleaf_split t tr = Ok (t', a, b, splitk) ->
  bp (tree_node a) ++ bp (tree_node b) = bp (tree_node tr)
  /\ tree_kids a ++ tree_kids b = tree_kids tr
  /\ childkeys (tree_node a) ++ splitk :: childkeys (tree_node b) = childkeys (tree_node tr)
  /\ n_children (tree_node a) = n_children (tree_node tr) / 2
  /\ thisnodename (tree_node a) = thisnodename (tree_node tr)
  /\ thisnodename (tree_node b) = blocktable_next t
  /\ height (tree_node a) = height (tree_node tr)
  /\ height (tree_node b) = height (tree_node tr)
  /\ max_msn_applied_to_node_in_memory (tree_node a)
     = max_msn_applied_to_node_in_memory (tree_node tr)
  /\ max_msn_applied_to_node_in_memory (tree_node b)
     = max_msn_applied_to_node_in_memory (tree_node tr).
Proof. apply brt_nonleaf_split_shape. Qed.

Lemma brt_nonleaf_split_keeps_children_witness :
  let '(_, a, b, splitk) := SampleRouting.wide_halves in
  bp (tree_node a) ++ bp (tree_node b) = bp (tree_node SampleRouting.wide)
  /\ tree_kids a ++ tree_kids b = tree_kids SampleRouting.wide
  /\ childkeys (tree_node a) ++ splitk :: childkeys (tree_node b)
     = childkeys (tree_node SampleRouting.wide)
  /\ n_children (tree_node a) = 1
  /\ splitk = "f"
  /\ thisnodename (tree_node b) = 10.
Proof.
  pose proof (brt_nonleaf_split_keeps_children (H := Sample.collaborators)
                SampleFlush.handle SampleRouting.wide
                (fst (fst (fst SampleRouting.wide_halves)))
                (snd (fst (fst SampleRouting.wide_halves)))
                (snd (fst SampleRouting.wide_halves))
                (snd SampleRouting.wide_halves)
                eq_refl) as W.
  specialize (W ltac:(vm_compute; reflexivity)).
  destruct W as (W1 & W2 & W3 & W4 & _ & W6 & _).
  repeat split; first [exact W1 | exact W2 | exact W3 | exact W4 | exact W6 | reflexivity].
Defined.

(** ** The child that a flush picks *)

Section HeaviestChildFacts.
Context `{Collaborators}.

Lemma BNC_lookup node i ci :
  BNC node i = Some ci ->
  0 <= i /\ exists p, bp node !! Z.to_nat i = Some p /\ bp_ptr_of p = ptr_childinfo ci.
Proof.
  unfold BNC, BP. destruct (Z.ltb_spec i 0); [discriminate|].
  destruct (bp node !! Z.to_nat i) as [p|] eqn:Hp; [|discriminate]. simpl.
  destruct (bp_ptr_of p) eqn:Hptr; try discriminate.
  intros [= ->]. eauto.
Qed.

Lemma BNC_of_lookup node i p ci :
  0 <= i -> bp node !! Z.to_nat i = Some p -> bp_ptr_of p = ptr_childinfo ci ->
  BNC node i = Some ci.
Proof.
  intros Hi Hp Hptr. unfold BNC, BP. rewrite (proj2 (Z.ltb_ge _ _) Hi), Hp. simpl.
  now rewrite Hptr.
Qed.

(** The loop keeps: [max_child] is the first child of the greatest
    weight among the children before [i]. *)
Lemma heaviest_from_spec (all : list brtnode_partition) ps :
  forall i max_child max_weight,
    0 <= max_child < i ->
    drop (Z.to_nat i) all = ps ->
    (Z.to_nat i <= length all)%nat ->
    Forall (fun p => exists ci, bp_ptr_of p = ptr_childinfo ci) ps ->
    (exists p ci, all !! Z.to_nat max_child = Some p /\ bp_ptr_of p = ptr_childinfo ci
                  /\ i32 (bnc_n_bytes_in_buffer ci) = max_weight) ->
    (forall j p ci, 0 <= j < i -> all !! Z.to_nat j = Some p ->
                    bp_ptr_of p = ptr_childinfo ci ->
                    i32 (bnc_n_bytes_in_buffer ci) <= max_weight
                    /\ (j < max_child -> i32 (bnc_n_bytes_in_buffer ci) < max_weight)) ->
    exists c p ci,
      heaviest_from ps i max_child max_weight = Ok c
      /\ 0 <= c < Z.of_nat (length all)
      /\ all !! Z.to_nat c = Some p /\ bp_ptr_of p = ptr_childinfo ci
      /\ forall j q cj, 0 <= j -> all !! Z.to_nat j = Some q ->
                        bp_ptr_of q = ptr_childinfo cj ->
                        i32 (bnc_n_bytes_in_buffer cj) <= i32 (bnc_n_bytes_in_buffer ci)
                        /\ (j < c -> i32 (bnc_n_bytes_in_buffer cj)
                                     < i32 (bnc_n_bytes_in_buffer ci)).
Proof.
  induction ps as [|p ps IH]; intros i mc mw Hmc Hdrop Hlen Hall (pm & cm & Hpm & Hcm & Hw) Hmax.
  - simpl. exists mc, pm, cm. split; [reflexivity|].
    assert (length all = Z.to_nat i).
    { apply (f_equal length) in Hdrop. rewrite length_drop in Hdrop. simpl in Hdrop. lia. }
    split; [lia|]. split; [exact Hpm|]. split; [exact Hcm|].
    intros j q cj Hj Hq Hcj. rewrite Hw. apply (Hmax j q cj); auto.
    apply lookup_lt_Some in Hq. lia.
  - apply Forall_cons in Hall as [[ci Hci] Hrest].
    assert (Hp : all !! Z.to_nat i = Some p).
    { rewrite <- (Nat.add_0_r (Z.to_nat i)), <- lookup_drop, Hdrop. reflexivity. }
    assert (Hdrop' : drop (Z.to_nat (i + 1)) all = ps).
    { replace (Z.to_nat (i + 1)) with (S (Z.to_nat i)) by lia.
      rewrite <- (drop_drop all 1 (Z.to_nat i)) || idtac.
      erewrite drop_S in Hdrop by exact Hp. now injection Hdrop. }
    assert (Hlen' : (Z.to_nat (i + 1) <= length all)%nat).
    { apply lookup_lt_Some in Hp. lia. }
    simpl. rewrite Hci.
    destruct (Z.ltb_spec mw (i32 (bnc_n_bytes_in_buffer ci))) as [Hlt|Hge].
    + apply IH; auto; [lia| |].
      * exists p, ci. auto.
      * intros j q cj Hj Hq Hcj.
        destruct (Z.eq_dec j i) as [->|Hne].
        -- rewrite Hp in Hq. injection Hq as <-. rewrite Hci in Hcj. injection Hcj as <-.
           split; [lia|lia].
        -- destruct (Hmax j q cj) as [Hle _]; auto; [lia|]. split; [lia|lia].
    + apply IH; auto; [lia| |].
      * exists pm, cm. auto.
      * intros j q cj Hj Hq Hcj.
        destruct (Z.eq_dec j i) as [->|Hne].
        -- rewrite Hp in Hq. injection Hq as <-. rewrite Hci in Hcj. injection Hcj as <-.
           split; [lia|lia].
        -- apply (Hmax j q cj); auto. lia.
Qed.

Lemma find_heaviest_child_spec node :
  (0 < length (bp node))%nat ->
  Forall (fun p => exists ci, bp_ptr_of p = ptr_childinfo ci) (bp node) ->
  exists c ci,
    find_heaviest_child node = Ok c
    /\ 0 <= c < n_children node
    /\ BNC node c = Some ci
    /\ forall j cj, BNC node j = Some cj ->
         i32 (bnc_n_bytes_in_buffer cj) <= i32 (bnc_n_bytes_in_buffer ci)
         /\ (j < c -> i32 (bnc_n_bytes_in_buffer cj) < i32 (bnc_n_bytes_in_buffer ci)).
Proof.
  intros Hpos Hall. unfold find_heaviest_child, n_children.
  destruct (bp node) as [|p ps] eqn:Hbp; [simpl in Hpos; lia|].
  apply Forall_cons in Hall as [[ci Hci] Hrest]. rewrite Hci.
  destruct (heaviest_from_spec (p :: ps) ps 1 0 (i32 (bnc_n_bytes_in_buffer ci)))
    as (c & pc & cc & Hrun & Hc & Hpc & Hcc & Hmax); auto.
  - lia.
  - exists p, ci. auto.
  - intros j q cj Hj Hq Hcj. assert (j = 0) as -> by lia.
    simpl in Hq. injection Hq as <-. rewrite Hci in Hcj. injection Hcj as <-. lia.
  - exists c, cc. split; [exact Hrun|]. split; [exact Hc|].
    split; [apply (BNC_of_lookup _ _ pc); [lia|now rewrite Hbp|exact Hcc]|].
    intros j cj Hj. apply BNC_lookup in Hj as (Hj0 & q & Hq & Hcj).
    rewrite Hbp in Hq. eauto.
Qed.

Lemma slots_childinfo node :
  (forall i, 0 <= i < n_children node -> exists ci, BNC node i = Some ci) ->
  Forall (fun p => exists ci, bp_ptr_of p = ptr_childinfo ci) (bp node).
Proof.
  intros Hall. apply Forall_lookup_2. intros i p Hp.
  destruct (Hall (Z.of_nat i)) as [ci Hci].
  { unfold n_children. apply lookup_lt_Some in Hp. lia. }
  apply BNC_lookup in Hci as (_ & q & Hq & Hptr).
  rewrite Nat2Z.id, Hp in Hq. injection Hq as <-. eauto.
Qed.

End HeaviestChildFacts.

(** X11: on a node that has a child, with a buffer in every slot,
    [find_heaviest_child] returns a child in range whose byte count,
    read as a signed 32-bit integer, is the greatest of the node, and
    the first such child: the children before it are strictly lighter. *)
Theorem find_heaviest_child_is_first_heaviest `{Collaborators} (node : BRTNODE) :
  0 < n_children node ->
  (forall i, 0 <= i < n_children node -> exists ci, BNC node i = Some ci) ->
  exists c w,
    find_heaviest_child node = Ok c
    /\ 0 <= c < n_children node
    /\ BNC_NBYTESINBUF node c = Some w
    /\ forall j wj, BNC_NBYTESINBUF node j = Some wj ->
         i32 wj <= i32 w /\ (j < c -> i32 wj < i32 w).
Proof.
  intros Hpos Hall.
  destruct (find_heaviest_child_spec node) as (c & ci & Hrun & Hc & Hci & Hmax).
  { unfold n_children in Hpos. lia. }
  { now apply slots_childinfo. }
  exists c, (bnc_n_bytes_in_buffer ci). split; [exact Hrun|]. split; [exact Hc|].
  split; [unfold BNC_NBYTESINBUF; now rewrite Hci|].
  intros j wj Hj. unfold BNC_NBYTESINBUF in Hj.
  destruct (BNC node j) as [cj|] eqn:Hcj; [|discriminate]. injection Hj as <-.
  now apply Hmax.
Qed.

Lemma find_heaviest_child_is_first_heaviest_witness :
  exists c w,
    find_heaviest_child (tree_node SampleRouting.wide) = Ok c
    /\ 0 <= c < 3
    /\ BNC_NBYTESINBUF (tree_node SampleRouting.wide) c = Some w
    /\ forall j wj, BNC_NBYTESINBUF (tree_node SampleRouting.wide) j = Some wj ->
         i32 wj <= i32 w /\ (j < c -> i32 wj < i32 w).
Proof.
  apply (find_heaviest_child_is_first_heaviest (H := Sample.collaborators)
           (tree_node SampleRouting.wide)).
  - reflexivity.
  - intros i Hi. change (n_children (tree_node SampleRouting.wide)) with 3 in Hi.
    assert (i = 0 \/ i = 1 \/ i = 2) as [->|[->| ->]] by lia; eexists; reflexivity.
Defined.

Section GorgedFacts.
Context `{Collaborators}.

Lemma nonleaf_node_is_gorged_true node :
  nonleaf_node_is_gorged node = Ok true ->
  0 < n_children node
  /\ (forall i, 0 <= i < n_children node -> exists ci, BNC node i = Some ci)
  /\ exists i ci, BNC node i = Some ci /\ 0 < bnc_n_bytes_in_buffer ci.
Proof.
  unfold nonleaf_node_is_gorged. intros Hrun. run_all.
  match goal with Hs : ?f (bp node) = Ok ?cs |- _ =>
    assert (Hgen : forall ps cis, f ps = Ok cis -> bp_ptr_of <$> ps = ptr_childinfo <$> cis);
    [|apply Hgen in Hs; rename Hs into Hptrs; rename cs into cis] end.
  { induction ps as [|p ps IH]; intros cis Hps.
    - injection Hps as <-. reflexivity.
    - destruct (bp_ptr_of p) eqn:Hp; try discriminate. run_all.
      injection Hps as <-. simpl. rewrite Hp. f_equal. apply IH. assumption. }
  match goal with Hq : Ok _ = Ok true |- _ => injection Hq as Hg end.
  apply andb_prop in Hg as [_ Hne]. apply negb_true_iff in Hne.
  apply (proj1 (not_true_iff_false _)) in Hne || idtac.
  assert (Hex : exists i ci, cis !! i = Some ci /\ 0 < bnc_n_bytes_in_buffer ci).
  { destruct (forallb (fun ci => negb (0 <? bnc_n_bytes_in_buffer ci)) cis) eqn:Hall;
      [discriminate|].
    clear -Hall. induction cis as [|ci cis IH]; [discriminate|]. simpl in Hall.
    destruct (Z.ltb_spec 0 (bnc_n_bytes_in_buffer ci)).
    - exists 0%nat, ci. split; [reflexivity|assumption].
    - destruct (IH Hall) as (i & cj & Hin & Hpos). exists (S i), cj. split; assumption. }
  assert (Hslot : forall i ci, cis !! i = Some ci -> BNC node (Z.of_nat i) = Some ci).
  { intros i ci Hi.
    assert (Hp : (bp_ptr_of <$> bp node) !! i = Some (ptr_childinfo ci))
      by (rewrite Hptrs, list_lookup_fmap, Hi; reflexivity).
    rewrite list_lookup_fmap in Hp.
    destruct (bp node !! i) as [p|] eqn:Hpi; [|discriminate]. injection Hp as Hp.
    apply (BNC_of_lookup _ _ p); [lia|now rewrite Nat2Z.id|exact Hp]. }
  assert (Hlen : length cis = length (bp node)).
  { apply (f_equal length) in Hptrs. now rewrite !length_fmap in Hptrs. }
  destruct Hex as (i & ci & Hi & Hpos).
  split; [|split].
  - unfold n_children. apply lookup_lt_Some in Hi. lia.
  - intros j Hj. unfold n_children in Hj.
    destruct (lookup_lt_is_Some_2 cis (Z.to_nat j)) as [cj Hcj]; [lia|].
    exists cj. apply Hslot in Hcj. now rewrite Z2Nat.id in Hcj by lia.
  - exists (Z.of_nat i), ci. auto.
Qed.

End GorgedFacts.

(** X12: the assertion of [flush_some_child] on a gorged node.  When
    [nonleaf_node_is_gorged] answers true and every buffer's byte count
    is the 32-bit sum of its messages' sizes and is below 2^31, the
    child that [find_heaviest_child] picks has a message in its buffer. *)
Theorem flush_some_child_picks_nonempty_buffer `{Collaborators} (node : BRTNODE) :
  nonleaf_node_is_gorged node = Ok true ->
  (forall i ci, BNC node i = Some ci ->
     bnc_bytes_consistent ci /\ bnc_n_bytes_in_buffer ci < 2 ^ 31) ->
  exists c fifo,
    find_heaviest_child node = Ok c
    /\ BNC_BUFFER node c = Some fifo
    /\ (0 < length fifo)%nat.
Proof.
  intros Hgorged Hok.
  apply nonleaf_node_is_gorged_true in Hgorged as (Hn & Hall & i & ci & Hci & Hpos).
  destruct (find_heaviest_child_spec node) as (c & cc & Hrun & Hc & Hcc & Hmax).
  { unfold n_children in Hn. lia. }
  { now apply slots_childinfo. }
  exists c, (bnc_buffer cc). split; [exact Hrun|].
  split; [unfold BNC_BUFFER; now rewrite Hcc|].
  destruct (Hmax i ci Hci) as [Hle _].
  destruct (Hok i ci Hci) as [_ Hsmall]. destruct (Hok c cc Hcc) as [Hcons Hsmall'].
  assert (Hi : i32 (bnc_n_bytes_in_buffer ci) = bnc_n_bytes_in_buffer ci).
  { unfold i32. rewrite Z.mod_small by lia. lia. }
  destruct (bnc_buffer cc) eqn:Hbuf; [|simpl; lia].
  unfold bnc_bytes_consistent in Hcons. rewrite Hbuf in Hcons. simpl in Hcons.
  rewrite Hcons in Hle. change (i32 (u32 0)) with 0 in Hle. lia.
Qed.

Lemma flush_some_child_picks_nonempty_buffer_witness :
  exists c fifo,
    find_heaviest_child SampleRouting.crowded = Ok c
    /\ BNC_BUFFER SampleRouting.crowded c = Some fifo
    /\ (0 < length fifo)%nat.
Proof.
  apply (flush_some_child_picks_nonempty_buffer (H := Sample.collaborators)
           SampleRouting.crowded).
  - vm_compute. reflexivity.
  - intros i ci Hci.
    apply BNC_lookup in Hci as (Hi & p & Hp & Hptr).
    pose proof (lookup_lt_Some _ _ _ Hp) as Hlt.
    change (length (bp SampleRouting.crowded)) with 3%nat in Hlt.
    assert (i = 0 \/ i = 1 \/ i = 2) as [->|[->| ->]] by lia;
      injection Hp as <-; injection Hptr as <-;
      (split; [vm_compute; reflexivity|reflexivity]).
Defined.

(** ** Splitting a child below its parent *)

Section SplitChildFacts.
Context `{Collaborators}.

Lemma buffers_kept_blocknums n n' :
  buffers_kept n n' -> bp_blocknum <$> bp n' = bp_blocknum <$> bp n.
Proof. now intros (_ & _ & Hb). Qed.

Lemma handle_split_of_child_shape node childnum childa childb splitk node' :
  handle_split_of_child node childnum childa childb splitk = Ok node' ->
  0 <= childnum < n_children node
  /\ childkeys node'
     = take (Z.to_nat childnum) (childkeys node) ++ splitk
       :: drop (Z.to_nat childnum) (childkeys node)
  /\ bp_blocknum <$> bp node'
     = take (Z.to_nat (childnum + 1)) (bp_blocknum <$> bp node) ++ thisnodename childb
       :: drop (Z.to_nat (childnum + 1)) (bp_blocknum <$> bp node)
  /\ (bp_blocknum <$> bp node) !! Z.to_nat childnum = Some (thisnodename childa)
  /\ (exists w, BNC_NBYTESINBUF node childnum = Some w /\ i32 w = 0)
  /\ dirty node' = true.
Proof.
  unfold handle_split_of_child. intros Hrun. run_all.
  match goal with Hr : (0 <=? childnum) && _ = true |- _ =>
    apply andb_prop in Hr as [Hlo Hhi]; apply Z.leb_le in Hlo; apply Z.ltb_lt in Hhi end.
  split; [lia|].
  repeat match goal with Hf : fixup_child_estimates _ _ _ _ = Ok ?n |- _ =>
    let B := fresh "B" in let E := fresh "E" in
    pose proof (fixup_child_estimates_buffers_kept _ _ _ _ _ _ Hf (buffers_kept_refl _)) as B;
    apply fixup_child_estimates_Ok in Hf as (? & E & ->) end.
  simplify_eq. simpl.
  apply estimates_only_childkeys in E0 as K0. apply estimates_only_childkeys in E as K.
  simpl in K0, K. rewrite K, K0.
  apply buffers_kept_blocknums in B, B0. simpl in B, B0.
  rewrite B, B0, fmap_app, fmap_cons, fmap_take, fmap_drop. simpl.
  match goal with Hp : BP (node_set_dirty node true) childnum = Some ?p |- _ =>
    apply BP_lookup in Hp; simpl in Hp end.
  match goal with Hb : (bp_blocknum _ =? _) = true |- _ => apply Z.eqb_eq in Hb end.
  match goal with Hz : (i32 _ =? 0) = true |- _ => apply Z.eqb_eq in Hz end.
  repeat split; auto.
  - rewrite list_lookup_fmap. 
    match goal with Hp : bp node !! _ = Some _ |- _ => rewrite Hp end. simpl. congruence.
  - eauto.
Qed.

End SplitChildFacts.

(** X13: a split of child [childnum] gives the parent one more child.
    The two halves take the place of the child among the subtrees, the
    pivot between them goes in front of the pivots from [childnum] on,
    and a slot with an empty buffer, under the block number of the right
    half, goes behind slot [childnum]; the slot of the left half keeps
    its block number, every other slot its buffer, state and block
    number, and the node its header. *)
Theorem brt_split_child_inserts_sibling `{Collaborators} (t : BRT) (tr : brt_tree)
    (childnum : Z) (t' : BRT) (tr' : brt_tree) :
  brt_split_child t tr childnum = Ok (t', tr') ->
  0 <= childnum < n_children (tree_node tr)
  /\ exists a b splitk,
       tree_kids tr'
       = take (Z.to_nat childnum) (tree_kids tr) ++ a :: b
         :: drop (Z.to_nat (childnum + 1)) (tree_kids tr)
       /\ childkeys (tree_node tr')
          = take (Z.to_nat childnum) (childkeys (tree_node tr)) ++ splitk
            :: drop (Z.to_nat childnum) (childkeys (tree_node tr))
       /\ slots (tree_node tr')
          = take (Z.to_nat (childnum + 1)) (slots (tree_node tr))
            ++ (PT_AVAIL, ptr_childinfo empty_childinfo)
            :: drop (Z.to_nat (childnum + 1)) (slots (tree_node tr))
       /\ bp_blocknum <$> bp (tree_node tr')
          = take (Z.to_nat (childnum + 1)) (bp_blocknum <$> bp (tree_node tr))
            ++ thisnodename (tree_node b)
            :: drop (Z.to_nat (childnum + 1)) (bp_blocknum <$> bp (tree_node tr))
       /\ (bp_blocknum <$> bp (tree_node tr)) !! Z.to_nat childnum
          = Some (thisnodename (tree_node a))
       /\ node_frame (tree_node tr) (tree_node tr').
Proof.
  unfold brt_split_child. intros Hrun. run_all.
  match goal with Hc : compute_child_fullhash _ _ = Ok (?n, _) |- _ =>
    pose proof (compute_child_fullhash_slots _ _ _ _ Hc) as Sh;
    apply compute_child_fullhash_frames in Hc as (Fh & Bh & _ & Kh);
    set (hashed := n) in * end.
  match goal with Hs : handle_split_of_child _ _ _ _ _ = Ok _ |- _ =>
    pose proof (handle_split_of_child_frame _ _ _ _ _ _ Hs) as Fs;
    pose proof (handle_split_of_child_slots _ _ _ _ _ _ Hs) as (_ & Ss);
    apply handle_split_of_child_shape in Hs as (Hc & Ks & Ns & Na & _) end.
  apply buffers_kept_blocknums in Bh.
  split.
  { unfold n_children in *.
    assert (Hl : length (bp_blocknum <$> bp hashed)
                 = length (bp_blocknum <$> bp (tree_node tr))) by now rewrite Bh.
    rewrite !length_fmap in Hl. lia. }
  simplify_eq. simpl.
  eexists _, _, _. split; [reflexivity|].
  rewrite Ks, Ss, Ns, Kh, Sh, <- Bh.
  repeat split; auto; try (eapply node_frame_trans; eassumption).
Qed.

Lemma brt_split_child_inserts_sibling_witness :
  length (tree_kids (snd SampleRouting.tight_split)) = 2%nat
  /\ childkeys (tree_node (snd SampleRouting.tight_split)) = [ "apple" ]
  /\ bp_blocknum <$> bp (tree_node (snd SampleRouting.tight_split)) = [ 7; 10 ]
  /\ slots (tree_node (snd SampleRouting.tight_split))
     = [ (PT_AVAIL, ptr_childinfo empty_childinfo);
         (PT_AVAIL, ptr_childinfo empty_childinfo) ].
Proof.
  destruct (brt_split_child_inserts_sibling (H := Sample.collaborators)
              SampleFlush.handle SampleRouting.tight 0
              (fst SampleRouting.tight_split) (snd SampleRouting.tight_split))
    as (_ & a & b & splitk & Hk & Hp & Hs & Hn & _).
  { vm_compute. reflexivity. }
  rewrite Hk, Hs. repeat split; vm_compute; reflexivity.
Defined.

(** ** Merging two nonleaf siblings *)

Section MergeNonleafFacts.
Context `{Collaborators}.

Lemma maybe_merge_pinned_nodes_nonleaf parent childnum k a b parent' a' b' dm dr k' :
  0 < height a ->
  length (childkeys a) = (length (bp a) - 1)%nat ->
  length (childkeys b) = (length (bp b) - 1)%nat ->
  maybe_merge_pinned_nodes parent childnum k a b = Ok (parent', a', b', dm, dr, k') ->
  dm = true /\ dr = false /\ k' = None
  /\ bp a' = bp a ++ bp b
  /\ childkeys a' = childkeys a ++ k :: childkeys b
  /\ totalchildkeylens a'
     = u32 (totalchildkeylens a + u32 (totalchildkeylens b + toku_brt_pivot_key_len k))
  /\ bp b' = []
  /\ max_msn_applied_to_node_in_memory a'
     = Z.max (max_msn_applied_to_node_in_memory a) (max_msn_applied_to_node_in_memory b)
  /\ max_msn_applied_to_node_in_memory a' <= max_msn_applied_to_node_in_memory parent
  /\ height a' = height a /\ thisnodename a' = thisnodename a
  /\ dirty a' = true /\ dirty b' = true /\ dirty parent' = true.
Proof.
  intros Hpos Hka Hkb. unfold maybe_merge_pinned_nodes. intros Hrun. run_all.
  match goal with Hc : negb (0 <? height a) || _ = true |- _ => rename Hc into Hcheck end.
  match goal with Hm : (if height a =? 0 then _ else _) = Ok _ |- _ => rename Hm into Hmerge end.
  rewrite (proj2 (Z.eqb_neq _ _)) in Hmerge by lia.
  rewrite (proj2 (Z.ltb_lt _ _) Hpos) in Hcheck. simpl in Hcheck. apply Z.leb_le in Hcheck.
  unfold maybe_merge_pinned_nonleaf_nodes in Hmerge. run_all.
  match goal with Hf : fixup_child_estimates _ _ _ _ = Ok _ |- _ =>
    apply fixup_child_estimates_Ok in Hf as (p1 & _ & Hd) end.
  inversion Hmerge; subst; clear Hmerge. simpl in Hrun.
  inversion Hrun; subst; clear Hrun. simpl.
  unfold n_children.
  rewrite !take_ge by lia.
  repeat split; auto.
  destruct (Z.ltb_spec (max_msn_applied_to_node_in_memory b)
                       (max_msn_applied_to_node_in_memory a)); lia.
Qed.

End MergeNonleafFacts.

(** X14: two nonleaf siblings are always merged, whatever their sizes:
    the left one takes the slots of both, in order, and the pivots of
    both with the parent's pivot between them; the right one is left
    without children; the merged node carries the greater of the two
    MSNs, which is at most the parent's. *)
Theorem maybe_merge_pinned_nodes_merges_nonleaf `{Collaborators}
    (parent : BRTNODE) (childnum : Z) (k : DBT) (a b : BRTNODE)
    (parent' a' b' : BRTNODE) (dm dr : bool) (k' : option DBT) :
  0 < height a ->
  length (childkeys a) = (length (bp a) - 1)%nat ->
  length (childkeys b) = (length (bp b) - 1)%nat ->
  maybe_merge_pinned_nodes parent childnum k a b = Ok (parent', a', b', dm, dr, k') ->
  dm = true /\ dr = false /\ k' = None
  /\ bp a' = bp a ++ bp b
  /\ childkeys a' = childkeys a ++ k :: childkeys b
  /\ bp b' = []
  /\ max_msn_applied_to_node_in_memory a'
     = Z.max (max_msn_applied_to_node_in_memory a) (max_msn_applied_to_node_in_memory b)
  /\ max_msn_applied_to_node_in_memory a' <= max_msn_applied_to_node_in_memory parent.
Proof.
  intros Hpos Hka Hkb Hrun.
  destruct (maybe_merge_pinned_nodes_nonleaf _ _ _ _ _ _ _ _ _ _ _ Hpos Hka Hkb Hrun)
    as (? & ? & ? & ? & ? & _ & ? & ? & ? & _).
  auto 10.
Qed.

Lemma maybe_merge_pinned_nodes_merges_nonleaf_witness :
  let '(_, a', b', dm, dr, k') := SampleRouting.wide_merged in
  dm = true /\ dr = false /\ k' = None
  /\ bp a' = bp SampleRouting.wide_left ++ bp SampleRouting.wide_right
  /\ childkeys a' = [ "f"; "m" ]
  /\ bp b' = []
  /\ max_msn_applied_to_node_in_memory a' = 5.
Proof.
  pose proof (maybe_merge_pinned_nodes_merges_nonleaf (H := Sample.collaborators)
                SampleRouting.wide_parent 0 "f"
                SampleRouting.wide_left SampleRouting.wide_right
                (fst (fst (fst (fst (fst SampleRouting.wide_merged)))))
                (snd (fst (fst (fst (fst SampleRouting.wide_merged)))))
                (snd (fst (fst (fst SampleRouting.wide_merged))))
                (snd (fst (fst SampleRouting.wide_merged)))
                (snd (fst SampleRouting.wide_merged))
                (snd SampleRouting.wide_merged)
                ltac:(reflexivity) eq_refl eq_refl) as W.
  specialize (W ltac:(vm_compute; reflexivity)).
  destruct W as (W1 & W2 & W3 & W4 & W5 & W6 & W7 & _).
  repeat split; first [exact W1 | exact W2 | exact W3 | exact W4 | exact W5 | exact W6
                      | exact W7].
Defined.

Section SplitMergeFacts.
Context `{Collaborators}.

Lemma brt_nonleaf_split_totals t tr t' a b splitk :
  brt_nonleaf_split t tr = Ok (t', a, b, splitk) ->
  u32 (totalchildkeylens (tree_node a)
       + u32 (totalchildkeylens (tree_node b) + toku_brt_pivot_key_len splitk))
  = u32 (totalchildkeylens (tree_node tr)).
Proof.
  intros Hrun. unfold brt_nonleaf_split in Hrun. run_all.
  match goal with Hn : toku_create_new_brtnode _ _ _ = Ok _ |- _ =>
    unfold toku_create_new_brtnode, toku_initialize_empty_brtnode in Hn;
    destruct (toku_allocate_blocknum t) as [t1 name] eqn:Halloc;
    unfold toku_allocate_blocknum in Halloc; injection Halloc as <- <-; run_all end.
  simplify_eq. simpl.
  match goal with |- context [fold_left ?f ?l 0] => generalize (fold_left f l 0) end.
  intros m. generalize (toku_brt_pivot_key_len splitk) (totalchildkeylens (tree_node tr)).
  intros l total. unfold u32.
  rewrite <- Zplus_mod.
  replace ((total - m) mod 2 ^ 32 - l + ((0 + m) mod 2 ^ 32 + l))
    with ((total - m) mod 2 ^ 32 + (0 + m) mod 2 ^ 32) by ring.
  rewrite <- Zplus_mod. f_equal. ring.
Qed.

Lemma brt_nonleaf_split_pivot_counts t tr t' a b splitk :
  length (childkeys (tree_node tr)) = (length (bp (tree_node tr)) - 1)%nat ->
  brt_nonleaf_split t tr = Ok (t', a, b, splitk) ->
  0 < height (tree_node a)
  /\ length (childkeys (tree_node a)) = (length (bp (tree_node a)) - 1)%nat
  /\ length (childkeys (tree_node b)) = (length (bp (tree_node b)) - 1)%nat.
Proof.
  intros Hlen Hrun. unfold brt_nonleaf_split in Hrun. run_all.
  match goal with Hn : toku_create_new_brtnode _ _ _ = Ok _ |- _ =>
    unfold toku_create_new_brtnode, toku_initialize_empty_brtnode in Hn;
    destruct (toku_allocate_blocknum t) as [t1 name] eqn:Halloc;
    unfold toku_allocate_blocknum in Halloc; injection Halloc as <- <-; run_all end.
  match goal with Hc : (2 <=? _) = true |- _ => apply Z.leb_le in Hc; rename Hc into H2 end.
  match goal with Hc : (0 <? height (tree_node tr)) = true |- _ => apply Z.ltb_lt in Hc end.
  simplify_eq. simpl in *. unfold n_children in *.
  set (n := Z.of_nat (length (bp (tree_node tr)))) in *.
  assert (Hdiv : 1 <= n / 2 <= n - 1).
  { split; [apply Z.div_le_lower_bound; lia|].
    assert (n / 2 < n) by (apply Z.div_lt_upper_bound; lia). lia. }
  split; [assumption|].
  rewrite !length_take, !length_drop. lia.
Qed.

End SplitMergeFacts.

(** X15: a nonleaf split undone by a merge.  When the two halves of a
    split are merged again around the pivot that the split handed up,
    the merged node has the slots, the pivots, the 32-bit total of the
    pivot lengths, the height, the block number and the MSN of the node
    that was split, and the subtrees of the halves are its subtrees. *)
Theorem brt_nonleaf_split_then_merge `{Collaborators} (t : BRT) (tr : brt_tree)
    (t' : BRT) (a b : brt_tree) (splitk : DBT) (parent : BRTNODE) (childnum : Z)
    (parent' a' b' : BRTNODE) (dm dr : bool) (k' : option DBT) :
  length (childkeys (tree_node tr)) = (length (bp (tree_node tr)) - 1)%nat ->
  brt_nonleaf_split t tr = Ok (t', a, b, splitk) ->
  maybe_merge_pinned_nodes parent childnum splitk (tree_node a) (tree_node b)
    = Ok (parent', a', b', dm, dr, k') ->
  bp a' = bp (tree_node tr)
  /\ childkeys a' = childkeys (tree_node tr)
  /\ totalchildkeylens a' = u32 (totalchildkeylens (tree_node tr))
  /\ tree_kids a ++ tree_kids b = tree_kids tr
  /\ height a' = height (tree_node tr)
  /\ thisnodename a' = thisnodename (tree_node tr)
  /\ max_msn_applied_to_node_in_memory a'
     = max_msn_applied_to_node_in_memory (tree_node tr)
  /\ bp b' = [].
Proof.
  intros Hlen Hsplit Hmerge.
  pose proof (brt_nonleaf_split_totals _ _ _ _ _ _ Hsplit) as Ht.
  destruct (brt_nonleaf_split_pivot_counts _ _ _ _ _ _ Hlen Hsplit) as (Hpos & Hka & Hkb).
  destruct (brt_nonleaf_split_shape _ _ _ _ _ _ Hlen Hsplit)
    as (Hbp & Hkids & Hkeys & _ & Hname & _ & Hha & _ & Hma & Hmb).
  destruct (maybe_merge_pinned_nodes_nonleaf _ _ _ _ _ _ _ _ _ _ _ Hpos Hka Hkb Hmerge)
    as (_ & _ & _ & Hbp' & Hkeys' & Htot & Hb' & Hmsn & _ & Hh & Hn & _).
  rewrite Hbp', Hkeys', Htot, Hmsn, Hh, Hn. repeat split; auto; lia.
Qed.

Lemma brt_nonleaf_split_then_merge_witness :
  let '(_, a', _, _, _, _) := SampleRouting.wide_merged in
  bp a' = bp (tree_node SampleRouting.wide)
  /\ childkeys a' = childkeys (tree_node SampleRouting.wide)
  /\ totalchildkeylens a' = 2
  /\ thisnodename a' = 2.
Proof.
  pose proof (brt_nonleaf_split_then_merge (H := Sample.collaborators)
                SampleFlush.handle SampleRouting.wide
                (fst (fst (fst SampleRouting.wide_halves)))
                (snd (fst (fst SampleRouting.wide_halves)))
                (snd (fst SampleRouting.wide_halves))
                (snd SampleRouting.wide_halves)
                SampleRouting.wide_parent 0
                (fst (fst (fst (fst (fst SampleRouting.wide_merged)))))
                (snd (fst (fst (fst (fst SampleRouting.wide_merged)))))
                (snd (fst (fst (fst SampleRouting.wide_merged))))
                (snd (fst (fst SampleRouting.wide_merged)))
                (snd (fst SampleRouting.wide_merged))
                (snd SampleRouting.wide_merged)
                eq_refl) as W.
  specialize (W ltac:(vm_compute; reflexivity) ltac:(vm_compute; reflexivity)).
  destruct W as (W1 & W2 & W3 & _ & _ & W6 & _).
  repeat split; first [exact W1 | exact W2 | exact W3 | exact W6].
Defined.

(** ** Partial fetches *)

Section PartialFetchFacts.
Context `{Collaborators}.
Hypothesis Hread : deserialize_reads_one.

Lemma BP_STATE_Some node i s :
  BP_STATE node i = Some s -> exists p, BP node i = Some p /\ bp_state p = s.
Proof.
  unfold BP_STATE. destruct (BP node i) as [p|]; [|discriminate].
  intros [= <-]. eauto.
Qed.

Lemma BP_STATE_of_BP node node' i :
  BP node' i = BP node i -> BP_STATE node' i = BP_STATE node i.
Proof. unfold BP_STATE. now intros ->. Qed.

(** One turn of the loop of [toku_brtnode_pf_callback]. *)
Lemma pf_partitions_spec bfe count :
  forall node i node',
    pf_partitions count node bfe i = Ok node' ->
    (forall j, j < i \/ i + Z.of_nat count <= j -> BP node' j = BP node j)
    /\ (forall j, i <= j < i + Z.of_nat count ->
          (BP_STATE node j = Some PT_AVAIL -> BP node' j = BP node j)
          /\ (toku_brtnode_partition_state bfe j = PT_AVAIL ->
              BP_STATE node' j = Some PT_AVAIL)
          /\ (toku_brtnode_partition_state bfe j <> PT_AVAIL -> BP node' j = BP node j)).
Proof.
  induction count as [|count IH]; intros node i node' Hrun.
  - simpl in Hrun. injection Hrun as <-. split; [auto|]. intros j Hj. lia.
  - simpl in Hrun. run_all.
    match goal with Hs : BP_STATE node i = Some ?s |- _ =>
      rename Hs into Hstate; rename s into state end.
    match goal with Hn : _ = Ok ?n, Hr : pf_partitions count ?n bfe (i + 1) = Ok node' |- _ =>
      rename Hn into Hone; rename n into mid; apply IH in Hr as [Hout Hin] end.
    assert (Hmid : (forall j, j <> i -> BP mid j = BP node j)
                   /\ (state = PT_AVAIL -> mid = node)
                   /\ (toku_brtnode_partition_state bfe i = PT_AVAIL ->
                       BP_STATE mid i = Some PT_AVAIL)
                   /\ (toku_brtnode_partition_state bfe i <> PT_AVAIL -> mid = node)).
    { destruct (BP_STATE_Some _ _ _ Hstate) as (p & Hp & _).
      case_bool_decide as Havail.
      - injection Hone as <-. subst state. auto.
      - case_bool_decide as Hwant.
        + destruct state; try discriminate; injection Hone as <-.
          * destruct (Hread node i (toku_deserialize_bp_from_disk node i)) as [Hs Ho];
              eauto. repeat split; auto; congruence.
          * destruct (Hread node i (toku_deserialize_bp_from_compressed node i)) as [Hs Ho];
              eauto. repeat split; auto; congruence.
        + injection Hone as <-. repeat split; auto; congruence. }
    destruct Hmid as (Hoth & Hsame & Hgot & Hnot).
    split.
    + intros j Hj. rewrite Hout by lia. apply Hoth. lia.
    + intros j Hj. destruct (Z.eq_dec j i) as [->|Hne].
      * rewrite Hout by lia. split; [|split].
        -- intros Ha. rewrite Hstate in Ha. injection Ha as ->. now rewrite Hsame.
        -- intros Hw. rewrite (BP_STATE_of_BP mid node') by (apply Hout; lia). auto.
        -- intros Hw. now rewrite Hnot.
      * destruct (Hin j) as (H1 & H2 & H3); [lia|]. rewrite <- (Hoth j Hne).
        split; [|split]; auto.
        intros Ha. apply H1. rewrite (BP_STATE_of_BP node mid); auto.
Qed.

End PartialFetchFacts.

Section PinFacts.
Context `{Collaborators}.
Hypothesis Hread : deserialize_reads_one.

Lemma BP_out_of_range node j : Z.of_nat (length (bp node)) <= j -> BP node j = None.
Proof.
  intros Hj. unfold BP. destruct (Z.ltb_spec j 0); [reflexivity|].
  apply lookup_ge_None. lia.
Qed.

Lemma toku_brtnode_pf_callback_spec node bfe node' :
  toku_brtnode_pf_callback node bfe = Ok node' ->
  length (bp node') = length (bp node)
  /\ forall j,
       (BP_STATE node j = Some PT_AVAIL -> BP node' j = BP node j)
       /\ (0 <= j < n_children node -> toku_brtnode_partition_state bfe j = PT_AVAIL ->
           BP_STATE node' j = Some PT_AVAIL)
       /\ (toku_brtnode_partition_state bfe j <> PT_AVAIL -> BP node' j = BP node j).
Proof.
  unfold toku_brtnode_pf_callback. intros Hrun. run_all.
  match goal with Hp : pf_partitions _ _ _ _ = Ok _ |- _ =>
    apply (pf_partitions_spec Hread) in Hp as [Hout Hin] end.
  assert (Hall : forall j,
             (BP_STATE node j = Some PT_AVAIL -> BP node' j = BP node j)
             /\ (0 <= j < n_children node -> toku_brtnode_partition_state bfe j = PT_AVAIL ->
                 BP_STATE node' j = Some PT_AVAIL)
             /\ (toku_brtnode_partition_state bfe j <> PT_AVAIL -> BP node' j = BP node j)).
  { intros j. unfold n_children.
    destruct (Z.lt_ge_cases j 0) as [Hneg|Hpos];
      [|destruct (Z.lt_ge_cases j (Z.of_nat (length (bp node)))) as [Hlt|Hge]].
    - repeat split; intros; try lia; apply Hout; lia.
    - destruct (Hin j) as (H1 & H2 & H3); [lia|]. repeat split; auto.
    - repeat split; intros; try lia; apply Hout; lia. }
  split; [|exact Hall].
  destruct (Nat.lt_trichotomy (length (bp node')) (length (bp node))) as [Hlt|[Heq|Hgt]];
    [|exact Heq|].
  - (* a partition of [node] has none behind it in [node'] *)
    exfalso.
    destruct (lookup_lt_is_Some_2 (bp node) (length (bp node'))) as [p Hp]; [lia|].
    pose proof (BP_out_of_range node' (Z.of_nat (length (bp node')))) as Hnone.
    assert (Hsome : BP node (Z.of_nat (length (bp node'))) = Some p).
    { unfold BP. destruct (Z.ltb_spec (Z.of_nat (length (bp node'))) 0); [lia|].
      now rewrite Nat2Z.id. }
    destruct (Hin (Z.of_nat (length (bp node')))) as (H1 & H2 & H3); [lia|].
    destruct (decide (toku_brtnode_partition_state bfe (Z.of_nat (length (bp node')))
                      = PT_AVAIL)) as [Hw|Hw].
    + apply H2 in Hw. apply BP_STATE_Some in Hw as (q & Hq & _).
      rewrite Hnone in Hq by lia. discriminate.
    + apply H3 in Hw. rewrite Hnone, Hsome in Hw by lia. discriminate.
  - exfalso.
    destruct (lookup_lt_is_Some_2 (bp node') (length (bp node))) as [p Hp]; [lia|].
    assert (Hsome : BP node' (Z.of_nat (length (bp node))) = Some p).
    { unfold BP. destruct (Z.ltb_spec (Z.of_nat (length (bp node))) 0); [lia|].
      now rewrite Nat2Z.id. }
    rewrite Hout, BP_out_of_range in Hsome by lia. discriminate.
Qed.

Lemma forallb_partition_avail node :
  (forall j, 0 <= j < n_children node -> BP_STATE node j = Some PT_AVAIL) ->
  forallb partition_avail (bp node) = true.
Proof.
  intros Hall. apply forallb_forall. intros p Hp.
  apply list_elem_of_In, list_elem_of_lookup in Hp as [k Hk].
  specialize (Hall (Z.of_nat k)). unfold n_children, BP_STATE, BP in Hall.
  destruct (Z.ltb_spec (Z.of_nat k) 0); [lia|]. rewrite Nat2Z.id, Hk in Hall.
  apply lookup_lt_Some in Hk. simpl in Hall.
  unfold partition_avail. apply bool_decide_eq_true. 
  assert (Some (bp_state p) = Some PT_AVAIL) as [= ->] by (apply Hall; lia). reflexivity.
Qed.

Lemma partition_avail_lookup node j :
  forallb partition_avail (bp node) = true -> 0 <= j < n_children node ->
  BP_STATE node j = Some PT_AVAIL.
Proof.
  intros Hall Hj. unfold n_children in Hj. unfold BP_STATE, BP.
  destruct (Z.ltb_spec j 0); [lia|].
  destruct (lookup_lt_is_Some_2 (bp node) (Z.to_nat j)) as [p Hp]; [lia|].
  rewrite Hp. simpl. f_equal.
  rewrite forallb_forall in Hall. 
  assert (Hin : In p (bp node)) by (apply list_elem_of_In, list_elem_of_lookup; eauto).
  apply Hall in Hin. unfold partition_avail in Hin. now apply bool_decide_eq_true in Hin.
Qed.

End PinFacts.

(** X16: a pin for a full read leaves the whole node in memory.  When
    the partition readers read one partition at a time, every partition
    of the pinned node is available, the partitions that were available
    before are untouched, the node has as many children as before, and
    a second pin for a full read finds nothing left to fetch. *)
Theorem toku_cachetable_get_and_pin_full_read `{Collaborators} (tr tr' : brt_tree)
    (bfe' : brtnode_fetch_extra) :
  deserialize_reads_one ->
  toku_cachetable_get_and_pin tr fill_bfe_for_full_read = Ok (tr', bfe') ->
  toku_assert_entire_node_in_memory (tree_node tr') = Ok tt
  /\ n_children (tree_node tr') = n_children (tree_node tr)
  /\ (forall j, BP_STATE (tree_node tr) j = Some PT_AVAIL ->
                BP (tree_node tr') j = BP (tree_node tr) j)
  /\ tree_kids tr' = tree_kids tr
  /\ toku_brtnode_pf_req_callback (tree_node tr') fill_bfe_for_full_read
     = Ok (false, fill_bfe_for_full_read).
Proof.
  intros Hread. unfold toku_cachetable_get_and_pin, fill_bfe_for_full_read. simpl.
  intros Hrun. run_all.
  destruct (forallb partition_avail (bp (tree_node tr))) eqn:Hall; simpl in *.
  - simplify_eq. simpl. unfold toku_assert_entire_node_in_memory, ensure.
    rewrite Hall. auto.
  - match goal with Hp : toku_brtnode_pf_callback _ _ = Ok ?n |- _ =>
      apply (toku_brtnode_pf_callback_spec Hread) in Hp as [Hlen Hpart];
      rename n into node' end.
    simplify_eq. simpl.
    assert (Hnow : forallb partition_avail (bp node') = true).
    { apply forallb_partition_avail. intros j Hj. apply (Hpart j); [|reflexivity].
      unfold n_children in *. lia. }
    unfold toku_assert_entire_node_in_memory, ensure, n_children. rewrite Hnow, Hlen.
    repeat split; auto. intros j. apply (Hpart j).
Qed.

(** X17: a pin for a search reads at most the partition that the search
    needs.  The request comes back with [child_to_read] set to the child
    that [toku_brt_search_which_child] picks; that partition is
    available afterwards, every other partition is as it was, and
    nothing at all changes in the node when that partition was
    available already. *)
Theorem toku_cachetable_get_and_pin_subset_read `{Collaborators} (tr tr' : brt_tree)
    (search : brt_search) (c0 : Z) (bfe' : brtnode_fetch_extra) :
  deserialize_reads_one ->
  toku_cachetable_get_and_pin tr (brtnode_fetch_subset search c0) = Ok (tr', bfe') ->
  exists c,
    toku_brt_search_which_child (tree_node tr) search = Ok c
    /\ bfe' = brtnode_fetch_subset search c
    /\ BP_STATE (tree_node tr') c = Some PT_AVAIL
    /\ (forall j, j <> c -> BP (tree_node tr') j = BP (tree_node tr) j)
    /\ (BP_STATE (tree_node tr) c = Some PT_AVAIL -> tree_node tr' = tree_node tr)
    /\ tree_kids tr' = tree_kids tr.
Proof.
  intros Hread. unfold toku_cachetable_get_and_pin. simpl. intros Hrun. run_all.
  match goal with Hw : toku_brt_search_which_child _ _ = Ok ?x |- _ =>
    rename Hw into Hwhich; rename x into c end.
  match goal with Hs : BP_STATE _ c = Some ?s |- _ => rename Hs into Hstate end.
  simplify_eq. exists c. split; [exact Hwhich|]. split; [reflexivity|].
  case_bool_decide as Havail; simpl in *.
  - simplify_eq. simpl. repeat split; auto.
  - match goal with Hp : toku_brtnode_pf_callback _ _ = Ok ?n |- _ =>
      apply (toku_brtnode_pf_callback_spec Hread) in Hp as [Hlen Hpart] end.
    simplify_eq. simpl.
    assert (Hc : 0 <= c < n_children (tree_node tr)).
    { destruct (BP_STATE_Some _ _ _ Hstate) as (p & Hp & _). apply BP_in_range in Hp.
      apply andb_prop in Hp as [Hlo Hhi]. apply Z.leb_le in Hlo. apply Z.ltb_lt in Hhi.
      lia. }
    split; [|split; [|split]].
    + apply (Hpart c); [exact Hc|]. simpl. now rewrite Z.eqb_refl.
    + intros j Hj. apply (Hpart j). simpl.
      destruct (Z.eqb_spec c j); [congruence|discriminate].
    + intros Ha. rewrite Hstate in Ha. congruence.
    + reflexivity.
Qed.

Lemma sample_deserialize_reads_one : deserialize_reads_one (H := Sample.collaborators).
Proof.
  intros node i d Hd [p Hp].
  assert (d = Sample.read_partition node i) as -> by (destruct Hd; assumption).
  pose proof (BP_in_range _ _ _ Hp) as Hi. apply andb_prop in Hi as [Hlo Hhi].
  apply Z.leb_le in Hlo. apply Z.ltb_lt in Hhi. apply BP_lookup in Hp.
  unfold Sample.read_partition. rewrite (proj2 (Z.ltb_ge _ _) Hlo), Hp.
  unfold BP_STATE, BP. simpl. rewrite (proj2 (Z.ltb_ge _ _) Hlo).
  split.
  - rewrite list_lookup_insert_eq by (apply lookup_lt_Some in Hp; exact Hp). reflexivity.
  - intros j Hj. destruct (Z.ltb_spec j 0); [reflexivity|].
    apply list_lookup_insert_ne. lia.
Qed.

Lemma toku_cachetable_get_and_pin_full_read_witness :
  toku_assert_entire_node_in_memory (tree_node (fst SampleRouting.cold_pinned)) = Ok tt
  /\ n_children (tree_node (fst SampleRouting.cold_pinned)) = 3
  /\ BP (tree_node (fst SampleRouting.cold_pinned)) 1
     = BP (tree_node SampleRouting.cold) 1.
Proof.
  destruct (toku_cachetable_get_and_pin_full_read (H := Sample.collaborators)
              SampleRouting.cold (fst SampleRouting.cold_pinned)
              (snd SampleRouting.cold_pinned) sample_deserialize_reads_one)
    as (W1 & W2 & W3 & _).
  { vm_compute. reflexivity. }
  split; [exact W1|]. split; [exact W2|]. apply W3. reflexivity.
Defined.

Lemma toku_cachetable_get_and_pin_subset_read_witness :
  snd SampleRouting.cold_searched
  = brtnode_fetch_subset (SampleSearch.at_or_after "x") 2
  /\ BP_STATE (tree_node (fst SampleRouting.cold_searched)) 2 = Some PT_AVAIL
  /\ BP (tree_node (fst SampleRouting.cold_searched)) 0
     = BP (tree_node SampleRouting.cold) 0.
Proof.
  destruct (toku_cachetable_get_and_pin_subset_read (H := Sample.collaborators)
              SampleRouting.cold (fst SampleRouting.cold_searched)
              (SampleSearch.at_or_after "x") (-1)
              (snd SampleRouting.cold_searched) sample_deserialize_reads_one)
    as (c & Hc & W1 & W2 & W3 & _).
  { reflexivity. }
  assert (c = 2) as -> by (vm_compute in Hc; congruence).
  split; [exact W1|]. split; [exact W2|]. apply W3. lia.
Defined.

(** ** The accounting of a basement *)

Section OmtTotals.

Lemma omt_total_app f l1 l2 : omt_total f (l1 ++ l2) = omt_total f l1 + omt_total f l2.
Proof. unfold omt_total. induction l1 as [|x l1 IH]; simpl; [reflexivity|]. rewrite IH. ring. Qed.

Lemma omt_total_take_drop f l i : omt_total f l = omt_total f (take i l) + omt_total f (drop i l).
Proof. now rewrite <- omt_total_app, take_drop. Qed.

Lemma omt_total_drop_S f l i x :
  l !! i = Some x -> omt_total f (drop i l) = f x + omt_total f (drop (S i) l).
Proof. intros Hx. now rewrite (drop_S _ _ _ Hx). Qed.

Lemma omt_total_insert_at f l i x :
  omt_total f (take i l ++ x :: drop i l) = omt_total f l + f x.
Proof.
  rewrite omt_total_app, (omt_total_take_drop f l i). unfold omt_total at 2. simpl.
  fold (omt_total f (drop i l)). ring.
Qed.

Lemma omt_total_set_at f l i old x :
  l !! i = Some old -> omt_total f (<[i := x]> l) = omt_total f l - f old + f x.
Proof.
  intros Hold. rewrite (omt_total_take_drop f l i), (omt_total_drop_S f l i old Hold).
  rewrite insert_take_drop by (eapply lookup_lt_Some; eauto).
  rewrite omt_total_app. unfold omt_total at 2. simpl. fold (omt_total f (drop (S i) l)).
  ring.
Qed.

Lemma omt_total_delete_at f l i old :
  l !! i = Some old -> omt_total f (delete i l) = omt_total f l - f old.
Proof.
  intros Hold. rewrite (omt_total_take_drop f l i), (omt_total_drop_S f l i old Hold).
  rewrite delete_take_drop, omt_total_app. ring.
Qed.

Lemma calc_leaf_stats_from l :
  forall e,
    nkeys e = u64 (nkeys e) -> ndata e = u64 (ndata e) -> dsize e = u64 (dsize e) ->
    let e' := fold_left (fun e le => fill_leafnode_estimates le e) l e in
    nkeys e' = u64 (nkeys e + Z.of_nat (length l))
    /\ ndata e' = u64 (ndata e + Z.of_nat (length l))
    /\ dsize e' = u64 (dsize e + omt_total (fun le => u32 (le_keylen le + le_latest_vallen le)) l).
Proof.
  induction l as [|le l IH]; intros e Hn Hd Hs; simpl.
  - rewrite !Z.add_0_r. auto.
  - destruct (IH (fill_leafnode_estimates le e)) as (H1 & H2 & H3);
      try (simpl; symmetry; apply u64_id, u64_range).
    simpl in *. rewrite H1, H2, H3. unfold u64.
    rewrite !Zplus_mod_idemp_l. repeat split; f_equal; lia.
Qed.

Lemma calc_leaf_stats_closed l :
  nkeys (calc_leaf_stats l) = u64 (Z.of_nat (length l))
  /\ ndata (calc_leaf_stats l) = u64 (Z.of_nat (length l))
  /\ dsize (calc_leaf_stats l)
     = u64 (omt_total (fun le => u32 (le_keylen le + le_latest_vallen le)) l).
Proof.
  unfold calc_leaf_stats.
  destruct (calc_leaf_stats_from l zero_estimates) as (H1 & H2 & H3); try reflexivity.
  simpl in *. auto.
Qed.

End OmtTotals.

Section BasementAccounting.
Context `{Collaborators}.

Abbreviation item_bytes := (fun le => OMT_ITEM_OVERHEAD + leafentry_disksize le).
Abbreviation item_dsize := (fun le => u32 (le_keylen le + le_latest_vallen le)).

Lemma basement_accounted_closed bn se :
  basement_accounted bn se <->
  bn_n_bytes_in_buffer bn = u32 (omt_total item_bytes (bn_buffer bn))
  /\ nkeys se = u64 (Z.of_nat (length (bn_buffer bn)))
  /\ ndata se = u64 (Z.of_nat (length (bn_buffer bn)))
  /\ dsize se = u64 (omt_total item_dsize (bn_buffer bn)).
Proof.
  unfold basement_accounted.
  destruct (calc_leaf_stats_closed (bn_buffer bn)) as (-> & -> & ->). reflexivity.
Qed.

Lemma toku_omt_fetch_lookup omt idx le :
  toku_omt_fetch omt idx = Some le -> 0 <= idx /\ omt !! Z.to_nat idx = Some le.
Proof. unfold toku_omt_fetch. destruct (Z.ltb_spec idx 0); [discriminate|]. auto. Qed.

Lemma u64_add_idemp a b : u64 (u64 a + b) = u64 (a + b).
Proof. unfold u64. apply Zplus_mod_idemp_l. Qed.

Lemma u64_sub_idemp a b : u64 (u64 a - b) = u64 (a - b).
Proof. unfold u64. apply Zminus_mod_idemp_l. Qed.

Lemma brt_leaf_delete_leafentry_accounted bn se idx le bn' se' :
  toku_omt_fetch (bn_buffer bn) idx = Some le ->
  basement_accounted bn se ->
  brt_leaf_delete_leafentry bn se idx le = Ok (bn', se') ->
  basement_accounted bn' se'.
Proof.
  intros Hle Hacc Hrun. apply basement_accounted_closed in Hacc as (Hb & Hn & Hd & Hs).
  apply basement_accounted_closed.
  apply toku_omt_fetch_lookup in Hle as [Hidx Hle].
  unfold brt_leaf_delete_leafentry, bump_nkeys, toku_omt_delete_at in Hrun. run_all.
  match goal with Hs : (if ?c then _ else _) = Some _ |- _ =>
    destruct c; [injection Hs as <-|discriminate] end.
  simplify_eq. simpl.
  pose proof (lookup_lt_Some _ _ _ Hle) as Hlt.
  rewrite Hb, Hn, Hd, Hs, length_delete by eauto.
  rewrite !(omt_total_delete_at _ _ _ _ Hle).
  rewrite u32_sub_idemp, u64_add_idemp, !u64_sub_idemp.
  rewrite (Z.add_comm (le_latest_vallen le)).
  repeat split; f_equal; lia.
Qed.

Lemma bump_nkeys_up se se' :
  bump_nkeys se 1 = Ok se' ->
  nkeys se' = u64 (nkeys se + 1) /\ ndata se' = ndata se /\ dsize se' = dsize se.
Proof. unfold bump_nkeys. intros Hrun. run_all. simplify_eq. auto. Qed.

Lemma brt_leaf_apply_cmd_once_accounted bn se cmd idx le bn' se' :
  (forall l, le = Some l -> toku_omt_fetch (bn_buffer bn) idx = Some l) ->
  basement_accounted bn se ->
  brt_leaf_apply_cmd_once bn se cmd idx le = Ok (bn', se') ->
  basement_accounted bn' se'.
Proof.
  intros Hle Hacc Hrun. unfold brt_leaf_apply_cmd_once in Hrun.
  destruct (apply_msg_to_leafentry cmd le) as [r new_le]. run_all.
  destruct le as [l|], new_le as [new_le|].
  - (* the entry is replaced *)
    apply basement_accounted_closed in Hacc as (Hb & Hn & Hd & Hs).
    apply basement_accounted_closed.
    destruct (toku_omt_fetch_lookup _ _ _ (Hle l eq_refl)) as [Hidx Hl].
    run_all. unfold toku_omt_set_at in *. simpl in *.
    match goal with Hs : (if ?c then _ else _) = Some _ |- _ =>
      destruct c; [injection Hs as <-|discriminate] end.
    simplify_eq. simpl.
    rewrite Hb, Hn, Hd, Hs, length_insert.
    rewrite !(omt_total_set_at _ _ _ _ _ Hl).
    rewrite u32_sub_idemp, u32_add_idemp, u64_sub_idemp, u64_add_idemp.
    repeat split; f_equal; lia.
  - (* the entry is deleted *)
    run_all. simplify_eq.
    eapply brt_leaf_delete_leafentry_accounted; eauto.
  - (* a new entry is inserted *)
    apply basement_accounted_closed in Hacc as (Hb & Hn & Hd & Hs).
    apply basement_accounted_closed.
    run_all. unfold toku_omt_insert_at in *.
    match goal with Hs : (if ?c then _ else _) = Some _ |- _ =>
      destruct c eqn:Hrange; [injection Hs as <-|discriminate] end.
    apply andb_prop in Hrange as [Hlo Hhi]. apply Z.leb_le in Hlo, Hhi.
    match goal with Hbump : bump_nkeys _ 1 = Ok _ |- _ =>
      apply bump_nkeys_up in Hbump as (Hn' & Hd' & Hs') end.
    simplify_eq. simpl in *.
    rewrite Hn', Hd', Hs', Hb, Hn, Hd, Hs.
    rewrite !omt_total_insert_at, length_app, length_take. simpl. rewrite length_drop.
    rewrite u32_add_idemp, !u64_add_idemp.
    rewrite (Z.add_comm (le_latest_vallen new_le)).
    repeat split; f_equal; lia.
  - run_all. simplify_eq. exact Hacc.
Qed.

Lemma bn_set_seqinsert_accounted bn se v :
  basement_accounted bn se -> basement_accounted (bn_set_seqinsert bn v) se.
Proof. auto. Qed.

Lemma bn_set_optimized_accounted bn se v :
  basement_accounted bn se -> basement_accounted (bn_set_optimized bn v) se.
Proof. auto. Qed.

Lemma apply_to_matches_accounted cmd fuel :
  forall bn se idx storeddata bn' se',
    toku_omt_fetch (bn_buffer bn) idx = Some storeddata ->
    basement_accounted bn se ->
    apply_to_matches fuel bn se cmd idx storeddata = Ok (bn', se') ->
    basement_accounted bn' se'.
Proof.
  induction fuel as [|fuel IH]; intros bn se idx le bn' se' Hle Hacc Hrun;
    [discriminate|].
  simpl in Hrun. run_all.
  match goal with Ha : brt_leaf_apply_cmd_once _ _ _ _ _ = Ok (?b, ?e) |- _ =>
    assert (Hacc1 : basement_accounted b e)
      by (eapply brt_leaf_apply_cmd_once_accounted; [| exact Hacc | exact Ha];
          intros l [= <-]; exact Hle) end.
  case_run; simplify_eq; auto.
  run_all. case_run; simplify_eq; auto.
  eapply IH; eauto.
Qed.

Lemma apply_to_all_accounted wanted cmd fuel :
  forall bn se idx omt_size made_change bn' se' made_change',
    basement_accounted bn se ->
    apply_to_all fuel wanted bn se cmd idx omt_size made_change
      = Ok (bn', se', made_change') ->
    basement_accounted bn' se'.
Proof.
  induction fuel as [|fuel IH]; intros bn se idx n mc bn' se' mc' Hacc Hrun;
    [discriminate|].
  simpl in Hrun. destruct (idx <? n).
  - run_all.
    match goal with Hf : toku_omt_fetch _ _ = Some ?l |- _ => rename Hf into Hle end.
    destruct (wanted _).
    + run_all.
      match goal with Ha : brt_leaf_apply_cmd_once _ _ _ _ _ = Ok (?b, ?e) |- _ =>
        assert (Hacc1 : basement_accounted b e)
          by (eapply brt_leaf_apply_cmd_once_accounted; [| exact Hacc | exact Ha];
              intros l [= <-]; exact Hle) end.
      case_run; run_all; eapply IH; eauto.
    + eapply IH; eauto.
  - run_all. simplify_eq. exact Hacc.
Qed.

Lemma do_update_accounted bn se cmd idx le bn' se' r made_change :
  (forall l, le = Some l -> toku_omt_fetch (bn_buffer bn) idx = Some l) ->
  basement_accounted bn se ->
  do_update bn se cmd idx le = Ok (bn', se', r, made_change) ->
  basement_accounted bn' se'.
Proof.
  intros Hle Hacc Hrun. unfold do_update in Hrun. run_all.
  destruct (match le with
            | Some l => if negb (le_latest_is_del l) then (le_latest_val l, Some l)
                        else (None, None)
            | None => (None, None)
            end) as [vdbtp le_for_update] eqn:Hfor.
  assert (Hle' : forall l, le_for_update = Some l ->
                           toku_omt_fetch (bn_buffer bn) idx = Some l).
  { intros l ->. destruct le as [l0|]; [|discriminate].
    destruct (negb (le_latest_is_del l0)); [|discriminate].
    injection Hfor as _ <-. auto. }
  destruct (update_fun _ vdbtp (cmd_val cmd)) as [called r0].
  destruct called as [new_val|].
  - run_all. simplify_eq. unfold setval_fun in *.
    eapply brt_leaf_apply_cmd_once_accounted; eauto.
  - simplify_eq. exact Hacc.
Qed.

Lemma update_all_accounted cmd fuel :
  forall bn se idx made_change bn' se' made_change',
    basement_accounted bn se ->
    update_all fuel bn se cmd idx made_change = Ok (bn', se', made_change') ->
    basement_accounted bn' se'.
Proof.
  induction fuel as [|fuel IH]; intros bn se idx mc bn' se' mc' Hacc Hrun;
    [discriminate|].
  simpl in Hrun. destruct (idx <? _).
  - run_all.
    match goal with Hf : toku_omt_fetch _ _ = Some ?l |- _ => rename Hf into Hle end.
    match goal with Hu : do_update _ _ _ _ _ = Ok (?b, ?e, _, _) |- _ =>
      assert (Hacc1 : basement_accounted b e)
        by (eapply do_update_accounted; [| exact Hacc | exact Hu];
            intros l [= <-]; exact Hle) end.
    eapply IH; eauto.
  - simplify_eq. exact Hacc.
Qed.

Lemma brt_leaf_put_cmd_accounted fuel bn se cmd bn' se' made_change :
  basement_accounted bn se ->
  brt_leaf_put_cmd fuel bn se cmd = Ok (bn', se', made_change) ->
  basement_accounted bn' se'.
Proof.
  intros Hacc Hrun. unfold brt_leaf_put_cmd in Hrun.
  apply (bn_set_seqinsert_accounted _ _ 0) in Hacc.
  set (bn0 := bn_set_seqinsert bn 0) in *.
  assert (Hfound : forall (found : bool) idx (storeddata : option LEAFENTRY),
             (if found
              then do le <- from_option (toku_omt_fetch (bn_buffer bn0) idx)
                              "toku_omt_find_zero";
                   Ok (Some le)
              else Ok None) = Ok storeddata ->
             forall l, storeddata = Some l -> toku_omt_fetch (bn_buffer bn0) idx = Some l).
  { intros found idx sd Hsd l ->. destruct found; [|discriminate]. run_all. congruence. }
  destruct (cmd_type cmd);
    try solve [simplify_eq; exact Hacc];
    try solve [eapply apply_to_all_accounted; [|exact Hrun]; auto];
    try solve [eapply update_all_accounted; eauto];
    try (destruct (insert_position _ _ _) as [found idx]);
    try (destruct (toku_omt_find_zero _ _) as [found idx]).
  - (* BRT_INSERT *)
    run_all.
    match goal with Ha : brt_leaf_apply_cmd_once _ _ _ _ _ = Ok (?b, ?e) |- _ =>
      assert (basement_accounted b e)
        by (eapply brt_leaf_apply_cmd_once_accounted; [eapply Hfound| |]; eauto) end.
    simplify_eq. destruct (_ <=? _); auto.
  - (* BRT_DELETE_ANY *)
    destruct found; simpl in Hrun; [|simplify_eq; exact Hacc].
    run_all. simplify_eq.
    eapply apply_to_matches_accounted; [| exact Hacc | eassumption]. assumption.
  - (* BRT_ABORT_ANY *)
    destruct found; simpl in Hrun; [|simplify_eq; exact Hacc].
    run_all. simplify_eq.
    eapply apply_to_matches_accounted; [| exact Hacc | eassumption]. assumption.
  - (* BRT_COMMIT_ANY *)
    destruct found; simpl in Hrun; [|simplify_eq; exact Hacc].
    run_all. simplify_eq.
    eapply apply_to_matches_accounted; [| exact Hacc | eassumption]. assumption.
  - (* BRT_INSERT_NO_OVERWRITE *)
    run_all.
    match goal with Ha : brt_leaf_apply_cmd_once _ _ _ _ _ = Ok (?b, ?e) |- _ =>
      assert (basement_accounted b e)
        by (eapply brt_leaf_apply_cmd_once_accounted; [eapply Hfound| |]; eauto) end.
    simplify_eq. destruct (_ <=? _); auto.
  - (* BRT_UPDATE *)
    run_all. simplify_eq.
    eapply do_update_accounted; [eapply Hfound| |]; eauto.
Qed.

End BasementAccounting.

(** X18: a message put into a basement keeps its books.  When the byte
    count of the basement is the 32-bit sum of what its entries take and
    the estimates of its partition are those counted from its entries,
    the same holds after [brt_leaf_put_cmd], whatever the message:
    inserts, deletes, commits, aborts, updates and broadcasts. *)
Theorem brt_leaf_put_cmd_keeps_accounting `{Collaborators} (fuel : nat)
    (bn : BASEMENTNODE) (se : subtree_estimates) (cmd : BRT_MSG)
    (bn' : BASEMENTNODE) (se' : subtree_estimates) (made_change : Z) :
  basement_accounted bn se ->
  brt_leaf_put_cmd fuel bn se cmd = Ok (bn', se', made_change) ->
  basement_accounted bn' se'.
Proof. apply brt_leaf_put_cmd_accounted. Qed.

Lemma brt_leaf_put_cmd_keeps_accounting_witness :
  basement_accounted (H := Sample.collaborators)
    (fst SampleInsert.after_berry) (snd SampleInsert.after_berry).
Proof.
  apply (brt_leaf_put_cmd_keeps_accounting (H := Sample.collaborators) 1
           SampleInsert.streak_basement SampleInsert.streak_estimates
           SampleInsert.insert_berry _ _ 1).
  - unfold basement_accounted. repeat split; vm_compute; reflexivity.
  - vm_compute. reflexivity.
Defined.

Section LeafAccounting.
Context `{Collaborators}.

Lemma leaf_accounted_set_max_msn node m :
  leaf_accounted node -> leaf_accounted (node_set_max_msn node m).
Proof. auto. Qed.

Lemma leaf_put_cmd_at_accounted fuel node childnum cmd node' made_change :
  leaf_accounted node ->
  leaf_put_cmd_at fuel node childnum cmd = Ok (node', made_change) ->
  leaf_accounted node'.
Proof.
  intros Hacc Hrun. unfold leaf_put_cmd_at in Hrun. run_all.
  match goal with Hp : BP node childnum = Some ?q |- _ =>
    rename Hp into Hbp; rename q into p end.
  destruct (bp_ptr_of p) as [|bn| |] eqn:Hptr; try discriminate. run_all.
  match goal with Hn : node_set_partition _ _ _ = Ok _ |- _ =>
    unfold node_set_partition in Hn; run_all end.
  simplify_eq. unfold leaf_accounted in *. simpl.
  apply Forall_insert; [exact Hacc|]. simpl. intros bn1 [= <-].
  eapply brt_leaf_put_cmd_accounted; [|eassumption].
  apply BP_lookup in Hbp. rewrite Forall_lookup in Hacc. eapply Hacc; eauto.
Qed.

Lemma apply_cmd_to_partitions_accounted fuel cmd count :
  forall node childnum made_change node' made_change',
    leaf_accounted node ->
    apply_cmd_to_partitions fuel count node childnum cmd made_change
      = Ok (node', made_change') ->
    leaf_accounted node'.
Proof.
  induction count as [|count IH]; intros node c mc node' mc' Hacc Hrun; simpl in Hrun.
  - simplify_eq. exact Hacc.
  - run_all. case_bool_decide.
    + run_all. simplify_eq. eapply IH; [|eassumption].
      eapply leaf_put_cmd_at_accounted; eauto.
    + simplify_eq. eapply IH; eauto.
Qed.


End LeafAccounting.

(** X19: a message applied to a leaf keeps the books of every basement
    of the leaf: a message for one key goes to one basement, a broadcast
    to all that are in memory, and each of them still has the byte count
    and the estimates of its entries afterwards. *)
Theorem toku_apply_cmd_to_leaf_keeps_accounting `{Collaborators} (fuel : nat)
    (node : BRTNODE) (cmd : BRT_MSG) (made_change : Z) (node' : BRTNODE)
    (made_change' : Z) :
  leaf_accounted node ->
  toku_apply_cmd_to_leaf fuel node cmd made_change = Ok (node', made_change') ->
  leaf_accounted node'.
Proof.
  intros Hacc Hrun. unfold toku_apply_cmd_to_leaf in Hrun.
  destruct (cmd_msn cmd <=? _); [simplify_eq; exact Hacc|].
  apply (leaf_accounted_set_max_msn _ (cmd_msn cmd)) in Hacc.
  destruct (brt_msg_applies_once cmd).
  - run_all. case_bool_decide; [|simplify_eq; exact Hacc].
    eapply leaf_put_cmd_at_accounted; eauto.
  - destruct (brt_msg_applies_all cmd).
    + eapply apply_cmd_to_partitions_accounted; eauto.
    + run_all. simplify_eq. exact Hacc.
Qed.

Lemma toku_apply_cmd_to_leaf_keeps_accounting_witness :
  leaf_accounted (H := Sample.collaborators) SampleRouting.leaf_after_kiwi.
Proof.
  apply (toku_apply_cmd_to_leaf_keeps_accounting (H := Sample.collaborators) 10
           SampleRouting.node SampleRouting.kiwi 0 _ 1).
  - unfold leaf_accounted, SampleRouting.node. simpl.
    repeat apply Forall_cons_2; try apply Forall_nil_2;
      intros bn [= <-]; unfold basement_accounted; repeat split; vm_compute; reflexivity.
  - vm_compute. reflexivity.
Defined.

(** ** The accounting of a leaf that is split or merged *)

Section SplitAccounting.
Context `{Collaborators}.

Abbreviation item_bytes := (fun le => OMT_ITEM_OVERHEAD + leafentry_disksize le).

(** The byte count alone. *)
Lemma reset_partition_stats_accounted p :
  (forall bn, bp_ptr_of p = ptr_basement bn ->
     bn_n_bytes_in_buffer bn = u32 (omt_total item_bytes (bn_buffer bn))
     /\ (bp_state p <> PT_AVAIL -> basement_accounted bn (bp_subtree_est p))) ->
  forall bn, bp_ptr_of (reset_partition_stats p) = ptr_basement bn ->
    basement_accounted bn (bp_subtree_est (reset_partition_stats p)).
Proof.
  intros Hp bn. unfold reset_partition_stats. case_bool_decide as Hst.
  - destruct (bp_ptr_of p) as [|bn0| |] eqn:Hptr; simpl; rewrite ?Hptr; try discriminate.
    intros [= <-]. destruct (Hp bn0 eq_refl) as [Hb _].
    unfold basement_accounted. auto.
  - intros Hptr. destruct (Hp bn Hptr) as [_ Ha]. auto.
Qed.

Lemma toku_brt_leaf_reset_calc_leaf_stats_accounted node node' :
  Forall (fun p => forall bn, bp_ptr_of p = ptr_basement bn ->
            bn_n_bytes_in_buffer bn = u32 (omt_total item_bytes (bn_buffer bn))
            /\ (bp_state p <> PT_AVAIL -> basement_accounted bn (bp_subtree_est p)))
         (bp node) ->
  toku_brt_leaf_reset_calc_leaf_stats node = Ok node' ->
  leaf_accounted node'.
Proof.
  intros Hall. unfold toku_brt_leaf_reset_calc_leaf_stats. intros Hrun. run_all.
  simplify_eq. unfold leaf_accounted. simpl. apply Forall_map.
  eapply Forall_impl; [exact Hall|]. intros p Hp. now apply reset_partition_stats_accounted.
Qed.

Lemma leaf_accounted_weaken node :
  leaf_accounted node ->
  Forall (fun p => forall bn, bp_ptr_of p = ptr_basement bn ->
            bn_n_bytes_in_buffer bn = u32 (omt_total item_bytes (bn_buffer bn))
            /\ (bp_state p <> PT_AVAIL -> basement_accounted bn (bp_subtree_est p)))
         (bp node).
Proof.
  unfold leaf_accounted. intros Hacc. eapply Forall_impl; [exact Hacc|]. intros p Hp bn Hptr.
  specialize (Hp bn Hptr). split; [apply Hp|auto].
Qed.

Lemma moved_bytes l :
  fold_left (fun n le => u32 (n + item_bytes le)) l 0 = u32 (omt_total item_bytes l).
Proof.
  assert (Hgen : forall n, fold_left (fun n le => u32 (n + item_bytes le)) l (u32 n)
                           = u32 (n + omt_total item_bytes l)).
  { induction l as [|le l IH]; intros n; simpl.
    - rewrite Z.add_0_r. reflexivity.
    - rewrite u32_add_idemp, IH. f_equal. unfold omt_total. simpl. ring. }
  apply (Hgen 0).
Qed.

End SplitAccounting.

Section SplitAccounting2.
Context `{Collaborators}.

Abbreviation item_bytes := (fun le => OMT_ITEM_OVERHEAD + leafentry_disksize le).

Lemma move_leafentries_bytes src lbi ube se moved rest se' n :
  move_leafentries src lbi ube se = Ok (moved, rest, se', n) ->
  n = u32 (omt_total item_bytes moved).
Proof.
  unfold move_leafentries. intros Hrun. run_all. simplify_eq. apply moved_bytes.
Qed.

Lemma split_target_is_empty t nodeb create_new_node (n : Z) o B p :
  (if create_new_node : bool
   then
     do t <- from_option t "toku_create_new_brtnode";
     do (t0, B) <- toku_create_new_brtnode t 0 n;
     check 0 <? nodesize B in "brtleaf_split";
     Ok (Some t0, B)
   else
     Ok (t, node_set_childkeys
              (node_set_bp nodeb (replicate (Z.to_nat n) reused_partition))
              [] (totalchildkeylens nodeb))) = Ok (o, B) ->
  BP B 0 = Some p ->
  bp_ptr_of p = ptr_basement toku_setup_empty_bn.
Proof.
  intros Hrun Hp. apply BP_lookup in Hp. destruct create_new_node.
  - run_all.
    match goal with Hn : toku_create_new_brtnode _ _ _ = Ok _ |- _ =>
      unfold toku_create_new_brtnode, toku_initialize_empty_brtnode in Hn;
      destruct (toku_allocate_blocknum _) as [t1 name]; run_all end.
    simplify_eq. simpl in Hp. apply lookup_replicate in Hp as [-> _]. reflexivity.
  - simplify_eq. simpl in Hp. apply lookup_replicate in Hp as [-> _]. reflexivity.
Qed.

Lemma brtleaf_split_accounted (t : option BRT) (node nodeb : BRTNODE)
    (create_new_node : bool) (t' : option BRT) (a b : BRTNODE) (splitk : DBT) :
  bn_n_bytes_in_buffer toku_setup_empty_bn = 0 ->
  omt_sizes_fit node ->
  leaf_accounted node ->
  brtleaf_split t node nodeb create_new_node = Ok (t', a, b, splitk) ->
  leaf_accounted a /\ leaf_accounted b.
Proof.
  intros Hempty Hfit Hacc. unfold brtleaf_split. intros Hrun. run_all.
  match goal with Hp : BP node ?s = Some ?p, Hb : match bp_ptr_of ?p with _ => _ end = Ok ?bn
    |- _ => rename Hp into Hsplit; rename Hb into Hbn; rename s into sn;
            destruct (bp_ptr_of p) as [|bn0| |] eqn:Hptr; try discriminate;
            injection Hbn as <-; rename p into p_split end.
  match goal with Ht : (if create_new_node then _ else _) = Ok _, Hp : BP _ 0 = Some ?p |- _ =>
    pose proof (split_target_is_empty _ _ _ _ _ _ _ Ht Hp) as Hb0; rename p into p0 end.
  simpl in *. rewrite Hb0 in *.
  match goal with Hb : Ok toku_setup_empty_bn = Ok ?bn |- _ => injection Hb as <- end.
  pose proof (BP_in_range _ _ _ Hsplit) as Hr. apply andb_prop in Hr as [Hlo Hhi].
  apply Z.leb_le in Hlo. apply Z.ltb_lt in Hhi. unfold n_children in Hhi.
  apply BP_lookup in Hsplit.
  assert (Hsrc : Z.of_nat (length (bn_buffer bn0)) < 2 ^ 32).
  { eapply (proj1 (Forall_lookup _ _)) in Hfit; [|exact Hsplit].
    unfold partition_entries in Hfit. now rewrite Hptr in Hfit. }
  match goal with Hm : move_leafentries _ _ _ _ = Ok _ |- _ =>
    pose proof (move_leafentries_bytes _ _ _ _ _ _ _ _ Hm) as Hbytes;
    apply (move_leafentries_all _ _ _ _ _ _ _ Hsrc) in Hm as (Hlbi & -> & ->) end.
  pose proof (leaf_accounted_weaken _ Hacc) as Hweak.
  pose proof (proj1 (Forall_lookup _ _) Hacc _ _ Hsplit bn0 Hptr) as (Hb0bytes & _).
  match goal with
  | Ha : toku_brt_leaf_reset_calc_leaf_stats _ = Ok ?na,
    Hb : toku_brt_leaf_reset_calc_leaf_stats _ = Ok ?nb |- _ =>
      apply toku_brt_leaf_reset_calc_leaf_stats_accounted in Ha;
      [apply toku_brt_leaf_reset_calc_leaf_stats_accounted in Hb|]
  end.
  { simplify_eq. split; assumption. }
  - (* the right half *)
    simpl. apply Forall_cons_2; [|now apply Forall_drop].
    simpl. intros bn [= <-]. simpl. split; [|intros Hne; now destruct Hne].
    rewrite Hempty, Hbytes. simpl. apply u32_id, u32_range.
  - (* the left half *)
    simpl. apply Forall_app. split; [now apply Forall_take|].
    apply Forall_cons_2; [|apply Forall_nil_2].
    simpl. intros bn [= <-]. simpl. split.
    + rewrite Hb0bytes, Hbytes, u32_sub_idemp.
      rewrite (omt_total_take_drop item_bytes (bn_buffer bn0) (Z.to_nat (z0 + 1))).
      unfold u32. rewrite Zminus_mod_idemp_r. f_equal. ring.
    + intros Hne. exfalso. apply Hne.
      match goal with Hm : toku_assert_entire_node_in_memory node = Ok _ |- _ =>
        unfold toku_assert_entire_node_in_memory, ensure in Hm;
        destruct (forallb partition_avail (bp node)) eqn:Hall; [|discriminate] end.
      pose proof (partition_avail_lookup node sn Hall) as Hst.
      unfold BP_STATE, BP, n_children in Hst.
      rewrite (proj2 (Z.ltb_ge _ _) Hlo), Hsplit in Hst. simpl in Hst.
      assert (Some (bp_state p_split) = Some PT_AVAIL) as [= ->] by (apply Hst; lia).
      reflexivity.
Qed.

End SplitAccounting2.

(** X20: a leaf split keeps the books of both halves.  When the empty
    basement that a new partition starts from counts no bytes, and every
    basement of the leaf has the byte count and the estimates of its
    entries, so has every basement of the two nodes that
    [brtleaf_split] leaves. *)
Theorem brtleaf_split_keeps_accounting `{Collaborators} (t : option BRT)
    (node nodeb : BRTNODE) (create_new_node : bool) (t' : option BRT) (a b : BRTNODE)
    (splitk : DBT) :
  bn_n_bytes_in_buffer toku_setup_empty_bn = 0 ->
  omt_sizes_fit node ->
  leaf_accounted node ->
  brtleaf_split t node nodeb create_new_node = Ok (t', a, b, splitk) ->
  leaf_accounted a /\ leaf_accounted b.
Proof. apply brtleaf_split_accounted. Qed.

Lemma brtleaf_split_keeps_accounting_witness :
  leaf_accounted (H := Sample.collaborators) (snd (fst (fst SampleRouting.split_halves)))
  /\ leaf_accounted (H := Sample.collaborators) (snd (fst SampleRouting.split_halves)).
Proof.
  apply (brtleaf_split_keeps_accounting (H := Sample.collaborators)
           (Some SamplePuts.handle) SampleNodes.big_dirty_leaf SampleNodes.big_dirty_leaf
           true (fst (fst (fst SampleRouting.split_halves))) _ _
           (snd SampleRouting.split_halves)).
  - reflexivity.
  - repeat apply Forall_cons_2; try apply Forall_nil_2. vm_compute. reflexivity.
  - unfold leaf_accounted, SampleNodes.big_dirty_leaf. simpl.
    repeat apply Forall_cons_2; try apply Forall_nil_2;
      intros bn [= <-]; unfold basement_accounted; repeat split; vm_compute; reflexivity.
  - vm_compute. reflexivity.
Defined.

Section MergeAccounting.
Context `{Collaborators}.

Lemma merge_leaf_nodes_accounted a b a' b' :
  leaf_accounted a -> leaf_accounted b ->
  merge_leaf_nodes a b = Ok (a', b') ->
  leaf_accounted a' /\ leaf_accounted b'.
Proof.
  intros Ha Hb. unfold merge_leaf_nodes. intros Hrun. run_all. simplify_eq.
  unfold leaf_accounted in *. simpl. split; [|apply Forall_nil_2].
  apply Forall_app. split; [|exact Hb].
  destruct (negb _); [exact Ha|].
  rewrite removelast_firstn_len. now apply Forall_take.
Qed.


End MergeAccounting.

(** X21: merging or balancing two leaf siblings keeps the books.
    Whether [maybe_merge_pinned_leaf_nodes] leaves the two leaves alone,
    merges them or spreads their entries evenly, every basement of the
    two nodes it hands back has the byte count and the estimates of its
    entries, when those of the two siblings had. *)
Theorem maybe_merge_pinned_leaf_nodes_keeps_accounting `{Collaborators}
    (parent : BRTNODE) (childnum : Z) (a b : BRTNODE) (k : DBT)
    (parent' a' b' : BRTNODE) (dm dr : bool) (k' : option DBT) :
  bn_n_bytes_in_buffer toku_setup_empty_bn = 0 ->
  omt_sizes_fit a -> omt_sizes_fit b ->
  leaf_accounted a -> leaf_accounted b ->
  maybe_merge_pinned_leaf_nodes parent childnum a b k = Ok (parent', a', b', dm, dr, k') ->
  leaf_accounted a' /\ leaf_accounted b'.
Proof.
  intros Hempty Fa Fb Ha Hb. unfold maybe_merge_pinned_leaf_nodes. intros Hrun.
  case_run.
  - case_run; [simplify_eq; auto|].
    unfold balance_leaf_nodes in Hrun. run_all.
    match goal with Hm : merge_leaf_nodes a b = Ok (?ma, ?mb) |- _ =>
      destruct (merge_leaf_nodes_entries _ _ _ _ Fa Fb Hm) as (_ & _ & Fm);
      destruct (merge_leaf_nodes_accounted _ _ _ _ Ha Hb Hm) as [Hma _] end.
    match goal with Hs : brtleaf_split _ _ _ _ = Ok _ |- _ =>
      apply (brtleaf_split_accounted _ _ _ _ _ _ _ _ Hempty Fm Hma) in Hs end.
    simplify_eq. assumption.
  - run_all.
    match goal with Hm : merge_leaf_nodes a b = Ok _ |- _ =>
      apply (merge_leaf_nodes_accounted _ _ _ _ Ha Hb) in Hm end.
    simplify_eq. assumption.
Qed.

Lemma maybe_merge_pinned_leaf_nodes_keeps_accounting_witness :
  leaf_accounted (H := Sample.collaborators)
    (snd (fst (fst (fst (fst SampleMerge.balanced)))))
  /\ leaf_accounted (H := Sample.collaborators)
       (snd (fst (fst (fst SampleMerge.balanced)))).
Proof.
  apply (maybe_merge_pinned_leaf_nodes_keeps_accounting (H := Sample.collaborators)
           (SampleMerge.parent_of 100) 0 SampleMerge.empty_a SampleMerge.full_b "apple"
           (fst (fst (fst (fst (fst SampleMerge.balanced))))) _ _
           (snd (fst (fst SampleMerge.balanced)))
           (snd (fst SampleMerge.balanced))
           (snd SampleMerge.balanced)).
  - reflexivity.
  - repeat apply Forall_cons_2; try apply Forall_nil_2. vm_compute. reflexivity.
  - repeat apply Forall_cons_2; try apply Forall_nil_2. vm_compute. reflexivity.
  - unfold leaf_accounted, SampleMerge.empty_a. simpl.
    repeat apply Forall_cons_2; try apply Forall_nil_2;
      intros bn [= <-]; unfold basement_accounted; repeat split; vm_compute; reflexivity.
  - unfold leaf_accounted, SampleMerge.full_b. simpl.
    repeat apply Forall_cons_2; try apply Forall_nil_2;
      intros bn [= <-]; unfold basement_accounted; repeat split; vm_compute; reflexivity.
  - vm_compute. reflexivity.
Defined.

(** ** Key ranges *)

Section KeyRangeFacts.
Context `{Collaborators}.
Hypothesis Hfind : find_zero_in_range.

Lemma u64_add_idemp_r a b : u64 (a + u64 b) = u64 (a + b).
Proof. unfold u64. apply Zplus_mod_idemp_r. Qed.

Lemma compute_child_fullhash_rest node i node' h :
  compute_child_fullhash node i = Ok (node', h) ->
  height node' = height node
  /\ drop (S (Z.to_nat i)) (bp node') = drop (S (Z.to_nat i)) (bp node).
Proof.
  unfold compute_child_fullhash. intros Hrun. run_all.
  destruct (bp_have_fullhash _).
  - run_all. simplify_eq. auto.
  - run_all. unfold node_set_partition in *. run_all. simplify_eq. simpl.
    split; [reflexivity|]. apply drop_insert_lt. lia.
Qed.

Lemma drop_lookup_cons {A} (l : list A) i x ps :
  drop i l = ps -> l !! i = Some x -> ps = x :: drop (S i) l.
Proof. intros <- Hx. now apply drop_S. Qed.

Lemma counted_pin d tr tr' bfe :
  counted d tr ->
  toku_cachetable_get_and_pin tr fill_bfe_for_full_read = Ok (tr', bfe) ->
  tree_node tr' = tree_node tr /\ tree_kids tr' = tree_kids tr.
Proof.
  destruct d as [|d]; [contradiction|]. intros [Havail _].
  unfold toku_cachetable_get_and_pin, fill_bfe_for_full_read. simpl. intros Hrun. run_all.
  assert (Hall : forallb partition_avail (bp (tree_node tr)) = true).
  { apply forallb_forall. intros p Hp. apply list_elem_of_In in Hp.
    rewrite Forall_forall in Havail. unfold partition_avail.
    apply bool_decide_eq_true. auto. }
  rewrite Hall in *. simpl in *. simplify_eq. auto.
Qed.

Lemma u64_eq a b : (2 ^ 64 | a - b) -> u64 a = u64 b.
Proof.
  intros [k Hk]. unfold u64. replace a with (b + k * 2 ^ 64) by lia.
  apply Z_mod_plus_full.
Qed.

Lemma u64_div x : (2 ^ 64 | u64 x - x).
Proof.
  unfold u64. exists (- (x / 2 ^ 64)).
  pose proof (Z_div_mod_eq_full x (2 ^ 64)). lia.
Qed.

(** The second loop adds the estimates of the children it visits. *)
Lemma keyrange_children_total d (internal : brt_tree -> Z -> DBT -> keyrange ->
                                            result (brt_tree * keyrange))
    compares key count :
  (forall child h acc child' acc',
     counted d child -> internal child h key acc = Ok (child', acc') ->
     u64 (kr_total acc') = u64 (kr_total acc + node_ndata (tree_node child))) ->
  forall tr i acc tr' acc' ps ks,
    0 <= i ->
    drop (Z.to_nat i) (bp (tree_node tr)) = ps ->
    (if 0 <? height (tree_node tr) then
       drop (Z.to_nat i) (tree_kids tr) = ks
       /\ Forall2 (fun p k => ndata (bp_subtree_est p) = u64 (node_ndata (tree_node k))
                              /\ counted d k) ps ks
     else
       Forall (fun p => exists bn,
                 bp_ptr_of p = ptr_basement bn
                 /\ ndata (bp_subtree_est p) = Z.of_nat (length (bn_buffer bn))
                 /\ Z.of_nat (length (bn_buffer bn)) < 2 ^ 32) ps) ->
    keyrange_children internal count tr compares i key acc = Ok (tr', acc') ->
    u64 (kr_total acc')
    = u64 (kr_total acc
           + foldr (fun p s => ndata (bp_subtree_est p) + s) 0 (take count ps)).
Proof.
  intros Hint. induction count as [|count IH]; intros tr i acc tr' acc' ps ks Hi Hps Hinv Hrun.
  - simpl in Hrun. simplify_eq. simpl. f_equal. lia.
  - simpl in Hrun. run_all.
    match goal with Hp : BP (tree_node tr) i = Some ?q |- _ =>
      rename Hp into Hbp; rename q into p end.
    pose proof (drop_lookup_cons _ _ _ _ Hps (BP_lookup _ _ _ Hbp)) as ->.
    rewrite firstn_cons. simpl foldr.
    match goal with Hr : keyrange_children _ _ _ _ _ _ _ = Ok _ |- _ => rename Hr into Hrest end.
    match goal with Hs : _ = Ok (?t1, ?a1) |- _ =>
      lazymatch type of Hs with
      | (if _ <? 0 then _ else _) = _ => rename Hs into Hstep1; rename t1 into tr1;
                                          rename a1 into acc1
      end end.
    assert (Hone : u64 (kr_total acc1)
                   = u64 (kr_total acc + ndata (bp_subtree_est p))
                   /\ height (tree_node tr1) = height (tree_node tr)
                   /\ drop (S (Z.to_nat i)) (bp (tree_node tr1))
                      = drop (S (Z.to_nat i)) (bp (tree_node tr))
                   /\ drop (S (Z.to_nat i)) (tree_kids tr1)
                      = drop (S (Z.to_nat i)) (tree_kids tr)).
    { set (s := ndata (bp_subtree_est p)) in *.
      match type of Hstep1 with (if ?nc <? 0 then _ else if 0 <? ?pc then _ else _) = _ =>
        destruct (nc <? 0); [|destruct (0 <? pc); [|destruct ((pc =? 0) && (nc =? 0))]] end.
      { simplify_eq. split; [|auto]. unfold kr_total. simpl. apply u64_eq.
        replace (u64 (kr_less acc + s) + kr_equal acc + kr_greater acc
                 - (kr_less acc + kr_equal acc + kr_greater acc + s))
          with (u64 (kr_less acc + s) - (kr_less acc + s)) by ring.
        apply u64_div. }
      { simplify_eq. split; [|auto]. unfold kr_total. simpl. apply u64_eq.
        replace (kr_less acc + kr_equal acc + u64 (kr_greater acc + s)
                 - (kr_less acc + kr_equal acc + kr_greater acc + s))
          with (u64 (kr_greater acc + s) - (kr_greater acc + s)) by ring.
        apply u64_div. }
      { simplify_eq. split; [|auto]. unfold kr_total. simpl. apply u64_eq.
        replace (kr_less acc + u64 (kr_equal acc + s) + kr_greater acc
                 - (kr_less acc + kr_equal acc + kr_greater acc + s))
          with (u64 (kr_equal acc + s) - (kr_equal acc + s)) by ring.
        apply u64_div. }
      destruct (0 <? height (tree_node tr)) eqn:Hh.
      - (* the child is visited *)
        run_all.
        match goal with Hc : compute_child_fullhash _ _ = Ok _ |- _ =>
          apply compute_child_fullhash_rest in Hc as [Hheight Hdrop] end.
        match goal with Hc : child_of _ _ = Ok ?c |- _ =>
          apply child_of_Ok in Hc as (_ & Hkid & _); simpl in Hkid; rename c into child end.
        destruct Hinv as [Hks F].
        pose proof (drop_lookup_cons _ _ _ _ Hks Hkid) as ->.
        apply Forall2_cons in F as [[Hest Hcounted] _].
        match goal with Hr : internal _ _ _ _ = Ok _ |- _ =>
          apply (Hint _ _ _ _ _ Hcounted) in Hr; rename Hr into Hsum end.
        simplify_eq. simpl. split; [|split; [|split]]; auto.
        + rewrite Hsum. unfold s. rewrite Hest. symmetry. apply u64_add_idemp_r.
        + apply drop_insert_lt. lia.
      - (* the basement is searched *)
        run_all.
        apply Forall_cons in Hinv as [(bn & Hptr & Hest & Hfit) _].
        match goal with Hb : BLB _ _ = Some ?b |- _ =>
          unfold BLB in Hb; rewrite Hbp in Hb; simpl in Hb; rewrite Hptr in Hb;
          injection Hb as <- end.
        destruct (Hfind (bn_buffer bn) (toku_cmd_leafval_heaviside key)) as [Hidx Hfound].
        destruct (toku_omt_find_zero _ _) as [found idx]. simpl in Hidx, Hfound.
        assert (Hsize : u32 (toku_omt_size (bn_buffer bn) - idx)
                        = Z.of_nat (length (bn_buffer bn)) - idx).
        { unfold toku_omt_size, u32. rewrite (Z.mod_small (Z.of_nat _)) by lia.
          apply Z.mod_small. lia. }
        rewrite Hsize in *. unfold s. rewrite Hest.
        destruct found; simplify_eq; (split; [|auto]); unfold kr_total; simpl; apply u64_eq.
        + match goal with |- (_ | u64 ?a + u64 ?b + u64 (u64 ?c - 1) - ?rhs) =>
            replace (u64 a + u64 b + u64 (u64 c - 1) - rhs)
              with ((u64 a - a) + (u64 b - b)
                    + ((u64 (u64 c - 1) - (u64 c - 1)) + (u64 c - c))) by ring end.
          apply Z.divide_add_r; apply Z.divide_add_r; apply u64_div.
        + match goal with |- (_ | u64 ?a + ?e + u64 ?c - ?rhs) =>
            replace (u64 a + e + u64 c - rhs) with ((u64 a - a) + (u64 c - c)) by ring end.
          apply Z.divide_add_r; apply u64_div. }
    destruct Hone as (Hsum & Hheight & Hdrop & Hkids).
    assert (Hnext : Z.to_nat (i + 1) = S (Z.to_nat i)) by lia.
    erewrite (IH tr1 (i + 1) acc1 tr' acc' _ (drop (S (Z.to_nat i)) (tree_kids tr)));
      [| lia | rewrite Hnext; exact Hdrop | | exact Hrest].
    + apply u64_eq.
      match goal with |- (_ | ?a + ?r - (?b + (?s + ?r))) =>
        replace (a + r - (b + (s + r))) with (a - (b + s)) by ring end.
      pose proof (u64_div (kr_total acc1)) as D1.
      pose proof (u64_div (kr_total acc + ndata (bp_subtree_est p))) as D2.
      rewrite Hsum in D1.
      replace (kr_total acc1 - (kr_total acc + ndata (bp_subtree_est p)))
        with ((u64 (kr_total acc + ndata (bp_subtree_est p))
               - (kr_total acc + ndata (bp_subtree_est p)))
              - (u64 (kr_total acc + ndata (bp_subtree_est p)) - kr_total acc1)) by ring.
      apply Z.divide_sub_r; assumption.
    + rewrite Hheight. destruct (0 <? height (tree_node tr)).
      * destruct Hinv as [Hks F]. split; [rewrite Hnext; exact Hkids|].
        rewrite <- Hks in F. 
        destruct (drop (Z.to_nat i) (tree_kids tr)) as [|k0 ks0] eqn:Hd;
          [inversion F|].
        apply Forall2_cons in F as [_ F].
        assert (ks0 = drop (S (Z.to_nat i)) (tree_kids tr)) as <-; [|exact F].
        rewrite <- (drop_drop (tree_kids tr) 1 (Z.to_nat i)) || idtac.
        replace (S (Z.to_nat i)) with (Z.to_nat i + 1)%nat by lia.
        rewrite <- drop_drop, Hd. reflexivity.
      * now apply Forall_cons in Hinv as [_ Hinv].
Qed.

End KeyRangeFacts.

Section KeyRangeTotal.
Context `{Collaborators}.
Hypothesis Hfind : find_zero_in_range.

Lemma toku_brt_keyrange_internal_total key fuel :
  forall d tr h acc tr' acc',
    counted d tr ->
    toku_brt_keyrange_internal fuel tr h key acc = Ok (tr', acc') ->
    u64 (kr_total acc') = u64 (kr_total acc + node_ndata (tree_node tr)).
Proof.
  induction fuel as [|fuel IH]; intros d tr h acc tr' acc' Hc Hrun; [discriminate|].
  simpl in Hrun. run_all.
  match goal with Hp : toku_cachetable_get_and_pin _ _ = Ok (?p, _) |- _ =>
    destruct (counted_pin _ _ _ _ Hc Hp) as [Hnode Hkids]; rename p into pinned end.
  destruct d as [|d]; [contradiction|]. destruct Hc as [_ Hinv].
  match goal with Hr : keyrange_children _ _ _ _ _ _ _ = Ok _ |- _ =>
    rename Hr into Hloop end.
  eapply (keyrange_children_total Hfind d) in Hloop.
  - rewrite Hloop. simpl. rewrite firstn_all, Hnode. reflexivity.
  - intros. eapply IH; eassumption.
  - lia.
  - reflexivity.
  - simpl. rewrite Hnode, Hkids. destruct (0 <? _); [split; [reflexivity|]|]; exact Hinv.
Qed.

End KeyRangeTotal.

(** X22: the three counters of [toku_brt_keyrange] count every entry
    once.  On a tree that is in memory, whose estimates count its
    entries and whose OMT search answers an index within the OMT, a key
    range that returns has return code 0, and less, equal and greater
    add up, as 64-bit numbers, to the sum of the [ndata] estimates of
    the root, which is the number of entries that [toku_brt_stat64]
    reports. *)
Theorem toku_brt_keyrange_counts_all `{Collaborators} (d fuel : nat) (t : BRT)
    (root : brt_tree) (key : DBT) (r : Z) (root' : brt_tree) (range : keyrange) :
  find_zero_in_range ->
  counted d root ->
  toku_brt_keyrange fuel t root key = Ok (r, root', range) ->
  r = 0
  /\ u64 (kr_less range + kr_equal range + kr_greater range)
     = u64 (node_ndata (tree_node root)).
Proof.
  intros Hfind Hc. unfold toku_brt_keyrange. intros Hrun. run_all. simplify_eq.
  split; [reflexivity|].
  match goal with Hr : toku_brt_keyrange_internal _ _ _ _ _ = Ok _ |- _ =>
    rename Hr into Hint end.
  apply (toku_brt_keyrange_internal_total Hfind _ _ d) in Hint; [|exact Hc].
  exact Hint.
Qed.

Lemma sample_find_zero_in_range : find_zero_in_range (H := Sample.collaborators).
Proof.
  intros omt h. simpl.
  assert (Hgen : forall i,
             i <= snd (Sample.find_zero_from omt h i) <= i + Z.of_nat (length omt)
             /\ (fst (Sample.find_zero_from omt h i) = true ->
                 snd (Sample.find_zero_from omt h i) < i + Z.of_nat (length omt))).
  { induction omt as [|le omt IH]; intros i; simpl.
    - split; [lia|discriminate].
    - destruct (h le <? 0).
      + destruct (IH (i + 1)) as [H1 H2]. split; [lia|]. intros Hf. apply H2 in Hf. lia.
      + simpl. split; lia. }
  apply (Hgen 0).
Qed.

Lemma sample_grown_counted : counted 2 (snd SampleSearch.grown).
Proof.
  unfold SampleSearch.grown. cbn [snd counted tree_node tree_kids bp height].
  split; [repeat (apply Forall_cons_2; [reflexivity|]); apply Forall_nil_2|].
  change (0 <? 1) with true. cbv iota.
  repeat (apply Forall2_cons_2;
          [split; [vm_compute; reflexivity|];
           split; [repeat (apply Forall_cons_2; [reflexivity|]); apply Forall_nil_2|];
           cbv beta iota; change (0 <? 0) with false; cbv iota;
           repeat (apply Forall_cons_2;
                   [eexists; split; [reflexivity|]; split; vm_compute; reflexivity|]);
           apply Forall_nil_2|]).
  apply Forall2_nil_2.
Qed.

Lemma toku_brt_keyrange_counts_all_witness :
  fst (fst SampleRange.range_b) = 0
  /\ u64 (kr_less (snd SampleRange.range_b) + kr_equal (snd SampleRange.range_b)
          + kr_greater (snd SampleRange.range_b)) = 20.
Proof.
  apply (toku_brt_keyrange_counts_all (H := Sample.collaborators) 2 5
           (fst SampleSearch.grown) (snd SampleSearch.grown) "b"
           (fst (fst SampleRange.range_b)) (snd (fst SampleRange.range_b))
           (snd SampleRange.range_b) sample_find_zero_in_range sample_grown_counted).
  vm_compute. reflexivity.
Defined.

(** ** Routing a search *)

Section SearchRoutingFacts.
Context `{Collaborators}.

Lemma search_which_child_from_left node search count :
  direction search = BRT_SEARCH_LEFT ->
  forall c,
    0 <= c ->
    c + Z.of_nat count <= Z.of_nat (length (childkeys node)) ->
    exists r,
      search_which_child_from count node search c = Ok r
      /\ c <= r <= c + Z.of_nat count
      /\ (forall i p, c <= i < r -> childkey node i = Some p ->
            search_pivot_is_bounded search p && search_compare search (Some p) = false)
      /\ (r < c + Z.of_nat count ->
          exists p, childkey node r = Some p
            /\ search_pivot_is_bounded search p && search_compare search (Some p) = true).
Proof.
  intros Hdir. induction count as [|count IH]; intros c Hc Hlen.
  - simpl. rewrite Hdir. exists c. split; [reflexivity|]. split; [lia|].
    split; [intros; lia|intros; lia].
  - simpl. rewrite Hdir.
    destruct (childkey_in_range node c) as [p Hp]; [lia|]. rewrite Hp. simpl.
    destruct (search_pivot_is_bounded search p && search_compare search (Some p)) eqn:Htest.
    + exists c. split; [reflexivity|]. split; [lia|]. split; [intros; lia|].
      intros _. eauto.
    + destruct (IH (c + 1)) as (r & Hr & Hrange & Hbefore & Hat); [lia|lia|].
      exists r. split; [exact Hr|]. split; [lia|]. split.
      * intros i q Hi Hq. destruct (Z.eq_dec i c) as [->|Hne].
        -- rewrite Hp in Hq. now injection Hq as <-.
        -- apply (Hbefore i q); [lia|exact Hq].
      * intros Hlt. apply Hat. lia.
Qed.

Lemma search_which_child_from_right node search count :
  direction search = BRT_SEARCH_RIGHT ->
  forall c,
    0 <= c ->
    c + Z.of_nat count = n_children node - 1 ->
    n_children node - 1 <= Z.of_nat (length (childkeys node)) ->
    exists r,
      search_which_child_from count node search c = Ok r
      /\ n_children node - 1 - c - Z.of_nat count <= r <= n_children node - 1 - c
      /\ (forall i p, r <= i < n_children node - 1 - c -> childkey node i = Some p ->
            search_pivot_is_bounded search p && search_compare search (Some p) = false)
      /\ (n_children node - 1 - c - Z.of_nat count < r ->
          exists p, childkey node (r - 1) = Some p
            /\ search_pivot_is_bounded search p && search_compare search (Some p) = true).
Proof.
  intros Hdir. induction count as [|count IH]; intros c Hc Hsum Hlen.
  - simpl. rewrite Hdir. exists (n_children node - 1 - c). split; [reflexivity|].
    split; [lia|]. split; [intros; lia|intros; lia].
  - simpl. rewrite Hdir.
    destruct (childkey_in_range node (n_children node - 1 - c - 1)) as [p Hp]; [lia|].
    rewrite Hp. simpl.
    destruct (search_pivot_is_bounded search p && search_compare search (Some p)) eqn:Htest.
    + exists (n_children node - 1 - c). split; [reflexivity|]. split; [lia|].
      split; [intros; lia|]. intros _. eauto.
    + destruct (IH (c + 1)) as (r & Hr & Hrange & Hafter & Hat); [lia|lia|lia|].
      exists r. split; [exact Hr|]. split; [lia|]. split.
      * intros i q Hi Hq. destruct (Z.eq_dec i (n_children node - 1 - c - 1)) as [->|Hne].
        -- rewrite Hp in Hq. now injection Hq as <-.
        -- apply (Hafter i q); [lia|exact Hq].
      * intros Hlt. apply Hat. lia.
Qed.

End SearchRoutingFacts.

(** X23: on a node with a child and one pivot less than children,
    [toku_brt_search_which_child] returns (it does not fail) a child in
    range.  A search to the left gets the first child whose pivot is
    within the search's bound and accepted by its comparison, the last
    child if there is none; a search to the right gets the last child
    whose left pivot is so, the first child if there is none. *)
Theorem toku_brt_search_which_child_routes `{Collaborators} (node : BRTNODE)
    (search : brt_search) :
  0 < n_children node ->
  Z.of_nat (length (childkeys node)) = n_children node - 1 ->
  exists c,
    toku_brt_search_which_child node search = Ok c
    /\ 0 <= c < n_children node
    /\ match direction search with
       | BRT_SEARCH_LEFT =>
           (forall i p, 0 <= i < c -> childkey node i = Some p ->
              search_pivot_is_bounded search p && search_compare search (Some p) = false)
           /\ (c < n_children node - 1 ->
               exists p, childkey node c = Some p
                 /\ search_pivot_is_bounded search p && search_compare search (Some p)
                    = true)
       | BRT_SEARCH_RIGHT =>
           (forall i p, c <= i < n_children node - 1 -> childkey node i = Some p ->
              search_pivot_is_bounded search p && search_compare search (Some p) = false)
           /\ (0 < c ->
               exists p, childkey node (c - 1) = Some p
                 /\ search_pivot_is_bounded search p && search_compare search (Some p)
                    = true)
       end.
Proof.
  intros Hpos Hlen. unfold toku_brt_search_which_child, ensure.
  rewrite (proj2 (Z.ltb_lt _ _) Hpos). simpl.
  destruct (direction search) eqn:Hdir.
  - destruct (search_which_child_from_left node search (Z.to_nat (n_children node - 1))
                Hdir 0) as (r & Hr & Hrange & Hbefore & Hat); [lia|lia|].
    exists r. split; [exact Hr|]. split; [lia|]. split; [exact Hbefore|].
    intros Hlt. apply Hat. lia.
  - destruct (search_which_child_from_right node search (Z.to_nat (n_children node - 1))
                Hdir 0) as (r & Hr & Hrange & Hafter & Hat); [lia|lia|lia|].
    exists r. split; [exact Hr|]. split; [lia|]. split.
    + intros i p Hi. apply Hafter. lia.
    + intros Hlt. apply Hat. lia.
Qed.

Lemma toku_brt_search_which_child_routes_witness :
  exists c,
    toku_brt_search_which_child (H := Sample.collaborators) SampleRouting.node
      (SampleSearch.at_or_after "g") = Ok c
    /\ 0 <= c < 3.
Proof.
  destruct (toku_brt_search_which_child_routes (H := Sample.collaborators)
              SampleRouting.node (SampleSearch.at_or_after "g"))
    as (c & Hc & Hrange & _); [reflexivity|reflexivity|].
  exists c. split; [exact Hc|exact Hrange].
Defined.

(** ** The messages that a flush moves *)

Section DrainRouting.
Context `{Collaborators}.

Lemma which_child_search_same fuel n n' k :
  childkeys n' = childkeys n ->
  forall lo hi, which_child_search fuel n' k lo hi = which_child_search fuel n k lo hi.
Proof.
  intros Hk. induction fuel as [|fuel IH]; intros lo hi; simpl; [reflexivity|].
  unfold childkey. rewrite Hk. destruct (lo <? hi); [|reflexivity].
  destruct (if (lo + hi) / 2 <? 0 then None else childkeys n !! Z.to_nat ((lo + hi) / 2));
    simpl; [|reflexivity].
  destruct (0 <? _); [apply IH|]. destruct (_ <? 0); [apply IH|reflexivity].
Qed.

Lemma toku_brtnode_which_child_same n n' k :
  childkeys n' = childkeys n -> length (bp n') = length (bp n) ->
  toku_brtnode_which_child n' k = toku_brtnode_which_child n k.
Proof.
  intros Hk Hl. unfold toku_brtnode_which_child, n_children, childkey.
  rewrite Hk, Hl, (which_child_search_same _ n n' k Hk). reflexivity.
Qed.

Lemma brt_nonleaf_put_cmd_length node cmd node' :
  brt_nonleaf_put_cmd node cmd = Ok node' -> length (bp node') = length (bp node).
Proof.
  intros Hrun. rewrite <- !slots_length.
  unfold brt_nonleaf_put_cmd in Hrun. run_all.
  assert (Honce : brt_nonleaf_cmd_once (node_set_max_msn node (cmd_msn cmd)) cmd = Ok node' ->
                  length (slots node') = length (slots node)).
  { unfold brt_nonleaf_cmd_once, brt_nonleaf_cmd_once_to_child. intros Ho. run_all.
    match goal with Ha : toku_brt_append_to_child_buffer _ _ _ _ _ _ _ = Ok _ |- _ =>
      apply toku_brt_append_to_child_buffer_slots in Ha as (s & _ & ->) end.
    now rewrite length_insert. }
  assert (Hall : brt_nonleaf_cmd_all (node_set_max_msn node (cmd_msn cmd)) cmd = Ok node' ->
                 length (slots node') = length (slots node)).
  { unfold brt_nonleaf_cmd_all. intros Ha. apply cmd_to_children_slots in Ha; [|lia].
    rewrite Ha. change (slots (node_set_max_msn node (cmd_msn cmd))) with (slots node).
    change (bp (node_set_max_msn node (cmd_msn cmd))) with (bp node).
    rewrite <- (slots_length node). simpl.
    rewrite length_app, length_fmap, length_take, !length_drop. lia. }
  destruct (cmd_type cmd); auto. now simplify_eq.
Qed.

Lemma brt_msg_classes_cases (cmd : BRT_MSG) :
  brt_msg_applies_once cmd = true
  /\ brt_msg_applies_all cmd = false /\ brt_msg_does_nothing cmd = false
  \/ brt_msg_applies_once cmd = false
     /\ brt_msg_applies_all cmd = true /\ brt_msg_does_nothing cmd = false
  \/ brt_msg_applies_once cmd = false
     /\ brt_msg_applies_all cmd = false /\ brt_msg_does_nothing cmd = true.
Proof.
  unfold brt_msg_applies_once, brt_msg_applies_all, brt_msg_does_nothing.
  destruct (cmd_type cmd); simpl; auto 10.
Qed.

Lemma entry_of_msg_of_entry e : entry_of_msg (msg_of_entry e) = e.
Proof. now destruct e. Qed.

(** One message put into a nonleaf child. *)
Lemma brt_nonleaf_put_cmd_routed child e child' :
  brt_nonleaf_put_cmd child (msg_of_entry e) = Ok child' ->
  forall j, BNC_BUFFER child' j
            = (fun b => b ++ (if routed_to child j e then [e] else []))
              <$> BNC_BUFFER child j.
Proof.
  intros Hrun j.
  destruct (brt_nonleaf_put_cmd_routing _ _ _ Hrun) as (_ & _ & Honce & Hall & Hnone).
  rewrite entry_of_msg_of_entry in Honce, Hall.
  pose proof (brt_msg_classes_cases (msg_of_entry e)) as Hclass.
  unfold routed_to.
  destruct Hclass as [(Ho & Ha & Hn)|[(Ho & Ha & Hn)|(Ho & Ha & Hn)]]; rewrite Ho.
  - destruct (Honce Ho) as (c & Hc & Hbuf & Hother). simpl in Hc. rewrite Hc.
    destruct (Z.eqb_spec c j) as [->|Hne]; [exact Hbuf|].
    unfold BNC_BUFFER, BNC. rewrite (Hother j) by congruence.
    destruct (BP child j ≫= _); simpl; [|reflexivity]. now rewrite app_nil_r.
  - rewrite Ha. apply Hall. exact Ha.
  - rewrite Ha. unfold BNC_BUFFER, BNC, BP. rewrite (Hnone Hn).
    destruct (if j <? 0 then None else bp child !! Z.to_nat j) as [p|]; simpl; [|reflexivity].
    destruct (bp_ptr_of p); simpl; try reflexivity. now rewrite app_nil_r.
Qed.

(** The drain loop towards a nonleaf child: the buffer is emptied, and
    every buffer of the child gets the messages routed to it, behind
    what it held. *)
Lemma drain_to_nonleaf_routed (fuel : nat)
    (node child : BRTNODE) (childnum : Z) (fifo : FIFO) (node' child' : BRTNODE) :
  height child <> 0 ->
  BNC_BUFFER node childnum = Some fifo ->
  drain_to_nonleaf fuel node child childnum = Ok (node', child') ->
  BNC_BUFFER node' childnum = Some []
  /\ childkeys child' = childkeys child
  /\ forall j, BNC_BUFFER child' j
               = (fun b => b ++ List.filter (routed_to child j) fifo)
                 <$> BNC_BUFFER child j.
Proof.
  intros Hpos Hfifo Hrun.
  split; [eapply drain_to_nonleaf_buffer; eassumption|].
  revert node child fifo Hpos Hfifo Hrun.
  induction fuel as [|fuel IH]; intros node child fifo Hpos Hfifo Hrun; [discriminate|].
  simpl in Hrun. rewrite Hfifo in Hrun. simpl in Hrun.
  destruct fifo as [|e rest].
  - simplify_eq. split; [reflexivity|]. intros j. simpl.
    destruct (BNC_BUFFER _ j); simpl; [|reflexivity]. now rewrite app_nil_r.
  - run_all.
    match goal with Hp : brtnode_put_cmd child _ = Ok ?c |- _ =>
      rename Hp into Hput; rename c into child1 end.
    match goal with Hd : deq_and_account node _ _ = Ok ?n |- _ =>
      rename Hd into Hdeq; rename n into node1 end.
    unfold brtnode_put_cmd in Hput. run_all.
    rewrite (proj2 (Z.eqb_neq _ _)) in Hput by lia.
    pose proof (brt_nonleaf_put_cmd_routed _ _ _ Hput) as Hone.
    pose proof (brt_nonleaf_put_cmd_length _ _ _ Hput) as Hlen.
    destruct (brt_nonleaf_put_cmd_routing _ _ _ Hput) as (_ & Hkeys & _).
    destruct (brt_nonleaf_put_cmd_Ok _ _ _ Hput) as (_ & _ & _ & Hh & _). simpl in Hh.
    apply BNC_BUFFER_Some in Hfifo as (ci & Hci & Hbuf).
    destruct (deq_and_account_BNC _ _ _ _ _ Hdeq Hci) as (e0 & rest0 & Hb0 & Hci1 & _).
    rewrite Hbuf in Hb0. injection Hb0 as <- <-.
    match goal with Hr : drain_to_nonleaf _ _ _ _ = Ok _ |- _ =>
      apply (IH _ _ rest) in Hr as [Hk Hall];
        [| lia | unfold BNC_BUFFER; change (BNC (node_set_dirty node1 true) childnum)
                   with (BNC node1 childnum); now rewrite Hci1] end.
    split; [congruence|]. intros j. rewrite Hall, Hone.
    destruct (BNC_BUFFER child j) as [b|]; simpl; [|reflexivity].
    f_equal. rewrite <- app_assoc. f_equal.
    assert (Hf : List.filter (routed_to child1 j) rest
                 = List.filter (routed_to child j) rest).
    { apply filter_ext. intros x. unfold routed_to.
      now rewrite (toku_brtnode_which_child_same child child1) by assumption. }
    rewrite Hf. simpl. destruct (routed_to child j e); reflexivity.
Qed.

End DrainRouting.

(** X24: a flush into a nonleaf child loses no message and keeps the
    order.  When the loop that drains the buffer of child [childnum]
    into a nonleaf child returns, that buffer is empty, and every
    buffer of the child holds what it held followed by the messages of
    the drained buffer that are routed to it, in the order in which
    they were queued; the pivots of the child are the same. *)
Theorem drain_to_nonleaf_keeps_messages `{Collaborators} (fuel : nat)
    (node child : BRTNODE) (childnum : Z) (fifo : FIFO) (node' child' : BRTNODE) :
  0 < height child ->
  BNC_BUFFER node childnum = Some fifo ->
  drain_to_nonleaf fuel node child childnum = Ok (node', child') ->
  BNC_BUFFER node' childnum = Some []
  /\ childkeys child' = childkeys child
  /\ forall j, BNC_BUFFER child' j
               = (fun b => b ++ List.filter (routed_to child j) fifo)
                 <$> BNC_BUFFER child j.
Proof. intros Hpos. apply drain_to_nonleaf_routed. lia. Qed.

Lemma drain_to_nonleaf_keeps_messages_witness :
  BNC_BUFFER (fst SampleDrain.drained) 0 = Some []
  /\ BNC_BUFFER (snd SampleDrain.drained) 0
     = Some [ SampleReplay.insert 4 "apple" "1"; SampleReplay.insert 5 "berry" "2" ].
Proof.
  destruct (drain_to_nonleaf_keeps_messages (H := Sample.collaborators) 5
              (tree_node SampleFlush.top) (tree_node SampleFlush.inner) 0
              [ SampleReplay.insert 4 "apple" "1"; SampleReplay.insert 5 "berry" "2" ]
              (fst SampleDrain.drained) (snd SampleDrain.drained))
    as (W1 & _ & W2); [reflexivity|reflexivity|vm_compute; reflexivity|].
  split; [exact W1|]. rewrite (W2 0). reflexivity.
Defined.

(** ** What a flush does with the messages *)

Section FlushMoves.
Context `{Collaborators}.

Lemma assert_leaf_up_to_date_set_dirty node d :
  assert_leaf_up_to_date (node_set_dirty node d) = assert_leaf_up_to_date node.
Proof. reflexivity. Qed.

Lemma flush_while_gorged_idle fuel flush t child f n anc b t' child' anc' :
  nonleaf_node_is_gorged (tree_node child) = Ok false ->
  flush_while_gorged fuel flush t child f n anc b = Ok (t', child', anc') ->
  t' = t /\ child' = child /\ anc' = anc.
Proof.
  intros Hg. destruct fuel as [|fuel]; simpl; [discriminate|].
  rewrite Hg. simpl. intros Hrun. now simplify_eq.
Qed.

(** What one flush does to the child: a leaf is up to date and is marked
    dirty; a nonleaf node gets the messages of the buffer. *)
Lemma flush_this_child_body_child fuel flush t tr c f r anc b t' tr' anc' re ci :
  flush_this_child_body fuel flush t tr c f r anc b = Ok (t', tr', anc', re) ->
  BNC (tree_node tr) c = Some ci ->
  exists child pinned bfe child',
    kid tr c = Some child
    /\ toku_cachetable_get_and_pin child fill_bfe_for_full_read = Ok (pinned, bfe)
    /\ kid tr' c = Some child'
    /\ (height (tree_node pinned) = 0 ->
        assert_leaf_up_to_date (tree_node child') = Ok tt
        /\ dirty (tree_node child') = true)
    /\ (0 < height (tree_node pinned) ->
        exists mid,
          childkeys mid = childkeys (tree_node pinned)
          /\ (forall j, BNC_BUFFER mid j
                        = (fun q => q ++ List.filter (routed_to (tree_node pinned) j)
                                                     (bnc_buffer ci))
                          <$> BNC_BUFFER (tree_node pinned) j)
          /\ (r = false \/ nonleaf_node_is_gorged mid = Ok false ->
              tree_node child' = mid /\ tree_kids child' = tree_kids pinned)).
Proof.
  unfold flush_this_child_body. intros Hrun Hci. run_all.
  match goal with Hh : compute_child_fullhash _ _ = Ok _ |- _ =>
    apply compute_child_fullhash_frames in Hh as (_ & Kh & _ & _) end.
  match goal with Hc : child_of _ _ = Ok ?k |- _ =>
    apply child_of_Ok in Hc as (Hc0 & Hkid & _); rename k into child0 end.
  assert (Hk : kid tr c = Some child0)
    by (unfold kid; now rewrite (proj2 (Z.ltb_ge _ _) Hc0)).
  assert (Hk' : forall node x, kid (Tree (tree_cached tr) node
                                     (<[Z.to_nat c := x]> (tree_kids tr))) c = Some x).
  { intros node x. unfold kid. rewrite (proj2 (Z.ltb_ge _ _) Hc0). simpl.
    apply list_lookup_insert_eq. now apply lookup_lt_Some in Hkid. }
  match goal with Hp : toku_pin_brtnode_holding_lock _ _ _ _ _ = Ok _ |- _ =>
    unfold toku_pin_brtnode_holding_lock in Hp; revert Hp; intros Hpin end.
  run_all.
  match goal with Hp : toku_cachetable_get_and_pin _ _ = Ok (?p, ?e) |- _ =>
    rename Hp into Hget; rename p into pinned; rename e into bfe end.
  match goal with Hm : maybe_apply_ancestors_messages_to_node _ _ _ _ = Ok _ |- _ =>
    rename Hm into Hreplay end.
  pose proof (maybe_apply_ancestors_messages_height _ _ _ _ _ _ Hreplay) as Hheight.
  simplify_eq.
  case_run; run_all; simplify_eq.
  - apply Z.eqb_eq in Hcase. simpl in Hcase.
    eexists _, _, _, _. split; [exact Hk|]. split; [exact Hget|].
    split; [apply Hk'|]. simpl. split; [|lia].
    intros _. split; [|reflexivity].
    match goal with Ha : assert_leaf_up_to_date _ = Ok ?u |- _ => destruct u; exact Ha end.
  - apply Z.eqb_neq in Hcase. simpl in Hcase.
    eexists _, _, _, _. split; [exact Hk|]. split; [exact Hget|].
    split; [apply Hk'|]. simpl. split; [lia|]. intros Hpos.
    rewrite maybe_apply_ancestors_messages_nonleaf in Hreplay by exact Hpos.
    simplify_eq.
    match goal with Hd : drain_to_nonleaf _ _ _ _ = Ok (_, ?m) |- _ =>
      rename Hd into Hdrain; rename m into mid end.
    change (tree_node (tree_set_node pinned (tree_node pinned))) with (tree_node pinned)
      in Hdrain.
    assert (Hfifo : BNC_BUFFER b3 c = Some (bnc_buffer ci))
      by (unfold BNC_BUFFER; rewrite (buffers_kept_BNC _ _ _ Kh), Hci; reflexivity).
    destruct (drain_to_nonleaf_routed _ _ _ _ _ _ _ Hcase Hfifo Hdrain) as (_ & Hkeys & Hall).
    exists mid. split; [exact Hkeys|]. split; [exact Hall|].
    intros Hquiet.
    match goal with
    | Hg : (if r then flush_while_gorged _ _ _ ?k _ _ _ _ else _) = Ok (_, ?k', _) |- _ =>
        assert (Hsame : k' = k)
          by (destruct r;
              [destruct Hquiet as [?|Hq]; [discriminate|];
               eapply flush_while_gorged_idle in Hg; [tauto | exact Hq]
              |now simplify_eq])
    end.
    rewrite Hsame. auto.
Qed.

End FlushMoves.

(** C3: when [flush_this_child] returns for a nonleaf node and a child
    index, the FIFO of that child slot in the node is empty, whether
    the child is a leaf or a nonleaf; and the tracked byte count
    [BNC_NBYTESINBUF] of the slot is zero, given that before the call it
    was the (32-bit) sum of the sizes of the queued messages, which is
    how [toku_brt_append_to_child_buffer] keeps it.  The child is the
    node [pinned] that the page cache hands out for the slot.  When it is
    a leaf, it is up to date on return (the messages are dropped) and
    marked dirty.  When it is a nonleaf node, every message went into
    it: once the buffer is drained the child, [mid], has the same
    pivots, and each of its buffers holds what it held followed by the
    messages of the flushed buffer that are routed to it, in the order
    in which they were queued; and [mid] is the child on return unless
    the caller asked for recursive flushing and [mid] is gorged (its own
    buffers are then flushed further down). *)
Theorem flush_this_child_empties_buffer `{Collaborators} fuel t tr childnum
    is_first_flush flush_recursively ancestors bounds t' tr' ancestors' child_re ci :
  flush_this_child fuel t tr childnum is_first_flush flush_recursively ancestors bounds
  = Ok (t', tr', ancestors', child_re) ->
  BNC (tree_node tr) childnum = Some ci ->
  bnc_bytes_consistent ci ->
  BNC_BUFFER (tree_node tr') childnum = Some []
  /\ BNC_NBYTESINBUF (tree_node tr') childnum = Some 0
  /\ exists child pinned bfe child',
       kid tr childnum = Some child
       /\ toku_cachetable_get_and_pin child fill_bfe_for_full_read = Ok (pinned, bfe)
       /\ kid tr' childnum = Some child'
       /\ (height (tree_node pinned) = 0 ->
           assert_leaf_up_to_date (tree_node child') = Ok tt
           /\ dirty (tree_node child') = true)
       /\ (0 < height (tree_node pinned) ->
           exists mid,
             childkeys mid = childkeys (tree_node pinned)
             /\ (forall j, BNC_BUFFER mid j
                           = (fun q => q ++ List.filter (routed_to (tree_node pinned) j)
                                                        (bnc_buffer ci))
                             <$> BNC_BUFFER (tree_node pinned) j)
             /\ (flush_recursively = false \/ nonleaf_node_is_gorged mid = Ok false ->
                 tree_node child' = mid /\ tree_kids child' = tree_kids pinned)).
Proof.
  intros Hrun Hci Hcons. destruct fuel as [|fuel]; simpl in Hrun; [discriminate|].
  destruct (flush_this_child_body_Ok _ _ _ _ _ _ _ _ _ _ _ _ _
              (flush_this_child_keeps_ancestors fuel) Hrun) as (_ & _ & Hempty & Hbytes).
  split; [exact Hempty|].
  split; [unfold BNC_NBYTESINBUF; now rewrite (Hbytes ci Hci Hcons)|].
  eapply flush_this_child_body_child; eassumption.
Qed.

(** The flush into a leaf, and the flush into a nonleaf child, whose
    buffer then holds the two messages. *)
Lemma flush_this_child_empties_buffer_witness :
  (BNC_BUFFER (tree_node (snd (fst (fst SampleFlush.flushed)))) 0 = Some []
   /\ BNC_NBYTESINBUF (tree_node (snd (fst (fst SampleFlush.flushed)))) 0 = Some 0)
  /\ (BNC_BUFFER (tree_node (snd (fst (fst SampleFlush.moved)))) 0 = Some []
      /\ BNC_NBYTESINBUF (tree_node (snd (fst (fst SampleFlush.moved)))) 0 = Some 0
      /\ exists child',
           kid (snd (fst (fst SampleFlush.moved))) 0 = Some child'
           /\ BNC_BUFFER (tree_node child') 0
              = Some [ SampleReplay.insert 4 "apple" "1"; SampleReplay.insert 5 "berry" "2" ]).
Proof.
  split.
  - destruct (flush_this_child_empties_buffer (H := Sample.collaborators) 6
                SampleFlush.handle SampleFlush.tree 0 true true [] infinite_bounds
                (fst (fst (fst SampleFlush.flushed))) (snd (fst (fst SampleFlush.flushed)))
                (snd (fst SampleFlush.flushed)) (snd SampleFlush.flushed) SampleFlush.waiting)
      as (W1 & W2 & _); [vm_compute; reflexivity ..|].
    split; [exact W1 | exact W2].
  - destruct (flush_this_child_empties_buffer (H := Sample.collaborators) 6
                SampleFlush.handle SampleFlush.top 0 false false [] infinite_bounds
                (fst (fst (fst SampleFlush.moved))) (snd (fst (fst SampleFlush.moved)))
                (snd (fst SampleFlush.moved)) (snd SampleFlush.moved)
                (SampleReplay.childinfo
                   [ SampleReplay.insert 4 "apple" "1"; SampleReplay.insert 5 "berry" "2" ]))
      as (W1 & W2 & child & pinned & bfe & child' & Hk & Hget & Hk' & _ & Hnonleaf);
      [vm_compute; reflexivity ..|].
    split; [exact W1|]. split; [exact W2|].
    exists child'. split; [exact Hk'|].
    vm_compute in Hk. injection Hk as <-.
    vm_compute in Hget. injection Hget as <- <-.
    destruct Hnonleaf as (mid & _ & Hall & Hsame); [reflexivity|].
    destruct Hsame as [-> _]; [left; reflexivity|].
    rewrite (Hall 0). vm_compute. reflexivity.
Defined.

(** ** The estimates that a parent keeps of a child *)

Section ChildEstimates.

Lemma add_child_estimate_Ok h e p e' :
  add_child_estimate h (Ok e) p = Ok e' ->
  nkeys e' = u64 (nkeys e + nkeys (bp_subtree_est p))
  /\ ndata e' = u64 (ndata e + ndata (bp_subtree_est p))
  /\ dsize e' = u64 (dsize e + dsize (bp_subtree_est p))
  /\ (exact e' = true ->
      exact e = true /\ exact (bp_subtree_est p) = true
      /\ (0 < h -> bp_state p = PT_AVAIL
                   /\ exists ci, bp_ptr_of p = ptr_childinfo ci /\ bnc_buffer ci = [])).
Proof.
  unfold add_child_estimate. simpl. intros Hrun.
  assert (Hfin :
             (0 < h -> bp_state p = PT_AVAIL
                       /\ exists ci, bp_ptr_of p = ptr_childinfo ci /\ bnc_buffer ci = []) ->
             exact e && exact (bp_subtree_est p) = true ->
             exact e = true /\ exact (bp_subtree_est p) = true
             /\ (0 < h -> bp_state p = PT_AVAIL
                          /\ exists ci, bp_ptr_of p = ptr_childinfo ci
                                        /\ bnc_buffer ci = [])).
  { intros Hh He. apply andb_prop in He as [? ?]. auto. }
  destruct (0 <? h) eqn:Hh.
  - unfold partition_avail in Hrun. case_bool_decide as Hst; simpl in Hrun.
    + destruct (bp_ptr_of p) as [| |ci|] eqn:Hptr; try discriminate.
      destruct (Z.eqb_spec (Z.of_nat (length (bnc_buffer ci))) 0) as [Hz|Hnz];
        simpl in Hrun; simplify_eq; simpl;
        (split; [reflexivity|split; [reflexivity|split; [reflexivity|]]]);
        [|discriminate].
      apply Hfin. intros _. split; [exact Hst|].
      exists ci. split; [reflexivity|]. destruct (bnc_buffer ci); [reflexivity|].
      simpl in Hz. lia.
    + simplify_eq. simpl.
      split; [reflexivity|split; [reflexivity|split; [reflexivity|discriminate]]].
  - simplify_eq. simpl. apply Z.ltb_ge in Hh.
    split; [reflexivity|split; [reflexivity|split; [reflexivity|]]].
    apply Hfin. intros. lia.
Qed.

Lemma add_child_estimate_Abort h f p : add_child_estimate h (Abort f) p = Abort f.
Proof. reflexivity. Qed.

Lemma fold_add_child_estimate h ps :
  forall e e',
    nkeys e = u64 (nkeys e) -> ndata e = u64 (ndata e) -> dsize e = u64 (dsize e) ->
    fold_left (add_child_estimate h) ps (Ok e) = Ok e' ->
    nkeys e' = u64 (nkeys e + foldr (fun p acc => nkeys (bp_subtree_est p) + acc) 0 ps)
    /\ ndata e' = u64 (ndata e + foldr (fun p acc => ndata (bp_subtree_est p) + acc) 0 ps)
    /\ dsize e' = u64 (dsize e + foldr (fun p acc => dsize (bp_subtree_est p) + acc) 0 ps)
    /\ (exact e' = true ->
        exact e = true
        /\ Forall (fun p => exact (bp_subtree_est p) = true
                     /\ (0 < h -> bp_state p = PT_AVAIL
                                  /\ exists ci, bp_ptr_of p = ptr_childinfo ci
                                                /\ bnc_buffer ci = [])) ps).
Proof.
  induction ps as [|p ps IH]; intros e e' Rn Rd Rs Hrun; cbn [fold_left] in Hrun.
  - simplify_eq. simpl. rewrite !Z.add_0_r.
    split; [exact Rn|]. split; [exact Rd|]. split; [exact Rs|].
    intros He. split; [exact He|constructor].
  - destruct (add_child_estimate h (Ok e) p) as [e1|f] eqn:Hone.
    + destruct (add_child_estimate_Ok _ _ _ _ Hone) as (Hn & Hd & Hs & Hx).
      destruct (IH e1 e') as (In & Id & Is & Ix); try assumption;
        try (rewrite Hn || rewrite Hd || rewrite Hs; symmetry; apply u64_id, u64_range).
      simpl. rewrite In, Id, Is, Hn, Hd, Hs, !u64_add_idemp.
      split; [f_equal; lia|]. split; [f_equal; lia|]. split; [f_equal; lia|].
      intros He. destruct (Ix He) as [He1 F]. destruct (Hx He1) as (He0 & Hp).
      split; [exact He0|]. constructor; [exact Hp|exact F].
    + exfalso. clear -Hrun.
      induction ps as [|q ps IH]; cbn [fold_left] in Hrun; [discriminate|auto].
Qed.

End ChildEstimates.

(** X25: [fixup_child_estimates] stores in the parent's slot the 64-bit
    sums of the estimates of the child's partitions, and touches no
    other slot.  The stored estimates are marked exact only if every
    estimate of the child is exact and, for a nonleaf child, every
    partition of the child is in memory with an empty buffer.  The
    parent is marked dirty when [dirty_it] is set. *)
Theorem fixup_child_estimates_sums (node : BRTNODE) (childnum : Z)
    (child : BRTNODE) (dirty_it : bool) (node' : BRTNODE) :
  fixup_child_estimates node childnum child dirty_it = Ok node' ->
  exists p est,
    BP node childnum = Some p
    /\ BP node' childnum = Some (bp_set_est p est)
    /\ nkeys est = u64 (estimate_total nkeys child)
    /\ ndata est = u64 (estimate_total ndata child)
    /\ dsize est = u64 (estimate_total dsize child)
    /\ (exact est = true ->
        Forall (fun q => exact (bp_subtree_est q) = true
                  /\ (0 < height child ->
                      bp_state q = PT_AVAIL
                      /\ exists ci, bp_ptr_of q = ptr_childinfo ci /\ bnc_buffer ci = []))
               (bp child))
    /\ (forall j, j <> childnum -> BP node' j = BP node j)
    /\ dirty node' = dirty_it || dirty node.
Proof.
  unfold fixup_child_estimates. intros Hrun. run_all.
  match goal with Hf : fold_left _ _ _ = Ok ?e |- _ =>
    apply fold_add_child_estimate in Hf as (Hn & Hd & Hs & Hx); try reflexivity;
    rename e into est end.
  match goal with Hp : BP node childnum = Some ?q |- _ => rename Hp into Hbp; rename q into p end.
  match goal with Hs : node_set_partition _ _ _ = Ok ?n |- _ =>
    rename Hs into Hset; rename n into node1 end.
  exists p, est. split; [exact Hbp|].
  assert (Hat : BP node1 childnum = Some (bp_set_est p est)).
  { unfold node_set_partition in Hset. run_all. simplify_eq.
    apply andb_prop in Hensure as [Hlo Hhi]. apply Z.leb_le in Hlo. apply Z.ltb_lt in Hhi.
    unfold BP. simpl. rewrite (proj2 (Z.ltb_ge _ _) Hlo).
    apply list_lookup_insert_eq. unfold n_children in Hhi. lia. }
  assert (Hother : forall j, j <> childnum -> BP node1 j = BP node j)
    by (intros j Hj; eapply BP_other_set; eauto).
  assert (Hdirty : dirty node1 = dirty node)
    by (unfold node_set_partition in Hset; run_all; now simplify_eq).
  simplify_eq. simpl in Hn, Hd, Hs.
  split; [destruct dirty_it; exact Hat|].
  split; [exact Hn|]. split; [exact Hd|]. split; [exact Hs|].
  split; [intros He; now destruct (Hx He)|].
  split; [destruct dirty_it; exact Hother|].
  destruct dirty_it; simpl; [reflexivity|exact Hdirty].
Qed.

Lemma fixup_child_estimates_sums_witness :
  exists p est,
    BP (SampleMerge.parent_of 100) 0 = Some p
    /\ BP SampleEstimates.fixed 0 = Some (bp_set_est p est)
    /\ ndata est = 2
    /\ dirty SampleEstimates.fixed = true.
Proof.
  destruct (fixup_child_estimates_sums (SampleMerge.parent_of 100) 0 SampleMerge.full_b true SampleEstimates.fixed)
    as (p & est & W1 & W2 & _ & W4 & _ & _ & _ & W8); [vm_compute; reflexivity|].
  exists p, est. split; [exact W1|]. split; [exact W2|]. split; [exact W4|exact W8].
Defined.
